(** * GeometryFilters: a shallow embedding of Source/Core/GeometryFilters.js

  The mesh filters of [GeometryFilters] are translated function by
  function.  JavaScript arrays are finite maps from integer keys to
  elements together with a [length]; objects used as tables are finite
  maps or association lists (when the [for ... in] order matters);
  [throw] is an error result. *)

From stdpp Require Import gmap strings list fin_maps.
From Stdlib Require Import ZArith Lia.

Open Scope Z_scope.

(** ** Exceptions *)

Inductive error :=
  | DeveloperError (message : string)
  | RuntimeError (message : string)
  | TypeError.

Inductive result (A : Type) :=
  | Ok (a : A)
  | Throw (e : error).
Arguments Ok {A} _.
Arguments Throw {A} _.

Global Instance result_ret : MRet result := λ A a, Ok a.
Global Instance result_bind : MBind result := λ A B k r,
  match r with
  | Ok a => k a
  | Throw e => Throw e
  end.

(** A loop body run over the successive values of the loop variable; the
    first [throw] leaves the loop. *)
Fixpoint foldM {A S} (body : S → A → result S) (s : S) (l : list A) : result S :=
  match l with
  | [] => Ok s
  | x :: l' => s' ← body s x; foldM body s' l'
  end.

(** [rounds] values from [start] on, [step] apart. *)
Fixpoint count_from (rounds : nat) (start step : Z) : list Z :=
  match rounds with
  | O => []
  | S rounds => start :: count_from rounds (start + step) step
  end.

(** The values taken by [i] in [for (i = start; i < stop; i += step)],
    for a positive [step]. *)
Definition for_range (start stop step : Z) : list Z :=
  count_from (Z.to_nat ((stop - start + step - 1) `div` step)) start step.

(** ** JavaScript arrays

    [arr_props] holds the integer-keyed properties (negative keys are
    ordinary properties that do not count towards [length]); a missing key
    reads as [undefined], written [None].  Assigning [undefined] to a key
    is modelled by removing it: the source only ever reads arrays through
    [a[k]] and [a.length], which cannot tell the two apart.  Keys are
    integers below 2^32 - 1, the range of array indices. *)

Record jsarray (A : Type) := JsArray {
  arr_len : N;
  arr_props : gmap Z A
}.
Arguments JsArray {A} _ _.
Arguments arr_len {A} _.
Arguments arr_props {A} _.

Section JsArray.
Context {A : Type}.

(** [a.length] *)
Definition arr_length (a : jsarray A) : Z := Z.of_N (arr_len a).

(** [[]] *)
Definition arr_empty : jsarray A := JsArray 0 ∅.

(** [new Array(n)] *)
Definition arr_new (n : Z) : jsarray A := JsArray (Z.to_N n) ∅.

(** [a[k]] *)
Definition arr_get (a : jsarray A) (k : Z) : option A := arr_props a !! k.

(** [a[k]] where the key itself may be [undefined] *)
Definition arr_get_at (a : jsarray A) (k : option Z) : option A :=
  k ≫= arr_get a.

(** [a[k] = v] *)
Definition arr_set (a : jsarray A) (k : Z) (v : option A) : jsarray A :=
  JsArray (if decide (0 ≤ k) then N.max (arr_len a) (Z.to_N (k + 1)) else arr_len a)
          (match v with
           | Some x => <[k:=x]> (arr_props a)
           | None => delete k (arr_props a)
           end).

(** [a.push(v)] *)
Definition arr_push (a : jsarray A) (v : option A) : jsarray A :=
  arr_set a (arr_length a) v.

(** The elements [a[0] .. a[length-1]] in order. *)
Definition arr_to_list (a : jsarray A) : list (option A) :=
  arr_get a <$> for_range 0 (arr_length a) 1.

(** The array literal [[x0, x1, ...]]. *)
Definition arr_of_list (l : list A) : jsarray A :=
  JsArray (N.of_nat (length l))
          (list_to_map (zip (for_range 0 (Z.of_nat (length l)) 1) l)).

End JsArray.

(** A typed array ([Uint16Array], [Uint32Array], ...) of [n] elements:
    fixed length, every element initially [zero]. *)
Definition typed_new {A} (n : Z) (zero : A) : jsarray A :=
  JsArray (Z.to_N n) (list_to_map ((λ k, (k, zero)) <$> for_range 0 n 1)).

(** [a[k] = v] on a typed array: the value is converted to the element
    type by [conv]; a store outside [0 .. length-1] is ignored. *)
Definition typed_set {A} (conv : option A → A) (a : jsarray A) (k : Z) (v : option A)
    : jsarray A :=
  if decide (0 ≤ k < arr_length a) then arr_set a k (Some (conv v)) else a.

(** The conversions applied by a store into [Uint16Array] and
    [Uint32Array]: reduction modulo 2^16 and 2^32; [undefined] (and the
    [NaN] that arithmetic on it yields) is stored as 0. *)
Definition ToUint16 (v : option Z) : Z :=
  match v with
  | Some x => x `mod` 65536
  | None => 0
  end.

Definition ToUint32 (v : option Z) : Z :=
  match v with
  | Some x => x `mod` 4294967296
  | None => 0
  end.

(** ** Data model *)

(** Modelled from the spec: PrimitiveType.js is not among the sources.  The
    spec gives [enum{TRIANGLES, TRIANGLE_STRIP, TRIANGLE_FAN, LINES, ...}];
    the other members are the remaining drawing modes. *)
Inductive PrimitiveType :=
  | POINTS
  | LINES
  | LINE_LOOP
  | LINE_STRIP
  | TRIANGLES
  | TRIANGLE_STRIP
  | TRIANGLE_FAN.

Global Instance PrimitiveType_eq_dec : EqDecision PrimitiveType.
Proof. solve_decision. Defined.

(** The types owned by the collaborators of this module (the vector and
    matrix library, ComponentDatatype): the numbers stored in attribute
    buffers with the literals [0.0] and [1.0], the component datatypes
    (compared by identity), and the matrices. *)
Class ExternalTypes := {
  number : Type;
  num_zero : number;
  num_one : number;
  ComponentDatatype : Type;
  ComponentDatatype_eq_dec :: EqDecision ComponentDatatype;
  FLOAT : ComponentDatatype;
  Matrix3 : Type;
  Matrix4 : Type
}.

Section DataModel.
Context `{ExternalTypes}.

(** A [GeometryAttribute].  [values] is [None] when the attribute object
    has no (truthy) [values] field. *)
Record GeometryAttribute := {
  componentDatatype : ComponentDatatype;
  componentsPerAttribute : Z;
  normalize : bool;
  values : option (jsarray number)
}.

(** A [Cartesian3] object; a field may hold [undefined]. *)
Record Cartesian3 := {
  x : option number;
  y : option number;
  z : option number
}.

Record BoundingSphere := {
  center : Cartesian3;
  radius : option number
}.

(** The [attributes] object, as the list of its own properties in
    [for ... in] order. *)
Abbreviation Attributes := (list (string * GeometryAttribute)).

Record Geometry := {
  attributes : Attributes;
  indexList : option (jsarray Z);
  primitiveType : PrimitiveType;
  boundingSphere : option BoundingSphere
}.

Record GeometryInstance := {
  geometry : Geometry;
  modelMatrix : Matrix4
}.

(** [attributes[name]] *)
Fixpoint attr_lookup (name : string) (attrs : Attributes) : option GeometryAttribute :=
  match attrs with
  | [] => None
  | (n, a) :: rest => if decide (n = name) then Some a else attr_lookup name rest
  end.

(** [attributes[name] = a]: an existing property keeps its place, a new
    one is added last. *)
Fixpoint attr_store (name : string) (a : GeometryAttribute) (attrs : Attributes) : Attributes :=
  match attrs with
  | [] => [(name, a)]
  | (n, b) :: rest =>
      if decide (n = name) then (n, a) :: rest else (n, b) :: attr_store name a rest
  end.

Definition with_values (a : GeometryAttribute) (vs : option (jsarray number)) : GeometryAttribute :=
  {| componentDatatype := componentDatatype a;
     componentsPerAttribute := componentsPerAttribute a;
     normalize := normalize a;
     values := vs |}.

Definition with_indexList (g : Geometry) (il : option (jsarray Z)) (pt : PrimitiveType) : Geometry :=
  {| attributes := attributes g;
     indexList := il;
     primitiveType := pt;
     boundingSphere := boundingSphere g |}.

Definition with_attributes (g : Geometry) (attrs : Attributes) : Geometry :=
  {| attributes := attrs;
     indexList := indexList g;
     primitiveType := primitiveType g;
     boundingSphere := boundingSphere g |}.

End DataModel.

Abbreviation Attributes := (list (string * GeometryAttribute)).

(** The operations of the collaborators that the filters call.  None of
    them is defined in this module; the filters are verified for every
    implementation.  [typedArrayStore] is the conversion applied by a
    store into the array made by [componentDatatype.createTypedArray];
    [Matrix4_inverse] may throw. *)
Class ExternalOps `{ExternalTypes} := {
  typedArrayStore : ComponentDatatype → option number → number;
  Matrix4_IDENTITY : Matrix4;
  Matrix4_equals : Matrix4 → Matrix4 → bool;
  Matrix4_clone : Matrix4 → Matrix4;
  Matrix4_multiplyByPoint : Matrix4 → Cartesian3 → Cartesian3;
  Matrix4_inverse : Matrix4 → result Matrix4;
  Matrix4_transpose : Matrix4 → Matrix4;
  Matrix4_getRotation : Matrix4 → Matrix3;
  Matrix3_multiplyByVector : Matrix3 → Cartesian3 → Cartesian3;
  Cartesian3_ZERO : Cartesian3;
  Cartesian3_fromArray : jsarray number → Z → Cartesian3;
  Cartesian3_fromCartesian4 : Cartesian3 → Cartesian3;
  Cartesian3_add : Cartesian3 → Cartesian3 → Cartesian3;
  Cartesian3_subtract : Cartesian3 → Cartesian3 → Cartesian3;
  Cartesian3_cross : Cartesian3 → Cartesian3 → Cartesian3;
  Cartesian3_normalize : Cartesian3 → Cartesian3;
  BoundingSphere_clone : BoundingSphere → BoundingSphere;
  BoundingSphere_union : BoundingSphere → BoundingSphere → BoundingSphere
}.

Section Filters.
Context `{ExternalOps}.

(** Modelled from the spec: Geometry.computeNumberOfVertices is not among
    the sources.  Section 3 of the spec: [values.length /
    componentsPerAttribute] is an attribute's vertex count and every
    attribute present has the same vertex count; the callers document
    "All mesh attribute lists must have the same number of attributes" as
    a DeveloperError.  Attributes without [values] are skipped as in the
    callers; a mesh without any attribute has no vertex.  The division is
    the exact one whenever [componentsPerAttribute] is positive and
    divides the length (the attribute invariant of the spec). *)
Definition vertexCountStep (seen : option Z) (p : string * GeometryAttribute)
    : result (option Z) :=
  match values p.2 with
  | None => Ok seen
  | Some vs =>
      let count := arr_length vs `div` componentsPerAttribute p.2 in
      match seen with
      | Some n =>
          if decide (n = count) then Ok (Some count)
          else Throw (DeveloperError
                 "All mesh attribute lists must have the same number of attributes.")
      | None => Ok (Some count)
      end
  end.

Definition computeNumberOfVertices (mesh : Geometry) : result Z :=
  n ← foldM vertexCountStep None (attributes mesh);
  Ok (default 0 n).

(** ** toWireframe *)

Definition addTriangle (lines : jsarray Z) (i0 i1 i2 : option Z) : jsarray Z :=
  let lines := arr_push lines i0 in
  let lines := arr_push lines i1 in
  let lines := arr_push lines i1 in
  let lines := arr_push lines i2 in
  let lines := arr_push lines i2 in
  arr_push lines i0.

Definition trianglesToLines (triangles : jsarray Z) : jsarray Z :=
  let count := arr_length triangles in
  foldl (λ lines i,
           addTriangle lines (arr_get triangles i) (arr_get triangles (i + 1))
                       (arr_get triangles (i + 2)))
        arr_empty (for_range 0 count 3).

Definition triangleStripToLines (triangles : jsarray Z) : jsarray Z :=
  let count := arr_length triangles in
  if decide (count >= 3) then
    let lines := addTriangle arr_empty (arr_get triangles 0) (arr_get triangles 1)
                             (arr_get triangles 2) in
    foldl (λ lines i,
             addTriangle lines (arr_get triangles (i - 1)) (arr_get triangles i)
                         (arr_get triangles (i - 2)))
          lines (for_range 3 count 1)
  else arr_empty.

Definition triangleFanToLines (triangles : jsarray Z) : jsarray Z :=
  if decide (arr_length triangles > 0) then
    let base := arr_get triangles 0 in
    let count := arr_length triangles - 1 in
    foldl (λ lines i,
             addTriangle lines base (arr_get triangles i) (arr_get triangles (i + 1)))
          arr_empty (for_range 1 count 1)
  else arr_empty.

(** The argument is [None] when the caller passes [undefined]; the mesh
    is modified in place and returned, so the result is its new state. *)
Definition toWireframe (mesh : option Geometry) : option Geometry :=
  match mesh with
  | Some mesh =>
      match indexList mesh with
      | Some indices =>
          let indices' :=
            match primitiveType mesh with
            | TRIANGLES => trianglesToLines indices
            | TRIANGLE_STRIP => triangleStripToLines indices
            | TRIANGLE_FAN => triangleFanToLines indices
            | _ => indices
            end in
          Some (with_indexList mesh (Some indices') LINES)
      | None => Some mesh
      end
  | None => None
  end.

(** ** mapAttributeIndices

    [indices] is only read by name (its own properties; what a name could
    inherit from [Object.prototype] is left out); [map] is iterated, so it
    is the list of its own properties in [for ... in] order.  In the
    returned object a key bound to [None] is an own property whose value
    is [undefined]. *)
Definition mapAttributeIndices (indices : option (gmap string Z))
    (map : option (list (string * Z))) : gmap Z (option Z) :=
  match indices, map with
  | Some indices, Some map =>
      foldl (λ (mappedIndices : gmap Z (option Z)) (p : string * Z),
               <[p.2 := indices !! p.1]> mappedIndices)
            ∅ map
  | _, _ => ∅
  end.

(** ** reorderForPreVertexCache *)

(** The first loop: [indexCrossReferenceOldToNew[i] = -1] for every vertex. *)
Definition initCrossReference (numVertices : Z) : jsarray Z :=
  foldl (λ xref i, arr_set xref i (Some (-1))) arr_empty (for_range 0 numVertices 1).

(** The state of the index loop: [indexCrossReferenceOldToNew],
    [indicesOut] and [nextIndex].  [intoIndicesIn] and [intoIndicesOut]
    advance together and are the loop variable [into]. *)
Definition reorderIndexStep (numVertices : Z) (indicesIn : jsarray Z)
    (st : jsarray Z * jsarray Z * Z) (into : Z) : result (jsarray Z * jsarray Z * Z) :=
  let '(xref, indicesOut, nextIndex) := st in
  let tempIndex := arr_get_at xref (arr_get indicesIn into) in
  if decide (tempIndex ≠ Some (-1)) then
    Ok (xref, arr_set indicesOut into tempIndex, nextIndex)
  else
    match arr_get indicesIn into with
    | Some tempIndex =>
        if decide (tempIndex >= numVertices) then
          Throw (DeveloperError
            "Input indices contains a value greater than or equal to the number of vertices")
        else
          Ok (arr_set xref tempIndex (Some nextIndex),
              arr_set indicesOut into (Some nextIndex),
              nextIndex + 1)
    | None =>
        (* [undefined >= numVertices] is false and [xref[undefined]] is not
           an integer key *)
        Ok (xref, arr_set indicesOut into (Some nextIndex), nextIndex + 1)
    end.

Definition reorderIndices (numVertices : Z) (xref : jsarray Z) (indicesIn : jsarray Z)
    : result (jsarray Z * jsarray Z * Z) :=
  let numIndices := arr_length indicesIn in
  foldM (reorderIndexStep numVertices indicesIn) (xref, arr_empty, 0)
        (for_range 0 numIndices 1).

(** The body of the vertex loop for one attribute: the block of vertex
    [intoElementsIn] is copied to slot [temp].  With [temp] undefined the
    key [numComponents * temp + i] is [NaN], not an integer key. *)
Definition reorderVertexStep (xref : jsarray Z) (numComponents : Z) (elementsIn : jsarray number)
    (elementsOut : jsarray number) (intoElementsIn : Z) : jsarray number :=
  match arr_get xref intoElementsIn with
  | Some temp =>
      foldl (λ elementsOut i,
               arr_set elementsOut (numComponents * temp + i)
                       (arr_get elementsIn (numComponents * intoElementsIn + i)))
            elementsOut (for_range 0 numComponents 1)
  | None => elementsOut
  end.

Definition reorderAttribute (numVertices : Z) (xref : jsarray Z) (attr : GeometryAttribute)
    : GeometryAttribute :=
  match values attr with
  | Some elementsIn =>
      let numComponents := componentsPerAttribute attr in
      let elementsOut :=
        foldl (reorderVertexStep xref numComponents elementsIn) arr_empty
              (for_range 0 numVertices 1) in
      with_values attr (Some elementsOut)
  | None => attr
  end.

Definition reorderForPreVertexCache (mesh : option Geometry) : result (option Geometry) :=
  match mesh with
  | Some mesh =>
      numVertices ← computeNumberOfVertices mesh;
      let indexCrossReferenceOldToNew := initCrossReference numVertices in
      '(indexCrossReferenceOldToNew, indexList') ←
        match indexList mesh with
        | Some indexList =>
            '(xref, indicesOut, _) ←
              reorderIndices numVertices indexCrossReferenceOldToNew indexList;
            Ok (xref, Some indicesOut)
        | None => Ok (indexCrossReferenceOldToNew, None)
        end;
      let attributes' :=
        (λ p : string * GeometryAttribute,
           (p.1, reorderAttribute numVertices indexCrossReferenceOldToNew p.2))
          <$> attributes mesh in
      Ok (Some {| attributes := attributes';
                  indexList := indexList';
                  primitiveType := primitiveType mesh;
                  boundingSphere := boundingSphere mesh |})
  | None => Ok None
  end.

(** ** fitToUnsignedShortIndices *)

Definition _copyAttributesDescriptions (attributes : Attributes) : Attributes :=
  omap (λ p : string * GeometryAttribute,
          match values p.2 with
          | Some _ => Some (p.1, with_values p.2 (Some arr_empty))
          | None => None
          end) attributes.

(** [destinationAttributes[attribute].values.push(v)] *)
Definition pushValue (destinationAttributes : Attributes) (attribute : string)
    (v : option number) : result Attributes :=
  match attr_lookup attribute destinationAttributes with
  | Some dest =>
      match values dest with
      | Some vs =>
          Ok (attr_store attribute (with_values dest (Some (arr_push vs v)))
                         destinationAttributes)
      | None => Throw TypeError
      end
  | None => Throw TypeError
  end.

(** [index] is an element read from the index list, [None] when that
    read gave [undefined] (then [index * componentsPerAttribute + k] is
    [NaN] and the read from [values] gives [undefined]). *)
Definition copyVertex (destinationAttributes sourceAttributes : Attributes)
    (index : option Z) : result Attributes :=
  foldM (λ dest (p : string * GeometryAttribute),
           match values p.2 with
           | Some vs =>
               foldM (λ dest k,
                        pushValue dest p.1
                          (i ← index; arr_get vs (i * componentsPerAttribute p.2 + k)))
                     dest (for_range 0 (componentsPerAttribute p.2) 1)
           | None => Ok dest
           end)
        destinationAttributes sourceAttributes.

Definition createMesh (attributes : Attributes) (primitiveType : PrimitiveType)
    (indices : jsarray Z) : Geometry :=
  {| attributes := attributes;
     indexList := Some indices;
     primitiveType := primitiveType;
     boundingSphere := None |}.

Definition sixtyFourK : Z := 64 * 1024.

(** The state of the triangle loop.  [oldToNewIndex] is a sparse table
    keyed by the old index; the key [None] is the property read and
    written when the old index itself is [undefined].  Each sealed
    Geometry is recorded together with the [oldToNewIndex] table it was
    built with: the table is not part of what the function returns, it is
    kept to state how a chunk maps back to the original indices. *)
Record FitState := {
  oldToNewIndex : gmap (option Z) Z;
  newIndices : jsarray Z;
  currentIndex : Z;
  newAttributes : Attributes;
  geometries : list (Geometry * gmap (option Z) Z)
}.

(** [i = oldToNewIndex[x]; if (typeof i === 'undefined') { i = currentIndex++; ... }] *)
Definition fitVertex (mesh : Geometry) (st : FitState) (x : option Z) : result (FitState * Z) :=
  match oldToNewIndex st !! x with
  | Some i => Ok (st, i)
  | None =>
      let i := currentIndex st in
      attrs ← copyVertex (newAttributes st) (attributes mesh) x;
      Ok ({| oldToNewIndex := <[x := i]> (oldToNewIndex st);
             newIndices := newIndices st;
             currentIndex := currentIndex st + 1;
             newAttributes := attrs;
             geometries := geometries st |}, i)
  end.

Definition fitTriangle (mesh : Geometry) (originalIndices : jsarray Z)
    (st : FitState) (j : Z) : result FitState :=
  let x0 := arr_get originalIndices j in
  let x1 := arr_get originalIndices (j + 1) in
  let x2 := arr_get originalIndices (j + 2) in
  '(st, i0) ← fitVertex mesh st x0;
  '(st, i1) ← fitVertex mesh st x1;
  '(st, i2) ← fitVertex mesh st x2;
  let newIndices' :=
    arr_push (arr_push (arr_push (newIndices st) (Some i0)) (Some i1)) (Some i2) in
  if decide (currentIndex st + 3 > sixtyFourK) then
    Ok {| oldToNewIndex := ∅;
          newIndices := arr_empty;
          currentIndex := 0;
          newAttributes := _copyAttributesDescriptions (attributes mesh);
          geometries :=
            geometries st ++
              [(createMesh (newAttributes st) (primitiveType mesh) newIndices',
                oldToNewIndex st)] |}
  else
    Ok {| oldToNewIndex := oldToNewIndex st;
          newIndices := newIndices';
          currentIndex := currentIndex st;
          newAttributes := newAttributes st;
          geometries := geometries st |}.

(** The Geometries returned, each with the table that produced it. *)
Definition fitChunks (mesh : option Geometry)
    : result (list (Geometry * gmap (option Z) Z)) :=
  match mesh with
  | Some mesh =>
      if decide (primitiveType mesh ≠ TRIANGLES) then
        Throw (DeveloperError "mesh.primitiveType must equal to PrimitiveType.TRIANGLES.")
      else
        numberOfVertices ← computeNumberOfVertices mesh;
        match indexList mesh with
        | Some originalIndices =>
            if decide (numberOfVertices > sixtyFourK) then
              let numberOfIndices := arr_length originalIndices in
              st ← foldM (fitTriangle mesh originalIndices)
                     {| oldToNewIndex := ∅;
                        newIndices := arr_empty;
                        currentIndex := 0;
                        newAttributes := _copyAttributesDescriptions (attributes mesh);
                        geometries := [] |}
                     (for_range 0 numberOfIndices 3);
              if decide (arr_length (newIndices st) ≠ 0) then
                Ok (geometries st ++
                      [(createMesh (newAttributes st) (primitiveType mesh) (newIndices st),
                        oldToNewIndex st)])
              else Ok (geometries st)
            else Ok [(mesh, ∅)]
        | None => Ok [(mesh, ∅)]
        end
  | None => Ok []
  end.

Definition fitToUnsignedShortIndices (mesh : option Geometry) : result (list Geometry) :=
  chunks ← fitChunks mesh; Ok (chunks.*1).

(** ** transformToWorldCoordinates *)

Definition transformPoint (matrix : Matrix4) (attribute : option GeometryAttribute)
    : result (option GeometryAttribute) :=
  match attribute with
  | Some attribute =>
      match values attribute with
      | Some values =>
          let length := arr_length values in
          let values' :=
            foldl (λ values i,
                     let scratch := Cartesian3_fromArray values i in
                     let scratch := Matrix4_multiplyByPoint matrix scratch in
                     let values := arr_set values i (x scratch) in
                     let values := arr_set values (i + 1) (y scratch) in
                     arr_set values (i + 2) (z scratch))
                  values (for_range 0 length 3) in
          Ok (Some (with_values attribute (Some values')))
      | None => Throw TypeError
      end
  | None => Ok None
  end.

Definition transformVector (matrix : Matrix3) (attribute : option GeometryAttribute)
    : result (option GeometryAttribute) :=
  match attribute with
  | Some attribute =>
      match values attribute with
      | Some values =>
          let length := arr_length values in
          let values' :=
            foldl (λ values i,
                     let scratch := Cartesian3_fromArray values i in
                     let scratch := Matrix3_multiplyByVector matrix scratch in
                     let values := arr_set values i (x scratch) in
                     let values := arr_set values (i + 1) (y scratch) in
                     arr_set values (i + 2) (z scratch))
                  values (for_range 0 length 3) in
          Ok (Some (with_values attribute (Some values')))
      | None => Throw TypeError
      end
  | None => Ok None
  end.

(** A transform applied to [attributes[name]]; the attribute object is
    modified in place, so the table keeps it under the same name. *)
Definition transformNamed (f : option GeometryAttribute → result (option GeometryAttribute))
    (name : string) (attributes : Attributes) : result Attributes :=
  r ← f (attr_lookup name attributes);
  match r with
  | Some a => Ok (attr_store name a attributes)
  | None => Ok attributes
  end.

(** The result is the state of the instance after the call together with
    the value returned: [None] for [undefined], [Some] for the instance
    object itself (in its final state). *)
Definition transformToWorldCoordinates (instance : option GeometryInstance)
    : result (GeometryInstance * option GeometryInstance) :=
  match instance with
  | None => Throw (DeveloperError "instance is required.")
  | Some instance =>
      let modelMatrix := modelMatrix instance in
      if Matrix4_equals modelMatrix Matrix4_IDENTITY then
        Ok (instance, None)
      else
        let attributes := attributes (geometry instance) in
        attributes ← transformNamed (transformPoint modelMatrix) "position" attributes;
        attributes ←
          (if decide (attr_lookup "normal" attributes ≠ None
                      ∨ attr_lookup "binormal" attributes ≠ None
                      ∨ attr_lookup "tangent" attributes ≠ None)
           then
             inverseTranspose ← Matrix4_inverse modelMatrix;
             let inverseTranspose := Matrix4_transpose inverseTranspose in
             let normalMatrix := Matrix4_getRotation inverseTranspose in
             attributes ← transformNamed (transformVector normalMatrix) "normal" attributes;
             attributes ← transformNamed (transformVector normalMatrix) "binormal" attributes;
             transformNamed (transformVector normalMatrix) "tangent" attributes
           else Ok attributes);
        let boundingSphere' :=
          match boundingSphere (geometry instance) with
          | Some bs =>
              Some {| center :=
                        Cartesian3_fromCartesian4
                          (Matrix4_multiplyByPoint modelMatrix (center bs));
                      radius := radius bs |}
          | None => None
          end in
        let instance' :=
          {| geometry :=
               {| attributes := attributes;
                  indexList := indexList (geometry instance);
                  primitiveType := primitiveType (geometry instance);
                  boundingSphere := boundingSphere' |};
             modelMatrix := Matrix4_clone Matrix4_IDENTITY |} in
        Ok (instance', Some instance')
  end.

(** ** combine *)

(** The inner loop of [findAttributesInAllGeometries]: [None] when the
    loop leaves through [break] with [inAllGeometries = false]. *)
Fixpoint sumComponents (name : string) (attribute : GeometryAttribute)
    (others : list GeometryInstance) (numberOfComponents : Z) : result (option Z) :=
  match others with
  | [] => Ok (Some numberOfComponents)
  | instance :: others =>
      match attr_lookup name (attributes (geometry instance)) with
      | None => Ok None
      | Some otherAttribute =>
          if decide (componentDatatype attribute ≠ componentDatatype otherAttribute
                     ∨ componentsPerAttribute attribute ≠ componentsPerAttribute otherAttribute
                     ∨ normalize attribute ≠ normalize otherAttribute)
          then Ok None
          else
            match values otherAttribute with
            | Some vs => sumComponents name attribute others (numberOfComponents + arr_length vs)
            | None => Throw TypeError
            end
      end
  end.

Definition findAttributesInAllGeometries (instances : list GeometryInstance)
    : result Attributes :=
  match instances with
  | [] => Throw TypeError
  | instance0 :: others =>
      foldM (λ (attributesInAllGeometries : Attributes) (p : string * GeometryAttribute),
               let attribute := p.2 in
               match values attribute with
               | Some vs =>
                   r ← sumComponents p.1 attribute others (arr_length vs);
                   match r with
                   | Some numberOfComponents =>
                       Ok (attr_store p.1
                             {| componentDatatype := componentDatatype attribute;
                                componentsPerAttribute := componentsPerAttribute attribute;
                                normalize := normalize attribute;
                                values := Some (typed_new numberOfComponents num_zero) |}
                             attributesInAllGeometries)
                   | None => Ok attributesInAllGeometries
                   end
               | None => Throw TypeError
               end)
            [] (attributes (geometry instance0))
  end.

(** The copy loop for one merged attribute: [values[k++] = sourceValues[j]]
    over the instances in order. *)
Definition combineValues (instances : list GeometryInstance) (name : string)
    (attribute : GeometryAttribute) : result GeometryAttribute :=
  match values attribute with
  | Some values0 =>
      r ← foldM (λ (st : jsarray number * Z) (instance : GeometryInstance),
             match attr_lookup name (attributes (geometry instance)) with
             | Some source =>
                 match values source with
                 | Some sourceValues =>
                     Ok (foldl (λ (st : jsarray number * Z) j,
                                  (typed_set (typedArrayStore (componentDatatype attribute))
                                             st.1 st.2 (arr_get sourceValues j),
                                   st.2 + 1))
                               st (for_range 0 (arr_length sourceValues) 1))
                 | None => Throw TypeError
                 end
             | None => Throw TypeError
             end)
           (values0, 0) instances;
      Ok (with_values attribute (Some r.1))
  | None => Throw TypeError
  end.

(** The state of the index loop: [destValues], its [currentOffset] and
    [offset].  The division that advances [offset] is the exact one when
    [componentsPerAttribute] is positive and divides the length. *)
Definition combineIndexStep (conv : option Z → Z) (st : jsarray Z * Z * Z)
    (instance : GeometryInstance) : result (jsarray Z * Z * Z) :=
  let '(destValues, n, offset) := st in
  match indexList (geometry instance) with
  | Some sourceValues =>
      let r :=
        foldl (λ (d : jsarray Z * Z) k,
                 (typed_set conv d.1 d.2 ((λ v, offset + v) <$> arr_get sourceValues k),
                  d.2 + 1))
              (destValues, n) (for_range 0 (arr_length sourceValues) 1) in
      offset' ←
        match attributes (geometry instance) with
        | (_, a) :: _ =>
            match values a with
            | Some vs => Ok (offset + arr_length vs `div` componentsPerAttribute a)
            | None => Throw TypeError
            end
        | [] => Ok offset
        end;
      Ok (r.1, r.2, offset')
  | None => Throw TypeError
  end.

(** The bounding-sphere loop; an instance without sphere leaves it
    through [break] with [undefined]. *)
Fixpoint combineSpheres (instances : list GeometryInstance) (acc : option BoundingSphere)
    : option BoundingSphere :=
  match instances with
  | [] => acc
  | instance :: rest =>
      match boundingSphere (geometry instance) with
      | None => None
      | Some bs =>
          combineSpheres rest
            (Some (match acc with
                   | None => BoundingSphere_clone bs
                   | Some b => BoundingSphere_union b bs
                   end))
      end
  end.

(** [numberOfIndices] has the single key [primitiveType]; it is the
    running total that key is bound to. *)
Definition countIndices (instances : list GeometryInstance) : result (option Z) :=
  foldM (λ (numberOfIndices : option Z) (instance : GeometryInstance),
           match indexList (geometry instance) with
           | Some indices =>
               match numberOfIndices with
               | Some n => Ok (Some (n + arr_length indices))
               | None => Ok (Some (arr_length indices))
               end
           | None => Throw TypeError
           end)
        None instances.

Definition combine (instances : option (list GeometryInstance)) : result Geometry :=
  match instances with
  | None | Some [] =>
      Throw (DeveloperError "instances is required and must have length greater than zero.")
  | Some [instance] => Ok (geometry instance)
  | Some ((instance0 :: others) as instances) =>
      let m := modelMatrix instance0 in
      _ ← foldM (λ (_ : unit) (instance : GeometryInstance),
             if Matrix4_equals (modelMatrix instance) m then Ok ()
             else Throw (DeveloperError "All instances must have the same modelMatrix."))
           () others;
      attributes ← findAttributesInAllGeometries instances;
      attributes ←
        foldM (λ (acc : Attributes) (p : string * GeometryAttribute),
                 a ← combineValues instances p.1 p.2;
                 Ok (attr_store p.1 a acc))
              attributes attributes;
      let primitiveType := primitiveType (geometry instance0) in
      numberOfIndices ← countIndices instances;
      let num := default 0 numberOfIndices in
      let conv := if decide (num < 60 * 1024) then ToUint16 else ToUint32 in
      let combinedIndexList := typed_new num 0 in
      r ← foldM (combineIndexStep conv) (combinedIndexList, 0, 0) instances;
      let boundingSphere := combineSpheres instances None in
      Ok {| attributes := attributes;
            indexList := Some r.1.1;
            primitiveType := primitiveType;
            boundingSphere := boundingSphere |}
  end.

(** ** computeNormal *)

(** An element of [normalsPerVertex]. *)
Record VertexNormalData := {
  indexOffset : Z;
  count : Z;
  currentCount : Z
}.

(** [vertices[i3 + k]] with [i3 = i * 3]; [i] is [None] when the index
    read was [undefined] (the key is then [NaN]). *)
Definition vertexComponent (vertices : jsarray number) (i : option Z) (k : Z)
    : option number :=
  i ← i; arr_get vertices (i * 3 + k).

(** [normalsPerVertex[i].count++] *)
Definition incrementCount (normalsPerVertex : jsarray VertexNormalData) (i : option Z)
    : result (jsarray VertexNormalData) :=
  match arr_get_at normalsPerVertex i, i with
  | Some d, Some i =>
      Ok (arr_set normalsPerVertex i
            (Some {| indexOffset := indexOffset d;
                     count := count d + 1;
                     currentCount := currentCount d |}))
  | _, _ => Throw TypeError
  end.

(** The first triangle loop; the state is [normalsPerVertex],
    [normalsPerTriangle] and [j]. *)
Definition faceNormalStep (vertices : jsarray number) (indices : jsarray Z)
    (st : jsarray VertexNormalData * jsarray Cartesian3 * Z) (i : Z)
    : result (jsarray VertexNormalData * jsarray Cartesian3 * Z) :=
  let '(normalsPerVertex, normalsPerTriangle, j) := st in
  let i0 := arr_get indices i in
  let i1 := arr_get indices (i + 1) in
  let i2 := arr_get indices (i + 2) in
  let v0 := {| x := vertexComponent vertices i0 0;
               y := vertexComponent vertices i0 1;
               z := vertexComponent vertices i0 2 |} in
  let v1 := {| x := vertexComponent vertices i1 0;
               y := vertexComponent vertices i1 1;
               z := vertexComponent vertices i1 2 |} in
  let v2 := {| x := vertexComponent vertices i2 0;
               y := vertexComponent vertices i2 1;
               z := vertexComponent vertices i2 2 |} in
  normalsPerVertex ← incrementCount normalsPerVertex i0;
  normalsPerVertex ← incrementCount normalsPerVertex i1;
  normalsPerVertex ← incrementCount normalsPerVertex i2;
  let v1 := Cartesian3_subtract v1 v0 in
  let v2 := Cartesian3_subtract v2 v0 in
  Ok (normalsPerVertex, arr_set normalsPerTriangle j (Some (Cartesian3_cross v1 v2)), j + 1).

(** The loop that turns the counts into offsets; the state is
    [normalsPerVertex] and [indexOffset]. *)
Definition offsetStep (st : jsarray VertexNormalData * Z) (i : Z)
    : result (jsarray VertexNormalData * Z) :=
  let '(normalsPerVertex, offset) := st in
  match arr_get normalsPerVertex i with
  | Some d =>
      Ok (arr_set normalsPerVertex i
            (Some {| indexOffset := indexOffset d + offset;
                     count := count d;
                     currentCount := currentCount d |}),
          offset + count d)
  | None => Throw TypeError
  end.

(** One of the three blocks of the second triangle loop:
    [normalIndices[indexOffset + currentCount] = j; currentCount++]. *)
Definition recordTriangle (j : Z) (st : jsarray VertexNormalData * jsarray Z) (i : option Z)
    : result (jsarray VertexNormalData * jsarray Z) :=
  let '(normalsPerVertex, normalIndices) := st in
  match arr_get_at normalsPerVertex i, i with
  | Some d, Some i =>
      let index := indexOffset d + currentCount d in
      Ok (arr_set normalsPerVertex i
            (Some {| indexOffset := indexOffset d;
                     count := count d;
                     currentCount := currentCount d + 1 |}),
          arr_set normalIndices index (Some j))
  | _, _ => Throw TypeError
  end.

Definition normalIndexStep (indices : jsarray Z)
    (st : jsarray VertexNormalData * jsarray Z * Z) (i : Z)
    : result (jsarray VertexNormalData * jsarray Z * Z) :=
  let '(normalsPerVertex, normalIndices, j) := st in
  r ← recordTriangle j (normalsPerVertex, normalIndices) (arr_get indices i);
  r ← recordTriangle j r (arr_get indices (i + 1));
  r ← recordTriangle j r (arr_get indices (i + 2));
  Ok (r.1, r.2, j + 1).

(** The last loop, for vertex [i]: the sum of the face normals of its
    triangles, normalized, or (0, 0, 1) without any triangle. *)
Definition writeNormalStep (normalsPerVertex : jsarray VertexNormalData)
    (normalsPerTriangle : jsarray Cartesian3) (normalIndices : jsarray Z)
    (normalValues : jsarray number) (i : Z) : result (jsarray number) :=
  let i3 := i * 3 in
  match arr_get normalsPerVertex i with
  | Some vertexNormalData =>
      if decide (count vertexNormalData > 0) then
        normal ← foldM (λ normal j,
                   match arr_get_at normalsPerTriangle
                           (arr_get normalIndices (indexOffset vertexNormalData + j)) with
                   | Some n => Ok (Cartesian3_add normal n)
                   | None => Throw TypeError
                   end)
                 Cartesian3_ZERO (for_range 0 (count vertexNormalData) 1);
        let normal := Cartesian3_normalize normal in
        let normalValues := arr_set normalValues i3 (x normal) in
        let normalValues := arr_set normalValues (i3 + 1) (y normal) in
        Ok (arr_set normalValues (i3 + 2) (z normal))
      else
        let normalValues := arr_set normalValues i3 (Some num_zero) in
        let normalValues := arr_set normalValues (i3 + 1) (Some num_zero) in
        Ok (arr_set normalValues (i3 + 2) (Some num_one))
  | None => Throw TypeError
  end.

Definition computeNormal (mesh : option Geometry) : result Geometry :=
  match mesh with
  | None => Throw (DeveloperError "mesh is required.")
  | Some mesh =>
      let attributes := attributes mesh in
      match attr_lookup "position" attributes ≫= values with
      | None => Throw (DeveloperError "mesh.attributes.position.values is required")
      | Some vertices =>
          if decide (attr_lookup "position" attributes ≫= (λ a, Some (componentsPerAttribute a))
                       ≠ Some 3
                     ∨ arr_length vertices `mod` 3 ≠ 0) then
            Throw (DeveloperError
              "mesh.attributes.position.values.length must be a multiple of 3")
          else
            match indexList mesh with
            | None => Ok mesh
            | Some indices =>
                if decide (primitiveType mesh ≠ TRIANGLES ∨ arr_length indices < 2
                           ∨ arr_length indices `mod` 3 ≠ 0) then
                  Ok mesh
                else
                  let numVertices := arr_length vertices `div` 3 in
                  let numIndices := arr_length indices in
                  let normalsPerVertex :=
                    foldl (λ a i,
                             arr_set a i (Some {| indexOffset := 0;
                                                  count := 0;
                                                  currentCount := 0 |}))
                          (arr_new numVertices) (for_range 0 numVertices 1) in
                  '(normalsPerVertex, normalsPerTriangle, _) ←
                    foldM (faceNormalStep vertices indices)
                          (normalsPerVertex, arr_new (numIndices `div` 3), 0)
                          (for_range 0 numIndices 3);
                  '(normalsPerVertex, _) ←
                    foldM offsetStep (normalsPerVertex, 0) (for_range 0 numVertices 1);
                  '(normalsPerVertex, normalIndices, _) ←
                    foldM (normalIndexStep indices)
                          (normalsPerVertex, arr_new numIndices, 0)
                          (for_range 0 numIndices 3);
                  let attributes :=
                    match attr_lookup "normal" attributes with
                    | None =>
                        attr_store "normal"
                          {| componentDatatype := FLOAT;
                             componentsPerAttribute := 3;
                             normalize := false;
                             values := Some (arr_new (numVertices * 3)) |}
                          attributes
                    | Some _ => attributes
                    end in
                  match attr_lookup "normal" attributes with
                  | Some normalAttribute =>
                      match values normalAttribute with
                      | Some normalValues =>
                          normalValues ←
                            foldM (writeNormalStep normalsPerVertex normalsPerTriangle
                                                   normalIndices)
                                  normalValues (for_range 0 numVertices 1);
                          Ok (with_attributes mesh
                                (attr_store "normal"
                                   (with_values normalAttribute (Some normalValues))
                                   attributes))
                      | None =>
                          (* a write to [undefined[i3]] throws in the first round *)
                          if decide (numVertices > 0) then Throw TypeError
                          else Ok (with_attributes mesh attributes)
                      end
                  | None => Throw TypeError
                  end
            end
      end
  end.

End Filters.

Section FiltersWithoutCollaborators.
Context `{ExternalTypes}.

(** ** createAttributeIndices

    The returned object binds every own property name of [attributes] to
    its position in [for ... in] order. *)
Definition createAttributeIndices (mesh : option Geometry) : gmap string Z :=
  match mesh with
  | Some mesh =>
      (foldl (λ (st : gmap string Z * Z) (p : string * GeometryAttribute),
                (<[p.1 := st.2]> st.1, st.2 + 1))
             (∅, 0) (attributes mesh)).1
  | None => ∅
  end.

End FiltersWithoutCollaborators.

(** The collaborators of the remaining filters: [defaultValue] (the
    second argument stands in for a first argument that is [undefined]),
    EncodedCartesian3.encode (it stores the two parts of the value in the
    result object it is given, from which they are read back; it may
    throw), Tipsify.tipsify (called with the index list, the maximum index
    and the cache size; it may throw), and the arithmetic on numbers and
    vectors of computeTangentAndBinormal.  An operand that may be
    [undefined] is an [option]; the result of an arithmetic operation is
    a number ([NaN] included). *)
Class AuxiliaryOps `{ExternalTypes} := {
  defaultValue : option string → string → string;
  EncodedCartesian3_encode : option number → result (number * number);
  Tipsify_tipsify : jsarray Z → Z → option Z → result (jsarray Z);
  num_add : option number → number → number;
  num_sub : option number → option number → number;
  num_mul : number → number → number;
  num_div : number → number → number;
  Cartesian3_dot : Cartesian3 → Cartesian3 → number;
  Cartesian3_multiplyByScalar : Cartesian3 → number → Cartesian3
}.

Section AuxiliaryFilters.
Context `{ExternalOps} `{!AuxiliaryOps}.

(** ** reorderForPostVertexCache *)

(** The loop that finds [maximumIndex]; a comparison with an element that
    is [undefined] is false. *)
Definition maximumIndexOf (indices : jsarray Z) : Z :=
  foldl (λ maximumIndex j,
           match arr_get indices j with
           | Some v => if decide (v > maximumIndex) then v else maximumIndex
           | None => maximumIndex
           end)
        0 (for_range 0 (arr_length indices) 1).

Definition reorderForPostVertexCache (mesh : option Geometry) (cacheCapacity : option Z)
    : result (option Geometry) :=
  match mesh with
  | Some mesh =>
      match indexList mesh with
      | Some indices =>
          let maximumIndex := maximumIndexOf indices in
          indexList' ← Tipsify_tipsify indices maximumIndex cacheCapacity;
          Ok (Some (with_indexList mesh (Some indexList') (primitiveType mesh)))
      | None => Ok (Some mesh)
      end
  | None => Ok None
  end.

(** ** encodeAttribute *)

(** [delete attributes[name]] *)
Definition attr_delete (name : string) (attributes : Attributes) : Attributes :=
  filter (λ p : string * GeometryAttribute, p.1 ≠ name) attributes.

(** The mesh is modified in place and returned.  A GeometryAttribute made
    without [normalize] has the flag off. *)
Definition encodeAttribute (mesh : option Geometry)
    (attributeName attributeHighName attributeLowName : option string) : result Geometry :=
  let attributeName := defaultValue attributeName "position" in
  let attributeHighName := defaultValue attributeHighName "positionHigh" in
  let attributeLowName := defaultValue attributeLowName "positionLow" in
  match mesh with
  | None => Throw (DeveloperError "mesh is required.")
  | Some mesh =>
      match attr_lookup attributeName (attributes mesh) with
      | None =>
          Throw (DeveloperError
                   (String.append "mesh must have attribute matching the attributeName argument: "
                                  (String.append attributeName ".")))
      | Some attribute =>
          if decide (componentDatatype attribute ≠ FLOAT) then
            Throw (DeveloperError
                     "The attribute componentDatatype must be ComponentDatatype.FLOAT.")
          else
            match values attribute with
            | None => Throw TypeError
            | Some values =>
                let length := arr_length values in
                r ← foldM (λ (st : jsarray number * jsarray number) i,
                       encodedResult ← EncodedCartesian3_encode (arr_get values i);
                       Ok (arr_set st.1 i (Some encodedResult.1),
                           arr_set st.2 i (Some encodedResult.2)))
                     (arr_new length, arr_new length) (for_range 0 length 1);
                let attributes :=
                  attr_store attributeHighName
                    {| componentDatatype := componentDatatype attribute;
                       componentsPerAttribute := componentsPerAttribute attribute;
                       normalize := false;
                       values := Some r.1 |}
                    (attributes mesh) in
                let attributes :=
                  attr_store attributeLowName
                    {| componentDatatype := componentDatatype attribute;
                       componentsPerAttribute := componentsPerAttribute attribute;
                       normalize := false;
                       values := Some r.2 |}
                    attributes in
                let attributes := attr_delete attributeName attributes in
                Ok (with_attributes mesh attributes)
            end
      end
  end.

(** ** computeTangentAndBinormal *)

(** [st[i2 + k]] with [i2 = i * 2]; [i] is [None] when the index read was
    [undefined]. *)
Definition textureComponent (st : jsarray number) (i : option Z) (k : Z) : option number :=
  i ← i; arr_get st (i * 2 + k).

(** [tan1[i3 + k] += s] with [i3 = i * 3]; with [i] undefined the key is
    [NaN], a property beside the elements. *)
Definition accumulate (tan1 : jsarray number) (i : option Z) (k : Z) (s : number)
    : jsarray number :=
  match i with
  | Some i => arr_set tan1 (i * 3 + k) (Some (num_add (arr_get tan1 (i * 3 + k)) s))
  | None => tan1
  end.

(** The triangle loop. *)
Definition tangentStep (vertices st : jsarray number) (indices : jsarray Z)
    (tan1 : jsarray number) (i : Z) : jsarray number :=
  let i0 := arr_get indices i in
  let i1 := arr_get indices (i + 1) in
  let i2 := arr_get indices (i + 2) in
  let ux := vertexComponent vertices i0 0 in
  let uy := vertexComponent vertices i0 1 in
  let uz := vertexComponent vertices i0 2 in
  let wx := textureComponent st i0 0 in
  let wy := textureComponent st i0 1 in
  let t1 := num_sub (textureComponent st i1 1) wy in
  let t2 := num_sub (textureComponent st i2 1) wy in
  let r := num_div num_one
             (num_sub (Some (num_mul (num_sub (textureComponent st i1 0) wx) t2))
                      (Some (num_mul (num_sub (textureComponent st i2 0) wx) t1))) in
  let sdir (k : Z) (u : option number) :=
    num_mul (num_sub (Some (num_mul t2 (num_sub (vertexComponent vertices i1 k) u)))
                     (Some (num_mul t1 (num_sub (vertexComponent vertices i2 k) u))))
            r in
  let sdirx := sdir 0 ux in
  let sdiry := sdir 1 uy in
  let sdirz := sdir 2 uz in
  let tan1 := accumulate tan1 i0 0 sdirx in
  let tan1 := accumulate tan1 i0 1 sdiry in
  let tan1 := accumulate tan1 i0 2 sdirz in
  let tan1 := accumulate tan1 i1 0 sdirx in
  let tan1 := accumulate tan1 i1 1 sdiry in
  let tan1 := accumulate tan1 i1 2 sdirz in
  let tan1 := accumulate tan1 i2 0 sdirx in
  let tan1 := accumulate tan1 i2 1 sdiry in
  accumulate tan1 i2 2 sdirz.

(** The vertex loop; the state is [binormalValues] and [tangentValues]. *)
Definition tangentBinormalStep (normals tan1 : jsarray number)
    (st : jsarray number * jsarray number) (i : Z) : jsarray number * jsarray number :=
  let '(binormalValues, tangentValues) := st in
  let i03 := i * 3 in
  let i13 := i03 + 1 in
  let i23 := i03 + 2 in
  let n := Cartesian3_fromArray normals i03 in
  let t := Cartesian3_fromArray tan1 i03 in
  let scalar := Cartesian3_dot n t in
  let normalScale := Cartesian3_multiplyByScalar n scalar in
  let t := Cartesian3_normalize (Cartesian3_subtract t normalScale) in
  let tangentValues := arr_set tangentValues i03 (x t) in
  let tangentValues := arr_set tangentValues i13 (y t) in
  let tangentValues := arr_set tangentValues i23 (z t) in
  let t := Cartesian3_normalize (Cartesian3_cross n t) in
  let binormalValues := arr_set binormalValues i03 (x t) in
  let binormalValues := arr_set binormalValues i13 (y t) in
  let binormalValues := arr_set binormalValues i23 (z t) in
  (binormalValues, tangentValues).

(** [attributes[name].values = vs], or a new FLOAT attribute of three
    components when the geometry has none of that name. *)
Definition setVectorValues (name : string) (vs : jsarray number) (attributes : Attributes)
    : Attributes :=
  match attr_lookup name attributes with
  | None =>
      attr_store name
        {| componentDatatype := FLOAT;
           componentsPerAttribute := 3;
           normalize := false;
           values := Some vs |}
        attributes
  | Some a => attr_store name (with_values a (Some vs)) attributes
  end.

(** The check of one required attribute: its values when it has
    [components] components and a length that is a multiple of that. *)
Definition requiredValues (attributes : Attributes) (name : string) (components : Z)
    (missing mismatch : string) : result (jsarray number) :=
  match attr_lookup name attributes ≫= values with
  | None => Throw (DeveloperError missing)
  | Some vs =>
      if decide (attr_lookup name attributes ≫= (λ a, Some (componentsPerAttribute a))
                   ≠ Some components
                 ∨ arr_length vs `mod` components ≠ 0) then
        Throw (DeveloperError mismatch)
      else Ok vs
  end.

Definition computeTangentAndBinormal (geometry : option Geometry) : result Geometry :=
  match geometry with
  | None => Throw (DeveloperError "geometry is required.")
  | Some geometry =>
      let attributes := attributes geometry in
      vertices ← requiredValues attributes "position" 3
                   "geometry.attributes.position.values is required"
                   "geometry.attributes.position.values.length must be a multiple of 3";
      normals ← requiredValues attributes "normal" 3
                  "geometry.attributes.normal.values is required"
                  "geometry.attributes.normals.values.length must be a multiple of 3";
      st ← requiredValues attributes "st" 2
             "geometry.attributes.st.values is required"
             "geometry.attributes.st.values.length must be a multiple of 2";
      match indexList geometry with
      | None => Ok geometry
      | Some indices =>
          if decide (primitiveType geometry ≠ TRIANGLES ∨ arr_length indices < 2
                     ∨ arr_length indices `mod` 3 ≠ 0) then
            Ok geometry
          else
            let numVertices := arr_length vertices `div` 3 in
            let numIndices := arr_length indices in
            let tan1 := arr_new (numVertices * 3) in
            let tan1 :=
              foldl (λ tan1 i, arr_set tan1 i (Some num_zero)) tan1
                    (for_range 0 (arr_length tan1) 1) in
            let tan1 :=
              foldl (tangentStep vertices st indices) tan1 (for_range 0 numIndices 3) in
            let r :=
              foldl (tangentBinormalStep normals tan1)
                    (arr_new (numVertices * 3), arr_new (numVertices * 3))
                    (for_range 0 numVertices 1) in
            let attributes := setVectorValues "tangent" r.2 attributes in
            let attributes := setVectorValues "binormal" r.1 attributes in
            Ok (with_attributes geometry attributes)
      end
  end.

End AuxiliaryFilters.

(** ** An integer implementation of the collaborators

    Used to run the filters on concrete meshes: numbers are integers,
    matrices are their lists of entries (4x4 column-major, 3x3
    column-major), vector arithmetic is the usual one.  Vectors are left
    unnormalised and only the identity matrix is inverted. *)

Inductive SampleDatatype :=
  | SAMPLE_FLOAT
  | SAMPLE_UNSIGNED_SHORT.

Global Instance SampleDatatype_eq_dec : EqDecision SampleDatatype.
Proof. solve_decision. Defined.

Definition ZTypes : ExternalTypes :=
  {| number := Z;
     num_zero := 0;
     num_one := 1;
     ComponentDatatype := SampleDatatype;
     FLOAT := SAMPLE_FLOAT;
     Matrix3 := list Z;
     Matrix4 := list Z |}.

Section Samples.
#[local] Existing Instance ZTypes.

Definition zcomp (v : option Z) : Z := default 0 v.

Definition zvec (a b c : Z) : Cartesian3 :=
  {| x := Some a; y := Some b; z := Some c |}.

Definition zentry (m : list Z) (k : nat) : Z := default 0 (m !! k).

Definition sampleIdentity4 : list Z :=
  [1; 0; 0; 0;  0; 1; 0; 0;  0; 0; 1; 0;  0; 0; 0; 1].

Definition sampleMultiplyByPoint (m : list Z) (p : Cartesian3) : Cartesian3 :=
  let vx := zcomp (x p) in
  let vy := zcomp (y p) in
  let vz := zcomp (z p) in
  zvec (zentry m 0 * vx + zentry m 4 * vy + zentry m 8 * vz + zentry m 12)
       (zentry m 1 * vx + zentry m 5 * vy + zentry m 9 * vz + zentry m 13)
       (zentry m 2 * vx + zentry m 6 * vy + zentry m 10 * vz + zentry m 14).

Definition sampleMultiplyByVector (m : list Z) (p : Cartesian3) : Cartesian3 :=
  let vx := zcomp (x p) in
  let vy := zcomp (y p) in
  let vz := zcomp (z p) in
  zvec (zentry m 0 * vx + zentry m 3 * vy + zentry m 6 * vz)
       (zentry m 1 * vx + zentry m 4 * vy + zentry m 7 * vz)
       (zentry m 2 * vx + zentry m 5 * vy + zentry m 8 * vz).

Definition sampleTranspose (m : list Z) : list Z :=
  (λ k, zentry m (4 * (k `mod` 4) + k `div` 4)%nat) <$> seq 0 16.

Definition sampleGetRotation (m : list Z) : list Z :=
  (λ k, zentry m (4 * (k `div` 3) + k `mod` 3)%nat) <$> seq 0 9.

Definition sampleInverse (m : list Z) : result (list Z) :=
  if decide (m = sampleIdentity4) then Ok m
  else Throw (RuntimeError "matrix is not invertible in the integer implementation").

Definition sampleAdd (a b : Cartesian3) : Cartesian3 :=
  zvec (zcomp (x a) + zcomp (x b)) (zcomp (y a) + zcomp (y b)) (zcomp (z a) + zcomp (z b)).

Definition sampleSubtract (a b : Cartesian3) : Cartesian3 :=
  zvec (zcomp (x a) - zcomp (x b)) (zcomp (y a) - zcomp (y b)) (zcomp (z a) - zcomp (z b)).

Definition sampleCross (a b : Cartesian3) : Cartesian3 :=
  zvec (zcomp (y a) * zcomp (z b) - zcomp (z a) * zcomp (y b))
       (zcomp (z a) * zcomp (x b) - zcomp (x a) * zcomp (z b))
       (zcomp (x a) * zcomp (y b) - zcomp (y a) * zcomp (x b)).

(** A sphere around the first centre that encloses both (the distance of
    the centres is bounded by its 1-norm). *)
Definition sampleUnion (a b : BoundingSphere) : BoundingSphere :=
  let d := sampleSubtract (center b) (center a) in
  {| center := center a;
     radius := Some (Z.max (zcomp (radius a))
                           (Z.abs (zcomp (x d)) + Z.abs (zcomp (y d)) + Z.abs (zcomp (z d))
                            + zcomp (radius b))) |}.

Definition ZOps : ExternalOps :=
  {| typedArrayStore := λ _ v, zcomp v;
     Matrix4_IDENTITY := sampleIdentity4;
     Matrix4_equals := λ a b, bool_decide (a = b);
     Matrix4_clone := λ m, m;
     Matrix4_multiplyByPoint := sampleMultiplyByPoint;
     Matrix4_inverse := sampleInverse;
     Matrix4_transpose := sampleTranspose;
     Matrix4_getRotation := sampleGetRotation;
     Matrix3_multiplyByVector := sampleMultiplyByVector;
     Cartesian3_ZERO := zvec 0 0 0;
     Cartesian3_fromArray := λ a i,
       {| x := arr_get a i; y := arr_get a (i + 1); z := arr_get a (i + 2) |};
     Cartesian3_fromCartesian4 := λ p, p;
     Cartesian3_add := sampleAdd;
     Cartesian3_subtract := sampleSubtract;
     Cartesian3_cross := sampleCross;
     Cartesian3_normalize := λ v, v;
     BoundingSphere_clone := λ s, s;
     BoundingSphere_union := sampleUnion |}.

#[local] Existing Instance ZOps.

(** An attribute holding the integer values [l]. *)
Definition sampleAttribute (components : Z) (l : list Z) : GeometryAttribute :=
  {| componentDatatype := SAMPLE_FLOAT;
     componentsPerAttribute := components;
     normalize := false;
     values := Some (arr_of_list l) |}.

Definition sampleMesh (attrs : Attributes) (indices : option (list Z)) : Geometry :=
  {| attributes := attrs;
     indexList := arr_of_list <$> indices;
     primitiveType := TRIANGLES;
     boundingSphere := None |}.

(** Three vertices with one component each. *)
Definition threeVertices : Attributes := [("position", sampleAttribute 1 [10; 20; 30])].

(** A triangle list whose length is not a multiple of three. *)
Definition fourIndexMesh : Geometry := sampleMesh threeVertices (Some [0; 1; 2; 3]).

(** One triangle over the three vertices. *)
Definition oneTriangleMesh : Geometry := sampleMesh threeVertices (Some [0; 1; 2]).


(** An instance of the triangle placed by the identity matrix, and one
    translated by (5, 0, 0). *)
Definition trianglePositions : Attributes :=
  [("position", sampleAttribute 3 [0; 0; 0;  1; 0; 0;  0; 1; 0])].

Definition identityInstance : GeometryInstance :=
  {| geometry := sampleMesh trianglePositions (Some [0; 1; 2]);
     modelMatrix := sampleIdentity4 |}.

Definition translatedInstance : GeometryInstance :=
  {| geometry := sampleMesh trianglePositions (Some [0; 1; 2]);
     modelMatrix := [1; 0; 0; 0;  0; 1; 0; 0;  0; 0; 1; 0;  5; 0; 0; 1] |}.


(** An index beyond the three vertices, and a mesh without index list. *)
Definition outOfRangeMesh : Geometry := sampleMesh threeVertices (Some [0; 1; 5]).

Definition unindexedMesh : Geometry := sampleMesh threeVertices None.

(** Two instances under the same matrix: one triangle over the first of
    65536 vertices, and one triangle over three vertices. *)
Definition largeInstance : GeometryInstance :=
  {| geometry := sampleMesh [("position", sampleAttribute 1 (replicate (Z.to_nat 65536) 0))]
                            (Some [0; 1; 2]);
     modelMatrix := sampleIdentity4 |}.

Definition smallInstance : GeometryInstance :=
  {| geometry := sampleMesh threeVertices (Some [0; 1; 2]);
     modelMatrix := sampleIdentity4 |}.


(** Two triangles; vertex 2 is used first, then 0, then 1. *)
Definition shuffledMesh : Geometry := sampleMesh threeVertices (Some [2; 0; 1; 1; 0; 2]).


(** The triangle (0,0,0), (1,0,0), (0,1,0) and a fourth vertex that no
    triangle uses. *)
Definition looseVertexPositions : list Z := [0; 0; 0;  1; 0; 0;  0; 1; 0;  5; 5; 5].

Definition looseVertexMesh : Geometry :=
  sampleMesh [("position", sampleAttribute 3 looseVertexPositions)] (Some [0; 1; 2]).


(** 65537 vertices, one triangle; and 65538 vertices used in order by
    21846 triangles. *)
Definition largeMesh : Geometry :=
  sampleMesh [("position", sampleAttribute 1 (replicate (Z.to_nat 65537) 0))] (Some [0; 1; 2]).

Definition stripMesh : Geometry :=
  sampleMesh [("position", sampleAttribute 1 (for_range 0 65538 1))]
             (Some (for_range 0 65538 1)).


(** A strip and a fan over four vertices. *)
Definition fourVertices : Attributes := [("position", sampleAttribute 1 [10; 20; 30; 40])].

Definition quadStrip : Geometry :=
  {| attributes := fourVertices;
     indexList := Some (arr_of_list [0; 1; 2; 3]);
     primitiveType := TRIANGLE_STRIP;
     boundingSphere := None |}.

Definition quadFan : Geometry :=
  {| attributes := fourVertices;
     indexList := Some (arr_of_list [0; 1; 2; 3]);
     primitiveType := TRIANGLE_FAN;
     boundingSphere := None |}.

(** A mesh with a position and a colour attribute. *)
Definition colouredMesh : Geometry :=
  sampleMesh [("position", sampleAttribute 3 [0; 0; 0;  1; 0; 0;  0; 1; 0]);
              ("color", sampleAttribute 1 [7; 8; 9])]
             (Some [0; 1; 2]).

(** Two triangles under the identity matrix, each with a bounding sphere;
    the second has an extra attribute that the first lacks. *)
Definition sphereAt (cx cy cz r : Z) : BoundingSphere :=
  {| center := zvec cx cy cz; radius := Some r |}.

Definition firstTriangle : GeometryInstance :=
  {| geometry :=
       {| attributes := [("position", sampleAttribute 3 [0; 0; 0;  1; 0; 0;  0; 1; 0])];
          indexList := Some (arr_of_list [0; 1; 2]);
          primitiveType := TRIANGLES;
          boundingSphere := Some (sphereAt 0 0 0 1) |};
     modelMatrix := sampleIdentity4 |}.

Definition secondTriangle : GeometryInstance :=
  {| geometry :=
       {| attributes := [("position", sampleAttribute 3 [5; 0; 0;  6; 0; 0;  5; 1; 0]);
                         ("color", sampleAttribute 1 [7; 8; 9])];
          indexList := Some (arr_of_list [2; 1; 0]);
          primitiveType := TRIANGLE_FAN;
          boundingSphere := Some (sphereAt 5 0 0 1) |};
     modelMatrix := sampleIdentity4 |}.

(** The remaining collaborators on integers: a value is split into a
    multiple of 65536 and the rest; the reordering of the index list is
    left to be the identity; the division is the integer one. *)
Definition ZAuxiliaryOps : AuxiliaryOps :=
  {| defaultValue := λ a b, default b a;
     EncodedCartesian3_encode := λ v,
       match v with
       | Some n => Ok (n `div` 65536 * 65536, n `mod` 65536)
       | None => Throw (DeveloperError "value is required.")
       end;
     Tipsify_tipsify := λ indices maximumIndex cacheSize,
       if decide (maximumIndex <= 0) then
         Throw (DeveloperError "indices must have a maximum index greater than zero.")
       else Ok indices;
     num_add := λ a b, zcomp a + b;
     num_sub := λ a b, zcomp a - zcomp b;
     num_mul := Z.mul;
     num_div := Z.div;
     Cartesian3_dot := λ a b,
       zcomp (x a) * zcomp (x b) + zcomp (y a) * zcomp (y b) + zcomp (z a) * zcomp (z b);
     Cartesian3_multiplyByScalar := λ a s,
       zvec (zcomp (x a) * s) (zcomp (y a) * s) (zcomp (z a) * s) |}.

#[local] Existing Instance ZAuxiliaryOps.
(** Three values to encode, with a colour beside them. *)
Definition wideValues : list Z := [70000; 5; 131079].

Definition wideMesh : Geometry :=
  sampleMesh [("position", sampleAttribute 1 wideValues);
              ("color", sampleAttribute 1 [7; 8; 9])]
             None.

(** The triangle (0,0,0), (1,0,0), (0,1,0) with the normal (0,0,1) and
    the texture coordinates (0,0), (1,0), (0,1). *)
Definition texturedTriangle : Geometry :=
  sampleMesh [("position", sampleAttribute 3 [0; 0; 0;  1; 0; 0;  0; 1; 0]);
              ("normal", sampleAttribute 3 [0; 0; 1;  0; 0; 1;  0; 0; 1]);
              ("st", sampleAttribute 2 [0; 0;  1; 0;  0; 1])]
             (Some [0; 1; 2]).

(** The integer implementation with an inverse for translations as
    well, and with none for the other matrices. *)
Definition translationInverse (m : list Z) : result (list Z) :=
  if decide (take 12 m = take 12 sampleIdentity4 ∧ length m = 16%nat ∧ m !! 15%nat = Some 1)
  then Ok (take 12 m ++ [- zentry m 12; - zentry m 13; - zentry m 14; 1])
  else Throw (RuntimeError "matrix is not invertible in the integer implementation").

Definition ZTranslationOps : ExternalOps :=
  {| typedArrayStore := typedArrayStore;
     Matrix4_IDENTITY := Matrix4_IDENTITY;
     Matrix4_equals := Matrix4_equals;
     Matrix4_clone := Matrix4_clone;
     Matrix4_multiplyByPoint := Matrix4_multiplyByPoint;
     Matrix4_inverse := translationInverse;
     Matrix4_transpose := Matrix4_transpose;
     Matrix4_getRotation := Matrix4_getRotation;
     Matrix3_multiplyByVector := Matrix3_multiplyByVector;
     Cartesian3_ZERO := Cartesian3_ZERO;
     Cartesian3_fromArray := Cartesian3_fromArray;
     Cartesian3_fromCartesian4 := Cartesian3_fromCartesian4;
     Cartesian3_add := Cartesian3_add;
     Cartesian3_subtract := Cartesian3_subtract;
     Cartesian3_cross := Cartesian3_cross;
     Cartesian3_normalize := Cartesian3_normalize;
     BoundingSphere_clone := BoundingSphere_clone;
     BoundingSphere_union := BoundingSphere_union |}.

(** A triangle with normals and a bounding sphere, translated by
    (5, 0, 0); and the same triangle under a matrix that scales by 2. *)
Definition litTriangle : Geometry :=
  {| attributes := [("position", sampleAttribute 3 [0; 0; 0;  1; 0; 0;  0; 1; 0]);
                    ("normal", sampleAttribute 3 [0; 0; 1;  0; 0; 1;  0; 0; 1]);
                    ("color", sampleAttribute 1 [7; 8; 9])];
     indexList := Some (arr_of_list [0; 1; 2]);
     primitiveType := TRIANGLES;
     boundingSphere := Some {| center := zvec 0 0 0; radius := Some 1 |} |}.

Definition litInstance : GeometryInstance :=
  {| geometry := litTriangle;
     modelMatrix := [1; 0; 0; 0;  0; 1; 0; 0;  0; 0; 1; 0;  5; 0; 0; 1] |}.

Definition scaledInstance : GeometryInstance :=
  {| geometry := litTriangle;
     modelMatrix := [2; 0; 0; 0;  0; 2; 0; 0;  0; 0; 2; 0;  0; 0; 0; 1] |}.

(** Four vertices of which the index list uses the last and the second. *)
Definition sparseMesh : Geometry :=
  sampleMesh [("position", sampleAttribute 1 [10; 20; 30; 40])] (Some [3; 1; 3]).

(** Two triangles that meet at a right angle along the edge from
    (0,0,0) to (1,0,0): one in the plane z = 0, one in the plane y = 0. *)
Definition foldedPositions : list Z := [0; 0; 0;  1; 0; 0;  0; 1; 0;  0; 0; 1].

Definition foldedMesh : Geometry :=
  sampleMesh [("position", sampleAttribute 3 foldedPositions)] (Some [0; 1; 2; 0; 3; 1]).

(** A triangle whose last index names a vertex that does not exist. *)
Definition strayIndexMesh : Geometry :=
  sampleMesh [("position", sampleAttribute 3 [0; 0; 0;  1; 0; 0;  0; 1; 0])] (Some [0; 1; 3]).

End Samples.

(** ** Reference descriptions used in the statements *)

(** The line list of a triangle list: each triangle [(a, b, c)] gives the
    edges [(a, b)], [(b, c)], [(c, a)]. *)
Fixpoint triangleEdges (l : list (option Z)) : list (option Z) :=
  match l with
  | a :: b :: c :: rest => [a; b; b; c; c; a] ++ triangleEdges rest
  | _ => []
  end.

(** A computation that raises no DeveloperError. *)
Definition no_DeveloperError {A} (r : result A) : Prop :=
  ∀ message, r ≠ Throw (DeveloperError message).

(** Every attribute of the table has a [values] array. *)
Definition all_have_values `{ExternalTypes} (attrs : Attributes) : Prop :=
  Forall (λ p : string * GeometryAttribute, is_Some (values p.2)) attrs.

(** Only vertices below [numVertices] have an entry in a per-vertex table
    (the cross-reference table, [normalsPerVertex]). *)
Definition xref_in_range {A} (numVertices : Z) (xref : jsarray A) : Prop :=
  ∀ t, is_Some (arr_get xref t) → 0 ≤ t < numVertices.

(** Every element of the index list is an index below [numVertices]. *)
Definition indices_below (numVertices : Z) (indices : jsarray Z) : Prop :=
  ∀ p, 0 ≤ p < arr_length indices →
    ∃ v, arr_get indices p = Some v ∧ 0 ≤ v < numVertices.

(** The state of the index loop of reorderForPreVertexCache after [k]
    rounds: every vertex has an entry in the cross-reference table, which
    is [-1] or a new index below [nextIndex]; new indices are given once;
    the first [k] output indices are the new indices of the first [k]
    input indices. *)
Definition reorder_inv (numVertices : Z) (indices : jsarray Z) (k : Z)
    (st : jsarray Z * jsarray Z * Z) : Prop :=
  let '(xref, out, next) := st in
  0 ≤ next
  ∧ (∀ t, 0 ≤ t < numVertices → is_Some (arr_get xref t))
  ∧ (∀ t v, arr_get xref t = Some v → v = -1 ∨ 0 ≤ v < next)
  ∧ (∀ t t' v, arr_get xref t = Some v → arr_get xref t' = Some v → v ≠ -1 → t = t')
  ∧ (∀ p old, 0 ≤ p < k → arr_get indices p = Some old →
       ∃ new, 0 ≤ new ∧ arr_get out p = Some new ∧ arr_get xref old = Some new)
  ∧ arr_length out = k.

(** The value a call returns, [None] when it throws. *)
Definition returned {A} (r : result A) : option A :=
  match r with
  | Ok a => Some a
  | Throw _ => None
  end.

(** The number of positions below [k] at which the index list holds the
    vertex [v]. *)
Definition occurrences (indices : jsarray Z) (v : Z) (k : Z) : Z :=
  Z.of_nat (length (filter (λ p, arr_get indices p = Some v) (seqZ 0 k))).

(** [normalsPerVertex] while the first triangle loop has consumed [k]
    indices: every vertex has its record, whose count is the number of
    its occurrences so far. *)
Definition counting_inv (numVertices : Z) (indices : jsarray Z) (k : Z)
    (normalsPerVertex : jsarray VertexNormalData) : Prop :=
  ∀ v, 0 ≤ v < numVertices →
    ∃ d, arr_get normalsPerVertex v = Some d
         ∧ count d = occurrences indices v k
         ∧ currentCount d = 0.

(** [normalsPerVertex] and [normalIndices] while the second triangle
    loop has consumed [k] indices, all of triangles below [bound]: the
    slots of a vertex filled so far hold triangle numbers. *)
Definition recording_inv (numVertices : Z) (indices : jsarray Z) (k bound : Z)
    (normalsPerVertex : jsarray VertexNormalData) (normalIndices : jsarray Z) : Prop :=
  ∀ v, 0 ≤ v < numVertices →
    ∃ d, arr_get normalsPerVertex v = Some d
         ∧ count d = occurrences indices v (arr_length indices)
         ∧ currentCount d = occurrences indices v k
         ∧ ∀ j, 0 ≤ j < currentCount d →
             ∃ triangle, arr_get normalIndices (indexOffset d + j) = Some triangle
                         ∧ 0 ≤ triangle < bound.

(** The old index that the table [oldToNewIndex] maps to the new index
    [new]; an element of a chunk's index list is mapped back with it. *)
Definition remapBack (oldToNewIndex : gmap (option Z) Z) (new : option Z) : option Z :=
  match new with
  | Some i =>
      match filter (λ kv : option Z * Z, kv.2 = i) (map_to_list oldToNewIndex) with
      | kv :: _ => kv.1
      | [] => None
      end
  | None => None
  end.

(** The indices of a chunk mapped back to the indices of the original
    mesh. *)
Definition chunkTriangles `{ExternalTypes} (chunk : Geometry * gmap (option Z) Z)
    : list (option Z) :=
  remapBack chunk.2 <$> from_option arr_to_list [] (indexList chunk.1).

(** A chunk has at most 64K vertices and whole triangles: every attribute
    holds the same number [c] of blocks, at most 64K, which bounds the
    vertex count computed for the chunk; the length of the index list is
    a multiple of three. *)
Definition chunk_fits `{ExternalTypes} (g : Geometry) : Prop :=
  (∃ c, 0 ≤ c ≤ sixtyFourK
        ∧ Forall (λ p : string * GeometryAttribute,
                    0 < componentsPerAttribute p.2
                    ∧ ∃ vs, values p.2 = Some vs
                            ∧ arr_length vs = c * componentsPerAttribute p.2)
                 (attributes g)
        ∧ ∃ n, computeNumberOfVertices g = Ok n ∧ n ≤ c)
  ∧ ∃ indices, indexList g = Some indices ∧ arr_length indices `mod` 3 = 0.

(** The attributes of the chunk being filled, after [c] vertices have
    been copied: the attributes of the mesh that have values, each with
    [c] blocks. *)
Definition chunk_attributes `{ExternalTypes} (source dest : Attributes) (c : Z) : Prop :=
  dest.*1 = (filter (λ p : string * GeometryAttribute, is_Some (values p.2)) source).*1
  ∧ (∀ name s, attr_lookup name source = Some s → is_Some (values s) →
       ∃ d, attr_lookup name dest = Some d
            ∧ componentsPerAttribute d = componentsPerAttribute s)
  ∧ (∀ name d, attr_lookup name dest = Some d →
       0 < componentsPerAttribute d
       ∧ ∃ vs, values d = Some vs ∧ arr_length vs = c * componentsPerAttribute d).

(** The table of the chunk being filled: distinct old indices have
    distinct new indices, all below [currentIndex]. *)
Definition remap_table (oldToNewIndex : gmap (option Z) Z) (c : Z) : Prop :=
  (∀ k k' i, oldToNewIndex !! k = Some i → oldToNewIndex !! k' = Some i → k = k')
  ∧ (∀ k i, oldToNewIndex !! k = Some i → 0 ≤ i < c).

(** An element of the chunk's index list is the new index of the
    corresponding original index. *)
Definition remapped (oldToNewIndex : gmap (option Z) Z) (old new : option Z) : Prop :=
  ∃ i, new = Some i ∧ oldToNewIndex !! old = Some i.

(** The state of the triangle loop of fitToUnsignedShortIndices after
    [k] indices of the original list [original] have been consumed. *)
Definition fit_inv `{ExternalTypes} (mesh : Geometry) (original : list (option Z)) (k : nat)
    (st : FitState) : Prop :=
  0 ≤ currentIndex st ≤ sixtyFourK - 3
  ∧ remap_table (oldToNewIndex st) (currentIndex st)
  ∧ chunk_attributes (attributes mesh) (newAttributes st) (currentIndex st)
  ∧ arr_length (newIndices st) `mod` 3 = 0
  ∧ Forall (λ chunk, chunk_fits chunk.1) (geometries st)
  ∧ ∃ current,
      take k original = concat (chunkTriangles <$> geometries st) ++ current
      ∧ Forall2 (remapped (oldToNewIndex st)) current (arr_to_list (newIndices st)).

(** The number of vertices by which the index loop of combine advances
    [offset] after an instance: the vertex count of its first attribute. *)
Definition instanceVertexCount `{ExternalTypes} (instance : GeometryInstance) : Z :=
  match attributes (geometry instance) with
  | (_, a) :: _ =>
      from_option (λ vs, arr_length vs `div` componentsPerAttribute a) 0 (values a)
  | [] => 0
  end.

(** The index list a merge is meant to produce: the indices of each
    instance in order, offset by the vertices of the instances before
    it. *)
Fixpoint mergedIndices `{ExternalTypes} (offset : Z) (instances : list GeometryInstance)
    : list (option Z) :=
  match instances with
  | [] => []
  | instance :: rest =>
      ((λ v : option Z, (λ i, offset + i) <$> v)
         <$> from_option arr_to_list [] (indexList (geometry instance)))
      ++ mergedIndices (offset + instanceVertexCount instance) rest
  end.


(** The line list of a triangle strip: the first triangle [(a, b, c)]
    gives the edges of a triangle list; every later index [c] closes the
    triangle [(b, c, a)] with the two indices [a], [b] before it. *)
Fixpoint stripLaterEdges (l : list (option Z)) : list (option Z) :=
  match l with
  | a :: (b :: c :: _) as rest => [b; c; c; a; a; b] ++ stripLaterEdges rest
  | _ => []
  end.

Definition stripEdges (l : list (option Z)) : list (option Z) :=
  match l with
  | a :: b :: c :: _ => [a; b; b; c; c; a] ++ stripLaterEdges (tail l)
  | _ => []
  end.

(** The line list of a triangle fan around [base]: every two successive
    indices [b], [c] after it give the triangle [(base, b, c)]. *)
Fixpoint fanEdges (base : option Z) (l : list (option Z)) : list (option Z) :=
  match l with
  | b :: (c :: _) as rest => [base; b; b; c; c; base] ++ fanEdges base rest
  | _ => []
  end.

(** The values an instance holds under an attribute name. *)
Definition instanceValues `{ExternalTypes} (name : string) (instance : GeometryInstance)
    : list (option number) :=
  from_option arr_to_list [] (attr_lookup name (attributes (geometry instance)) ≫= values).

(** The buffer a merge is meant to produce for an attribute name: the
    values of the instances in order. *)
Definition mergedValues `{ExternalTypes} (name : string) (instances : list GeometryInstance)
    : list (option number) :=
  concat (instanceValues name <$> instances).

(** Every one of [others] has an attribute [name] with the datatype, the
    number of components and the normalize flag of [attribute]. *)
Definition inAllGeometries `{ExternalTypes} (name : string) (attribute : GeometryAttribute)
    (others : list GeometryInstance) : Prop :=
  ∀ instance, instance ∈ others →
    ∃ otherAttribute,
      attr_lookup name (attributes (geometry instance)) = Some otherAttribute
      ∧ componentDatatype attribute = componentDatatype otherAttribute
      ∧ componentsPerAttribute attribute = componentsPerAttribute otherAttribute
      ∧ normalize attribute = normalize otherAttribute.
(** The attribute that findAttributesInAllGeometries makes for [name]. *)
Definition mergedDescription `{ExternalTypes} (instances : list GeometryInstance) (name : string)
    (attribute : GeometryAttribute) : GeometryAttribute :=
  {| componentDatatype := componentDatatype attribute;
     componentsPerAttribute := componentsPerAttribute attribute;
     normalize := normalize attribute;
     values := Some (typed_new (Z.of_nat (length (mergedValues name instances))) num_zero) |}.

(** The sphere a merge is meant to produce from the spheres of the
    instances: the clone of the first united with the others in order. *)
Definition unionOfSpheres `{ExternalOps} (spheres : list BoundingSphere)
    : option BoundingSphere :=
  match spheres with
  | [] => None
  | s0 :: rest => Some (foldl BoundingSphere_union (BoundingSphere_clone s0) rest)
  end.


(** A geometry has the attribute [name] with values, [components]
    components and a length that is a multiple of that: what
    computeTangentAndBinormal checks of position, normal and st. *)
Definition hasVectorAttribute `{ExternalTypes} (geometry : Geometry) (name : string)
    (components : Z) : Prop :=
  ∃ a vs, attr_lookup name (attributes geometry) = Some a
          ∧ values a = Some vs
          ∧ componentsPerAttribute a = components
          ∧ arr_length vs `mod` components = 0.
(** The tangent that the vertex loop of computeTangentAndBinormal gives
    vertex [v]: the accumulated direction made orthogonal to the normal
    and normalized. *)
Definition tangentOf `{ExternalOps} `{!AuxiliaryOps} (normals tan1 : jsarray number) (v : Z) : Cartesian3 :=
  let n := Cartesian3_fromArray normals (v * 3) in
  let t := Cartesian3_fromArray tan1 (v * 3) in
  Cartesian3_normalize
    (Cartesian3_subtract t (Cartesian3_multiplyByScalar n (Cartesian3_dot n t))).

(** The vector held by a buffer at the three keys from [3 * k]. *)
Definition vectorAt `{ExternalTypes} (a : jsarray number) (k : Z) : Cartesian3 :=
  {| x := arr_get a (3 * k); y := arr_get a (3 * k + 1); z := arr_get a (3 * k + 2) |}.

(** The loop of transformPoint and of transformVector on a buffer, [f]
    being the multiplication by the matrix. *)
Definition transformedValues `{ExternalOps} (f : Cartesian3 → Cartesian3)
    (values : jsarray number) : jsarray number :=
  foldl (λ values i,
           let scratch := Cartesian3_fromArray values i in
           let scratch := f scratch in
           let values := arr_set values i (x scratch) in
           let values := arr_set values (i + 1) (y scratch) in
           arr_set values (i + 2) (z scratch))
        values (for_range 0 (arr_length values) 3).

(** The attribute table after the attribute [name], when there is one,
    has been transformed by [f]. *)
Definition transformAttribute `{ExternalOps} (f : Cartesian3 → Cartesian3) (name : string)
    (attrs : Attributes) : Attributes :=
  match attr_lookup name attrs with
  | Some a =>
      match values a with
      | Some vs => attr_store name (with_values a (Some (transformedValues f vs))) attrs
      | None => attrs
      end
  | None => attrs
  end.

(** Cartesian3.fromArray reads the three elements from the given key. *)
Definition fromArray_reads `{ExternalOps} : Prop :=
  ∀ (a : jsarray number) (i : Z),
    Cartesian3_fromArray a i
      = {| x := arr_get a i; y := arr_get a (i + 1); z := arr_get a (i + 2) |}.


(** A computation that raises nothing but a TypeError. *)
Definition only_TypeError {A} (r : result A) : Prop :=
  ∀ e, r = Throw e → e = TypeError.

(** The positions below [k] at which the index list holds the vertex
    [v], in order. *)
Definition usesOf (indices : jsarray Z) (v k : Z) : list Z :=
  filter (λ p, arr_get indices p = Some v) (seqZ 0 k).

(** The number of positions of the index list that hold a vertex below
    [v]: where the slots of vertex [v] start in [normalIndices]. *)
Definition slotsBefore (indices : jsarray Z) (v : Z) : Z :=
  foldr Z.add 0 ((λ u, occurrences indices u (arr_length indices)) <$> seqZ 0 v).

(** The face normal of triangle [t] as the first triangle loop of
    computeNormal makes it: (v1 - v0) x (v2 - v0). *)
Definition faceNormal `{ExternalOps} (vertices : jsarray number) (indices : jsarray Z) (t : Z)
    : Cartesian3 :=
  let i0 := arr_get indices (3 * t) in
  let i1 := arr_get indices (3 * t + 1) in
  let i2 := arr_get indices (3 * t + 2) in
  let v0 := {| x := vertexComponent vertices i0 0;
               y := vertexComponent vertices i0 1;
               z := vertexComponent vertices i0 2 |} in
  let v1 := {| x := vertexComponent vertices i1 0;
               y := vertexComponent vertices i1 1;
               z := vertexComponent vertices i1 2 |} in
  let v2 := {| x := vertexComponent vertices i2 0;
               y := vertexComponent vertices i2 1;
               z := vertexComponent vertices i2 2 |} in
  Cartesian3_cross (Cartesian3_subtract v1 v0) (Cartesian3_subtract v2 v0).

(** The normal of vertex [v]: the face normals of the triangles that use
    [v], added up from Cartesian3.ZERO in the order of the index list (a
    triangle that uses [v] twice counts twice), then normalized. *)
Definition vertexNormal `{ExternalOps} (vertices : jsarray number) (indices : jsarray Z)
    (v : Z) : Cartesian3 :=
  Cartesian3_normalize
    (foldl (λ normal p, Cartesian3_add normal (faceNormal vertices indices (p `div` 3)))
           Cartesian3_ZERO (usesOf indices v (arr_length indices))).

(** [normalsPerVertex] while the first triangle loop of computeNormal
    has consumed [k] indices. *)
Definition counted (numVertices : Z) (indices : jsarray Z) (k : Z)
    (normalsPerVertex : jsarray VertexNormalData) : Prop :=
  ∀ v, 0 ≤ v < numVertices →
    arr_get normalsPerVertex v
      = Some {| indexOffset := 0; count := occurrences indices v k; currentCount := 0 |}.

(** [normalsPerVertex] while the offset loop has passed [k] vertices. *)
Definition offsets_set (numVertices : Z) (indices : jsarray Z) (k : Z)
    (normalsPerVertex : jsarray VertexNormalData) : Prop :=
  ∀ v, 0 ≤ v < numVertices →
    arr_get normalsPerVertex v
      = Some {| indexOffset := if decide (v < k) then slotsBefore indices v else 0;
                count := occurrences indices v (arr_length indices);
                currentCount := 0 |}.

(** [normalsPerVertex] and [normalIndices] while the second triangle
    loop has consumed [k] indices: the slots of a vertex hold the
    triangles of its uses so far, in order. *)
Definition recorded (numVertices : Z) (indices : jsarray Z) (k : Z)
    (normalsPerVertex : jsarray VertexNormalData) (normalIndices : jsarray Z) : Prop :=
  ∀ v, 0 ≤ v < numVertices →
    arr_get normalsPerVertex v
      = Some {| indexOffset := slotsBefore indices v;
                count := occurrences indices v (arr_length indices);
                currentCount := occurrences indices v k |}
    ∧ ∀ (j : nat) p, usesOf indices v k !! j = Some p →
        arr_get normalIndices (slotsBefore indices v + Z.of_nat j) = Some (p `div` 3).

(** Component [k] of vertex [index] in the buffer [vs] of attribute [s],
    as copyVertex reads it: [values[index * componentsPerAttribute + k]],
    which is [undefined] for an undefined index. *)
Definition vertexComponentOf `{ExternalTypes} (s : GeometryAttribute) (vs : jsarray number)
    (index : option Z) (k : Z) : option number :=
  i ← index; arr_get vs (i * componentsPerAttribute s + k).

(** The attributes [dest] of a chunk describe the attributes of [source]
    that have values: same datatype, component count and normalize
    flag. *)
Definition chunk_descriptions `{ExternalTypes} (source dest : Attributes) : Prop :=
  ∀ name s, attr_lookup name source = Some s → is_Some (values s) →
    ∃ vs', attr_lookup name dest = Some (with_values s (Some vs')).

(** The vertex that the table maps an old index to carries, in every
    attribute of [dest], the values of the old vertex in [source]. *)
Definition table_data `{ExternalTypes} (source dest : Attributes)
    (table : gmap (option Z) Z) : Prop :=
  ∀ old new name s vs vs',
    table !! old = Some new →
    attr_lookup name source = Some s → values s = Some vs →
    attr_lookup name dest = Some (with_values s (Some vs')) →
    ∀ k, 0 ≤ k < componentsPerAttribute s →
      arr_get vs' (new * componentsPerAttribute s + k) = vertexComponentOf s vs old k.

(** What a chunk of fitToUnsignedShortIndices holds: the attributes of
    the mesh that have values, under their names and in their order and
    with their descriptions, and for every element of its index list the
    values of the original vertex that the element stands for. *)
Definition chunk_vertices `{ExternalTypes} (source : Attributes)
    (chunk : Geometry * gmap (option Z) Z) : Prop :=
  (attributes chunk.1).*1
    = (filter (λ p : string * GeometryAttribute, is_Some (values p.2)) source).*1
  ∧ ∀ il q new name s vs,
      indexList chunk.1 = Some il → 0 ≤ q < arr_length il → arr_get il q = Some new →
      attr_lookup name source = Some s → values s = Some vs →
      ∃ vs', attr_lookup name (attributes chunk.1) = Some (with_values s (Some vs'))
             ∧ ∀ k, 0 ≤ k < componentsPerAttribute s →
                 arr_get vs' (new * componentsPerAttribute s + k)
                   = vertexComponentOf s vs (remapBack chunk.2 (Some new)) k.

(** The indices of a chunk fit an unsigned short and name vertices of the
    chunk: every attribute of the chunk holds [c] vertices, [c] at most
    65536, and every element of the index list is an integer from 0 to
    [c - 1]. *)
Definition chunk_indices_fit `{ExternalTypes} (g : Geometry) : Prop :=
  ∃ c, 0 ≤ c ≤ 65536
       ∧ (∀ name d, attr_lookup name (attributes g) = Some d →
            ∃ vs, values d = Some vs ∧ arr_length vs = c * componentsPerAttribute d)
       ∧ ∀ il q, indexList g = Some il → 0 ≤ q < arr_length il →
           ∃ new, arr_get il q = Some new ∧ 0 ≤ new < c.

(** The part of the loop state of fitToUnsignedShortIndices that is about
    vertex data. *)
Definition fit_data `{ExternalTypes} (mesh : Geometry) (st : FitState) : Prop :=
  chunk_descriptions (attributes mesh) (newAttributes st)
  ∧ table_data (attributes mesh) (newAttributes st) (oldToNewIndex st)
  ∧ Forall (λ chunk, chunk_vertices (attributes mesh) chunk ∧ chunk_indices_fit chunk.1)
           (geometries st).

(** Component [c] of the direction that the triangle loop of
    computeTangentAndBinormal computes for triangle [t] ([sdirx], [sdiry],
    [sdirz]), from the positions and texture coordinates of its three
    vertices. *)
Definition triangleDirection `{ExternalOps} `{!AuxiliaryOps} (vertices st : jsarray number)
    (indices : jsarray Z) (t c : Z) : number :=
  let i0 := arr_get indices (3 * t) in
  let i1 := arr_get indices (3 * t + 1) in
  let i2 := arr_get indices (3 * t + 2) in
  let wx := textureComponent st i0 0 in
  let wy := textureComponent st i0 1 in
  let t1 := num_sub (textureComponent st i1 1) wy in
  let t2 := num_sub (textureComponent st i2 1) wy in
  let r := num_div num_one
             (num_sub (Some (num_mul (num_sub (textureComponent st i1 0) wx) t2))
                      (Some (num_mul (num_sub (textureComponent st i2 0) wx) t1))) in
  num_mul (num_sub (Some (num_mul t2 (num_sub (vertexComponent vertices i1 c)
                                              (vertexComponent vertices i0 c))))
                   (Some (num_mul t1 (num_sub (vertexComponent vertices i2 c)
                                              (vertexComponent vertices i0 c)))))
          r.

(** What [+=] has made of the element [initial] once the directions of
    the triangles at the positions [uses] have been added, in order. *)
Definition addedDirections `{ExternalOps} `{!AuxiliaryOps} (vertices st : jsarray number)
    (indices : jsarray Z) (initial : option number) (uses : list Z) (c : Z)
    : option number :=
  foldl (λ acc p, Some (num_add acc (triangleDirection vertices st indices (p `div` 3) c)))
        initial uses.

(** [tan1] while the triangle loop has consumed [k] indices: component
    [c] of vertex [v] is what it was in [tan0] with the directions of the
    uses of [v] so far added. *)
Definition directions_added `{ExternalOps} `{!AuxiliaryOps} (vertices st : jsarray number)
    (indices : jsarray Z) (tan0 tan1 : jsarray number) (k : Z) : Prop :=
  ∀ v c, 0 ≤ v → 0 ≤ c < 3 →
    arr_get tan1 (v * 3 + c)
      = addedDirections vertices st indices (arr_get tan0 (v * 3 + c)) (usesOf indices v k) c.

(** The attributes after computeNormal has made sure that there is a
    normal attribute: a FLOAT attribute of three components with
    [new Array(numVertices * 3)] as values is added when the mesh has
    none. *)
Definition withNormalAttribute `{ExternalTypes} (numVertices : Z) (attributes : Attributes)
    : Attributes :=
  match attr_lookup "normal" attributes with
  | None =>
      attr_store "normal"
        {| componentDatatype := FLOAT;
           componentsPerAttribute := 3;
           normalize := false;
           values := Some (arr_new (numVertices * 3)) |}
        attributes
  | Some _ => attributes
  end.

(** * Properties *)

(** ** Loops and arrays *)

Lemma count_from_seqZ (rounds : nat) (start step : Z) :
  count_from rounds start step = (λ k, start + step * k) <$> seqZ 0 (Z.of_nat rounds).
Proof.
  revert start. induction rounds as [|rounds IH]; intros start; [done|].
  rewrite seqZ_cons by lia. cbn [count_from fmap list_fmap]. f_equal; [lia|].
  rewrite IH. replace (Z.pred (Z.of_nat (S rounds))) with (Z.of_nat rounds) by lia.
  rewrite <- (fmap_add_seqZ 1 0). rewrite <- list_fmap_compose.
  apply list_fmap_ext. intros i k _. simpl. lia.
Qed.

Lemma for_range_seqZ (start stop step : Z) :
  for_range start stop step =
    (λ k, start + step * k) <$> seqZ 0 ((stop - start + step - 1) `div` step).
Proof.
  unfold for_range. rewrite count_from_seqZ.
  destruct (decide (0 ≤ (stop - start + step - 1) `div` step)).
  - by rewrite Z2Nat.id.
  - rewrite !seqZ_nil; [done | lia | lia].
Qed.

Lemma for_range_unit (n : Z) : for_range 0 n 1 = seqZ 0 n.
Proof.
  rewrite for_range_seqZ. replace ((n - 0 + 1 - 1) `div` 1) with n by (rewrite Z.div_1_r; lia).
  rewrite <- (fmap_add_seqZ 0 0 n) at 2.
  apply list_fmap_ext. intros i k _. lia.
Qed.

Lemma for_range_triples (m : Z) : for_range 0 (3 * m) 3 = (λ k, 3 * k) <$> seqZ 0 m.
Proof.
  rewrite for_range_seqZ. replace ((3 * m - 0 + 3 - 1) `div` 3) with m.
  - apply list_fmap_ext. intros i k _. lia.
  - apply (Z.div_unique _ 3 m 2); lia.
Qed.

Lemma foldM_app {A S} (body : S → A → result S) (s : S) (l1 l2 : list A) :
  foldM body s (l1 ++ l2) = s' ← foldM body s l1; foldM body s' l2.
Proof.
  revert s. induction l1 as [|a l1 IH]; intros s; simpl; [done|].
  destruct (body s a); simpl; [apply IH | done].
Qed.

Section JsArrayFacts.
Context {A : Type}.
Implicit Types a : jsarray A.

Lemma arr_length_nonneg a : 0 ≤ arr_length a.
Proof. unfold arr_length. lia. Qed.

Lemma arr_get_set_eq a k v : arr_get (arr_set a k v) k = v.
Proof.
  unfold arr_get, arr_set. simpl. destruct v.
  - apply lookup_insert_eq.
  - apply lookup_delete_eq.
Qed.

Lemma arr_get_set_ne a k k' v : k ≠ k' → arr_get (arr_set a k v) k' = arr_get a k'.
Proof.
  intros Hne. unfold arr_get, arr_set. simpl. destruct v.
  - by apply lookup_insert_ne.
  - by apply lookup_delete_ne.
Qed.

Lemma arr_length_set a k v :
  arr_length (arr_set a k v) =
    if decide (0 ≤ k) then Z.max (arr_length a) (k + 1) else arr_length a.
Proof. unfold arr_length, arr_set. simpl. case_decide; lia. Qed.

Lemma arr_length_push a v : arr_length (arr_push a v) = arr_length a + 1.
Proof.
  unfold arr_push. rewrite arr_length_set.
  pose proof (arr_length_nonneg a). case_decide; lia.
Qed.

Lemma arr_get_push_ne a v k : k ≠ arr_length a → arr_get (arr_push a v) k = arr_get a k.
Proof. intros Hne. unfold arr_push. by apply arr_get_set_ne. Qed.

Lemma arr_get_push_eq a v : arr_get (arr_push a v) (arr_length a) = v.
Proof. apply arr_get_set_eq. Qed.

Lemma arr_to_list_length a : Z.of_nat (length (arr_to_list a)) = arr_length a.
Proof.
  unfold arr_to_list. rewrite for_range_unit, length_fmap, length_seqZ.
  pose proof (arr_length_nonneg a). lia.
Qed.

Lemma arr_to_list_lookup a k :
  0 ≤ k < arr_length a → arr_to_list a !! Z.to_nat k = Some (arr_get a k).
Proof.
  intros Hk. unfold arr_to_list. rewrite for_range_unit, list_lookup_fmap.
  rewrite (lookup_seqZ_lt 0 (arr_length a) (Z.to_nat k)) by lia.
  simpl. f_equal. f_equal. lia.
Qed.

Lemma arr_to_list_push a v : arr_to_list (arr_push a v) = arr_to_list a ++ [v].
Proof.
  unfold arr_to_list. rewrite !for_range_unit, arr_length_push.
  pose proof (arr_length_nonneg a) as Hlen.
  rewrite seqZ_app by lia. rewrite fmap_app. f_equal.
  - apply list_fmap_ext. intros i k Hik.
    apply lookup_seqZ in Hik as [-> Hi].
    apply arr_get_push_ne. lia.
  - simpl. rewrite Z.add_0_l. by rewrite arr_get_push_eq.
Qed.

Lemma arr_to_list_empty : arr_to_list (@arr_empty A) = [].
Proof. reflexivity. Qed.
End JsArrayFacts.

(** ** toWireframe *)

Section ToWireframe.
Context `{ExternalTypes}.

Lemma arr_to_list_addTriangle lines i0 i1 i2 :
  arr_to_list (addTriangle lines i0 i1 i2) = arr_to_list lines ++ [i0; i1; i1; i2; i2; i0].
Proof.
  unfold addTriangle. rewrite !arr_to_list_push, <- !app_assoc. reflexivity.
Qed.

Lemma arr_length_addTriangle lines i0 i1 i2 :
  arr_length (addTriangle lines i0 i1 i2) = arr_length lines + 6.
Proof. unfold addTriangle. rewrite !arr_length_push. lia. Qed.

(** The triangle loop after [k] rounds starting at triangle [o]. *)
Lemma trianglesToLines_rounds (triangles : jsarray Z) (k : nat) :
  ∀ (o : Z) (acc : jsarray Z),
    let lines :=
      foldl (λ lines i,
               addTriangle lines (arr_get triangles i) (arr_get triangles (i + 1))
                           (arr_get triangles (i + 2)))
            acc ((λ j, 3 * j) <$> seqZ o (Z.of_nat k)) in
    arr_to_list lines =
      arr_to_list acc ++ triangleEdges (arr_get triangles <$> seqZ (3 * o) (3 * Z.of_nat k))
    ∧ arr_length lines = arr_length acc + 6 * Z.of_nat k.
Proof.
  induction k as [|k IH]; intros o acc; simpl.
  - split; [by rewrite app_nil_r | lia].
  - rewrite (seqZ_cons o) by lia.
    replace (Z.pred (Z.of_nat (S k))) with (Z.of_nat k) by lia.
    rewrite (seqZ_cons (3 * o)) by lia.
    rewrite (seqZ_cons (Z.succ (3 * o))) by lia.
    rewrite (seqZ_cons (Z.succ (Z.succ (3 * o)))) by lia.
    replace (Z.pred (Z.pred (Z.pred (3 * Z.of_nat (S k))))) with (3 * Z.of_nat k) by lia.
    replace (Z.succ (Z.succ (Z.succ (3 * o)))) with (3 * Z.succ o) by lia.
    cbn [fmap list_fmap foldl triangleEdges].
    destruct (IH (Z.succ o)
                (addTriangle acc (arr_get triangles (3 * o)) (arr_get triangles (3 * o + 1))
                             (arr_get triangles (3 * o + 2)))) as [Hl Hn].
    cbn zeta in Hl, Hn. split.
    + rewrite Hl, arr_to_list_addTriangle, <- app_assoc.
      replace (Z.succ (3 * o)) with (3 * o + 1) by lia.
      replace (Z.succ (3 * o + 1)) with (3 * o + 2) by lia.
      reflexivity.
    + rewrite Hn, arr_length_addTriangle. lia.
Qed.

Lemma trianglesToLines_edges (triangles : jsarray Z) :
  arr_length triangles `mod` 3 = 0 →
  arr_to_list (trianglesToLines triangles) = triangleEdges (arr_to_list triangles)
  ∧ arr_length (trianglesToLines triangles) = 2 * arr_length triangles.
Proof.
  intros Hmod. pose proof (arr_length_nonneg triangles) as Hnn.
  set (m := arr_length triangles `div` 3).
  assert (Hm : arr_length triangles = 3 * m).
  { unfold m. rewrite (Z.div_mod (arr_length triangles) 3) at 1 by lia. lia. }
  assert (Hm0 : 0 ≤ m) by lia.
  unfold trianglesToLines. rewrite Hm, for_range_triples.
  destruct (trianglesToLines_rounds triangles (Z.to_nat m) 0 arr_empty) as [Hl Hn].
  cbn zeta in Hl, Hn. rewrite Z2Nat.id in Hl, Hn by lia.
  split.
  - rewrite Hl, arr_to_list_empty. unfold arr_to_list. rewrite for_range_unit, Hm. reflexivity.
  - rewrite Hn. unfold arr_empty, arr_length. simpl. lia.
Qed.

(** C7, as amended: for a TRIANGLES mesh whose index list is present and
    has a length that is a multiple of three, toWireframe replaces the
    index list by exactly twice as many line indices, the edges (a,b),
    (b,c), (c,a) of each triangle (a,b,c) in order and without
    deduplication, and sets the primitive type to LINES. *)
Theorem toWireframe_triangles (mesh : Geometry) (indices : jsarray Z) :
  primitiveType mesh = TRIANGLES →
  indexList mesh = Some indices →
  arr_length indices `mod` 3 = 0 →
  ∃ lines,
    toWireframe (Some mesh) = Some (with_indexList mesh (Some lines) LINES)
    ∧ arr_length lines = 2 * arr_length indices
    ∧ arr_to_list lines = triangleEdges (arr_to_list indices).
Proof.
  intros Hpt Hil Hmod. exists (trianglesToLines indices).
  destruct (trianglesToLines_edges indices Hmod) as [Hl Hn].
  unfold toWireframe. rewrite Hil, Hpt. done.
Qed.

End ToWireframe.

(** ** mapAttributeIndices *)

Lemma mapAttributeIndices_snoc (indices : gmap string Z) (map : list (string * Z))
    (name : string) (slot : Z) :
  mapAttributeIndices (Some indices) (Some (map ++ [(name, slot)])) =
    <[slot := indices !! name]> (mapAttributeIndices (Some indices) (Some map)).
Proof. unfold mapAttributeIndices. by rewrite foldl_app. Qed.

(** Every entry of the map leaves a key in the returned table. *)
Lemma mapAttributeIndices_key (indices : gmap string Z) (map : list (string * Z))
    (name : string) (slot : Z) :
  (name, slot) ∈ map →
  is_Some (mapAttributeIndices (Some indices) (Some map) !! slot).
Proof.
  induction map as [|[n s] map IH] using rev_ind; intros Hin.
  - by apply elem_of_nil in Hin.
  - rewrite mapAttributeIndices_snoc.
    destruct (decide (s = slot)) as [->|Hne].
    + rewrite lookup_insert_eq. eauto.
    + rewrite lookup_insert_ne by done. apply IH.
      apply elem_of_app in Hin as [Hin|Hin]; [done|].
      apply list_elem_of_singleton in Hin. congruence.
Qed.



(** ** combine: the structural errors *)

Section CombineErrors.
Context `{ExternalOps}.

Lemma no_DeveloperError_Ok {A} (a : A) : no_DeveloperError (Ok a).
Proof. intros message. discriminate. Qed.

Lemma no_DeveloperError_TypeError {A} : no_DeveloperError (@Throw A TypeError).
Proof. intros message. discriminate. Qed.

Lemma no_DeveloperError_bind {A B} (r : result A) (k : A → result B) :
  no_DeveloperError r → (∀ a, no_DeveloperError (k a)) → no_DeveloperError (r ≫= k).
Proof.
  intros Hr Hk message. destruct r as [a|e]; simpl.
  - apply Hk.
  - intros Heq. injection Heq as ->. by eapply Hr.
Qed.

Lemma no_DeveloperError_foldM {A S} (body : S → A → result S) (l : list A) :
  (∀ s a, no_DeveloperError (body s a)) → ∀ s, no_DeveloperError (foldM body s l).
Proof.
  intros Hbody. induction l as [|a l IH]; intros s; simpl.
  - apply no_DeveloperError_Ok.
  - apply no_DeveloperError_bind; [apply Hbody | apply IH].
Qed.

Create HintDb combine_errors.
#[local] Hint Resolve no_DeveloperError_Ok no_DeveloperError_TypeError : combine_errors.

Lemma sumComponents_no_DeveloperError name attribute others n :
  no_DeveloperError (sumComponents name attribute others n).
Proof.
  revert n. induction others as [|instance others IH]; intros n; simpl.
  - auto with combine_errors.
  - destruct (attr_lookup _ _); [|auto with combine_errors].
    case_decide; [auto with combine_errors|].
    destruct (values _); auto with combine_errors.
Qed.

Lemma findAttributesInAllGeometries_no_DeveloperError instances :
  no_DeveloperError (findAttributesInAllGeometries instances).
Proof.
  destruct instances as [|instance0 others]; simpl; [auto with combine_errors|].
  apply no_DeveloperError_foldM. intros acc [name attribute]. simpl.
  destruct (values attribute); [|auto with combine_errors].
  apply no_DeveloperError_bind; [apply sumComponents_no_DeveloperError|].
  intros [n|]; auto with combine_errors.
Qed.

Lemma combineValues_no_DeveloperError instances name attribute :
  no_DeveloperError (combineValues instances name attribute).
Proof.
  unfold combineValues. destruct (values attribute); [|auto with combine_errors].
  apply no_DeveloperError_bind; [|auto with combine_errors].
  apply no_DeveloperError_foldM. intros st instance.
  destruct (attr_lookup _ _) as [source|]; [|auto with combine_errors].
  destruct (values source); auto with combine_errors.
Qed.

Lemma countIndices_no_DeveloperError instances :
  no_DeveloperError (countIndices instances).
Proof.
  apply no_DeveloperError_foldM. intros n instance.
  destruct (indexList _); [|auto with combine_errors].
  destruct n; auto with combine_errors.
Qed.

Lemma combineIndexStep_no_DeveloperError conv st instance :
  no_DeveloperError (combineIndexStep conv st instance).
Proof.
  destruct st as [[destValues n] offset]. unfold combineIndexStep.
  destruct (indexList _); [|auto with combine_errors].
  apply no_DeveloperError_bind; [|auto with combine_errors].
  destruct (attributes _) as [|[? a] ?]; [auto with combine_errors|].
  destruct (values a); auto with combine_errors.
Qed.

(** The loop over the model matrices: it throws exactly when one of the
    later instances has a matrix different from [m]. *)
Lemma matrix_loop_spec (m : Matrix4) (others : list GeometryInstance) :
  let loop :=
    foldM (λ (_ : unit) (instance : GeometryInstance),
             if Matrix4_equals (modelMatrix instance) m then Ok ()
             else Throw (DeveloperError "All instances must have the same modelMatrix."))
          () others in
  (loop = Ok () ∧ ∀ instance, instance ∈ others → Matrix4_equals (modelMatrix instance) m = true)
  ∨ (loop = Throw (DeveloperError "All instances must have the same modelMatrix.")
     ∧ ∃ instance, instance ∈ others ∧ Matrix4_equals (modelMatrix instance) m = false).
Proof.
  induction others as [|instance others IH]; simpl.
  - left. split; [done|]. intros instance Hin. by apply elem_of_nil in Hin.
  - destruct (Matrix4_equals (modelMatrix instance) m) eqn:Heq; simpl.
    + destruct IH as [[Hok Hall]|[Hthrow (i & Hin & Hne)]].
      * left. split; [done|]. intros i [->|Hin]%elem_of_cons; auto.
      * right. split; [done|]. exists i. split; [by apply elem_of_cons; right | done].
    + right. split; [done|]. exists instance. split; [apply list_elem_of_here | done].
Qed.

(** C5: combine raises a DeveloperError exactly when the instance list is
    absent or empty, or has at least two instances and the model matrix of
    some instance differs from that of the first; a single-element list
    never fails and returns the Geometry of its instance unchanged. *)
Theorem combine_structural_error (instances : option (list GeometryInstance)) :
  ((∃ message, combine instances = Throw (DeveloperError message))
   ↔ (instances = None
      ∨ instances = Some []
      ∨ ∃ instance0 others,
          instances = Some (instance0 :: others)
          ∧ (length (instance0 :: others) ≥ 2)%nat
          ∧ ∃ instance, instance ∈ others
              ∧ Matrix4_equals (modelMatrix instance) (modelMatrix instance0) = false))
  ∧ (∀ instance, instances = Some [instance] → combine instances = Ok (geometry instance)).
Proof.
  split; [|by intros instance ->].
  destruct instances as [[|instance0 [|instance1 others]]|].
  - split; [auto|]. intros _. by eexists.
  - split.
    + intros [message Hthrow]. discriminate.
    + intros [?|[?|(i0 & o & Heq & Hlen & _)]]; try discriminate.
      injection Heq as -> <-. simpl in Hlen. lia.
  - pose proof (matrix_loop_spec (modelMatrix instance0) (instance1 :: others)) as Hloop.
    cbn zeta in Hloop. unfold combine.
    destruct Hloop as [[-> Hall]|[-> (i & Hin & Hne)]].
    + split.
      * intros [message Hthrow]. exfalso. revert Hthrow. cbn [mbind result_bind].
        apply no_DeveloperError_bind;
          [apply findAttributesInAllGeometries_no_DeveloperError|].
        intros attrs. apply no_DeveloperError_bind.
        { apply no_DeveloperError_foldM. intros acc p.
          apply no_DeveloperError_bind; [apply combineValues_no_DeveloperError|].
          auto with combine_errors. }
        intros attrs'. apply no_DeveloperError_bind; [apply countIndices_no_DeveloperError|].
        intros n. apply no_DeveloperError_bind; [|auto with combine_errors].
        apply no_DeveloperError_foldM. apply combineIndexStep_no_DeveloperError.
      * intros [?|[?|(i0 & o & Heq & _ & i & Hin & Hne)]]; try discriminate.
        injection Heq as <- <-. rewrite (Hall i Hin) in Hne. discriminate.
    + split.
      * intros _. right. right. exists instance0, (instance1 :: others).
        split; [done|]. split; [simpl; lia|]. eauto.
      * intros _. by eexists.
  - split; [auto|]. intros _. by eexists.
Qed.

End CombineErrors.


(** ** transformToWorldCoordinates *)

Section TransformToWorldCoordinates.
Context `{ExternalOps}.

Lemma attr_lookup_all_have_values name (attrs : Attributes) a :
  all_have_values attrs → attr_lookup name attrs = Some a → is_Some (values a).
Proof.
  intros Hall. induction Hall as [|[n b] attrs Hb Hall IH]; simpl; [done|].
  case_decide; [|done]. by intros [= <-].
Qed.

Lemma attr_store_all_have_values name a (attrs : Attributes) :
  all_have_values attrs → is_Some (values a) → all_have_values (attr_store name a attrs).
Proof.
  intros Hall Ha. induction Hall as [|[n b] attrs Hb Hall IH]; simpl.
  - by repeat constructor.
  - case_decide; constructor; done.
Qed.

Lemma transformNamed_progress
    (f : option GeometryAttribute → result (option GeometryAttribute))
    (name : string) (attrs : Attributes) :
  all_have_values attrs →
  (∀ a, is_Some (values a) → ∃ a', f (Some a) = Ok (Some a') ∧ is_Some (values a')) →
  f None = Ok None →
  ∃ attrs', transformNamed f name attrs = Ok attrs' ∧ all_have_values attrs'.
Proof.
  intros Hall Hf Hnone. unfold transformNamed.
  destruct (attr_lookup name attrs) as [a|] eqn:Hlook.
  - destruct (Hf a) as (a' & -> & Ha'); [by eapply attr_lookup_all_have_values|].
    simpl. eexists. split; [done|]. by apply attr_store_all_have_values.
  - rewrite Hnone. simpl. eauto.
Qed.

Lemma transformPoint_progress matrix a :
  is_Some (values a) →
  ∃ a', transformPoint matrix (Some a) = Ok (Some a') ∧ is_Some (values a').
Proof.
  intros [vs Hvs]. unfold transformPoint. rewrite Hvs.
  eexists. split; [done|]. simpl. eauto.
Qed.

Lemma transformVector_progress matrix a :
  is_Some (values a) →
  ∃ a', transformVector matrix (Some a) = Ok (Some a') ∧ is_Some (values a').
Proof.
  intros [vs Hvs]. unfold transformVector. rewrite Hvs.
  eexists. split; [done|]. simpl. eauto.
Qed.

(** C10: with a model matrix equal to the identity, the instance (its
    geometry and its model matrix) is left as it is and the call returns
    [undefined], not the instance.  On the other path the call returns the
    instance: whenever it returns, the value returned is the instance in
    its final state, and it does return when every attribute has values
    and the matrix can be inverted. *)
Theorem transformToWorldCoordinates_identity_returns_undefined (instance : GeometryInstance) :
  Matrix4_equals (modelMatrix instance) Matrix4_IDENTITY = true →
  transformToWorldCoordinates (Some instance) = Ok (instance, None)
  ∧ (∀ other other' returned,
       Matrix4_equals (modelMatrix other) Matrix4_IDENTITY = false →
       transformToWorldCoordinates (Some other) = Ok (other', returned) →
       returned = Some other')
  ∧ (∀ other inverse,
       Matrix4_equals (modelMatrix other) Matrix4_IDENTITY = false →
       all_have_values (attributes (geometry other)) →
       Matrix4_inverse (modelMatrix other) = Ok inverse →
       ∃ other',
         transformToWorldCoordinates (Some other) = Ok (other', Some other')
         ∧ modelMatrix other' = Matrix4_clone Matrix4_IDENTITY).
Proof.
  intros Hid. split; [|split].
  - unfold transformToWorldCoordinates. by rewrite Hid.
  - intros other other' returned Hne. unfold transformToWorldCoordinates. rewrite Hne.
    destruct (transformNamed _ "position" _) as [attrs|]; simpl; [|done].
    match goal with |- context [mbind _ ?r] => destruct r as [attrs'|] end; simpl; [|done].
    by intros [= <- <-].
  - intros other inverse Hne Hall Hinv. unfold transformToWorldCoordinates. rewrite Hne.
    destruct (transformNamed_progress (transformPoint (modelMatrix other)) "position"
                (attributes (geometry other)) Hall) as (attrs & -> & Hall1);
      [apply transformPoint_progress | done |].
    cbn [mbind result_bind].
    case_decide.
    + rewrite Hinv. cbn [mbind result_bind].
      set (normalMatrix := Matrix4_getRotation (Matrix4_transpose inverse)).
      destruct (transformNamed_progress (transformVector normalMatrix) "normal" attrs Hall1)
        as (attrs2 & -> & Hall2); [apply transformVector_progress | done |].
      cbn [mbind result_bind].
      destruct (transformNamed_progress (transformVector normalMatrix) "binormal" attrs2 Hall2)
        as (attrs3 & -> & Hall3); [apply transformVector_progress | done |].
      cbn [mbind result_bind].
      destruct (transformNamed_progress (transformVector normalMatrix) "tangent" attrs3 Hall3)
        as (attrs4 & -> & Hall4); [apply transformVector_progress | done |].
      eexists. split; [reflexivity | reflexivity].
    + eexists. split; [reflexivity | reflexivity].
Qed.

End TransformToWorldCoordinates.


(** ** reorderForPreVertexCache: the range check *)

Section ReorderRangeCheck.
Context `{ExternalTypes}.

Lemma initCrossReference_rounds (n : nat) (t : Z) :
  arr_get (foldl (λ xref i, arr_set xref i (Some (-1))) arr_empty (seqZ 0 (Z.of_nat n))) t =
    if decide (0 ≤ t < Z.of_nat n) then Some (-1) else None.
Proof.
  induction n as [|n IH].
  - simpl. case_decide; [lia | done].
  - rewrite seqZ_S, foldl_app. cbn [foldl]. rewrite Z.add_0_l.
    destruct (decide (Z.of_nat n = t)) as [Heq|Hne].
    + rewrite Heq, arr_get_set_eq. by rewrite decide_True by lia.
    + rewrite arr_get_set_ne by done. rewrite IH.
      destruct (decide (0 ≤ t < Z.of_nat n)).
      * by rewrite decide_True by lia.
      * by rewrite decide_False by lia.
Qed.

Lemma initCrossReference_get (numVertices t : Z) :
  arr_get (initCrossReference numVertices) t =
    if decide (0 ≤ t < numVertices) then Some (-1) else None.
Proof.
  unfold initCrossReference. rewrite for_range_unit.
  destruct (decide (0 ≤ numVertices)) as [Hn|Hn].
  - rewrite <- (Z2Nat.id numVertices) at 1 by lia. rewrite initCrossReference_rounds.
    repeat case_decide; try done; lia.
  - rewrite seqZ_nil by lia. simpl. case_decide; [lia | done].
Qed.

Lemma initCrossReference_in_range (numVertices : Z) :
  xref_in_range numVertices (initCrossReference numVertices).
Proof.
  intros t. rewrite initCrossReference_get. case_decide; [done|]. by intros [? ?].
Qed.

Lemma reorderIndexStep_returns numVertices indicesIn xref indicesOut nextIndex into :
  xref_in_range numVertices xref →
  ∃ xref' indicesOut' nextIndex',
    reorderIndexStep numVertices indicesIn (xref, indicesOut, nextIndex) into
      = Ok (xref', indicesOut', nextIndex')
    ∧ xref_in_range numVertices xref'.
Proof.
  intros Hrange. unfold reorderIndexStep.
  case_decide as Htemp; [by eauto 6|].
  destruct (arr_get indicesIn into) as [t|] eqn:Hin; [|by eauto 6].
  assert (Ht : 0 ≤ t < numVertices).
  { apply Hrange. change (arr_get xref t = Some (-1)) in Htemp. rewrite Htemp. eauto. }
  case_decide; [lia|]. eexists _, _, _. split; [done|].
  intros t'. destruct (decide (t = t')) as [<-|Hne]; [done|].
  rewrite arr_get_set_ne by done. apply Hrange.
Qed.

(** The throw in the index loop is never reached: an index at or beyond
    the vertex count reads [undefined] from the cross-reference table,
    which is not [-1], so the comparison with [numVertices] is skipped. *)
Lemma reorderIndices_returns numVertices indicesIn :
  ∃ st, reorderIndices numVertices (initCrossReference numVertices) indicesIn = Ok st.
Proof.
  unfold reorderIndices.
  generalize (for_range 0 (arr_length indicesIn) 1).
  generalize (initCrossReference_in_range numVertices).
  generalize (initCrossReference numVertices) (@arr_empty Z) 0.
  intros xref indicesOut nextIndex Hrange l. revert xref indicesOut nextIndex Hrange.
  induction l as [|into l IH]; intros xref indicesOut nextIndex Hrange; cbn [foldM]; [eauto|].
  destruct (reorderIndexStep_returns numVertices indicesIn xref indicesOut nextIndex into Hrange)
    as (xref' & indicesOut' & nextIndex' & -> & Hrange').
  simpl. by apply IH.
Qed.

Lemma reorderForPreVertexCache_returns (mesh : Geometry) (numVertices : Z) :
  computeNumberOfVertices mesh = Ok numVertices →
  ∃ mesh', reorderForPreVertexCache (Some mesh) = Ok (Some mesh').
Proof.
  intros Hn. unfold reorderForPreVertexCache. rewrite Hn. cbn [mbind result_bind].
  destruct (indexList mesh) as [indices|]; [|by eauto].
  destruct (reorderIndices_returns numVertices indices) as ([[xref out] next] & ->).
  by eauto.
Qed.

End ReorderRangeCheck.


(** ** reorderForPreVertexCache: vertex-index correspondence *)

Section ReorderCorrespondence.
Context `{ExternalTypes}.

Lemma reorder_inv_init numVertices indices :
  reorder_inv numVertices indices 0 (initCrossReference numVertices, arr_empty, 0).
Proof.
  unfold reorder_inv. split; [lia|]. split; [|split; [|split; [|split]]].
  - intros t Ht. rewrite initCrossReference_get. rewrite decide_True by done. eauto.
  - intros t v. rewrite initCrossReference_get. case_decide; [|done].
    intros [= <-]. by left.
  - intros t t' v. rewrite initCrossReference_get. case_decide; [|done].
    by intros [= <-] _ ?.
  - intros p old Hp. lia.
  - reflexivity.
Qed.

Lemma reorder_inv_step numVertices indices k st :
  indices_below numVertices indices →
  0 ≤ k < arr_length indices →
  reorder_inv numVertices indices k st →
  ∃ st', reorderIndexStep numVertices indices st k = Ok st'
         ∧ reorder_inv numVertices indices (k + 1) st'.
Proof.
  intros Hbelow Hk. destruct st as [[xref out] next].
  intros (Hnext & Hdom & Hval & Hinj & Hout & Hlen).
  destruct (Hbelow k Hk) as (old & Hold & Hrange).
  destruct (Hdom old Hrange) as [v Hv].
  unfold reorderIndexStep. rewrite Hold. change (arr_get_at xref (Some old)) with (arr_get xref old).
  rewrite Hv. destruct (decide (v = -1)) as [->|Hne].
  - rewrite decide_False by (intros Hc; by apply Hc).
    rewrite decide_False by lia.
    eexists. split; [done|]. unfold reorder_inv.
    split; [lia|]. split; [|split; [|split; [|split]]].
    + intros t Ht. destruct (decide (old = t)) as [<-|Hd].
      * rewrite arr_get_set_eq. eauto.
      * rewrite arr_get_set_ne by done. by apply Hdom.
    + intros t w. destruct (decide (old = t)) as [<-|Hd].
      * rewrite arr_get_set_eq. intros [= <-]. right. lia.
      * rewrite arr_get_set_ne by done. intros Hw.
        destruct (Hval t w Hw); [by left | right; lia].
    + intros t t' w. destruct (decide (old = t)) as [<-|Hd];
        destruct (decide (old = t')) as [<-|Hd']; try done.
      * rewrite arr_get_set_eq, arr_get_set_ne by done. intros [= <-] Hw _.
        destruct (Hval _ _ Hw); lia.
      * rewrite arr_get_set_eq, arr_get_set_ne by done. intros Hw [= <-] _.
        destruct (Hval _ _ Hw); lia.
      * rewrite !arr_get_set_ne by done. apply Hinj.
    + intros p old' Hp Hold'. destruct (decide (p = k)) as [->|Hd].
      * assert (old' = old) as -> by congruence.
        exists next. by rewrite !arr_get_set_eq.
      * destruct (Hout p old') as (new & Hnew & Hp1 & Hp2); [lia | done |].
        exists new. split; [done|]. rewrite arr_get_set_ne by done. split; [done|].
        rewrite arr_get_set_ne; [done|]. intros <-. rewrite Hv in Hp2. injection Hp2. lia.
    + rewrite arr_length_set. rewrite decide_True by lia. lia.
  - rewrite decide_True by congruence.
    eexists. split; [done|]. unfold reorder_inv.
    split; [lia|]. split; [done|]. split; [done|]. split; [done|]. split.
    + intros p old' Hp Hold'. destruct (decide (p = k)) as [->|Hd].
      * assert (old' = old) as -> by congruence.
        exists v. rewrite arr_get_set_eq. split; [|done].
        destruct (Hval _ _ Hv); lia.
      * destruct (Hout p old') as (new & Hnew & Hp1 & Hp2); [lia | done |].
        exists new. by rewrite arr_get_set_ne.
    + rewrite arr_length_set. rewrite decide_True by lia. lia.
Qed.

Lemma reorder_inv_rounds numVertices indices (k : nat) :
  indices_below numVertices indices →
  Z.of_nat k ≤ arr_length indices →
  ∃ st, foldM (reorderIndexStep numVertices indices)
              (initCrossReference numVertices, arr_empty, 0) (seqZ 0 (Z.of_nat k)) = Ok st
        ∧ reorder_inv numVertices indices (Z.of_nat k) st.
Proof.
  intros Hbelow. induction k as [|k IH]; intros Hk.
  - eexists. split; [done|]. apply reorder_inv_init.
  - destruct IH as (st & Hst & Hinv); [lia|].
    destruct (reorder_inv_step numVertices indices (Z.of_nat k) st Hbelow) as (st' & Hstep & Hinv');
      [lia | done |].
    exists st'. rewrite seqZ_S, foldM_app, Hst. cbn [mbind result_bind foldM].
    rewrite Z.add_0_l, Hstep. split; [done|].
    by replace (Z.of_nat (S k)) with (Z.of_nat k + 1) by lia.
Qed.

(** The inner loop of the vertex pass: a block of [numComponents] keys
    starting at [base] is overwritten. *)
Lemma copy_block_get (elementsIn out : jsarray number) (base source : Z) (n : nat) (key : Z) :
  arr_get (foldl (λ elementsOut i, arr_set elementsOut (base + i) (arr_get elementsIn (source + i)))
                 out (seqZ 0 (Z.of_nat n))) key =
    if decide (base ≤ key < base + Z.of_nat n)
    then arr_get elementsIn (source + (key - base))
    else arr_get out key.
Proof.
  induction n as [|n IH].
  - simpl. by rewrite decide_False by lia.
  - rewrite seqZ_S, foldl_app. cbn [foldl]. rewrite Z.add_0_l.
    destruct (decide (base + Z.of_nat n = key)) as [Heq|Hne].
    + rewrite Heq, arr_get_set_eq. rewrite decide_True by lia. f_equal. lia.
    + rewrite arr_get_set_ne by done. rewrite IH.
      destruct (decide (base ≤ key < base + Z.of_nat n)).
      * by rewrite decide_True by lia.
      * by rewrite decide_False by lia.
Qed.

Lemma reorderVertexStep_get xref numComponents (elementsIn out : jsarray number) v key :
  arr_get (reorderVertexStep xref numComponents elementsIn out v) key =
    match arr_get xref v with
    | Some temp =>
        if decide (numComponents * temp ≤ key < numComponents * temp + numComponents)
        then arr_get elementsIn (numComponents * v + (key - numComponents * temp))
        else arr_get out key
    | None => arr_get out key
    end.
Proof.
  unfold reorderVertexStep. destruct (arr_get xref v) as [temp|]; [|done].
  rewrite for_range_unit. destruct (decide (0 ≤ numComponents)) as [Hn|Hn].
  - rewrite <- (Z2Nat.id numComponents) at 1 by lia. rewrite copy_block_get.
    rewrite Z2Nat.id by lia. done.
  - rewrite seqZ_nil by lia. simpl. by rewrite decide_False by lia.
Qed.

(** Vertices whose block lies elsewhere leave [key] alone. *)
Lemma reorderVertices_untouched xref numComponents (elementsIn : jsarray number) l :
  ∀ (out : jsarray number) key,
    (∀ v temp, v ∈ l → arr_get xref v = Some temp →
       ¬ (numComponents * temp ≤ key < numComponents * temp + numComponents)) →
    arr_get (foldl (reorderVertexStep xref numComponents elementsIn) out l) key
      = arr_get out key.
Proof.
  induction l as [|v l IH]; intros out key Hfree; simpl; [done|].
  rewrite IH.
  - rewrite reorderVertexStep_get. destruct (arr_get xref v) as [temp|] eqn:Hv; [|done].
    rewrite decide_False; [done|]. apply (Hfree v temp); [apply list_elem_of_here | done].
  - intros v' temp Hin. apply Hfree. by apply elem_of_cons; right.
Qed.

Lemma reorderVertices_get numVertices xref numComponents (elementsIn : jsarray number)
    (old new i : Z) :
  (∀ t t' v, arr_get xref t = Some v → arr_get xref t' = Some v → v ≠ -1 → t = t') →
  (∀ t v, arr_get xref t = Some v → v = -1 ∨ 0 ≤ v) →
  0 ≤ old < numVertices →
  arr_get xref old = Some new →
  0 ≤ new →
  0 ≤ i < numComponents →
  arr_get (foldl (reorderVertexStep xref numComponents elementsIn) arr_empty
                 (for_range 0 numVertices 1))
          (numComponents * new + i)
    = arr_get elementsIn (numComponents * old + i).
Proof.
  intros Hinj Hval Hold Hxref Hnew Hi. rewrite for_range_unit.
  replace numVertices with (old + (1 + (numVertices - old - 1))) by lia.
  rewrite seqZ_app by lia. rewrite (seqZ_app _ 1) by lia.
  rewrite !foldl_app. rewrite reorderVertices_untouched.
  - change (seqZ (0 + old) 1) with [0 + old]. cbn [foldl]. rewrite Z.add_0_l.
    rewrite reorderVertexStep_get, Hxref. rewrite decide_True by lia. f_equal. lia.
  - intros v temp Hin Hv Hkey. apply elem_of_seqZ in Hin.
    assert (temp = new) as -> by nia.
    assert (v = old) by (eapply Hinj; [done | done | lia]). lia.
Qed.

Lemma attr_lookup_fmap (f : GeometryAttribute → GeometryAttribute) name (attrs : Attributes) :
  attr_lookup name ((λ p : string * GeometryAttribute, (p.1, f p.2)) <$> attrs)
    = f <$> attr_lookup name attrs.
Proof.
  induction attrs as [|[n a] attrs IH]; simpl; [done|]. by case_decide.
Qed.

(** C3: with an index list whose indices are all below the vertex count,
    the reordered mesh keeps the vertex-index correspondence: at every
    position of the index list and for every attribute, the block found
    through the new index in the new values is, component by component,
    the block found through the old index in the old values. *)
Theorem reorderForPreVertexCache_correspondence (mesh : Geometry) (indices : jsarray Z)
    (numVertices : Z) :
  indexList mesh = Some indices →
  computeNumberOfVertices mesh = Ok numVertices →
  indices_below numVertices indices →
  ∃ mesh' indices',
    reorderForPreVertexCache (Some mesh) = Ok (Some mesh')
    ∧ indexList mesh' = Some indices'
    ∧ arr_length indices' = arr_length indices
    ∧ ∀ p old, 0 ≤ p < arr_length indices → arr_get indices p = Some old →
        ∃ new, arr_get indices' p = Some new
          ∧ ∀ name attribute elementsIn,
              attr_lookup name (attributes mesh) = Some attribute →
              values attribute = Some elementsIn →
              ∃ attribute' elementsOut,
                attr_lookup name (attributes mesh') = Some attribute'
                ∧ values attribute' = Some elementsOut
                ∧ componentsPerAttribute attribute' = componentsPerAttribute attribute
                ∧ ∀ i, 0 ≤ i < componentsPerAttribute attribute →
                    arr_get elementsOut (componentsPerAttribute attribute * new + i)
                      = arr_get elementsIn (componentsPerAttribute attribute * old + i).
Proof.
  intros Hil Hn Hbelow.
  destruct (reorder_inv_rounds numVertices indices (Z.to_nat (arr_length indices)) Hbelow)
    as ([[xref out] next] & Hloop & Hinv).
  { pose proof (arr_length_nonneg indices). lia. }
  rewrite Z2Nat.id in Hloop, Hinv by apply arr_length_nonneg.
  destruct Hinv as (Hnext & Hdom & Hval & Hinj & Hout & Hlen).
  eexists _, out. split; [|split; [|split]].
  - unfold reorderForPreVertexCache. rewrite Hn. cbn [mbind result_bind]. rewrite Hil.
    unfold reorderIndices. rewrite for_range_unit, Hloop. reflexivity.
  - reflexivity.
  - done.
  - intros p old Hp Hold. destruct (Hout p old Hp Hold) as (new & Hnew & Hp1 & Hp2).
    exists new. split; [done|]. intros name attribute elementsIn Hlook Hvs.
    cbn [attributes]. rewrite attr_lookup_fmap, Hlook. cbn [fmap option_fmap option_map].
    unfold reorderAttribute. rewrite Hvs.
    eexists _, _. split; [done|]. split; [done|]. split; [done|].
    intros i Hi. destruct (Hbelow p Hp) as (old' & Hold' & Hrange).
    assert (old' = old) as -> by congruence.
    apply (reorderVertices_get numVertices); try done.
    intros t v Hv. destruct (Hval t v Hv); lia.
Qed.

End ReorderCorrespondence.


(** ** computeNormal: vertices without triangle *)

Section ComputeNormal.
Context `{ExternalOps}.

Lemma occurrences_zero indices v : occurrences indices v 0 = 0.
Proof. reflexivity. Qed.

Lemma occurrences_succ indices v k :
  0 ≤ k →
  occurrences indices v (k + 1) =
    occurrences indices v k + (if decide (arr_get indices k = Some v) then 1 else 0).
Proof.
  intros Hk. unfold occurrences. rewrite seqZ_app by lia.
  rewrite filter_app, length_app. change (seqZ (0 + k) 1) with [0 + k].
  rewrite Z.add_0_l, filter_cons, filter_nil. case_decide; simpl; lia.
Qed.

Lemma occurrences_nonneg indices v k : 0 ≤ occurrences indices v k.
Proof. unfold occurrences. lia. Qed.

Lemma occurrences_unreferenced_nat indices v (n : nat) :
  (∀ p, 0 ≤ p < Z.of_nat n → arr_get indices p ≠ Some v) →
  occurrences indices v (Z.of_nat n) = 0.
Proof.
  induction n as [|n IH]; intros Hfree; [done|].
  replace (Z.of_nat (S n)) with (Z.of_nat n + 1) by lia.
  rewrite occurrences_succ by lia. rewrite IH by (intros p Hp; apply Hfree; lia).
  rewrite decide_False; [done|]. apply Hfree. lia.
Qed.

Lemma occurrences_unreferenced indices v k :
  (∀ p, 0 ≤ p < k → arr_get indices p ≠ Some v) → occurrences indices v k = 0.
Proof.
  intros Hfree. destruct (decide (0 ≤ k)) as [Hk|Hk].
  - rewrite <- (Z2Nat.id k) by done. apply occurrences_unreferenced_nat.
    intros p Hp. apply Hfree. lia.
  - unfold occurrences. by rewrite seqZ_nil by lia.
Qed.

Lemma fill_get {A} (x : A) (a0 : jsarray A) (n : nat) (v : Z) :
  arr_get (foldl (λ a i, arr_set a i (Some x)) a0 (seqZ 0 (Z.of_nat n))) v =
    if decide (0 ≤ v < Z.of_nat n) then Some x else arr_get a0 v.
Proof.
  induction n as [|n IH].
  - simpl. by rewrite decide_False by lia.
  - rewrite seqZ_S, foldl_app. cbn [foldl]. rewrite Z.add_0_l.
    destruct (decide (Z.of_nat n = v)) as [Heq|Hne].
    + rewrite Heq, arr_get_set_eq. by rewrite decide_True by lia.
    + rewrite arr_get_set_ne by done. rewrite IH.
      destruct (decide (0 ≤ v < Z.of_nat n)).
      * by rewrite decide_True by lia.
      * by rewrite decide_False by lia.
Qed.

Lemma fill_range_get {A} (x : A) (a0 : jsarray A) (n v : Z) :
  arr_get (foldl (λ a i, arr_set a i (Some x)) a0 (for_range 0 n 1)) v =
    if decide (0 ≤ v < n) then Some x else arr_get a0 v.
Proof.
  rewrite for_range_unit. destruct (decide (0 ≤ n)) as [Hn|Hn].
  - pose proof (fill_get x a0 (Z.to_nat n) v) as Hfill.
    rewrite Z2Nat.id in Hfill by done. done.
  - rewrite seqZ_nil by lia. simpl. by rewrite decide_False by lia.
Qed.

Lemma counting_inv_init numVertices indices :
  counting_inv numVertices indices 0
    (foldl (λ a i, arr_set a i (Some {| indexOffset := 0; count := 0; currentCount := 0 |}))
           (arr_new numVertices) (for_range 0 numVertices 1)).
Proof.
  intros v Hv. rewrite fill_range_get.
  rewrite decide_True by lia. eexists. split; [done|]. by rewrite occurrences_zero.
Qed.

Lemma incrementCount_counting numVertices indices k normalsPerVertex u :
  0 ≤ k →
  counting_inv numVertices indices k normalsPerVertex →
  arr_get indices k = Some u →
  0 ≤ u < numVertices →
  ∃ normalsPerVertex',
    incrementCount normalsPerVertex (Some u) = Ok normalsPerVertex'
    ∧ counting_inv numVertices indices (k + 1) normalsPerVertex'.
Proof.
  intros Hk Hinv Hu Hrange. destruct (Hinv u Hrange) as (d & Hd & Hcount & Hcur).
  unfold incrementCount. change (arr_get_at normalsPerVertex (Some u)) with (arr_get normalsPerVertex u).
  rewrite Hd. eexists. split; [done|].
  intros v Hv. rewrite occurrences_succ by done. rewrite Hu.
  destruct (decide (u = v)) as [<-|Hne].
  - rewrite arr_get_set_eq. eexists. split; [done|]. simpl.
    rewrite decide_True by done. split; [lia | done].
  - rewrite arr_get_set_ne by done. destruct (Hinv v Hv) as (d' & Hd' & Hcount' & Hcur').
    exists d'. split; [done|]. rewrite decide_False by congruence. split; [lia | done].
Qed.

(** One round of the first triangle loop. *)
Lemma faceNormalStep_counting (vertices : jsarray number) indices numVertices
    normalsPerVertex normalsPerTriangle t :
  indices_below numVertices indices →
  0 ≤ t → 3 * t + 3 ≤ arr_length indices →
  counting_inv numVertices indices (3 * t) normalsPerVertex →
  (∀ k, 0 ≤ k < t → is_Some (arr_get normalsPerTriangle k)) →
  ∃ normalsPerVertex' normalsPerTriangle',
    faceNormalStep vertices indices (normalsPerVertex, normalsPerTriangle, t) (3 * t)
      = Ok (normalsPerVertex', normalsPerTriangle', t + 1)
    ∧ counting_inv numVertices indices (3 * (t + 1)) normalsPerVertex'
    ∧ (∀ k, 0 ≤ k < t + 1 → is_Some (arr_get normalsPerTriangle' k)).
Proof.
  intros Hbelow Ht Hlen Hinv Htri.
  destruct (Hbelow (3 * t)) as (u0 & Hu0 & Hr0); [lia|].
  destruct (Hbelow (3 * t + 1)) as (u1 & Hu1 & Hr1); [lia|].
  destruct (Hbelow (3 * t + 2)) as (u2 & Hu2 & Hr2); [lia|].
  destruct (incrementCount_counting numVertices indices (3 * t) normalsPerVertex u0)
    as (npv1 & Hstep1 & Hinv1); [lia | done | done | done |].
  destruct (incrementCount_counting numVertices indices (3 * t + 1) npv1 u1)
    as (npv2 & Hstep2 & Hinv2); [lia | done | done | done |].
  destruct (incrementCount_counting numVertices indices (3 * t + 1 + 1) npv2 u2)
    as (npv3 & Hstep3 & Hinv3);
    [lia | done | by replace (3 * t + 1 + 1) with (3 * t + 2) by lia | done |].
  unfold faceNormalStep. rewrite Hu0, Hu1, Hu2, Hstep1. cbn [mbind result_bind].
  rewrite Hstep2. cbn [mbind result_bind]. rewrite Hstep3. cbn [mbind result_bind].
  eexists _, _. split; [done|]. split.
  - by replace (3 * (t + 1)) with (3 * t + 1 + 1 + 1) by lia.
  - intros k Hk. destruct (decide (t = k)) as [<-|Hne].
    + rewrite arr_get_set_eq. eauto.
    + rewrite arr_get_set_ne by done. apply Htri. lia.
Qed.

Lemma faceNormal_rounds (vertices : jsarray number) indices numVertices normalsPerVertex
    normalsPerTriangle (rounds : nat) :
  indices_below numVertices indices →
  3 * Z.of_nat rounds ≤ arr_length indices →
  counting_inv numVertices indices 0 normalsPerVertex →
  ∃ normalsPerVertex' normalsPerTriangle',
    foldM (faceNormalStep vertices indices) (normalsPerVertex, normalsPerTriangle, 0)
          ((λ k, 3 * k) <$> seqZ 0 (Z.of_nat rounds))
      = Ok (normalsPerVertex', normalsPerTriangle', Z.of_nat rounds)
    ∧ counting_inv numVertices indices (3 * Z.of_nat rounds) normalsPerVertex'
    ∧ (∀ k, 0 ≤ k < Z.of_nat rounds → is_Some (arr_get normalsPerTriangle' k)).
Proof.
  intros Hbelow. induction rounds as [|rounds IH]; intros Hlen Hinv.
  - eexists _, _. split; [done|]. split; [done|]. intros k Hk. lia.
  - destruct IH as (npv & npt & Hloop & Hinv' & Htri); [lia | done |].
    destruct (faceNormalStep_counting vertices indices numVertices npv npt (Z.of_nat rounds))
      as (npv' & npt' & Hstep & Hinv'' & Htri'); [done | lia | lia | done | done |].
    exists npv', npt'. rewrite seqZ_S, fmap_app, foldM_app, Hloop.
    cbn [mbind result_bind fmap list_fmap foldM]. rewrite Z.add_0_l, Hstep.
    cbn [mbind result_bind].
    replace (Z.of_nat (S rounds)) with (Z.of_nat rounds + 1) by lia. done.
Qed.

(** The offset loop keeps the counts. *)
Lemma offset_rounds numVertices indices k (l : list Z) :
  (∀ i, i ∈ l → 0 ≤ i < numVertices) →
  ∀ normalsPerVertex offset,
    counting_inv numVertices indices k normalsPerVertex →
    ∃ normalsPerVertex' offset',
      foldM offsetStep (normalsPerVertex, offset) l = Ok (normalsPerVertex', offset')
      ∧ counting_inv numVertices indices k normalsPerVertex'.
Proof.
  induction l as [|i l IH]; intros Hl npv offset Hinv; cbn [foldM]; [by eauto|].
  destruct (Hinv i) as (d & Hd & Hcount & Hcur); [apply Hl, list_elem_of_here|].
  assert (Hstep : offsetStep (npv, offset) i
                  = Ok (arr_set npv i (Some {| indexOffset := indexOffset d + offset;
                                               count := count d;
                                               currentCount := currentCount d |}),
                        offset + count d)).
  { unfold offsetStep. by rewrite Hd. }
  rewrite Hstep. cbn [mbind result_bind].
  apply IH; [intros i' Hi'; apply Hl; by apply elem_of_cons; right|].
  intros v Hv. destruct (decide (i = v)) as [<-|Hne].
  - rewrite arr_get_set_eq. eexists. split; [done|]. done.
  - rewrite arr_get_set_ne by done. by apply Hinv.
Qed.

Lemma counting_recording numVertices indices bound normalsPerVertex normalIndices :
  counting_inv numVertices indices (arr_length indices) normalsPerVertex →
  recording_inv numVertices indices 0 bound normalsPerVertex normalIndices.
Proof.
  intros Hinv v Hv. destruct (Hinv v Hv) as (d & Hd & Hcount & Hcur).
  exists d. split; [done|]. split; [done|]. split; [by rewrite occurrences_zero|].
  intros j Hj. lia.
Qed.

Lemma recording_inv_weaken numVertices indices k bound bound' normalsPerVertex normalIndices :
  bound ≤ bound' →
  recording_inv numVertices indices k bound normalsPerVertex normalIndices →
  recording_inv numVertices indices k bound' normalsPerVertex normalIndices.
Proof.
  intros Hle Hinv v Hv. destruct (Hinv v Hv) as (d & Hd & Hcount & Hcur & Hslots).
  exists d. split; [done|]. split; [done|]. split; [done|].
  intros j Hj. destruct (Hslots j Hj) as (triangle & Ht & Hb). exists triangle. split; [done | lia].
Qed.

Lemma recordTriangle_recording numVertices indices k bound j normalsPerVertex normalIndices u :
  0 ≤ k → 0 ≤ j < bound →
  recording_inv numVertices indices k bound normalsPerVertex normalIndices →
  arr_get indices k = Some u →
  0 ≤ u < numVertices →
  ∃ normalsPerVertex' normalIndices',
    recordTriangle j (normalsPerVertex, normalIndices) (Some u)
      = Ok (normalsPerVertex', normalIndices')
    ∧ recording_inv numVertices indices (k + 1) bound normalsPerVertex' normalIndices'.
Proof.
  intros Hk Hj Hinv Hu Hrange.
  destruct (Hinv u Hrange) as (d & Hd & Hcount & Hcur & Hslots).
  unfold recordTriangle.
  change (arr_get_at normalsPerVertex (Some u)) with (arr_get normalsPerVertex u).
  rewrite Hd. eexists _, _. split; [done|].
  intros v Hv. rewrite occurrences_succ by done. rewrite Hu.
  destruct (decide (u = v)) as [<-|Hne].
  - rewrite arr_get_set_eq. eexists. split; [done|]. cbn [indexOffset count currentCount].
    rewrite decide_True by done. split; [done|]. split; [lia|].
    intros j' Hj'.
    destruct (decide (indexOffset d + currentCount d = indexOffset d + j')) as [Heq|Hd'].
    + rewrite <- Heq, arr_get_set_eq. eauto.
    + rewrite arr_get_set_ne by done. apply Hslots. lia.
  - rewrite arr_get_set_ne by done.
    destruct (Hinv v Hv) as (d' & Hd' & Hcount' & Hcur' & Hslots').
    exists d'. split; [done|]. rewrite decide_False by congruence.
    split; [done|]. split; [lia|].
    intros j' Hj'.
    destruct (decide (indexOffset d + currentCount d = indexOffset d' + j')) as [Heq|Hdk].
    + rewrite <- Heq, arr_get_set_eq. eauto.
    + rewrite arr_get_set_ne by done. by apply Hslots'.
Qed.

(** One round of the second triangle loop. *)
Lemma normalIndexStep_recording indices numVertices normalsPerVertex normalIndices t :
  indices_below numVertices indices →
  0 ≤ t → 3 * t + 3 ≤ arr_length indices →
  recording_inv numVertices indices (3 * t) t normalsPerVertex normalIndices →
  ∃ normalsPerVertex' normalIndices',
    normalIndexStep indices (normalsPerVertex, normalIndices, t) (3 * t)
      = Ok (normalsPerVertex', normalIndices', t + 1)
    ∧ recording_inv numVertices indices (3 * (t + 1)) (t + 1) normalsPerVertex' normalIndices'.
Proof.
  intros Hbelow Ht Hlen Hinv.
  apply (recording_inv_weaken _ _ _ t (t + 1)) in Hinv; [|lia].
  destruct (Hbelow (3 * t)) as (u0 & Hu0 & Hr0); [lia|].
  destruct (Hbelow (3 * t + 1)) as (u1 & Hu1 & Hr1); [lia|].
  destruct (Hbelow (3 * t + 2)) as (u2 & Hu2 & Hr2); [lia|].
  destruct (recordTriangle_recording numVertices indices (3 * t) (t + 1) t
              normalsPerVertex normalIndices u0)
    as (npv1 & ni1 & Hstep1 & Hinv1); [lia | lia | done | done | done |].
  destruct (recordTriangle_recording numVertices indices (3 * t + 1) (t + 1) t npv1 ni1 u1)
    as (npv2 & ni2 & Hstep2 & Hinv2); [lia | lia | done | done | done |].
  destruct (recordTriangle_recording numVertices indices (3 * t + 1 + 1) (t + 1) t npv2 ni2 u2)
    as (npv3 & ni3 & Hstep3 & Hinv3);
    [lia | lia | done | by replace (3 * t + 1 + 1) with (3 * t + 2) by lia | done |].
  unfold normalIndexStep. rewrite Hu0, Hu1, Hu2, Hstep1. cbn [mbind result_bind].
  rewrite Hstep2. cbn [mbind result_bind]. rewrite Hstep3. cbn [mbind result_bind].
  eexists _, _. split; [done|].
  by replace (3 * (t + 1)) with (3 * t + 1 + 1 + 1) by lia.
Qed.

Lemma normalIndex_rounds indices numVertices normalsPerVertex normalIndices (rounds : nat) :
  indices_below numVertices indices →
  3 * Z.of_nat rounds ≤ arr_length indices →
  recording_inv numVertices indices 0 0 normalsPerVertex normalIndices →
  ∃ normalsPerVertex' normalIndices',
    foldM (normalIndexStep indices) (normalsPerVertex, normalIndices, 0)
          ((λ k, 3 * k) <$> seqZ 0 (Z.of_nat rounds))
      = Ok (normalsPerVertex', normalIndices', Z.of_nat rounds)
    ∧ recording_inv numVertices indices (3 * Z.of_nat rounds) (Z.of_nat rounds)
                    normalsPerVertex' normalIndices'.
Proof.
  intros Hbelow. induction rounds as [|rounds IH]; intros Hlen Hinv.
  - eexists _, _. split; [done|]. done.
  - destruct IH as (npv & ni & Hloop & Hinv'); [lia | done |].
    destruct (normalIndexStep_recording indices numVertices npv ni (Z.of_nat rounds))
      as (npv' & ni' & Hstep & Hinv''); [done | lia | lia | done |].
    exists npv', ni'. rewrite seqZ_S, fmap_app, foldM_app, Hloop.
    cbn [mbind result_bind fmap list_fmap foldM]. rewrite Z.add_0_l, Hstep.
    cbn [mbind result_bind].
    replace (Z.of_nat (S rounds)) with (Z.of_nat rounds + 1) by lia. done.
Qed.

(** The sum over the triangles of a vertex reads only filled slots. *)
Lemma sumNormals_returns (normalsPerTriangle : jsarray Cartesian3) (normalIndices : jsarray Z)
    (offset : Z) (l : list Z) :
  (∀ j, j ∈ l →
     ∃ triangle n, arr_get normalIndices (offset + j) = Some triangle
                   ∧ arr_get normalsPerTriangle triangle = Some n) →
  ∀ init, ∃ normal,
    foldM (λ normal j,
             match arr_get_at normalsPerTriangle (arr_get normalIndices (offset + j)) with
             | Some n => Ok (Cartesian3_add normal n)
             | None => Throw TypeError
             end) init l = Ok normal.
Proof.
  induction l as [|j l IH]; intros Hl init; cbn [foldM]; [by eauto|].
  destruct (Hl j) as (triangle & n & Hslot & Hn); [apply list_elem_of_here|].
  rewrite Hslot. change (arr_get_at normalsPerTriangle (Some triangle))
    with (arr_get normalsPerTriangle triangle).
  rewrite Hn. cbn [mbind result_bind]. apply IH.
  intros j' Hj'. apply Hl. by apply elem_of_cons; right.
Qed.

Lemma writeNormalStep_returns numVertices indices normalsPerVertex normalsPerTriangle
    normalIndices (normalValues : jsarray number) i :
  recording_inv numVertices indices (arr_length indices) (arr_length indices `div` 3)
                normalsPerVertex normalIndices →
  (∀ k, 0 ≤ k < arr_length indices `div` 3 → is_Some (arr_get normalsPerTriangle k)) →
  0 ≤ i < numVertices →
  ∃ normalValues',
    writeNormalStep normalsPerVertex normalsPerTriangle normalIndices normalValues i
      = Ok normalValues'
    ∧ (∀ key, ¬ (i * 3 ≤ key < i * 3 + 3) →
         arr_get normalValues' key = arr_get normalValues key)
    ∧ (occurrences indices i (arr_length indices) = 0 →
         arr_get normalValues' (i * 3) = Some num_zero
         ∧ arr_get normalValues' (i * 3 + 1) = Some num_zero
         ∧ arr_get normalValues' (i * 3 + 2) = Some num_one).
Proof.
  intros Hinv Htri Hi. destruct (Hinv i Hi) as (d & Hd & Hcount & Hcur & Hslots).
  unfold writeNormalStep. rewrite Hd. case_decide as Hpos.
  - destruct (sumNormals_returns normalsPerTriangle normalIndices (indexOffset d)
                (for_range 0 (count d) 1)) with (init := Cartesian3_ZERO) as (normal & ->).
    { intros j Hj. rewrite for_range_unit in Hj. apply elem_of_seqZ in Hj.
      destruct (Hslots j) as (triangle & Hslot & Hb); [lia|].
      destruct (Htri triangle Hb) as [n Hn]. eauto. }
    cbn [mbind result_bind]. eexists. split; [done|]. split.
    + intros key Hkey. rewrite !arr_get_set_ne by lia. done.
    + intros Hzero. lia.
  - eexists. split; [done|]. split.
    + intros key Hkey. rewrite !arr_get_set_ne by lia. done.
    + intros _. rewrite arr_get_set_eq.
      rewrite (arr_get_set_ne _ (i * 3 + 2) (i * 3 + 1)) by lia. rewrite arr_get_set_eq.
      rewrite (arr_get_set_ne _ (i * 3 + 2) (i * 3)) by lia.
      rewrite (arr_get_set_ne _ (i * 3 + 1) (i * 3)) by lia. rewrite arr_get_set_eq. done.
Qed.

Lemma writeNormal_rounds numVertices indices normalsPerVertex normalsPerTriangle
    normalIndices (l : list Z) :
  recording_inv numVertices indices (arr_length indices) (arr_length indices `div` 3)
                normalsPerVertex normalIndices →
  (∀ k, 0 ≤ k < arr_length indices `div` 3 → is_Some (arr_get normalsPerTriangle k)) →
  (∀ i, i ∈ l → 0 ≤ i < numVertices) →
  ∀ normalValues : jsarray number, ∃ normalValues',
    foldM (writeNormalStep normalsPerVertex normalsPerTriangle normalIndices) normalValues l
      = Ok normalValues'
    ∧ ∀ key, (∀ i, i ∈ l → ¬ (i * 3 ≤ key < i * 3 + 3)) →
        arr_get normalValues' key = arr_get normalValues key.
Proof.
  intros Hinv Htri. induction l as [|i l IH]; intros Hl normalValues; cbn [foldM].
  - by eauto.
  - destruct (writeNormalStep_returns numVertices indices normalsPerVertex normalsPerTriangle
                normalIndices normalValues i Hinv Htri) as (nv1 & -> & Hother & _);
      [apply Hl, list_elem_of_here|].
    cbn [mbind result_bind].
    destruct (IH (λ i' Hi', Hl i' (list_elem_of_further _ _ _ Hi')) nv1) as (nv2 & -> & Hrest).
    exists nv2. split; [done|]. intros key Hkey.
    rewrite Hrest by (intros i' Hi'; apply Hkey; by apply elem_of_cons; right).
    apply Hother. apply Hkey, list_elem_of_here.
Qed.

Lemma writeNormal_all numVertices indices normalsPerVertex normalsPerTriangle
    normalIndices (normalValues : jsarray number) :
  recording_inv numVertices indices (arr_length indices) (arr_length indices `div` 3)
                normalsPerVertex normalIndices →
  (∀ k, 0 ≤ k < arr_length indices `div` 3 → is_Some (arr_get normalsPerTriangle k)) →
  ∃ normalValues',
    foldM (writeNormalStep normalsPerVertex normalsPerTriangle normalIndices) normalValues
          (for_range 0 numVertices 1) = Ok normalValues'
    ∧ ∀ v, 0 ≤ v < numVertices →
        occurrences indices v (arr_length indices) = 0 →
        arr_get normalValues' (v * 3) = Some num_zero
        ∧ arr_get normalValues' (v * 3 + 1) = Some num_zero
        ∧ arr_get normalValues' (v * 3 + 2) = Some num_one.
Proof.
  intros Hinv Htri. rewrite for_range_unit.
  destruct (writeNormal_rounds numVertices indices normalsPerVertex normalsPerTriangle
              normalIndices (seqZ 0 numVertices) Hinv Htri) with (normalValues := normalValues)
    as (final & Hfinal & _).
  { intros i Hi. apply elem_of_seqZ in Hi. lia. }
  exists final. split; [done|]. intros v Hv Hzero.
  revert Hfinal. replace numVertices with (v + (1 + (numVertices - v - 1))) at 1 by lia.
  rewrite seqZ_app by lia. rewrite (seqZ_app _ 1) by lia. rewrite !foldM_app.
  destruct (writeNormal_rounds numVertices indices normalsPerVertex normalsPerTriangle
              normalIndices (seqZ 0 v) Hinv Htri) with (normalValues := normalValues)
    as (nv1 & -> & _).
  { intros i Hi. apply elem_of_seqZ in Hi. lia. }
  cbn [mbind result_bind]. change (seqZ (0 + v) 1) with [0 + v].
  rewrite !Z.add_0_l. cbn [app foldM].
  destruct (writeNormalStep_returns numVertices indices normalsPerVertex normalsPerTriangle
              normalIndices nv1 v Hinv Htri Hv) as (nv2 & -> & _ & Hwritten).
  cbn [mbind result_bind].
  destruct (writeNormal_rounds numVertices indices normalsPerVertex normalsPerTriangle
              normalIndices (seqZ (v + 1) (numVertices - v - 1)) Hinv Htri)
    with (normalValues := nv2) as (nv3 & -> & Hrest).
  { intros i Hi. apply elem_of_seqZ in Hi. lia. }
  intros [= <-]. destruct (Hwritten Hzero) as (Hx & Hy & Hz).
  rewrite !Hrest; [done | | |]; intros i Hi; apply elem_of_seqZ in Hi; lia.
Qed.

Lemma attr_lookup_store_eq name a (attrs : Attributes) :
  attr_lookup name (attr_store name a attrs) = Some a.
Proof.
  induction attrs as [|[n b] attrs IH]; simpl.
  - by rewrite decide_True.
  - destruct (decide (n = name)) as [->|Hne]; simpl.
    + by rewrite decide_True.
    + by rewrite decide_False.
Qed.

Lemma for_range_triples_length (n : Z) :
  n `mod` 3 = 0 → for_range 0 n 3 = (λ k, 3 * k) <$> seqZ 0 (n `div` 3).
Proof.
  intros Hmod. rewrite <- for_range_triples. f_equal.
  rewrite (Z.div_mod n 3) at 1 by lia. lia.
Qed.

(** With indices below the vertex count and a normal attribute that, when
    present, has values, computeNormal returns, and the vertices used by no
    triangle have the normal (0, 0, 1). *)
Lemma computeNormal_returns (mesh : Geometry) (position : GeometryAttribute)
    (vertices : jsarray number) (indices : jsarray Z) :
  attr_lookup "position" (attributes mesh) = Some position →
  values position = Some vertices →
  componentsPerAttribute position = 3 →
  arr_length vertices `mod` 3 = 0 →
  primitiveType mesh = TRIANGLES →
  indexList mesh = Some indices →
  arr_length indices `mod` 3 = 0 →
  2 ≤ arr_length indices →
  indices_below (arr_length vertices `div` 3) indices →
  (∀ a, attr_lookup "normal" (attributes mesh) = Some a → is_Some (values a)) →
  ∃ mesh' normal normalValues,
    computeNormal (Some mesh) = Ok mesh'
    ∧ attr_lookup "normal" (attributes mesh') = Some normal
    ∧ values normal = Some normalValues
    ∧ ∀ v, 0 ≤ v < arr_length vertices `div` 3 →
        (∀ p, 0 ≤ p < arr_length indices → arr_get indices p ≠ Some v) →
        arr_get normalValues (v * 3) = Some num_zero
        ∧ arr_get normalValues (v * 3 + 1) = Some num_zero
        ∧ arr_get normalValues (v * 3 + 2) = Some num_one.
Proof.
  intros Hpos Hvs Hcpa Hvmod Hpt Hil Hmod Hlen Hbelow Hnormal.
  set (numVertices := arr_length vertices `div` 3) in *.
  set (triangles := arr_length indices `div` 3).
  assert (Hlen3 : arr_length indices = 3 * triangles).
  { unfold triangles. rewrite (Z.div_mod (arr_length indices) 3) at 1 by lia. lia. }
  assert (Htri0 : 0 ≤ triangles) by lia.
  (* the first triangle loop *)
  destruct (faceNormal_rounds vertices indices numVertices
              (foldl (λ a i, arr_set a i (Some {| indexOffset := 0; count := 0;
                                                  currentCount := 0 |}))
                     (arr_new numVertices) (for_range 0 numVertices 1))
              (arr_new triangles) (Z.to_nat triangles) Hbelow)
    as (npv1 & npt & Hloop1 & Hinv1 & Htri); [lia | apply counting_inv_init |].
  rewrite Z2Nat.id in Hloop1, Hinv1, Htri by done. rewrite <- Hlen3 in Hinv1.
  (* the offset loop *)
  destruct (offset_rounds numVertices indices (arr_length indices) (for_range 0 numVertices 1))
    with (normalsPerVertex := npv1) (offset := 0) as (npv2 & offset & Hloop2 & Hinv2);
    [intros i Hi; rewrite for_range_unit in Hi; apply elem_of_seqZ in Hi; lia | done |].
  (* the second triangle loop *)
  destruct (normalIndex_rounds indices numVertices npv2 (arr_new (arr_length indices))
              (Z.to_nat triangles) Hbelow)
    as (npv3 & normalIndices & Hloop3 & Hinv3); [lia | by apply counting_recording |].
  rewrite Z2Nat.id in Hloop3, Hinv3 by done. rewrite <- Hlen3 in Hinv3.
  (* the normal attribute and the last loop *)
  set (attributes' :=
         match attr_lookup "normal" (attributes mesh) with
         | None =>
             attr_store "normal"
               {| componentDatatype := FLOAT; componentsPerAttribute := 3;
                  normalize := false; values := Some (arr_new (numVertices * 3)) |}
               (attributes mesh)
         | Some _ => attributes mesh
         end).
  assert (∃ normalAttribute normalValues,
            attr_lookup "normal" attributes' = Some normalAttribute
            ∧ values normalAttribute = Some normalValues)
    as (normalAttribute & normalValues & Hlook & Hnv).
  { unfold attributes'. destruct (attr_lookup "normal" (attributes mesh)) as [a|] eqn:Ha.
    - destruct (Hnormal a eq_refl) as [nv Hnv]. by eauto.
    - rewrite attr_lookup_store_eq. by eauto. }
  destruct (writeNormal_all numVertices indices npv3 npt normalIndices normalValues Hinv3 Htri)
    as (final & Hloop4 & Hfinal).
  eexists _, (with_values normalAttribute (Some final)), final.
  split; [|split; [|split]].
  - unfold computeNormal. rewrite Hpos. cbn [mbind option_bind]. rewrite Hvs.
    rewrite decide_False by (rewrite Hcpa; intros [?|?]; done).
    rewrite Hil. rewrite decide_False by (rewrite Hpt; intros [?|[?|?]]; [done | lia | done]).
    fold numVertices. fold triangles. rewrite (for_range_triples_length _ Hmod).
    fold triangles. rewrite Hloop1. cbn [mbind result_bind]. rewrite Hloop2.
    cbn [mbind result_bind]. rewrite Hloop3. cbn [mbind result_bind].
    fold attributes'. rewrite Hlook, Hnv, Hloop4. cbn [mbind result_bind]. reflexivity.
  - cbn [attributes with_attributes]. apply attr_lookup_store_eq.
  - reflexivity.
  - intros v Hv Hfree. apply Hfinal; [done|]. by apply occurrences_unreferenced.
Qed.


Lemma incrementCount_Ok numVertices (normalsPerVertex normalsPerVertex' : jsarray VertexNormalData)
    (i : option Z) :
  xref_in_range numVertices normalsPerVertex →
  incrementCount normalsPerVertex i = Ok normalsPerVertex' →
  (∃ u, i = Some u ∧ 0 ≤ u < numVertices) ∧ xref_in_range numVertices normalsPerVertex'.
Proof.
  intros Hrange. unfold incrementCount.
  destruct (arr_get_at normalsPerVertex i) as [d|] eqn:Hd; [|done].
  destruct i as [u|]; [|done]. intros [= <-].
  assert (0 ≤ u < numVertices).
  { apply Hrange. change (arr_get normalsPerVertex u = Some d) in Hd. rewrite Hd. eauto. }
  split; [by eauto|]. intros t. destruct (decide (u = t)) as [<-|Hne]; [done|].
  rewrite arr_get_set_ne by done. apply Hrange.
Qed.

Lemma faceNormalStep_Ok (vertices : jsarray number) indices numVertices st st' i :
  xref_in_range numVertices st.1.1 →
  faceNormalStep vertices indices st i = Ok st' →
  (∀ r, 0 ≤ r < 3 → ∃ u, arr_get indices (i + r) = Some u ∧ 0 ≤ u < numVertices)
  ∧ xref_in_range numVertices st'.1.1.
Proof.
  destruct st as [[npv npt] j]. cbn [fst]. intros Hrange. unfold faceNormalStep.
  destruct (incrementCount npv (arr_get indices i)) as [npv1|] eqn:H1; [|done].
  cbn [mbind result_bind].
  destruct (incrementCount npv1 (arr_get indices (i + 1))) as [npv2|] eqn:H2; [|done].
  cbn [mbind result_bind].
  destruct (incrementCount npv2 (arr_get indices (i + 2))) as [npv3|] eqn:H3; [|done].
  cbn [mbind result_bind]. intros [= <-]. cbn [fst].
  apply (incrementCount_Ok numVertices) in H1 as [(u0 & Hu0 & Hr0) Hrange1]; [|done].
  apply (incrementCount_Ok numVertices) in H2 as [(u1 & Hu1 & Hr1) Hrange2]; [|done].
  apply (incrementCount_Ok numVertices) in H3 as [(u2 & Hu2 & Hr2) Hrange3]; [|done].
  split; [|done]. intros r Hr.
  assert (r = 0 ∨ r = 1 ∨ r = 2) as [->|[->| ->]] by lia.
  - rewrite Z.add_0_r. eauto.
  - eauto.
  - eauto.
Qed.

Lemma faceNormal_Ok (vertices : jsarray number) indices numVertices (l : list Z) :
  ∀ st st',
    xref_in_range numVertices st.1.1 →
    foldM (faceNormalStep vertices indices) st l = Ok st' →
    ∀ i r, i ∈ l → 0 ≤ r < 3 →
      ∃ u, arr_get indices (i + r) = Some u ∧ 0 ≤ u < numVertices.
Proof.
  induction l as [|i l IH]; intros st st' Hrange Hloop i' r Hin Hr.
  - by apply elem_of_nil in Hin.
  - cbn [foldM] in Hloop.
    destruct (faceNormalStep vertices indices st i) as [st1|] eqn:Hstep; [|done].
    cbn [mbind result_bind] in Hloop.
    apply (faceNormalStep_Ok _ _ numVertices) in Hstep as [Hhere Hrange1]; [|done].
    apply elem_of_cons in Hin as [->|Hin]; [by apply Hhere|].
    by eapply IH.
Qed.

(** A call that returns has found every index below the vertex count and
    a normal attribute with values. *)
Lemma computeNormal_Ok (mesh mesh' : Geometry) (position : GeometryAttribute)
    (vertices : jsarray number) (indices : jsarray Z) :
  attr_lookup "position" (attributes mesh) = Some position →
  values position = Some vertices →
  componentsPerAttribute position = 3 →
  arr_length vertices `mod` 3 = 0 →
  primitiveType mesh = TRIANGLES →
  indexList mesh = Some indices →
  arr_length indices `mod` 3 = 0 →
  2 ≤ arr_length indices →
  computeNormal (Some mesh) = Ok mesh' →
  indices_below (arr_length vertices `div` 3) indices
  ∧ (∀ a, attr_lookup "normal" (attributes mesh) = Some a → is_Some (values a)).
Proof.
  intros Hpos Hvs Hcpa Hvmod Hpt Hil Hmod Hlen.
  unfold computeNormal. rewrite Hpos. cbn [mbind option_bind]. rewrite Hvs.
  rewrite decide_False by (rewrite Hcpa; intros [?|?]; done).
  rewrite Hil. rewrite decide_False by (rewrite Hpt; intros [?|[?|?]]; [done | lia | done]).
  set (numVertices := arr_length vertices `div` 3).
  rewrite (for_range_triples_length _ Hmod).
  set (npv0 := foldl _ (arr_new numVertices) (for_range 0 numVertices 1)).
  assert (Hrange0 : xref_in_range numVertices npv0).
  { intros t [d Hd]. unfold npv0 in Hd. rewrite fill_range_get in Hd.
    case_decide; [done | discriminate Hd]. }
  destruct (foldM (faceNormalStep vertices indices) _ _) as [[[npv1 npt] j]|] eqn:Hloop1;
    [|done].
  assert (Hbelow : indices_below numVertices indices).
  { intros p Hp.
    assert (Hin : p `div` 3 ∈ seqZ 0 (arr_length indices `div` 3)).
    { apply elem_of_seqZ. split; [apply Z.div_pos; lia|].
      rewrite Z.add_0_l. apply Z.div_lt_upper_bound; [lia|].
      rewrite (Z.div_mod (arr_length indices) 3) in Hp by lia. lia. }
    apply (list_elem_of_fmap_2 (λ k, 3 * k)) in Hin.
    destruct (faceNormal_Ok _ _ numVertices _ (npv0, arr_new (arr_length indices `div` 3), 0)
                _ Hrange0 Hloop1 _ (p `mod` 3) Hin)
      as (u & Hu & Hr); [apply Z.mod_pos_bound; lia|].
    exists u. split; [|done]. rewrite <- Hu. f_equal. apply Z.div_mod. lia. }
  cbn [mbind result_bind].
  destruct (foldM offsetStep _ _) as [[npv2 offset]|]; [|done]. cbn [mbind result_bind].
  destruct (foldM (normalIndexStep indices) _ _) as [[[npv3 ni] j']|]; [|done].
  cbn [mbind result_bind]. intros Hrun. split; [done|].
  intros a Ha. rewrite Ha in Hrun. rewrite Ha in Hrun.
  destruct (values a) as [nv|]; [by eauto|].
  destruct (Hbelow 0) as (u & _ & Hu); [lia|].
  rewrite decide_True in Hrun by (fold numVertices; lia). done.
Qed.

(** C9: on a TRIANGLES mesh that meets the preconditions of computeNormal
    (position present with three components and a length that is a
    multiple of three, an index list of at least two indices whose length
    is a multiple of three), every vertex used by no triangle has the
    normal (0, 0, 1) in the normal attribute that the call has written
    when it returns; and the call does return when the indices are below
    the vertex count and the normal attribute, if the mesh has one, has
    values. *)
Theorem computeNormal_unreferenced_vertex (mesh : Geometry) (position : GeometryAttribute)
    (vertices : jsarray number) (indices : jsarray Z) :
  attr_lookup "position" (attributes mesh) = Some position →
  values position = Some vertices →
  componentsPerAttribute position = 3 →
  arr_length vertices `mod` 3 = 0 →
  primitiveType mesh = TRIANGLES →
  indexList mesh = Some indices →
  arr_length indices `mod` 3 = 0 →
  2 ≤ arr_length indices →
  (∀ mesh', computeNormal (Some mesh) = Ok mesh' →
     ∃ normal normalValues,
       attr_lookup "normal" (attributes mesh') = Some normal
       ∧ values normal = Some normalValues
       ∧ ∀ v, 0 ≤ v < arr_length vertices `div` 3 →
           (∀ p, 0 ≤ p < arr_length indices → arr_get indices p ≠ Some v) →
           arr_get normalValues (v * 3) = Some num_zero
           ∧ arr_get normalValues (v * 3 + 1) = Some num_zero
           ∧ arr_get normalValues (v * 3 + 2) = Some num_one)
  ∧ (indices_below (arr_length vertices `div` 3) indices →
     (∀ a, attr_lookup "normal" (attributes mesh) = Some a → is_Some (values a)) →
     ∃ mesh', computeNormal (Some mesh) = Ok mesh').
Proof.
  intros Hpos Hvs Hcpa Hvmod Hpt Hil Hmod Hlen. split.
  - intros mesh' Hrun.
    destruct (computeNormal_Ok mesh mesh' position vertices indices) as [Hbelow Hnormal];
      try done.
    destruct (computeNormal_returns mesh position vertices indices)
      as (mesh'' & normal & normalValues & Hrun' & Hrest); try done.
    assert (mesh'' = mesh') as -> by congruence. eauto.
  - intros Hbelow Hnormal.
    destruct (computeNormal_returns mesh position vertices indices)
      as (mesh' & _ & _ & Hrun & _); try done. eauto.
Qed.

End ComputeNormal.


(** ** fitToUnsignedShortIndices *)

Section FitToUnsignedShortIndices.
Context `{ExternalTypes}.

Lemma attr_lookup_store name n a (attrs : Attributes) :
  attr_lookup name (attr_store n a attrs) =
    if decide (n = name) then Some a else attr_lookup name attrs.
Proof.
  induction attrs as [|[m b] attrs IH]; simpl.
  - done.
  - destruct (decide (m = n)) as [->|Hmn]; simpl.
    + destruct (decide (n = name)); done.
    + rewrite IH. destruct (decide (m = name)) as [->|Hm]; [|done].
      by rewrite decide_False by congruence.
Qed.

Lemma attr_store_names n a (attrs : Attributes) :
  is_Some (attr_lookup n attrs) → (attr_store n a attrs).*1 = attrs.*1.
Proof.
  induction attrs as [|[m b] attrs IH]; cbn [attr_lookup attr_store].
  - by intros [? ?].
  - destruct (decide (m = n)) as [->|Hmn]; [done|].
    intros Hsome. cbn [fmap list_fmap]. f_equal. by apply IH.
Qed.

Lemma attr_lookup_elem name d (attrs : Attributes) :
  attr_lookup name attrs = Some d → (name, d) ∈ attrs.
Proof.
  induction attrs as [|[m b] attrs IH]; simpl; [done|].
  destruct (decide (m = name)) as [->|Hm].
  - intros [= ->]. apply list_elem_of_here.
  - intros Hlook. apply list_elem_of_further. by apply IH.
Qed.

Lemma attr_lookup_name name d (attrs : Attributes) :
  attr_lookup name attrs = Some d → name ∈ attrs.*1.
Proof.
  intros Hlook. apply attr_lookup_elem in Hlook.
  by apply (list_elem_of_fmap_2 fst) in Hlook.
Qed.

Lemma attr_lookup_NoDup name d (attrs : Attributes) :
  NoDup attrs.*1 → (name, d) ∈ attrs → attr_lookup name attrs = Some d.
Proof.
  induction attrs as [|[m b] attrs IH]; simpl; intros Hnd Hin.
  - by apply elem_of_nil in Hin.
  - apply NoDup_cons in Hnd as [Hm Hnd].
    apply elem_of_cons in Hin as [[= <- <-]|Hin].
    + by rewrite decide_True.
    + rewrite decide_False; [by apply IH|].
      intros ->. apply Hm. by apply (list_elem_of_fmap_2 fst) in Hin.
Qed.

Lemma pushValue_spec (dest : Attributes) name d vs v :
  attr_lookup name dest = Some d → values d = Some vs →
  pushValue dest name v
    = Ok (attr_store name (with_values d (Some (arr_push vs v))) dest).
Proof. intros Hd Hvs. unfold pushValue. by rewrite Hd, Hvs. Qed.

(** The inner loop of copyVertex: one value is appended to the attribute
    for every round. *)
Lemma push_block (name : string) (f : Z → option number) (l : list Z) :
  ∀ (dest : Attributes) d vs,
    attr_lookup name dest = Some d → values d = Some vs →
    ∃ dest' vs',
      foldM (λ dest k, pushValue dest name (f k)) dest l = Ok dest'
      ∧ attr_lookup name dest' = Some (with_values d (Some vs'))
      ∧ arr_length vs' = arr_length vs + Z.of_nat (length l)
      ∧ (∀ other, other ≠ name → attr_lookup other dest' = attr_lookup other dest)
      ∧ dest'.*1 = dest.*1.
Proof.
  induction l as [|k l IH]; intros dest d vs Hd Hvs; cbn [foldM].
  - exists dest, vs. split; [done|]. split; [|split; [simpl; lia | done]].
    rewrite Hd. f_equal. destruct d. simpl in *. by subst.
  - rewrite (pushValue_spec dest name d vs) by done. cbn [mbind result_bind].
    destruct (IH (attr_store name (with_values d (Some (arr_push vs (f k)))) dest)
                (with_values d (Some (arr_push vs (f k)))) (arr_push vs (f k)))
      as (dest' & vs' & Hloop & Hlook & Hlen & Hother & Hnames).
    { rewrite attr_lookup_store. by rewrite decide_True. }
    { done. }
    exists dest', vs'. split; [done|]. split; [done|]. split; [|split].
    + rewrite Hlen, arr_length_push. cbn [length]. lia.
    + intros other Hne. rewrite Hother by done. rewrite attr_lookup_store.
      by rewrite decide_False by congruence.
    + rewrite Hnames. apply attr_store_names. eauto.
Qed.

Lemma filter_values_names_subset (source : Attributes) name :
  name ∈ (filter (λ p : string * GeometryAttribute, is_Some (values p.2)) source).*1 →
  name ∈ source.*1.
Proof.
  intros Hin. apply list_elem_of_fmap in Hin as ([n s] & -> & Hin).
  apply list_elem_of_filter in Hin as [_ Hin]. by apply (list_elem_of_fmap_2 fst) in Hin.
Qed.

(** copyVertex appends one block to every attribute that has values;
    [cnt] is the number of blocks the attribute of each name has before. *)
Lemma copyVertex_blocks (source : Attributes) (index : option Z) :
  ∀ (dest : Attributes) (cnt : string → Z),
    NoDup source.*1 →
    (∀ name s, (name, s) ∈ source → is_Some (values s) →
       ∃ d, attr_lookup name dest = Some d
            ∧ componentsPerAttribute d = componentsPerAttribute s) →
    (∀ name d, attr_lookup name dest = Some d →
       0 < componentsPerAttribute d
       ∧ ∃ vs, values d = Some vs ∧ arr_length vs = cnt name * componentsPerAttribute d) →
    ∃ dest',
      copyVertex dest source index = Ok dest'
      ∧ dest'.*1 = dest.*1
      ∧ (∀ name, componentsPerAttribute <$> attr_lookup name dest'
                 = componentsPerAttribute <$> attr_lookup name dest)
      ∧ (∀ name d, attr_lookup name dest' = Some d →
           0 < componentsPerAttribute d
           ∧ ∃ vs, values d = Some vs
                   ∧ arr_length vs =
                       (cnt name
                        + (if decide (name ∈ (filter (λ p : string * GeometryAttribute,
                                                        is_Some (values p.2)) source).*1)
                           then 1 else 0))
                       * componentsPerAttribute d).
Proof.
  induction source as [|[n s] source IH]; intros dest cnt Hnd Hhas Hlen.
  - exists dest. split; [done|]. split; [done|]. split; [done|].
    intros name d Hd. destruct (Hlen name d Hd) as (Hpos & vs & Hvs & Hl).
    split; [done|]. exists vs. split; [done|]. rewrite Hl. simpl. lia.
  - apply NoDup_cons in Hnd as [Hn Hnd]. unfold copyVertex. cbn [foldM snd fst].
    destruct (values s) as [vs_s|] eqn:Hvs_s.
    + destruct (Hhas n s) as (d & Hd & Hcpa); [apply list_elem_of_here | by eauto |].
      destruct (Hlen n d Hd) as (Hpos & vs & Hvs & Hl).
      destruct (push_block n
                  (λ k, i ← index; arr_get vs_s (i * componentsPerAttribute s + k))
                  (for_range 0 (componentsPerAttribute s) 1) dest d vs Hd Hvs)
        as (dest1 & vs1 & -> & Hlook1 & Hlen1 & Hother1 & Hnames1).
      cbn [mbind result_bind].
      rewrite for_range_unit, length_seqZ in Hlen1.
      destruct (IH dest1 (λ name, if decide (name = n) then cnt n + 1 else cnt name) Hnd)
        as (dest' & Hrun & Hnames & Hcpas & Hlens).
      { intros name s' Hin Hs'.
        assert (name ≠ n).
        { intros ->. apply Hn. by apply (list_elem_of_fmap_2 fst) in Hin. }
        rewrite Hother1 by done. apply Hhas; [by apply list_elem_of_further | done]. }
      { intros name d1. destruct (decide (name = n)) as [->|Hne].
        - rewrite Hlook1. intros [= <-]. cbn [componentsPerAttribute with_values values].
          split; [done|]. exists vs1. split; [done|]. rewrite Hlen1, Hl. lia.
        - rewrite Hother1 by done. apply Hlen. }
      exists dest'. split; [exact Hrun|]. split; [by rewrite Hnames|]. split.
      * intros name. rewrite Hcpas. destruct (decide (name = n)) as [->|Hne].
        -- by rewrite Hlook1, Hd.
        -- by rewrite Hother1.
      * intros name d' Hd'. destruct (Hlens name d' Hd') as (Hpos' & vs' & Hvs' & Hl').
        split; [done|]. exists vs'. split; [done|]. rewrite Hl'. f_equal.
        rewrite filter_cons_True by (cbn [snd]; rewrite Hvs_s; eauto).
        cbn [fmap list_fmap fst]. destruct (decide (name = n)) as [->|Hne].
        -- rewrite decide_False by (intros Hin; by apply Hn, filter_values_names_subset).
           rewrite decide_True by apply list_elem_of_here. lia.
        -- destruct (decide (name ∈ _)) as [Hin|Hout].
           ++ rewrite decide_True by (by apply list_elem_of_further). done.
           ++ rewrite decide_False; [done|]. intros [?|?]%elem_of_cons; done.
    + cbn [mbind result_bind].
      destruct (IH dest cnt Hnd) as (dest' & Hrun & Hnames & Hcpas & Hlens).
      { intros name s' Hin Hs'. apply Hhas; [by apply list_elem_of_further | done]. }
      { done. }
      exists dest'. split; [exact Hrun|]. split; [done|]. split; [done|].
      intros name d' Hd'. destruct (Hlens name d' Hd') as (Hpos' & vs' & Hvs' & Hl').
      split; [done|]. exists vs'. split; [done|]. rewrite Hl'. f_equal.
      rewrite filter_cons_False; [done|].
      cbn [snd]. rewrite Hvs_s. by intros [? ?].
Qed.

Lemma chunk_attributes_copyVertex (source dest : Attributes) (c : Z) (index : option Z) :
  NoDup source.*1 →
  chunk_attributes source dest c →
  ∃ dest', copyVertex dest source index = Ok dest' ∧ chunk_attributes source dest' (c + 1).
Proof.
  intros Hnd (Hnames & Hhas & Hlens).
  destruct (copyVertex_blocks source index dest (λ _, c) Hnd)
    as (dest' & Hrun & Hnames' & Hcpas & Hlens').
  { intros name s Hin Hs. apply Hhas; [by apply attr_lookup_NoDup | done]. }
  { done. }
  exists dest'. split; [done|]. split; [by rewrite Hnames'|]. split.
  - intros name s Hs Hvs. destruct (Hhas name s Hs Hvs) as (d & Hd & Hcpa).
    specialize (Hcpas name). rewrite Hd in Hcpas.
    destruct (attr_lookup name dest') as [d'|]; [|done].
    exists d'. split; [done|]. simpl in Hcpas. congruence.
  - intros name d Hd. destruct (Hlens' name d Hd) as (Hpos & vs & Hvs & Hlen).
    split; [done|]. exists vs. split; [done|].
    rewrite decide_True in Hlen; [done|].
    rewrite <- Hnames, <- Hnames'. by eapply attr_lookup_name.
Qed.

Lemma copyAttributesDescriptions_names (source : Attributes) :
  (_copyAttributesDescriptions source).*1
    = (filter (λ p : string * GeometryAttribute, is_Some (values p.2)) source).*1.
Proof.
  induction source as [|[n s] source IH]; [done|].
  unfold _copyAttributesDescriptions. cbn [omap list_omap snd fst].
  destruct (values s) eqn:Hs.
  - rewrite filter_cons_True by (cbn [snd]; rewrite Hs; eauto).
    cbn [fmap list_fmap fst]. f_equal. apply IH.
  - rewrite filter_cons_False by (cbn [snd]; rewrite Hs; by intros [? ?]). apply IH.
Qed.

Lemma copyAttributesDescriptions_lookup (source : Attributes) name d :
  attr_lookup name (_copyAttributesDescriptions source) = Some d →
  ∃ s vs, (name, s) ∈ source ∧ values s = Some vs ∧ d = with_values s (Some arr_empty).
Proof.
  induction source as [|[n s] source IH]; [done|].
  unfold _copyAttributesDescriptions. cbn [omap list_omap snd fst].
  destruct (values s) as [vs|] eqn:Hs.
  - cbn [attr_lookup]. destruct (decide (n = name)) as [->|Hne].
    + intros [= <-]. exists s, vs. split; [apply list_elem_of_here | done].
    + intros Hlook. destruct (IH Hlook) as (s' & vs' & Hin & Hvs' & ->).
      exists s', vs'. split; [by apply list_elem_of_further | done].
  - intros Hlook. destruct (IH Hlook) as (s' & vs' & Hin & Hvs' & ->).
    exists s', vs'. split; [by apply list_elem_of_further | done].
Qed.

Lemma copyAttributesDescriptions_lookup_Some (source : Attributes) name s :
  attr_lookup name source = Some s → is_Some (values s) →
  attr_lookup name (_copyAttributesDescriptions source)
    = Some (with_values s (Some arr_empty)).
Proof.
  induction source as [|[n b] source IH]; [done|].
  unfold _copyAttributesDescriptions. cbn [omap list_omap snd fst attr_lookup].
  destruct (decide (n = name)) as [->|Hne].
  - intros [= ->] [vs Hvs]. rewrite Hvs. cbn [attr_lookup]. by rewrite decide_True.
  - intros Hlook Hs. destruct (values b).
    + cbn [attr_lookup]. rewrite decide_False by done. by apply IH.
    + by apply IH.
Qed.

Lemma chunk_attributes_init (source : Attributes) :
  (∀ name s vs, (name, s) ∈ source → values s = Some vs → 0 < componentsPerAttribute s) →
  chunk_attributes source (_copyAttributesDescriptions source) 0.
Proof.
  intros Hpos. split; [apply copyAttributesDescriptions_names|]. split.
  - intros name s Hs Hvs. eexists. split; [by apply copyAttributesDescriptions_lookup_Some|].
    done.
  - intros name d Hd.
    apply copyAttributesDescriptions_lookup in Hd as (s & vs & Hin & Hvs & ->).
    cbn [componentsPerAttribute values with_values].
    split; [by eapply Hpos|]. exists arr_empty. split; [done|]. reflexivity.
Qed.

Lemma NoDup_filter_names (source : Attributes) :
  NoDup source.*1 →
  NoDup (filter (λ p : string * GeometryAttribute, is_Some (values p.2)) source).*1.
Proof.
  induction source as [|[n s] source IH]; [done|].
  cbn [fmap list_fmap fst]. intros [Hn Hnd]%NoDup_cons.
  destruct (decide (is_Some (values s))).
  - rewrite filter_cons_True by done. cbn [fmap list_fmap fst]. apply NoDup_cons.
    split; [|by apply IH]. intros Hin. by apply Hn, filter_values_names_subset.
  - rewrite filter_cons_False by done. by apply IH.
Qed.

(** The vertex count of the attributes met so far. *)
Lemma vertexCountStep_Ok seen n (a : GeometryAttribute) seen' :
  vertexCountStep seen (n, a) = Ok seen' →
  match values a with
  | Some vs =>
      seen' = Some (arr_length vs `div` componentsPerAttribute a)
      ∧ (seen = None ∨ seen = seen')
  | None => seen' = seen
  end.
Proof.
  unfold vertexCountStep. cbn [snd]. destruct (values a) as [vs|].
  - destruct seen as [c|].
    + case_decide as Hc; [|done]. intros [= <-]. split; [done|]. right. by rewrite Hc.
    + intros [= <-]. split; [done|]. by left.
  - by intros [= <-].
Qed.

Lemma vertexCount_Ok (l : Attributes) :
  ∀ seen r,
    foldM vertexCountStep seen l = Ok r →
    (∀ c, seen = Some c → r = Some c)
    ∧ (∀ name a vs, (name, a) ∈ l → values a = Some vs →
         r = Some (arr_length vs `div` componentsPerAttribute a)).
Proof.
  induction l as [|[n a] l IH]; intros seen r; cbn [foldM].
  - intros [= <-]. split; [done|]. intros name a vs Hin. by apply elem_of_nil in Hin.
  - destruct (vertexCountStep seen (n, a)) as [seen'|] eqn:Hstep; [|done].
    cbn [mbind result_bind]. intros Hrun.
    apply vertexCountStep_Ok in Hstep. destruct (IH _ _ Hrun) as [Hseen Hall]. split.
    + intros c ->. destruct (values a).
      * destruct Hstep as [Hs' [?| <-]]; [done | by apply Hseen].
      * subst seen'. by apply Hseen.
    + intros name a' vs' [[= -> ->]|Hin]%elem_of_cons Hvs'; [|by eapply Hall].
      rewrite Hvs' in Hstep. destruct Hstep as [Hs' _]. by apply Hseen.
Qed.

Lemma computeNumberOfVertices_attribute (mesh : Geometry) (n : Z) name a vs :
  computeNumberOfVertices mesh = Ok n →
  (name, a) ∈ attributes mesh → values a = Some vs →
  arr_length vs `div` componentsPerAttribute a = n.
Proof.
  unfold computeNumberOfVertices.
  destruct (foldM vertexCountStep None (attributes mesh)) as [r|] eqn:Hrun; [|done].
  cbn [mbind result_bind]. intros [= <-] Hin Hvs.
  destruct (vertexCount_Ok _ _ _ Hrun) as [_ Hall].
  by rewrite (Hall name a vs Hin Hvs).
Qed.

Lemma vertexCount_uniform (c : Z) (l : Attributes) :
  Forall (λ p : string * GeometryAttribute,
            ∃ vs, values p.2 = Some vs
                  ∧ arr_length vs `div` componentsPerAttribute p.2 = c) l →
  ∀ seen, seen = None ∨ seen = Some c →
    ∃ r, foldM vertexCountStep seen l = Ok r ∧ (r = None ∨ r = Some c).
Proof.
  induction 1 as [|[n a] l (vs & Hvs & Hc) Hl IH]; intros seen Hseen; cbn [foldM].
  - by eauto.
  - cbn [snd] in *.
    assert (Hstep : vertexCountStep seen (n, a) = Ok (Some c)).
    { unfold vertexCountStep. cbn [snd]. rewrite Hvs, Hc.
      destruct Hseen as [->| ->]; [done|]. by rewrite decide_True. }
    rewrite Hstep. cbn [mbind result_bind]. apply IH. by right.
Qed.

Lemma chunk_attributes_count (source dest : Attributes) (c : Z) (indices : jsarray Z)
    (pt : PrimitiveType) :
  NoDup source.*1 →
  chunk_attributes source dest c →
  0 ≤ c →
  Forall (λ p : string * GeometryAttribute,
            0 < componentsPerAttribute p.2
            ∧ ∃ vs, values p.2 = Some vs ∧ arr_length vs = c * componentsPerAttribute p.2)
         dest
  ∧ ∃ n, computeNumberOfVertices (createMesh dest pt indices) = Ok n ∧ 0 ≤ n ≤ c.
Proof.
  intros Hnd (Hnames & Hhas & Hlens) Hc.
  assert (Hnd' : NoDup dest.*1) by (rewrite Hnames; by apply NoDup_filter_names).
  assert (Hblocks : Forall (λ p : string * GeometryAttribute,
                              0 < componentsPerAttribute p.2
                              ∧ ∃ vs, values p.2 = Some vs
                                      ∧ arr_length vs = c * componentsPerAttribute p.2)
                           dest).
  { apply Forall_forall. intros [n d] Hin. apply (Hlens n). by apply attr_lookup_NoDup. }
  split; [done|].
  destruct (vertexCount_uniform c dest) with (seen := @None Z) as (r & Hrun & Hr).
  - eapply Forall_impl; [exact Hblocks|]. intros [n d] (Hpos & vs & Hvs & Hlen).
    exists vs. split; [done|]. cbn [snd] in *. rewrite Hlen. apply Z.div_mul. lia.
  - by left.
  - unfold computeNumberOfVertices. cbn [attributes createMesh]. rewrite Hrun.
    cbn [mbind result_bind]. eexists. split; [done|].
    destruct Hr as [->| ->]; simpl; lia.
Qed.

Lemma remapBack_lookup (oldToNewIndex : gmap (option Z) Z) c old i :
  remap_table oldToNewIndex c →
  oldToNewIndex !! old = Some i →
  remapBack oldToNewIndex (Some i) = old.
Proof.
  intros [Hinj _] Hold. unfold remapBack.
  destruct (filter _ _) as [|kv l] eqn:Hfilter.
  - assert (Hin : (old, i) ∈ filter (λ kv : option Z * Z, kv.2 = i) (map_to_list oldToNewIndex)).
    { apply list_elem_of_filter. split; [done|]. by apply elem_of_map_to_list. }
    rewrite Hfilter in Hin. by apply elem_of_nil in Hin.
  - assert (Hin : kv ∈ filter (λ kv : option Z * Z, kv.2 = i) (map_to_list oldToNewIndex)).
    { rewrite Hfilter. apply list_elem_of_here. }
    apply list_elem_of_filter in Hin as [Hi Hin]. destruct kv as [k j]. cbn [snd fst] in *.
    apply elem_of_map_to_list in Hin. subst j. by apply (Hinj k old i).
Qed.

Lemma remapBack_all (oldToNewIndex : gmap (option Z) Z) c (current news : list (option Z)) :
  remap_table oldToNewIndex c →
  Forall2 (remapped oldToNewIndex) current news →
  remapBack oldToNewIndex <$> news = current.
Proof.
  intros Htable. induction 1 as [|old new current news (i & -> & Hold) _ IH]; [done|].
  cbn [fmap list_fmap]. f_equal; [|done]. by eapply remapBack_lookup.
Qed.

Lemma fitVertex_inv (mesh : Geometry) (st : FitState) (x : option Z) :
  NoDup (attributes mesh).*1 →
  0 ≤ currentIndex st →
  remap_table (oldToNewIndex st) (currentIndex st) →
  chunk_attributes (attributes mesh) (newAttributes st) (currentIndex st) →
  ∃ st' i,
    fitVertex mesh st x = Ok (st', i)
    ∧ oldToNewIndex st' !! x = Some i
    ∧ (∀ k j, oldToNewIndex st !! k = Some j → oldToNewIndex st' !! k = Some j)
    ∧ currentIndex st ≤ currentIndex st' ≤ currentIndex st + 1
    ∧ remap_table (oldToNewIndex st') (currentIndex st')
    ∧ chunk_attributes (attributes mesh) (newAttributes st') (currentIndex st')
    ∧ newIndices st' = newIndices st
    ∧ geometries st' = geometries st.
Proof.
  intros Hnd Hc [Hinj Hran] Hattrs. unfold fitVertex.
  destruct (oldToNewIndex st !! x) as [i|] eqn:Hx.
  - exists st, i. split; [done|]. split; [done|]. split; [done|]. split; [lia|]. done.
  - destruct (chunk_attributes_copyVertex (attributes mesh) (newAttributes st)
                (currentIndex st) x Hnd Hattrs) as (attrs & -> & Hattrs').
    cbn [mbind result_bind]. eexists _, _. split; [done|].
    cbn [oldToNewIndex currentIndex newAttributes newIndices geometries].
    split; [apply lookup_insert_eq|]. split; [|split; [lia|split; [|done]]].
    + intros k j Hk. rewrite lookup_insert_ne; [done|]. congruence.
    + split.
      * intros k k' j. destruct (decide (x = k)) as [<-|Hk];
          destruct (decide (x = k')) as [<-|Hk']; try done.
        -- rewrite lookup_insert_eq, lookup_insert_ne by done. intros [= <-] Hj.
           apply Hran in Hj. lia.
        -- rewrite lookup_insert_eq, lookup_insert_ne by done. intros Hj [= <-].
           apply Hran in Hj. lia.
        -- rewrite !lookup_insert_ne by done. apply Hinj.
      * intros k j. destruct (decide (x = k)) as [<-|Hk].
        -- rewrite lookup_insert_eq. intros [= <-]. lia.
        -- rewrite lookup_insert_ne by done. intros Hj. apply Hran in Hj. lia.
Qed.

Lemma take_triangle (a : jsarray Z) (t : nat) :
  3 * Z.of_nat t + 3 ≤ arr_length a →
  take (3 * S t) (arr_to_list a) =
    take (3 * t) (arr_to_list a)
      ++ [arr_get a (3 * Z.of_nat t); arr_get a (3 * Z.of_nat t + 1);
          arr_get a (3 * Z.of_nat t + 2)].
Proof.
  intros Hlen. replace (3 * S t)%nat with (S (S (S (3 * t)))) by lia.
  rewrite (take_S_r _ _ (arr_get a (3 * Z.of_nat t + 2))).
  - rewrite (take_S_r _ _ (arr_get a (3 * Z.of_nat t + 1))).
    + rewrite (take_S_r _ _ (arr_get a (3 * Z.of_nat t))).
      * by rewrite <- !app_assoc.
      * replace (3 * t)%nat with (Z.to_nat (3 * Z.of_nat t)) by lia.
        apply arr_to_list_lookup. lia.
    + replace (S (3 * t)) with (Z.to_nat (3 * Z.of_nat t + 1)) by lia.
      apply arr_to_list_lookup. lia.
  - replace (S (S (3 * t))) with (Z.to_nat (3 * Z.of_nat t + 2)) by lia.
    apply arr_to_list_lookup. lia.
Qed.

Lemma remapped_mono (table table' : gmap (option Z) Z) (old new : option Z) :
  (∀ k j, table !! k = Some j → table' !! k = Some j) →
  remapped table old new → remapped table' old new.
Proof. intros Hext (i & -> & Hold). exists i. split; [done|]. by apply Hext. Qed.

(** One round of the triangle loop. *)
Lemma fitTriangle_inv (mesh : Geometry) (originalIndices : jsarray Z) (t : nat) (st : FitState) :
  NoDup (attributes mesh).*1 →
  (∀ name s vs, (name, s) ∈ attributes mesh → values s = Some vs →
     0 < componentsPerAttribute s) →
  3 * Z.of_nat t + 3 ≤ arr_length originalIndices →
  fit_inv mesh (arr_to_list originalIndices) (3 * t) st →
  ∃ st',
    fitTriangle mesh originalIndices st (3 * Z.of_nat t) = Ok st'
    ∧ fit_inv mesh (arr_to_list originalIndices) (3 * S t) st'.
Proof.
  intros Hnd Hpos Hlen (Hc & Htable & Hattrs & Hmod & Hfits & current & Htake & Hcur).
  set (x0 := arr_get originalIndices (3 * Z.of_nat t)).
  set (x1 := arr_get originalIndices (3 * Z.of_nat t + 1)).
  set (x2 := arr_get originalIndices (3 * Z.of_nat t + 2)).
  destruct (fitVertex_inv mesh st x0 Hnd) as
    (st1 & i0 & Hv0 & Hx0 & Hext0 & Hc1 & Htable1 & Hattrs1 & Hidx1 & Hgeo1);
    [lia | done | done |].
  destruct (fitVertex_inv mesh st1 x1 Hnd) as
    (st2 & i1 & Hv1 & Hx1 & Hext1 & Hc2 & Htable2 & Hattrs2 & Hidx2 & Hgeo2);
    [lia | done | done |].
  destruct (fitVertex_inv mesh st2 x2 Hnd) as
    (st3 & i2 & Hv2 & Hx2 & Hext2 & Hc3 & Htable3 & Hattrs3 & Hidx3 & Hgeo3);
    [lia | done | done |].
  unfold fitTriangle. fold x0 x1 x2. rewrite Hv0. cbn [mbind result_bind].
  rewrite Hv1. cbn [mbind result_bind]. rewrite Hv2. cbn [mbind result_bind].
  rewrite Hidx3, Hidx2, Hidx1, Hgeo3, Hgeo2, Hgeo1.
  set (newIndices' :=
         arr_push (arr_push (arr_push (newIndices st) (Some i0)) (Some i1)) (Some i2)).
  assert (Hlist : arr_to_list newIndices'
                  = arr_to_list (newIndices st) ++ [Some i0; Some i1; Some i2]).
  { unfold newIndices'. rewrite !arr_to_list_push, <- !app_assoc. done. }
  assert (Hlen' : arr_length newIndices' `mod` 3 = 0).
  { unfold newIndices'. rewrite !arr_length_push.
    replace (arr_length (newIndices st) + 1 + 1 + 1) with (arr_length (newIndices st) + 1 * 3)
      by lia.
    by rewrite Z.mod_add by lia. }
  assert (Hcur' : Forall2 (remapped (oldToNewIndex st3)) (current ++ [x0; x1; x2])
                          (arr_to_list newIndices')).
  { rewrite Hlist. apply Forall2_app.
    - eapply Forall2_impl; [exact Hcur|]. intros old new Hold.
      eapply remapped_mono; [|exact Hold]. eauto.
    - repeat constructor.
      + exists i0. split; [done|]. eauto.
      + exists i1. split; [done|]. eauto.
      + exists i2. by split. }
  assert (Htake' : take (3 * S t) (arr_to_list originalIndices)
                   = concat (chunkTriangles <$> geometries st) ++ current ++ [x0; x1; x2]).
  { rewrite take_triangle by done. rewrite Htake, <- app_assoc. done. }
  unfold sixtyFourK in *. case_decide as Hseal.
  - eexists. split; [done|]. unfold fit_inv, sixtyFourK.
    cbn [oldToNewIndex currentIndex newAttributes newIndices geometries].
    split; [lia|]. split; [|split; [|split; [|split]]].
    + split; intros k; intros; by rewrite lookup_empty in *.
    + by apply chunk_attributes_init.
    + done.
    + apply Forall_app. split; [done|]. apply Forall_singleton. cbn [fst]. split.
      * destruct (chunk_attributes_count (attributes mesh) (newAttributes st3)
                    (currentIndex st3) newIndices' (primitiveType mesh) Hnd Hattrs3)
          as (Hblocks & n & Hn & Hbound); [lia|].
        exists (currentIndex st3). split; [unfold sixtyFourK; lia|]. split; [done|].
        exists n. split; [done | lia].
      * exists newIndices'. by split.
    + exists []. split; [|by constructor].
      rewrite Htake', fmap_app, concat_app, app_nil_r. f_equal.
      cbn [fmap list_fmap concat]. rewrite app_nil_r.
      unfold chunkTriangles. cbn [fst snd indexList createMesh from_option].
      symmetry. by eapply remapBack_all.
  - eexists. split; [done|]. unfold fit_inv, sixtyFourK.
    cbn [oldToNewIndex currentIndex newAttributes newIndices geometries].
    split; [lia|]. split; [done|]. split; [done|]. split; [done|]. split; [done|].
    exists (current ++ [x0; x1; x2]). by split.
Qed.

Lemma fit_rounds (mesh : Geometry) (originalIndices : jsarray Z) (t : nat) :
  NoDup (attributes mesh).*1 →
  (∀ name s vs, (name, s) ∈ attributes mesh → values s = Some vs →
     0 < componentsPerAttribute s) →
  3 * Z.of_nat t ≤ arr_length originalIndices →
  ∃ st,
    foldM (fitTriangle mesh originalIndices)
          {| oldToNewIndex := ∅;
             newIndices := arr_empty;
             currentIndex := 0;
             newAttributes := _copyAttributesDescriptions (attributes mesh);
             geometries := [] |}
          ((λ k, 3 * k) <$> seqZ 0 (Z.of_nat t)) = Ok st
    ∧ fit_inv mesh (arr_to_list originalIndices) (3 * t) st.
Proof.
  intros Hnd Hpos. induction t as [|t IH]; intros Hlen.
  - eexists. split; [done|]. unfold fit_inv, sixtyFourK.
    cbn [oldToNewIndex currentIndex newAttributes newIndices geometries].
    split; [lia|]. split; [|split; [|split; [|split]]].
    + split; intros k; intros; by rewrite lookup_empty in *.
    + by apply chunk_attributes_init.
    + done.
    + constructor.
    + exists []. split; [done | constructor].
  - destruct IH as (st & Hloop & Hinv); [lia|].
    destruct (fitTriangle_inv mesh originalIndices t st Hnd Hpos) as (st' & Hstep & Hinv');
      [lia | done |].
    exists st'. rewrite seqZ_S, fmap_app, foldM_app, Hloop.
    cbn [mbind result_bind fmap list_fmap foldM]. rewrite Z.add_0_l, Hstep. done.
Qed.

(** C4: a TRIANGLES mesh with more than 64K vertices and an index list
    whose length is a multiple of three is split into Geometries that
    each have at most 65536 vertices and an index list whose length is a
    multiple of three; mapping the indices of each chunk back through the
    table of that chunk and concatenating in chunk order gives the
    original index list.  (This holds whether or not the indices are
    below the vertex count; the attribute names are those of an object,
    hence distinct.) *)
Theorem fitToUnsignedShortIndices_chunks (mesh : Geometry) (indices : jsarray Z)
    (numberOfVertices : Z) :
  NoDup (attributes mesh).*1 →
  primitiveType mesh = TRIANGLES →
  indexList mesh = Some indices →
  arr_length indices `mod` 3 = 0 →
  indices_below numberOfVertices indices →
  computeNumberOfVertices mesh = Ok numberOfVertices →
  numberOfVertices > 65536 →
  ∃ chunks,
    fitChunks (Some mesh) = Ok chunks
    ∧ fitToUnsignedShortIndices (Some mesh) = Ok chunks.*1
    ∧ Forall chunk_fits chunks.*1
    ∧ concat (chunkTriangles <$> chunks) = arr_to_list indices.
Proof.
  intros Hnd Hpt Hil Hmod _ Hn Hlarge.
  assert (Hpos : ∀ name s vs, (name, s) ∈ attributes mesh → values s = Some vs →
                   0 < componentsPerAttribute s).
  { intros name s vs Hin Hvs.
    pose proof (computeNumberOfVertices_attribute mesh _ name s vs Hn Hin Hvs) as Hdiv.
    pose proof (arr_length_nonneg vs) as Hnn.
    destruct (decide (0 < componentsPerAttribute s)) as [|Hneg]; [done|]. exfalso.
    destruct (decide (componentsPerAttribute s = 0)) as [Hz|Hnz].
    - rewrite Hz, Z.div_0_r in Hdiv. lia.
    - pose proof (Z.div_mod (arr_length vs) (componentsPerAttribute s) Hnz) as Hdm.
      pose proof (Z.mod_neg_bound (arr_length vs) (componentsPerAttribute s)) as Hmb.
      rewrite Hdiv in Hdm. nia. }
  set (triangles := arr_length indices `div` 3).
  pose proof (arr_length_nonneg indices) as Hnn.
  assert (Hlen3 : arr_length indices = 3 * triangles).
  { unfold triangles. rewrite (Z.div_mod (arr_length indices) 3) at 1 by lia. lia. }
  destruct (fit_rounds mesh indices (Z.to_nat triangles) Hnd Hpos)
    as (st & Hloop & Hc & Htable & Hattrs & Hmod' & Hfits & current & Htake & Hcur); [lia|].
  rewrite Z2Nat.id in Hloop by lia.
  assert (Hall : take (3 * Z.to_nat triangles) (arr_to_list indices) = arr_to_list indices).
  { apply take_ge. pose proof (arr_to_list_length indices). lia. }
  rewrite Hall in Htake.
  assert (∃ chunks,
            fitChunks (Some mesh) = Ok chunks
            ∧ Forall chunk_fits chunks.*1
            ∧ concat (chunkTriangles <$> chunks) = arr_to_list indices)
    as (chunks & Hrun & Hfit & Hconcat).
  { unfold fitChunks. rewrite decide_False by (rewrite Hpt; by intros ?).
    rewrite Hn. cbn [mbind result_bind]. rewrite Hil.
    rewrite decide_True by (unfold sixtyFourK; lia).
    rewrite (for_range_triples_length _ Hmod). fold triangles. rewrite Hloop.
    cbn [mbind result_bind]. case_decide as Hempty.
    - eexists. split; [done|]. split.
      + rewrite fmap_app. apply Forall_app. split; [by apply Forall_fmap|].
        apply Forall_singleton. cbn [fst]. split.
        * destruct (chunk_attributes_count (attributes mesh) (newAttributes st)
                      (currentIndex st) (newIndices st) (primitiveType mesh) Hnd Hattrs)
            as (Hblocks & n & Hcount & Hbound); [lia|].
          exists (currentIndex st). split; [lia|]. split; [done|].
          exists n. split; [done | lia].
        * exists (newIndices st). by split.
      + rewrite fmap_app, concat_app. cbn [fmap list_fmap concat]. rewrite app_nil_r.
        rewrite Htake. f_equal.
        unfold chunkTriangles. cbn [fst snd indexList createMesh from_option].
        by eapply remapBack_all.
    - eexists. split; [done|]. split; [by apply Forall_fmap|].
      rewrite Htake.
      assert (arr_to_list (newIndices st) = []) as Hnil.
      { apply length_zero_iff_nil. pose proof (arr_to_list_length (newIndices st)). lia. }
      rewrite Hnil in Hcur. apply Forall2_nil_inv_r in Hcur as ->. by rewrite app_nil_r. }
  exists chunks. split; [done|]. split; [|done].
  unfold fitToUnsignedShortIndices. by rewrite Hrun.
Qed.

End FitToUnsignedShortIndices.


(** ** combine: the index buffer *)

Section CombineIndices.
Context `{ExternalOps}.

Lemma typed_set_in_range (conv : option Z → Z) (dest : jsarray Z) (n : Z) (v : option Z) :
  0 ≤ n < arr_length dest →
  arr_length (typed_set conv dest n v) = arr_length dest
  ∧ ∀ key, arr_get (typed_set conv dest n v) key =
             if decide (key = n) then Some (conv v) else arr_get dest key.
Proof.
  intros Hn. unfold typed_set. rewrite decide_True by done. split.
  - rewrite arr_length_set. rewrite decide_True by lia. lia.
  - intros key. destruct (decide (key = n)) as [->|Hne].
    + apply arr_get_set_eq.
    + by apply arr_get_set_ne.
Qed.

(** The copy loop for the index list of one instance. *)
Lemma typed_fill_get (conv : option Z → Z) (source : jsarray Z) (offset : Z)
    (dest : jsarray Z) (n : Z) (len : nat) :
  0 ≤ n → n + Z.of_nat len ≤ arr_length dest →
  let r :=
    foldl (λ (d : jsarray Z * Z) k,
             (typed_set conv d.1 d.2 ((λ v, offset + v) <$> arr_get source k), d.2 + 1))
          (dest, n) (seqZ 0 (Z.of_nat len)) in
  r.2 = n + Z.of_nat len
  ∧ arr_length r.1 = arr_length dest
  ∧ ∀ key, arr_get r.1 key =
             if decide (n ≤ key < n + Z.of_nat len)
             then Some (conv ((λ v, offset + v) <$> arr_get source (key - n)))
             else arr_get dest key.
Proof.
  intros Hn. induction len as [|len IH]; intros Hlen.
  - simpl. split; [lia|]. split; [done|]. intros key. by rewrite decide_False by lia.
  - rewrite seqZ_S, foldl_app. cbn [foldl]. rewrite Z.add_0_l.
    destruct IH as (Hn' & Hlen' & Hget); [lia|].
    set (r := foldl _ _ (seqZ 0 (Z.of_nat len))) in *. cbn zeta in *. cbn [fst snd].
    destruct (typed_set_in_range conv r.1 r.2
                ((λ v, offset + v) <$> arr_get source (Z.of_nat len))) as [Hl Hg]; [lia|].
    split; [lia|]. split; [lia|]. intros key. rewrite Hg, Hget, Hn'.
    destruct (decide (key = n + Z.of_nat len)) as [->|Hne].
    + rewrite decide_True by lia.
      by replace (n + Z.of_nat len - n) with (Z.of_nat len) by lia.
    + destruct (decide (n ≤ key < n + Z.of_nat len)).
      * by rewrite decide_True by lia.
      * by rewrite decide_False by lia.
Qed.

Lemma length_mergedIndices (offset offset' : Z) (instances : list GeometryInstance) :
  length (mergedIndices offset instances) = length (mergedIndices offset' instances).
Proof.
  revert offset offset'. induction instances as [|instance rest IH]; intros offset offset'.
  - done.
  - cbn [mergedIndices]. rewrite !length_app, !length_fmap. f_equal. apply IH.
Qed.

Lemma combineIndexStep_spec (conv : option Z → Z) (dest : jsarray Z) (n offset : Z)
    (instance : GeometryInstance) (indices : jsarray Z) :
  indexList (geometry instance) = Some indices →
  all_have_values (attributes (geometry instance)) →
  0 ≤ n → n + arr_length indices ≤ arr_length dest →
  ∃ dest',
    combineIndexStep conv (dest, n, offset) instance
      = Ok (dest', n + arr_length indices, offset + instanceVertexCount instance)
    ∧ arr_length dest' = arr_length dest
    ∧ ∀ key, arr_get dest' key =
               if decide (n ≤ key < n + arr_length indices)
               then Some (conv ((λ v, offset + v) <$> arr_get indices (key - n)))
               else arr_get dest key.
Proof.
  intros Hil Hvalues Hn Hlen. pose proof (arr_length_nonneg indices) as Hnn.
  destruct (typed_fill_get conv indices offset dest n (Z.to_nat (arr_length indices)) Hn)
    as (Hn' & Hlen' & Hget); [lia|].
  cbn zeta in *. rewrite Z2Nat.id in Hn', Hlen', Hget by done.
  unfold combineIndexStep. rewrite Hil, for_range_unit.
  set (r := foldl _ _ (seqZ 0 (arr_length indices))) in *.
  assert (Hoffset :
            match attributes (geometry instance) with
            | (_, a) :: _ =>
                match values a with
                | Some vs => Ok (offset + arr_length vs `div` componentsPerAttribute a)
                | None => Throw TypeError
                end
            | [] => Ok offset
            end = Ok (offset + instanceVertexCount instance)).
  { unfold instanceVertexCount.
    destruct (attributes (geometry instance)) as [|[name a] rest]; [f_equal; lia|].
    apply Forall_cons in Hvalues as [[vs Hvs] _]. cbn [snd] in Hvs. by rewrite Hvs. }
  rewrite Hoffset. cbn [mbind result_bind]. exists r.1. rewrite Hn'. done.
Qed.

(** The index loop over all instances. *)
Lemma combineIndexLoop_spec (conv : option Z → Z) (instances : list GeometryInstance) :
  (∀ instance, instance ∈ instances →
     is_Some (indexList (geometry instance))
     ∧ all_have_values (attributes (geometry instance))) →
  ∀ (dest : jsarray Z) (n offset : Z),
    0 ≤ n →
    n + Z.of_nat (length (mergedIndices offset instances)) ≤ arr_length dest →
    ∃ dest' offset',
      foldM (combineIndexStep conv) (dest, n, offset) instances
        = Ok (dest', n + Z.of_nat (length (mergedIndices offset instances)), offset')
      ∧ arr_length dest' = arr_length dest
      ∧ (∀ key, 0 ≤ key < n → arr_get dest' key = arr_get dest key)
      ∧ (∀ j v, mergedIndices offset instances !! j = Some v →
           arr_get dest' (n + Z.of_nat j) = Some (conv v)).
Proof.
  induction instances as [|instance rest IH]; intros Hall dest n offset Hn Hlen.
  - exists dest, offset. cbn [foldM mergedIndices length]. rewrite Z.add_0_r.
    split; [done|]. split; [done|]. split; [done|]. intros j v Hj. done.
  - destruct (Hall instance) as [[indices Hil] Hvalues]; [apply list_elem_of_here|].
    cbn [mergedIndices] in *. rewrite Hil in *. cbn [from_option] in *.
    rewrite length_app, length_fmap in Hlen.
    pose proof (arr_to_list_length indices) as Hlist.
    destruct (combineIndexStep_spec conv dest n offset instance indices Hil Hvalues Hn)
      as (dest1 & Hstep & Hlen1 & Hget1); [lia|].
    destruct (IH (λ i Hi, Hall i (list_elem_of_further _ _ _ Hi)) dest1
                (n + arr_length indices) (offset + instanceVertexCount instance))
      as (dest' & offset' & Hloop & Hlen' & Hbefore & Hafter); [lia | lia |].
    exists dest', offset'. cbn [foldM]. rewrite Hstep. cbn [mbind result_bind].
    rewrite Hloop. rewrite length_app, length_fmap.
    split; [do 3 f_equal; lia|]. split; [lia|]. split.
    + intros key Hkey. rewrite Hbefore by lia. rewrite Hget1.
      by rewrite decide_False by lia.
    + intros j v Hj. destruct (decide (j < length (arr_to_list indices))%nat) as [Hlt|Hge].
      * rewrite lookup_app_l in Hj by (by rewrite length_fmap).
        rewrite list_lookup_fmap in Hj.
        rewrite <- (Nat2Z.id j) in Hj. rewrite arr_to_list_lookup in Hj by lia.
        injection Hj as <-. rewrite Hbefore by lia. rewrite Hget1.
        rewrite decide_True by lia.
        by replace (n + Z.of_nat j - n) with (Z.of_nat j) by lia.
      * rewrite lookup_app_r in Hj by (rewrite length_fmap; lia).
        rewrite length_fmap in Hj. apply Hafter in Hj. rewrite <- Hj. f_equal. lia.
Qed.

Lemma countIndices_spec (instances : list GeometryInstance) :
  (∀ instance, instance ∈ instances → is_Some (indexList (geometry instance))) →
  ∀ acc : option Z, ∃ numberOfIndices,
    foldM (λ (numberOfIndices : option Z) (instance : GeometryInstance),
             match indexList (geometry instance) with
             | Some indices =>
                 match numberOfIndices with
                 | Some n => Ok (Some (n + arr_length indices))
                 | None => Ok (Some (arr_length indices))
                 end
             | None => Throw TypeError
             end) acc instances = Ok numberOfIndices
    ∧ default 0 numberOfIndices
      = default 0 acc + Z.of_nat (length (mergedIndices 0 instances)).
Proof.
  induction instances as [|instance rest IH]; intros Hall acc; cbn [foldM].
  - exists acc. split; [done|]. simpl. lia.
  - destruct (Hall instance) as [indices Hil]; [apply list_elem_of_here|].
    rewrite Hil. cbn [mergedIndices]. rewrite Hil. cbn [from_option].
    rewrite length_app, length_fmap.
    rewrite (length_mergedIndices _ 0). pose proof (arr_to_list_length indices) as Hlist.
    destruct acc as [n|]; cbn [mbind result_bind].
    + destruct (IH (λ i Hi, Hall i (list_elem_of_further _ _ _ Hi)) (Some (n + arr_length indices)))
        as (r & -> & Hr).
      exists r. split; [done|]. rewrite Hr. simpl. lia.
    + destruct (IH (λ i Hi, Hall i (list_elem_of_further _ _ _ Hi)) (Some (arr_length indices)))
        as (r & -> & Hr).
      exists r. split; [done|]. rewrite Hr. simpl. lia.
Qed.

Lemma attr_lookup_is_Some name (attrs : Attributes) :
  name ∈ attrs.*1 → is_Some (attr_lookup name attrs).
Proof.
  induction attrs as [|[n a] attrs IH]; cbn [fmap list_fmap fst attr_lookup].
  - intros Hin. by apply elem_of_nil in Hin.
  - intros [->|Hin]%elem_of_cons.
    + rewrite decide_True by done. eauto.
    + destruct (decide (n = name)); [eauto | by apply IH].
Qed.







End CombineIndices.


(** ** toWireframe: strips, fans and the other primitive types *)

Section ToWireframeStrips.
Context `{ExternalTypes}.

Lemma arr_to_list_count_from {A} (a : jsarray A) :
  arr_to_list a = arr_get a <$> count_from (Z.to_nat (arr_length a)) 0 1.
Proof.
  unfold arr_to_list, for_range. do 3 f_equal. rewrite Z.div_1_r. lia.
Qed.

Lemma for_range_count_from (start stop : Z) :
  for_range start stop 1 = count_from (Z.to_nat (stop - start)) start 1.
Proof. unfold for_range. do 2 f_equal. rewrite Z.div_1_r. lia. Qed.

Lemma stripLaterEdges_cons (a b c : option Z) (rest : list (option Z)) :
  stripLaterEdges (a :: b :: c :: rest) = [b; c; c; a; a; b] ++ stripLaterEdges (b :: c :: rest).
Proof. done. Qed.

Lemma fanEdges_cons (base b c : option Z) (rest : list (option Z)) :
  fanEdges base (b :: c :: rest) = [base; b; b; c; c; base] ++ fanEdges base (c :: rest).
Proof. done. Qed.

Lemma length_stripLaterEdges (f : Z → option Z) (k : nat) (o : Z) :
  length (stripLaterEdges (f <$> count_from (S (S k)) o 1)) = (6 * k)%nat.
Proof.
  revert o. induction k as [|k IH]; intros o; [done|].
  change (count_from (S (S (S k))) o 1) with (o :: count_from (S (S k)) (o + 1) 1).
  change (f <$> o :: count_from (S (S k)) (o + 1) 1)
    with (f o :: (f <$> count_from (S (S k)) (o + 1) 1)).
  specialize (IH (o + 1)).
  destruct (f <$> count_from (S (S k)) (o + 1) 1) as [|b [|c rest]] eqn:Heq;
    [discriminate Heq.. |].
  rewrite stripLaterEdges_cons, length_app, IH. cbn [length]. lia.
Qed.

Lemma stripLoop_rounds (triangles : jsarray Z) (k : nat) :
  ∀ (o : Z) (acc : jsarray Z),
    arr_to_list
      (foldl (λ lines i,
                addTriangle lines (arr_get triangles (i - 1)) (arr_get triangles i)
                            (arr_get triangles (i - 2)))
             acc (count_from k o 1))
    = arr_to_list acc
        ++ stripLaterEdges (arr_get triangles <$> count_from (S (S k)) (o - 2) 1).
Proof.
  induction k as [|k IH]; intros o acc.
  - cbn. by rewrite app_nil_r.
  - cbn [count_from foldl]. rewrite IH, arr_to_list_addTriangle, <- app_assoc.
    f_equal.
    change (count_from (S (S (S k))) (o - 2) 1)
      with (o - 2 :: count_from (S (S k)) (o - 2 + 1) 1).
    replace (o - 2 + 1) with (o + 1 - 2) by lia.
    change (arr_get triangles <$> o - 2 :: count_from (S (S k)) (o + 1 - 2) 1)
      with (arr_get triangles (o - 2)
              :: (arr_get triangles <$> count_from (S (S k)) (o + 1 - 2) 1)).
    change (count_from (S (S k)) (o + 1 - 2) 1)
      with (o + 1 - 2 :: o + 1 - 2 + 1 :: count_from k (o + 1 - 2 + 1 + 1) 1).
    cbn [fmap list_fmap]. rewrite stripLaterEdges_cons.
    replace (o + 1 - 2) with (o - 1) by lia.
    replace (o - 1 + 1) with o by lia. done.
Qed.

Lemma triangleStripToLines_edges (triangles : jsarray Z) :
  arr_to_list (triangleStripToLines triangles) = stripEdges (arr_to_list triangles).
Proof.
  unfold triangleStripToLines. rewrite (arr_to_list_count_from triangles).
  pose proof (arr_length_nonneg triangles) as Hlen.
  case_decide as Hcount.
  - rewrite for_range_count_from, stripLoop_rounds, arr_to_list_addTriangle.
    rewrite arr_to_list_empty. cbn [app].
    replace (Z.to_nat (arr_length triangles))
      with (S (S (S (Z.to_nat (arr_length triangles - 3))))) by lia.
    change (3 - 2) with 1.
    change (count_from (S (S (S ?k))) 0 1) with (0 :: count_from (S (S k)) 1 1).
    cbn [count_from fmap list_fmap stripEdges tail app]. done.
  - rewrite arr_to_list_empty.
    destruct (Z.to_nat (arr_length triangles)) as [|[|[|n]]] eqn:Hn; try done. lia.
Qed.

Lemma fanLoop_rounds (triangles : jsarray Z) (base : option Z) (k : nat) :
  ∀ (o : Z) (acc : jsarray Z),
    arr_to_list
      (foldl (λ lines i,
                addTriangle lines base (arr_get triangles i) (arr_get triangles (i + 1)))
             acc (count_from k o 1))
    = arr_to_list acc ++ fanEdges base (arr_get triangles <$> count_from (S k) o 1).
Proof.
  induction k as [|k IH]; intros o acc.
  - cbn. by rewrite app_nil_r.
  - cbn [count_from foldl]. rewrite IH, arr_to_list_addTriangle, <- app_assoc.
    f_equal.
Qed.

Lemma length_fanEdges (base : option Z) (f : Z → option Z) (k : nat) (o : Z) :
  length (fanEdges base (f <$> count_from (S k) o 1)) = (6 * k)%nat.
Proof.
  revert o. induction k as [|k IH]; intros o; [done|].
  change (count_from (S (S k)) o 1) with (o :: count_from (S k) (o + 1) 1).
  change (f <$> o :: count_from (S k) (o + 1) 1)
    with (f o :: (f <$> count_from (S k) (o + 1) 1)).
  specialize (IH (o + 1)).
  destruct (f <$> count_from (S k) (o + 1) 1) as [|c rest] eqn:Heq; [discriminate Heq|].
  rewrite fanEdges_cons, length_app, IH. cbn [length]. lia.
Qed.

Lemma triangleFanToLines_edges (triangles : jsarray Z) :
  arr_to_list (triangleFanToLines triangles)
    = fanEdges (arr_get triangles 0) (tail (arr_to_list triangles)).
Proof.
  unfold triangleFanToLines. rewrite (arr_to_list_count_from triangles).
  pose proof (arr_length_nonneg triangles) as Hlen.
  case_decide as Hcount.
  - rewrite for_range_count_from, fanLoop_rounds, arr_to_list_empty. cbn [app].
    destruct (decide (arr_length triangles = 1)) as [Hone|Hmore].
    + rewrite Hone. done.
    + replace (Z.to_nat (arr_length triangles))
        with (S (S (Z.to_nat (arr_length triangles - 1 - 1)))) by lia.
      done.
  - rewrite arr_to_list_empty.
    replace (arr_length triangles) with 0 by lia. done.
Qed.

Lemma arr_length_to_list {A} (a : jsarray A) :
  arr_length a = Z.of_nat (length (arr_to_list a)).
Proof. by rewrite arr_to_list_length. Qed.

(** A TRIANGLE_STRIP mesh with an index list: the primitive type becomes
    LINES and the index list becomes the edges of the strip's triangles:
    the first three indices give one triangle, every further index one
    more, six line indices each; fewer than three indices give none. *)
Theorem toWireframe_triangle_strip (mesh : Geometry) (indices : jsarray Z) :
  primitiveType mesh = TRIANGLE_STRIP →
  indexList mesh = Some indices →
  ∃ lines,
    toWireframe (Some mesh) = Some (with_indexList mesh (Some lines) LINES)
    ∧ arr_to_list lines = stripEdges (arr_to_list indices)
    ∧ arr_length lines = 6 * Z.max 0 (arr_length indices - 2).
Proof.
  intros Htype Hindices. exists (triangleStripToLines indices).
  split; [unfold toWireframe; by rewrite Hindices, Htype|].
  split; [apply triangleStripToLines_edges|].
  rewrite (arr_length_to_list (triangleStripToLines indices)), triangleStripToLines_edges.
  rewrite (arr_to_list_count_from indices).
  pose proof (arr_length_nonneg indices) as Hlen.
  destruct (decide (arr_length indices < 3)) as [Hshort|Hlong].
  - destruct (Z.to_nat (arr_length indices)) as [|[|[|n]]] eqn:Hn; try (cbn; lia).
  - replace (Z.to_nat (arr_length indices))
      with (S (S (S (Z.to_nat (arr_length indices - 3))))) by lia.
    change (count_from (S (S (S ?k))) 0 1) with (0 :: count_from (S (S k)) 1 1).
    cbn [fmap list_fmap].
    change (count_from (S (S ?k)) 1 1) with (1 :: 1 + 1 :: count_from k (1 + 1 + 1) 1).
    cbn [fmap list_fmap stripEdges tail]. rewrite length_app.
    change (arr_get indices 1 :: arr_get indices (1 + 1)
              :: (arr_get indices <$> count_from ?k (1 + 1 + 1) 1))
      with (arr_get indices <$> count_from (S (S k)) 1 1).
    rewrite length_stripLaterEdges. cbn [length]. lia.
Qed.

(** A TRIANGLE_FAN mesh with an index list: the primitive type becomes
    LINES and the index list becomes the edges of the fan's triangles
    around the first index, one triangle for every two successive later
    indices, six line indices each; fewer than three indices give none. *)
Theorem toWireframe_triangle_fan (mesh : Geometry) (indices : jsarray Z) :
  primitiveType mesh = TRIANGLE_FAN →
  indexList mesh = Some indices →
  ∃ lines,
    toWireframe (Some mesh) = Some (with_indexList mesh (Some lines) LINES)
    ∧ arr_to_list lines = fanEdges (arr_get indices 0) (tail (arr_to_list indices))
    ∧ arr_length lines = 6 * Z.max 0 (arr_length indices - 2).
Proof.
  intros Htype Hindices. exists (triangleFanToLines indices).
  split; [unfold toWireframe; by rewrite Hindices, Htype|].
  split; [apply triangleFanToLines_edges|].
  rewrite (arr_length_to_list (triangleFanToLines indices)), triangleFanToLines_edges.
  rewrite (arr_to_list_count_from indices).
  pose proof (arr_length_nonneg indices) as Hlen.
  destruct (decide (arr_length indices < 2)) as [Hshort|Hlong].
  - destruct (Z.to_nat (arr_length indices)) as [|[|n]] eqn:Hn; try (cbn; lia).
  - replace (Z.to_nat (arr_length indices))
      with (S (S (Z.to_nat (arr_length indices - 2)))) by lia.
    change (count_from (S (S ?k)) 0 1) with (0 :: count_from (S k) 1 1).
    cbn [fmap list_fmap tail]. rewrite length_fanEdges. lia.
Qed.

(** Without index list the mesh is returned as it is.  With an index list
    and a primitive type that is none of the three triangle types, the
    index list is kept as it is and the primitive type is still set to
    LINES. *)
Theorem toWireframe_other_primitive (mesh : Geometry) :
  (indexList mesh = None → toWireframe (Some mesh) = Some mesh)
  ∧ (∀ indices,
       indexList mesh = Some indices →
       primitiveType mesh ∉ [TRIANGLES; TRIANGLE_STRIP; TRIANGLE_FAN] →
       toWireframe (Some mesh) = Some (with_indexList mesh (Some indices) LINES)).
Proof.
  split.
  - intros Hnone. unfold toWireframe. by rewrite Hnone.
  - intros indices Hindices Htype. unfold toWireframe. rewrite Hindices.
    destruct (primitiveType mesh); try done; exfalso; apply Htype; set_solver.
Qed.

End ToWireframeStrips.
(** ** createAttributeIndices and mapAttributeIndices *)

Section AttributeIndices.
Context `{ExternalTypes}.

Lemma createAttributeIndices_rounds (l : Attributes) :
  ∀ (indices : gmap string Z) (j : Z) (name : string),
    let r := foldl (λ (st : gmap string Z * Z) (p : string * GeometryAttribute),
                      (<[p.1 := st.2]> st.1, st.2 + 1))
                   (indices, j) l in
    (name ∉ l.*1 → r.1 !! name = indices !! name)
    ∧ (∀ k : nat, NoDup l.*1 → l.*1 !! k = Some name → r.1 !! name = Some (j + Z.of_nat k)).
Proof.
  induction l as [|[n a] l IH]; intros indices j name; cbn zeta.
  - split; [done|]. intros k _ Hk. done.
  - cbn [foldl fst snd fmap list_fmap].
    destruct (IH (<[n := j]> indices) (j + 1) name) as [IHout IHin]. split.
    + intros Hout. apply not_elem_of_cons in Hout as [Hne Hout].
      rewrite IHout by done. by rewrite lookup_insert_ne.
    + intros k Hnodup Hk. apply NoDup_cons in Hnodup as [Hfresh Hnodup].
      destruct k as [|k]; cbn in Hk.
      * injection Hk as ->. rewrite IHout by done. rewrite lookup_insert_eq. f_equal. lia.
      * rewrite (IHin k) by done. f_equal. lia.
Qed.

Lemma createAttributeIndices_lookup (mesh : Geometry) (name : string) :
  (name ∉ (attributes mesh).*1 → createAttributeIndices (Some mesh) !! name = None)
  ∧ (∀ k : nat, NoDup (attributes mesh).*1 → (attributes mesh).*1 !! k = Some name →
       createAttributeIndices (Some mesh) !! name = Some (Z.of_nat k)).
Proof.
  destruct (createAttributeIndices_rounds (attributes mesh) ∅ 0 name) as [Hout Hin].
  split.
  - intros Hname. unfold createAttributeIndices. by rewrite Hout.
  - intros k Hnodup Hk. unfold createAttributeIndices. by rewrite (Hin k).
Qed.

(** The attribute indices of a mesh: a name is bound to [j] exactly when
    it is the name of the attribute at position [j] of the mesh (its
    attribute names being the keys of an object, hence distinct). *)
Theorem createAttributeIndices_position (mesh : Geometry) (name : string) (j : Z) :
  NoDup (attributes mesh).*1 →
  createAttributeIndices (Some mesh) !! name = Some j
  ↔ 0 ≤ j ∧ (attributes mesh).*1 !! Z.to_nat j = Some name.
Proof.
  intros Hnodup. destruct (createAttributeIndices_lookup mesh name) as [Hout Hin]. split.
  - intros Hj. destruct (decide (name ∈ (attributes mesh).*1)) as [Hname|Hname].
    + apply list_elem_of_lookup in Hname as [k Hk].
      rewrite (Hin k Hnodup Hk) in Hj. injection Hj as <-.
      split; [lia|]. by rewrite Nat2Z.id.
    + rewrite (Hout Hname) in Hj. discriminate.
  - intros [Hj Hk]. rewrite (Hin _ Hnodup Hk). f_equal. lia.
Qed.

End AttributeIndices.

Lemma mapAttributeIndices_rounds (indices : gmap string Z) (l : list (string * Z)) :
  ∀ (mappedIndices : gmap Z (option Z)) (slot : Z),
    let r := foldl (λ (mappedIndices : gmap Z (option Z)) (p : string * Z),
                      <[p.2 := indices !! p.1]> mappedIndices)
                   mappedIndices l in
    (slot ∉ l.*2 → r !! slot = mappedIndices !! slot)
    ∧ (slot ∈ l.*2 → is_Some (r !! slot)).
Proof.
  induction l as [|[n s] l IH]; intros mappedIndices slot; cbn zeta.
  - split; [done|]. intros Hin. by apply elem_of_nil in Hin.
  - cbn [foldl fst snd fmap list_fmap].
    destruct (IH (<[s := indices !! n]> mappedIndices) slot) as [IHout IHin]. split.
    + intros Hout. apply not_elem_of_cons in Hout as [Hne Hout].
      rewrite IHout by done. by rewrite lookup_insert_ne.
    + intros Hin. destruct (decide (slot ∈ l.*2)) as [Hl|Hl]; [by apply IHin|].
      apply elem_of_cons in Hin as [->|Hin]; [|done].
      rewrite IHout by done. rewrite lookup_insert_eq. eauto.
Qed.

Lemma mapAttributeIndices_last (indices : gmap string Z) (before after : list (string * Z))
    (name : string) (slot : Z) :
  slot ∉ after.*2 →
  mapAttributeIndices (Some indices) (Some (before ++ (name, slot) :: after)) !! slot
    = Some (indices !! name).
Proof.
  intros Hafter. unfold mapAttributeIndices. rewrite foldl_app. cbn [foldl fst snd].
  destruct (mapAttributeIndices_rounds indices after
              (<[slot := indices !! name]>
                 (foldl (λ (mappedIndices : gmap Z (option Z)) (p : string * Z),
                           <[p.2 := indices !! p.1]> mappedIndices) ∅ before)) slot)
    as [Hout _].
  rewrite Hout by done. apply lookup_insert_eq.
Qed.


(** The two tables composed: with the attribute indices of a mesh as the
    indices table and a map with distinct slots, the slot of an attribute
    name is bound to the position of that attribute in the mesh. *)
Theorem mapAttributeIndices_createAttributeIndices `{ExternalTypes} (mesh : Geometry)
    (map : list (string * Z)) (name : string) (slot : Z) (k : nat) :
  NoDup (attributes mesh).*1 →
  NoDup map.*2 →
  (name, slot) ∈ map →
  (attributes mesh).*1 !! k = Some name →
  mapAttributeIndices (Some (createAttributeIndices (Some mesh))) (Some map) !! slot
    = Some (Some (Z.of_nat k)).
Proof.
  intros Hnames Hslots Hentry Hk.
  apply list_elem_of_split in Hentry as (before & after & ->).
  rewrite fmap_app, fmap_cons in Hslots. apply NoDup_app in Hslots as (_ & _ & Hslots).
  apply NoDup_cons in Hslots as [Hafter _].
  rewrite mapAttributeIndices_last by done. f_equal.
  by apply createAttributeIndices_lookup.
Qed.

(** ** combine: the merged attributes *)

Section CombineAttributes.
Context `{ExternalOps}.

Lemma arr_length_typed_new {A} (n : Z) (zero : A) :
  0 ≤ n → arr_length (typed_new n zero) = n.
Proof. intros Hn. unfold arr_length, typed_new. cbn [arr_len]. lia. Qed.

Lemma mergedValues_cons name (instance : GeometryInstance) (rest : list GeometryInstance) :
  mergedValues name (instance :: rest) = instanceValues name instance ++ mergedValues name rest.
Proof. done. Qed.

Lemma instanceValues_lookup name (instance : GeometryInstance) a vs :
  attr_lookup name (attributes (geometry instance)) = Some a →
  values a = Some vs →
  instanceValues name instance = arr_to_list vs.
Proof. intros Ha Hvs. unfold instanceValues. rewrite Ha. cbn. by rewrite Hvs. Qed.

(** The inner loop of findAttributesInAllGeometries: it ends with the
    total length exactly when the attribute is in all geometries. *)
Lemma sumComponents_spec name attribute (others : list GeometryInstance) :
  (∀ instance, instance ∈ others → all_have_values (attributes (geometry instance))) →
  ∀ n,
    (inAllGeometries name attribute others
     ∧ sumComponents name attribute others n
       = Ok (Some (n + Z.of_nat (length (mergedValues name others)))))
    ∨ (¬ inAllGeometries name attribute others
       ∧ sumComponents name attribute others n = Ok None).
Proof.
  induction others as [|instance others IH]; intros Hall n.
  - left. split; [intros i Hi; by apply elem_of_nil in Hi|].
    cbn. by rewrite Z.add_0_r.
  - cbn [sumComponents].
    destruct (attr_lookup name (attributes (geometry instance))) as [other|] eqn:Hother.
    + case_decide as Hdiffer.
      * right. split; [|done]. intros Hin.
        destruct (Hin instance) as (o & Ho & ? & ? & ?); [apply list_elem_of_here|].
        rewrite Hother in Ho. injection Ho as <-. tauto.
      * assert (Hvalues : is_Some (values other)).
        { eapply attr_lookup_all_have_values; [|exact Hother]. apply Hall, list_elem_of_here. }
        destruct Hvalues as [vs Hvs]. rewrite Hvs.
        destruct (IH (λ i Hi, Hall i (list_elem_of_further _ _ _ Hi)) (n + arr_length vs))
          as [[Hin ->]|[Hout ->]].
        -- left. split.
           ++ intros i [->|Hi]%elem_of_cons; [|by apply Hin].
              exists other. split; [done|].
              destruct (decide (componentDatatype attribute = componentDatatype other));
                [|tauto].
              destruct (decide (componentsPerAttribute attribute
                                = componentsPerAttribute other)); [|tauto].
              destruct (decide (normalize attribute = normalize other)); [done|tauto].
           ++ rewrite mergedValues_cons, (instanceValues_lookup _ _ _ _ Hother Hvs).
              rewrite length_app. pose proof (arr_to_list_length vs). do 2 f_equal. lia.
        -- right. split; [|done]. intros Hin. apply Hout.
           intros i Hi. by apply Hin, list_elem_of_further.
    + right. split; [|done]. intros Hin.
      destruct (Hin instance) as (o & Ho & _); [apply list_elem_of_here|]. congruence.
Qed.

Lemma attr_store_NoDup n a (attrs : Attributes) :
  NoDup attrs.*1 → NoDup (attr_store n a attrs).*1.
Proof.
  induction attrs as [|[m b] attrs IH]; cbn [attr_store fmap list_fmap fst].
  - intros _. apply NoDup_singleton.
  - intros [Hfresh Hnodup]%NoDup_cons. destruct (decide (m = n)) as [->|Hne].
    + cbn [fmap list_fmap fst]. by apply NoDup_cons.
    + cbn [fmap list_fmap fst]. apply NoDup_cons. split; [|by apply IH].
      intros Hin. apply Hfresh. clear -Hin Hne.
      induction attrs as [|[k c] attrs IH]; cbn [attr_store fmap list_fmap fst] in *.
      * apply list_elem_of_singleton in Hin. done.
      * destruct (decide (k = n)) as [->|Hk]; cbn [fmap list_fmap fst] in Hin.
        -- done.
        -- apply elem_of_cons in Hin as [->|Hin]; [apply list_elem_of_here|].
           apply list_elem_of_further. by apply IH.
Qed.

Lemma findAttributes_rounds (instance0 : GeometryInstance) (others : list GeometryInstance)
    (l : Attributes) :
  (∀ instance, instance ∈ others → all_have_values (attributes (geometry instance))) →
  (∀ name a, (name, a) ∈ l →
     attr_lookup name (attributes (geometry instance0)) = Some a ∧ is_Some (values a)) →
  NoDup l.*1 →
  ∀ acc : Attributes,
    NoDup acc.*1 →
    ∃ acc',
      foldM (λ (attributesInAllGeometries : Attributes) (p : string * GeometryAttribute),
               let attribute := p.2 in
               match values attribute with
               | Some vs =>
                   r ← sumComponents p.1 attribute others (arr_length vs);
                   match r with
                   | Some numberOfComponents =>
                       Ok (attr_store p.1
                             {| componentDatatype := componentDatatype attribute;
                                componentsPerAttribute := componentsPerAttribute attribute;
                                normalize := normalize attribute;
                                values := Some (typed_new numberOfComponents num_zero) |}
                             attributesInAllGeometries)
                   | None => Ok attributesInAllGeometries
                   end
               | None => Throw TypeError
               end) acc l = Ok acc'
      ∧ NoDup acc'.*1
      ∧ ∀ name,
          (name ∉ l.*1 → attr_lookup name acc' = attr_lookup name acc)
          ∧ (∀ a, (name, a) ∈ l →
               (inAllGeometries name a others
                ∧ attr_lookup name acc'
                  = Some (mergedDescription (instance0 :: others) name a))
               ∨ (¬ inAllGeometries name a others
                  ∧ attr_lookup name acc' = attr_lookup name acc)).
Proof.
  intros Hall. induction l as [|[n a] l IH]; intros Hl Hnodup acc Hacc; cbn [foldM].
  - exists acc. split; [done|]. split; [done|]. intros name. split; [done|].
    intros a0 Hin. by apply elem_of_nil in Hin.
  - apply NoDup_cons in Hnodup as [Hfresh Hnodup]. cbn [fst snd].
    destruct (Hl n a) as [Hlookup [vs Hvs]]; [apply list_elem_of_here|]. rewrite Hvs.
    assert (Hl' : ∀ name a0, (name, a0) ∈ l →
              attr_lookup name (attributes (geometry instance0)) = Some a0
              ∧ is_Some (values a0)).
    { intros name a0 Hin. by apply Hl, list_elem_of_further. }
    assert (Htotal : arr_length vs + Z.of_nat (length (mergedValues n others))
                     = Z.of_nat (length (mergedValues n (instance0 :: others)))).
    { rewrite mergedValues_cons, (instanceValues_lookup _ _ _ _ Hlookup Hvs), length_app.
      pose proof (arr_to_list_length vs). lia. }
    destruct (sumComponents_spec n a others Hall (arr_length vs)) as [[Hin ->]|[Hout ->]];
      cbn [mbind result_bind].
    + rewrite Htotal.
      destruct (IH Hl' Hnodup (attr_store n (mergedDescription (instance0 :: others) n a) acc))
        as (acc' & Hfold & Hacc' & Hget); [by apply attr_store_NoDup|].
      exists acc'. split; [exact Hfold|]. split; [done|]. intros name.
      destruct (Hget name) as [Hget1 Hget2]. split.
      * intros Hname. cbn [fmap list_fmap fst] in Hname.
        apply not_elem_of_cons in Hname as [Hne Hname].
        rewrite Hget1 by done. rewrite attr_lookup_store. by rewrite decide_False.
      * intros a0 [Heq|Ha0]%elem_of_cons.
        -- injection Heq as -> ->. left. split; [done|].
           destruct (Hget n) as [Hkeep _]. rewrite Hkeep by done.
           apply attr_lookup_store_eq.
        -- destruct (Hget2 a0 Ha0) as [?|[Hno Hsame]]; [by left|]. right.
           split; [done|]. rewrite Hsame, attr_lookup_store. rewrite decide_False; [done|].
           intros ->. apply Hfresh. by apply (list_elem_of_fmap_2 fst) in Ha0.
    + destruct (IH Hl' Hnodup acc Hacc) as (acc' & Hfold & Hacc' & Hget).
      exists acc'. split; [exact Hfold|]. split; [done|]. intros name.
      destruct (Hget name) as [Hget1 Hget2]. split.
      * intros Hname. cbn [fmap list_fmap fst] in Hname.
        apply not_elem_of_cons in Hname as [Hne Hname]. by apply Hget1.
      * intros a0 [Heq|Ha0]%elem_of_cons.
        -- injection Heq as -> ->. right. split; [done|].
           destruct (Hget n) as [Hkeep _]. by apply Hkeep.
        -- by apply Hget2.
Qed.

Lemma typed_set_get {A} (conv : option A → A) (dest : jsarray A) (n : Z) (v : option A) :
  0 ≤ n < arr_length dest →
  arr_length (typed_set conv dest n v) = arr_length dest
  ∧ ∀ key, arr_get (typed_set conv dest n v) key =
             if decide (key = n) then Some (conv v) else arr_get dest key.
Proof.
  intros Hn. unfold typed_set. rewrite decide_True by done. split.
  - rewrite arr_length_set. rewrite decide_True by lia. lia.
  - intros key. destruct (decide (key = n)) as [->|Hne].
    + apply arr_get_set_eq.
    + by apply arr_get_set_ne.
Qed.

(** A copy loop into a typed array: [dest[n++] = f(k)] for [k] from 0. *)
Lemma typed_copy_get {A} (conv : option A → A) (f : Z → option A)
    (dest : jsarray A) (n : Z) (len : nat) :
  0 ≤ n → n + Z.of_nat len ≤ arr_length dest →
  let r :=
    foldl (λ (d : jsarray A * Z) k, (typed_set conv d.1 d.2 (f k), d.2 + 1))
          (dest, n) (seqZ 0 (Z.of_nat len)) in
  r.2 = n + Z.of_nat len
  ∧ arr_length r.1 = arr_length dest
  ∧ ∀ key, arr_get r.1 key =
             if decide (n ≤ key < n + Z.of_nat len)
             then Some (conv (f (key - n)))
             else arr_get dest key.
Proof.
  intros Hn. induction len as [|len IH]; intros Hlen.
  - simpl. split; [lia|]. split; [done|]. intros key. by rewrite decide_False by lia.
  - rewrite seqZ_S, foldl_app. cbn [foldl]. rewrite Z.add_0_l.
    destruct IH as (Hn' & Hlen' & Hget); [lia|].
    set (r := foldl _ _ (seqZ 0 (Z.of_nat len))) in *. cbn zeta in *. cbn [fst snd].
    destruct (typed_set_get conv r.1 r.2 (f (Z.of_nat len))) as [Hl Hg]; [lia|].
    split; [lia|]. split; [lia|]. intros key. rewrite Hg, Hget, Hn'.
    destruct (decide (key = n + Z.of_nat len)) as [->|Hne].
    + rewrite decide_True by lia.
      by replace (n + Z.of_nat len - n) with (Z.of_nat len) by lia.
    + destruct (decide (n ≤ key < n + Z.of_nat len)).
      * by rewrite decide_True by lia.
      * by rewrite decide_False by lia.
Qed.

(** The copy loop of combine over the instances, for one attribute. *)
Lemma combineValuesLoop_spec name (conv : option number → number)
    (l : list GeometryInstance) :
  (∀ instance, instance ∈ l →
     ∃ source vs, attr_lookup name (attributes (geometry instance)) = Some source
                  ∧ values source = Some vs) →
  ∀ (dest : jsarray number) (n : Z),
    0 ≤ n →
    n + Z.of_nat (length (mergedValues name l)) ≤ arr_length dest →
    ∃ dest',
      foldM (λ (st : jsarray number * Z) (instance : GeometryInstance),
               match attr_lookup name (attributes (geometry instance)) with
               | Some source =>
                   match values source with
                   | Some sourceValues =>
                       Ok (foldl (λ (st : jsarray number * Z) j,
                                    (typed_set conv st.1 st.2 (arr_get sourceValues j),
                                     st.2 + 1))
                                 st (for_range 0 (arr_length sourceValues) 1))
                   | None => Throw TypeError
                   end
               | None => Throw TypeError
               end)
            (dest, n) l
        = Ok (dest', n + Z.of_nat (length (mergedValues name l)))
      ∧ arr_length dest' = arr_length dest
      ∧ (∀ key, 0 ≤ key < n → arr_get dest' key = arr_get dest key)
      ∧ (∀ j v, mergedValues name l !! j = Some v →
           arr_get dest' (n + Z.of_nat j) = Some (conv v)).
Proof.
  induction l as [|instance rest IH]; intros Hall dest n Hn Hlen.
  - exists dest. cbn [foldM mergedValues fmap list_fmap concat length].
    rewrite Z.add_0_r. split; [done|]. split; [done|]. split; [done|]. intros j v Hj. done.
  - destruct (Hall instance) as (source & vs & Hsource & Hvs); [apply list_elem_of_here|].
    rewrite mergedValues_cons, (instanceValues_lookup _ _ _ _ Hsource Hvs) in *.
    rewrite length_app in Hlen.
    pose proof (arr_to_list_length vs) as Hlist. pose proof (arr_length_nonneg vs) as Hnn.
    destruct (typed_copy_get conv (arr_get vs) dest n (Z.to_nat (arr_length vs)) Hn)
      as (Hn1 & Hlen1 & Hget1); [lia|].
    cbn zeta in *. rewrite Z2Nat.id in Hn1, Hlen1, Hget1 by done.
    rewrite <- for_range_unit in Hn1, Hlen1, Hget1.
    set (r := foldl _ (dest, n) (for_range 0 (arr_length vs) 1)) in *.
    destruct (IH (λ i Hi, Hall i (list_elem_of_further _ _ _ Hi)) r.1 (n + arr_length vs))
      as (dest' & Hloop & Hlen' & Hbefore & Hafter); [lia | lia |].
    exists dest'. cbn [foldM]. rewrite Hsource, Hvs. cbn [mbind result_bind].
    fold r. rewrite (surjective_pairing r), Hn1, Hloop. rewrite length_app.
    split; [do 2 f_equal; lia|]. split; [lia|]. split.
    + intros key Hkey. rewrite Hbefore by lia. rewrite Hget1.
      by rewrite decide_False by lia.
    + intros j v Hj. destruct (decide (j < length (arr_to_list vs))%nat) as [Hlt|Hge].
      * rewrite lookup_app_l in Hj by done.
        rewrite <- (Nat2Z.id j) in Hj. rewrite arr_to_list_lookup in Hj by lia.
        injection Hj as <-. rewrite Hbefore by lia. rewrite Hget1.
        rewrite decide_True by lia.
        by replace (n + Z.of_nat j - n) with (Z.of_nat j) by lia.
      * rewrite lookup_app_r in Hj by lia.
        apply Hafter in Hj. rewrite <- Hj. f_equal. lia.
Qed.

Lemma combineValues_spec (instances : list GeometryInstance) name attribute dest :
  values attribute = Some dest →
  arr_length dest = Z.of_nat (length (mergedValues name instances)) →
  (∀ instance, instance ∈ instances →
     ∃ source vs, attr_lookup name (attributes (geometry instance)) = Some source
                  ∧ values source = Some vs) →
  ∃ buffer,
    combineValues instances name attribute = Ok (with_values attribute (Some buffer))
    ∧ arr_to_list buffer
      = (λ v, Some (typedArrayStore (componentDatatype attribute) v))
          <$> mergedValues name instances.
Proof.
  intros Hdest Hlen Hall.
  destruct (combineValuesLoop_spec name (typedArrayStore (componentDatatype attribute))
              instances Hall dest 0) as (buffer & Hloop & Hlen' & _ & Hget); [lia | lia |].
  exists buffer. split.
  - unfold combineValues. rewrite Hdest, Hloop. done.
  - apply list_eq. intros j. rewrite list_lookup_fmap.
    destruct (mergedValues name instances !! j) as [v|] eqn:Hj.
    + apply lookup_lt_Some in Hj as Hlt.
      rewrite <- (Nat2Z.id j). rewrite arr_to_list_lookup by lia.
      cbn [fmap option_fmap option_map]. f_equal. rewrite <- (Z.add_0_l (Z.of_nat j)).
      by apply Hget.
    + apply lookup_ge_None in Hj. apply lookup_ge_None.
      pose proof (arr_to_list_length buffer). lia.
Qed.

(** The loop of combine over the merged attributes. *)
Lemma combineAttributes_spec (instances : list GeometryInstance) (l : Attributes) :
  NoDup l.*1 →
  (∀ name a, (name, a) ∈ l → ∃ a', combineValues instances name a = Ok a') →
  ∀ acc : Attributes, ∃ acc',
    foldM (λ (acc : Attributes) (p : string * GeometryAttribute),
             a ← combineValues instances p.1 p.2;
             Ok (attr_store p.1 a acc))
          acc l = Ok acc'
    ∧ ∀ name,
        (name ∉ l.*1 → attr_lookup name acc' = attr_lookup name acc)
        ∧ (∀ a, (name, a) ∈ l →
             ∃ a', combineValues instances name a = Ok a' ∧ attr_lookup name acc' = Some a').
Proof.
  induction l as [|[n a] l IH]; intros Hnodup Hl acc; cbn [foldM].
  - exists acc. split; [done|]. intros name. split; [done|].
    intros a0 Hin. by apply elem_of_nil in Hin.
  - apply NoDup_cons in Hnodup as [Hfresh Hnodup]. cbn [fst snd].
    destruct (Hl n a) as [a' Ha']; [apply list_elem_of_here|]. rewrite Ha'.
    cbn [mbind result_bind].
    destruct (IH Hnodup (λ name a0 Hin, Hl name a0 (list_elem_of_further _ _ _ Hin))
                (attr_store n a' acc)) as (acc' & Hfold & Hget).
    exists acc'. split; [exact Hfold|]. intros name.
    destruct (Hget name) as [Hget1 Hget2]. split.
    + intros Hname. cbn [fmap list_fmap fst] in Hname.
      apply not_elem_of_cons in Hname as [Hne Hname].
      rewrite Hget1 by done. rewrite attr_lookup_store. by rewrite decide_False.
    + intros a0 [Heq|Ha0]%elem_of_cons.
      * injection Heq as -> ->. exists a'. split; [done|].
        destruct (Hget n) as [Hkeep _]. rewrite Hkeep by done. apply attr_lookup_store_eq.
      * by apply Hget2.
Qed.

Lemma bind_Ok {A B} (r : result A) (k : A → result B) (b : B) :
  r ≫= k = Ok b → ∃ a, r = Ok a ∧ k a = Ok b.
Proof. destruct r as [a|e]; [eauto | discriminate]. Qed.

Lemma combineSpheres_some (instances : list GeometryInstance) (spheres : list BoundingSphere) :
  (λ instance, boundingSphere (geometry instance)) <$> instances = Some <$> spheres →
  ∀ b, combineSpheres instances (Some b) = Some (foldl BoundingSphere_union b spheres).
Proof.
  revert spheres. induction instances as [|instance rest IH]; intros [|s spheres] Heq b;
    try discriminate; [done|].
  cbn [fmap list_fmap] in Heq. injection Heq as Hs Hrest.
  cbn [combineSpheres]. rewrite Hs. cbn [foldl]. by apply IH.
Qed.

Lemma combineSpheres_all (instances : list GeometryInstance) (spheres : list BoundingSphere) :
  (λ instance, boundingSphere (geometry instance)) <$> instances = Some <$> spheres →
  combineSpheres instances None = unionOfSpheres spheres.
Proof.
  destruct instances as [|instance rest], spheres as [|s spheres]; try discriminate; [done|].
  intros Heq. cbn [fmap list_fmap] in Heq. injection Heq as Hs Hrest.
  cbn [combineSpheres unionOfSpheres]. rewrite Hs. by apply combineSpheres_some.
Qed.

Lemma combineSpheres_missing (instances : list GeometryInstance) :
  ∀ acc, (∃ instance, instance ∈ instances ∧ boundingSphere (geometry instance) = None) →
    combineSpheres instances acc = None.
Proof.
  induction instances as [|instance rest IH]; intros acc (i & Hi & Hnone).
  - by apply elem_of_nil in Hi.
  - cbn [combineSpheres]. destruct (boundingSphere (geometry instance)) as [bs|] eqn:Hbs;
      [|done].
    apply IH. apply elem_of_cons in Hi as [->|Hi]; [congruence | eauto].
Qed.

Lemma spheres_all_or_missing (instances : list GeometryInstance) :
  (∃ spheres,
     (λ instance, boundingSphere (geometry instance)) <$> instances = Some <$> spheres)
  ∨ (∃ instance, instance ∈ instances ∧ boundingSphere (geometry instance) = None).
Proof.
  induction instances as [|instance rest IH].
  - left. by exists [].
  - destruct (boundingSphere (geometry instance)) as [bs|] eqn:Hbs.
    + destruct IH as [[spheres Hspheres]|(i & Hi & Hnone)].
      * left. exists (bs :: spheres). cbn [fmap list_fmap]. by rewrite Hbs, Hspheres.
      * right. exists i. split; [by apply list_elem_of_further | done].
    + right. exists instance. split; [apply list_elem_of_here | done].
Qed.

(** The bounding sphere and the primitive type of a merge of two or more
    instances: the merged geometry has a bounding sphere exactly when
    every instance has one, and it is then the clone of the first sphere
    united with the others in order; the primitive type is that of the
    first instance, whatever the others have. *)
Theorem combine_boundingSphere (instance0 : GeometryInstance) (others : list GeometryInstance)
    (merged : Geometry) :
  others ≠ [] →
  combine (Some (instance0 :: others)) = Ok merged →
  (boundingSphere merged = None
   ↔ ∃ instance, instance ∈ instance0 :: others ∧ boundingSphere (geometry instance) = None)
  ∧ (∀ spheres,
       (λ instance, boundingSphere (geometry instance)) <$> (instance0 :: others)
         = Some <$> spheres →
       boundingSphere merged = unionOfSpheres spheres)
  ∧ primitiveType merged = primitiveType (geometry instance0).
Proof.
  intros Hothers Hcombine.
  destruct others as [|instance1 others']; [done|].
  unfold combine in Hcombine.
  apply bind_Ok in Hcombine as (? & _ & Hcombine).
  apply bind_Ok in Hcombine as (attrs & _ & Hcombine).
  apply bind_Ok in Hcombine as (attrs' & _ & Hcombine).
  apply bind_Ok in Hcombine as (n & _ & Hcombine).
  apply bind_Ok in Hcombine as (r & _ & Hcombine).
  set (instances := instance0 :: instance1 :: others') in *.
  remember (combineSpheres instances None) as sphere eqn:Hsphere.
  injection Hcombine as <-. cbn [boundingSphere primitiveType]. subst sphere.
  split; [|split; [|done]].
  - split.
    + intros Hnone. destruct (spheres_all_or_missing instances) as [[spheres Hall]|?]; [|done].
      rewrite (combineSpheres_all _ _ Hall) in Hnone.
      destruct spheres; [discriminate Hall | discriminate Hnone].
    + apply combineSpheres_missing.
  - intros spheres Hall. by apply combineSpheres_all.
Qed.

(** The attributes of a merge of two or more instances with the same
    model matrix: an attribute of the first instance survives exactly
    when every other instance has an attribute of that name with the same
    datatype, number of components and normalize flag; its buffer then
    holds the values of the instances, in the order of the instances,
    each converted by the store into the typed array of its datatype.
    (The attribute names of the first instance are the keys of an object,
    hence distinct; every attribute has values and every instance an index
    list.) *)
Theorem combine_attribute_values (instance0 : GeometryInstance)
    (others : list GeometryInstance) :
  others ≠ [] →
  NoDup (attributes (geometry instance0)).*1 →
  (∀ instance, instance ∈ others →
     Matrix4_equals (modelMatrix instance) (modelMatrix instance0) = true) →
  (∀ instance, instance ∈ instance0 :: others →
     is_Some (indexList (geometry instance))
     ∧ all_have_values (attributes (geometry instance))) →
  ∃ merged,
    combine (Some (instance0 :: others)) = Ok merged
    ∧ (∀ name attribute,
         attr_lookup name (attributes (geometry instance0)) = Some attribute →
         inAllGeometries name attribute others →
         ∃ buffer,
           attr_lookup name (attributes merged) = Some (with_values attribute (Some buffer))
           ∧ arr_to_list buffer
             = (λ v, Some (typedArrayStore (componentDatatype attribute) v))
                 <$> mergedValues name (instance0 :: others))
    ∧ (∀ name, is_Some (attr_lookup name (attributes merged)) →
         ∃ attribute,
           attr_lookup name (attributes (geometry instance0)) = Some attribute
           ∧ inAllGeometries name attribute others).
Proof.
  intros Hothers Hnames Hmatrix Hall.
  destruct others as [|instance1 others']; [done|].
  set (others := instance1 :: others') in *.
  set (instances := instance0 :: others) in *.
  destruct (matrix_loop_spec (modelMatrix instance0) others) as [[Hloop _]|[_ (i & Hi & Hne)]];
    [|by rewrite (Hmatrix i Hi) in Hne].
  cbn zeta in Hloop.
  assert (Hvalues : ∀ instance, instance ∈ instances →
            all_have_values (attributes (geometry instance))).
  { intros i Hi. by apply Hall. }
  (* the attributes found in all geometries *)
  destruct (findAttributes_rounds instance0 others (attributes (geometry instance0)))
    with (acc := @nil (string * GeometryAttribute))
    as (attrs & Hfind & Hattrs & Hfound).
  { intros i Hi. by apply Hvalues, list_elem_of_further. }
  { intros name a Hin. split; [by apply attr_lookup_NoDup|].
    specialize (Hvalues instance0 (list_elem_of_here _ _)).
    unfold all_have_values in Hvalues. rewrite Forall_forall in Hvalues.
    by apply (Hvalues (name, a)). }
  { done. }
  { apply NoDup_nil_2. }
  assert (Hdescr : ∀ name a, (name, a) ∈ attrs →
            ∃ a0, attr_lookup name (attributes (geometry instance0)) = Some a0
                  ∧ inAllGeometries name a0 others
                  ∧ a = mergedDescription instances name a0).
  { intros name a Hin. apply (attr_lookup_NoDup _ _ _ Hattrs) in Hin.
    destruct (Hfound name) as [Hout Hcases].
    destruct (decide (name ∈ (attributes (geometry instance0)).*1)) as [Hname|Hname].
    - apply attr_lookup_is_Some in Hname as [a0 Ha0].
      destruct (Hcases a0 (attr_lookup_elem _ _ _ Ha0)) as [[Hyes Heq]|[_ Heq]].
      + exists a0. split; [done|]. split; [done|].
        rewrite Heq in Hin. by injection Hin as <-.
      + rewrite Heq in Hin. discriminate.
    - rewrite (Hout Hname) in Hin. discriminate. }
  assert (Hcopy : ∀ name a, (name, a) ∈ attrs →
            ∃ a0 buffer,
              attr_lookup name (attributes (geometry instance0)) = Some a0
              ∧ inAllGeometries name a0 others
              ∧ combineValues instances name a = Ok (with_values a0 (Some buffer))
              ∧ arr_to_list buffer
                = (λ v, Some (typedArrayStore (componentDatatype a0) v))
                    <$> mergedValues name instances).
  { intros name a Hin. destruct (Hdescr name a Hin) as (a0 & Ha0 & Hyes & ->).
    destruct (combineValues_spec instances name (mergedDescription instances name a0)
                (typed_new (Z.of_nat (length (mergedValues name instances))) num_zero))
      as (buffer & Hbuffer & Hlist).
    - done.
    - apply arr_length_typed_new. lia.
    - intros i [->|Hi]%elem_of_cons.
      + destruct (attr_lookup_all_have_values name _ a0 (Hvalues _ (list_elem_of_here _ _)) Ha0)
          as [vs Hvs].
        eauto.
      + destruct (Hyes i Hi) as (o & Ho & _).
        destruct (attr_lookup_all_have_values name _ o
                    (Hvalues _ (list_elem_of_further _ _ _ Hi)) Ho) as [vs Hvs].
        eauto.
    - exists a0, buffer. done. }
  destruct (combineAttributes_spec instances attrs Hattrs) with (acc := attrs)
    as (attrs' & Hcombine & Hcombined).
  { intros name a Hin. destruct (Hcopy name a Hin) as (a0 & buffer & _ & _ & Hok & _). eauto. }
  (* the index list *)
  destruct (countIndices_spec instances) with (acc := @None Z) as (count & Hcount & Htotal).
  { intros i Hi. by apply Hall. }
  change (default 0 None) with 0 in Htotal. rewrite Z.add_0_l in Htotal.
  assert (Hnew : arr_length (typed_new (default 0 count) 0) = default 0 count).
  { apply arr_length_typed_new. lia. }
  destruct (combineIndexLoop_spec
              (if decide (default 0 count < 60 * 1024) then ToUint16 else ToUint32)
              instances Hall (typed_new (default 0 count) 0) 0 0)
    as (dest & offset & Hindex & _); [lia | lia |].
  assert (Hfind' : findAttributesInAllGeometries instances = Ok attrs) by exact Hfind.
  eexists. split.
  { subst instances others. unfold combine.
    rewrite Hloop. cbn [mbind result_bind]. rewrite Hfind'. cbn [mbind result_bind].
    rewrite Hcombine. cbn [mbind result_bind].
    unfold countIndices. rewrite Hcount. cbn [mbind result_bind].
    rewrite Hindex. cbn [mbind result_bind]. reflexivity. }
  cbn [attributes]. split.
  - intros name a0 Ha0 Hyes.
    destruct (Hfound name) as [_ Hcases].
    destruct (Hcases a0 (attr_lookup_elem _ _ _ Ha0)) as [[_ Hin]|[Hno _]]; [|done].
    apply attr_lookup_elem in Hin.
    destruct (Hcopy _ _ Hin) as (a1 & buffer & Ha1 & _ & Hok & Hlist).
    assert (a1 = a0) as -> by congruence.
    destruct (Hcombined name) as [_ Hstored].
    destruct (Hstored _ Hin) as (a' & Ha' & Hlookup).
    exists buffer. split; [congruence | done].
  - intros name [a Ha]. destruct (Hcombined name) as [Hout _].
    destruct (decide (name ∈ attrs.*1)) as [Hname|Hname].
    + apply attr_lookup_is_Some in Hname as [a1 Ha1]. apply attr_lookup_elem in Ha1.
      destruct (Hdescr _ _ Ha1) as (a0 & Ha0 & Hyes & _). eauto.
    + rewrite (Hout Hname) in Ha. apply attr_lookup_name in Ha. done.
Qed.



End CombineAttributes.

(** ** reorderForPostVertexCache *)

Section ReorderForPostVertexCache.
Context `{ExternalOps} `{!AuxiliaryOps}.

Lemma maximumIndex_rounds (indices : jsarray Z) (k : nat) :
  let m := foldl (λ maximumIndex j,
                    match arr_get indices j with
                    | Some v => if decide (v > maximumIndex) then v else maximumIndex
                    | None => maximumIndex
                    end)
                 0 (seqZ 0 (Z.of_nat k)) in
  0 ≤ m
  ∧ (∀ p v, 0 ≤ p < Z.of_nat k → arr_get indices p = Some v → v ≤ m)
  ∧ (m = 0 ∨ ∃ p, 0 ≤ p < Z.of_nat k ∧ arr_get indices p = Some m).
Proof.
  induction k as [|k IH]; cbn zeta.
  - cbn. split; [done|]. split; [intros; lia | by left].
  - rewrite seqZ_S, foldl_app. cbn [foldl]. rewrite Z.add_0_l.
    cbn zeta in IH. destruct IH as (Hnn & Hbound & Hmax).
    set (m := foldl _ 0 (seqZ 0 (Z.of_nat k))) in *.
    destruct (arr_get indices (Z.of_nat k)) as [v|] eqn:Hv.
    + case_decide as Hgt.
      * split; [lia|]. split.
        -- intros p w Hp Hw. destruct (decide (p = Z.of_nat k)) as [->|Hne].
           ++ assert (w = v) by congruence. lia.
           ++ assert (w ≤ m) by (apply (Hbound p); [lia | done]). lia.
        -- right. exists (Z.of_nat k). split; [lia | done].
      * split; [done|]. split.
        -- intros p w Hp Hw. destruct (decide (p = Z.of_nat k)) as [->|Hne].
           ++ assert (w = v) by congruence. lia.
           ++ apply (Hbound p); [lia | done].
        -- destruct Hmax as [?|(p & Hp & Hm)]; [by left|]. right. exists p. split; [lia|done].
    + split; [done|]. split.
      * intros p w Hp Hw. destruct (decide (p = Z.of_nat k)) as [->|Hne]; [congruence|].
        apply (Hbound p); [lia | done].
      * destruct Hmax as [?|(p & Hp & Hm)]; [by left|]. right. exists p. split; [lia|done].
Qed.

(** With an index list, Tipsify is given the list, the cache capacity as
    passed, and a maximum index that is at least 0 and at least every
    index of the list, and that is 0 or one of the indices; its result
    replaces the index list and nothing else of the mesh changes; an
    exception of Tipsify leaves the call. *)
Theorem reorderForPostVertexCache_maximumIndex (mesh : Geometry) (indices : jsarray Z)
    (cacheCapacity : option Z) :
  indexList mesh = Some indices →
  ∃ maximumIndex,
    reorderForPostVertexCache (Some mesh) cacheCapacity
      = (reordered ← Tipsify_tipsify indices maximumIndex cacheCapacity;
         Ok (Some {| attributes := attributes mesh;
                     indexList := Some reordered;
                     primitiveType := primitiveType mesh;
                     boundingSphere := boundingSphere mesh |}))
    ∧ 0 ≤ maximumIndex
    ∧ (∀ p v, 0 ≤ p < arr_length indices → arr_get indices p = Some v → v ≤ maximumIndex)
    ∧ (maximumIndex = 0
       ∨ ∃ p, 0 ≤ p < arr_length indices ∧ arr_get indices p = Some maximumIndex).
Proof.
  intros Hindices. exists (maximumIndexOf indices). split.
  - unfold reorderForPostVertexCache. by rewrite Hindices.
  - pose proof (maximumIndex_rounds indices (Z.to_nat (arr_length indices))) as Hrounds.
    cbn zeta in Hrounds. pose proof (arr_length_nonneg indices).
    rewrite Z2Nat.id, <- for_range_unit in Hrounds by done. exact Hrounds.
Qed.

End ReorderForPostVertexCache.

(** ** encodeAttribute *)

Section EncodeAttribute.
Context `{ExternalOps} `{!AuxiliaryOps}.

Lemma attr_lookup_delete name n (attrs : Attributes) :
  attr_lookup name (attr_delete n attrs) =
    if decide (n = name) then None else attr_lookup name attrs.
Proof.
  unfold attr_delete. induction attrs as [|[m a] attrs IH].
  - by case_decide.
  - rewrite filter_cons. cbn [fst attr_lookup].
    destruct (decide (m ≠ n)) as [Hne|Heq].
    + cbn [attr_lookup]. rewrite IH.
      destruct (decide (m = name)) as [->|?]; [by rewrite decide_False by done | done].
    + assert (m = n) as -> by (by destruct (decide (m = n)); [|exfalso; apply Heq]).
      rewrite IH. destruct (decide (n = name)); done.
Qed.

Lemma foldM_Ok_each {A S} (body : S → A → result S) (l : list A) :
  ∀ s s', foldM body s l = Ok s' → ∀ a, a ∈ l → ∃ s1 s2, body s1 a = Ok s2.
Proof.
  induction l as [|b l IH]; intros s s' Hfold a Hin; [by apply elem_of_nil in Hin|].
  cbn [foldM] in Hfold. destruct (body s b) as [s1|e] eqn:Hbody; [|discriminate].
  apply elem_of_cons in Hin as [->|Hin]; [eauto | by eapply IH].
Qed.

(** The encoding loop after [k] rounds. *)
Lemma encode_rounds (values : jsarray number) (high low : Z → number) (k : nat) :
  Z.of_nat k ≤ arr_length values →
  (∀ i, 0 ≤ i < arr_length values →
     EncodedCartesian3_encode (arr_get values i) = Ok (high i, low i)) →
  ∃ highValues lowValues,
    foldM (λ (st : jsarray number * jsarray number) i,
             encodedResult ← EncodedCartesian3_encode (arr_get values i);
             Ok (arr_set st.1 i (Some encodedResult.1),
                 arr_set st.2 i (Some encodedResult.2)))
          (arr_new (arr_length values), arr_new (arr_length values))
          (seqZ 0 (Z.of_nat k))
      = Ok (highValues, lowValues)
    ∧ arr_length highValues = arr_length values
    ∧ arr_length lowValues = arr_length values
    ∧ (∀ i, 0 ≤ i < Z.of_nat k →
         arr_get highValues i = Some (high i) ∧ arr_get lowValues i = Some (low i)).
Proof.
  intros Hk Hencode. pose proof (arr_length_nonneg values) as Hnn.
  induction k as [|k IH].
  - eexists _, _. split; [done|].
    split; [unfold arr_length, arr_new; cbn [arr_len]; lia|].
    split; [unfold arr_length, arr_new; cbn [arr_len]; lia|]. intros; lia.
  - destruct IH as (highValues & lowValues & Hfold & Hhigh & Hlow & Hget); [lia|].
    rewrite seqZ_S, foldM_app, Hfold. cbn [mbind result_bind foldM].
    rewrite Z.add_0_l, Hencode by lia. cbn [mbind result_bind fst snd].
    eexists _, _. split; [done|].
    rewrite !arr_length_set, !decide_True by lia.
    split; [lia|]. split; [lia|]. intros i Hi.
    destruct (decide (i = Z.of_nat k)) as [->|Hne].
    + by rewrite !arr_get_set_eq.
    + rewrite !arr_get_set_ne by done. apply Hget. lia.
Qed.

(** The attribute named [attributeName] (after defaulting) is replaced
    by two attributes of the same datatype and number of components,
    which hold, element by element, the high and the low part that
    EncodedCartesian3.encode gives for the value; every other attribute
    and the rest of the mesh are left as they are.  (The three names are
    different from each other.) *)
Theorem encodeAttribute_encodes (mesh : Geometry)
    (attributeName attributeHighName attributeLowName : option string)
    (attribute : GeometryAttribute) (elements : jsarray number) (high low : Z → number) :
  let name := defaultValue attributeName "position" in
  let highName := defaultValue attributeHighName "positionHigh" in
  let lowName := defaultValue attributeLowName "positionLow" in
  name ≠ highName → name ≠ lowName → highName ≠ lowName →
  attr_lookup name (attributes mesh) = Some attribute →
  componentDatatype attribute = FLOAT →
  values attribute = Some elements →
  (∀ i, 0 ≤ i < arr_length elements →
     EncodedCartesian3_encode (arr_get elements i) = Ok (high i, low i)) →
  ∃ mesh' highAttribute lowAttribute highValues lowValues,
    encodeAttribute (Some mesh) attributeName attributeHighName attributeLowName = Ok mesh'
    ∧ attr_lookup name (attributes mesh') = None
    ∧ attr_lookup highName (attributes mesh') = Some highAttribute
    ∧ attr_lookup lowName (attributes mesh') = Some lowAttribute
    ∧ componentDatatype highAttribute = FLOAT
    ∧ componentDatatype lowAttribute = FLOAT
    ∧ componentsPerAttribute highAttribute = componentsPerAttribute attribute
    ∧ componentsPerAttribute lowAttribute = componentsPerAttribute attribute
    ∧ values highAttribute = Some highValues
    ∧ values lowAttribute = Some lowValues
    ∧ arr_length highValues = arr_length elements
    ∧ arr_length lowValues = arr_length elements
    ∧ (∀ i, 0 ≤ i < arr_length elements →
         arr_get highValues i = Some (high i) ∧ arr_get lowValues i = Some (low i))
    ∧ (∀ other, other ≠ name → other ≠ highName → other ≠ lowName →
         attr_lookup other (attributes mesh') = attr_lookup other (attributes mesh))
    ∧ indexList mesh' = indexList mesh
    ∧ primitiveType mesh' = primitiveType mesh
    ∧ boundingSphere mesh' = boundingSphere mesh.
Proof.
  intros name highName lowName Hnh Hnl Hhl Hattribute Hfloat Hvalues Hencode.
  pose proof (arr_length_nonneg elements) as Hnn.
  destruct (encode_rounds elements high low (Z.to_nat (arr_length elements)))
    as (highValues & lowValues & Hfold & Hhigh & Hlow & Hget); [lia | done |].
  rewrite Z2Nat.id, <- for_range_unit in Hfold by done.
  rewrite Z2Nat.id in Hget by done.
  eexists _, _, _, highValues, lowValues. split.
  { unfold encodeAttribute. fold name highName lowName.
    rewrite Hattribute, decide_False by (by intros ?). rewrite Hvalues, Hfold.
    cbn [mbind result_bind fst snd]. reflexivity. }
  cbn [attributes with_attributes indexList primitiveType boundingSphere].
  rewrite !attr_lookup_delete, !attr_lookup_store.
  rewrite decide_True by done.
  rewrite (decide_False (P := name = highName)) by done.
  rewrite (decide_False (P := lowName = highName)) by done.
  rewrite (decide_True (P := highName = highName)) by done.
  rewrite (decide_False (P := name = lowName)) by done.
  rewrite (decide_True (P := lowName = lowName)) by done.
  cbn [componentDatatype componentsPerAttribute values].
  repeat (split; [done|]). split; [|done].
  intros other Hon Hoh Hol. rewrite !attr_lookup_delete, !attr_lookup_store.
  by rewrite !decide_False by done.
Qed.

(** encodeAttribute returns only for a mesh that has the attribute, with
    datatype FLOAT and with values every one of which the encoder
    accepts; and whenever it returns, the mesh has no attribute of that
    name left, also when the high or the low name is that same name (the
    part stored under it is then deleted again). *)
Theorem encodeAttribute_returns_only_if (mesh : option Geometry)
    (attributeName attributeHighName attributeLowName : option string) (mesh' : Geometry) :
  encodeAttribute mesh attributeName attributeHighName attributeLowName = Ok mesh' →
  attr_lookup (defaultValue attributeName "position") (attributes mesh') = None
  ∧ ∃ original attribute elements,
      mesh = Some original
      ∧ attr_lookup (defaultValue attributeName "position") (attributes original)
        = Some attribute
      ∧ componentDatatype attribute = FLOAT
      ∧ values attribute = Some elements
      ∧ ∀ i, 0 ≤ i < arr_length elements →
          ∃ encoded, EncodedCartesian3_encode (arr_get elements i) = Ok encoded.
Proof.
  unfold encodeAttribute. intros Hok.
  destruct mesh as [original|]; [|discriminate].
  destruct (attr_lookup _ (attributes original)) as [attribute|] eqn:Hattribute;
    [|discriminate].
  case_decide as Hfloat; [discriminate|].
  destruct (values attribute) as [elements|] eqn:Hvalues; [|discriminate].
  apply bind_Ok in Hok as (r & Hfold & Hok). injection Hok as <-.
  split.
  { cbn [attributes with_attributes]. rewrite attr_lookup_delete. by rewrite decide_True. }
  exists original, attribute, elements. split; [done|]. split; [done|].
  split; [by destruct (decide (componentDatatype attribute = FLOAT)); [|exfalso; eauto]|].
  split; [done|]. intros i Hi.
  destruct (foldM_Ok_each _ _ _ _ Hfold i) as (s1 & s2 & Hstep).
  { rewrite for_range_unit. apply elem_of_seqZ. lia. }
  destruct (EncodedCartesian3_encode (arr_get elements i)) as [encoded|]; [eauto|discriminate].
Qed.

End EncodeAttribute.

(** ** computeTangentAndBinormal *)

Section ComputeTangentAndBinormal.
Context `{ExternalOps} `{!AuxiliaryOps}.

Lemma requiredValues_Ok (attrs : Attributes) name components missing mismatch vs :
  requiredValues attrs name components missing mismatch = Ok vs
  ↔ ∃ a, attr_lookup name attrs = Some a
         ∧ values a = Some vs
         ∧ componentsPerAttribute a = components
         ∧ arr_length vs `mod` components = 0.
Proof.
  unfold requiredValues. split.
  - destruct (attr_lookup name attrs) as [a|]; cbn; [|discriminate].
    destruct (values a) as [vs'|] eqn:Hvs; [|discriminate].
    case_decide as Hbad; [discriminate|]. intros [= ->].
    exists a. split; [done|]. split; [done|].
    destruct (decide (componentsPerAttribute a = components)) as [|Hne];
      [|exfalso; apply Hbad; left; congruence].
    split; [done|].
    destruct (decide (arr_length vs `mod` components = 0)); [done|].
    exfalso. apply Hbad. by right.
  - intros (a & Ha & Hvs & Hc & Hm). rewrite Ha. cbn. rewrite Hvs.
    rewrite decide_False; [done|].
    intros [Hbad|Hbad]; [apply Hbad; by rewrite Hc | done].
Qed.

Lemma requiredValues_cases (attrs : Attributes) name components missing mismatch :
  (∃ vs, requiredValues attrs name components missing mismatch = Ok vs)
  ∨ (∃ message, requiredValues attrs name components missing mismatch
                = Throw (DeveloperError message)).
Proof.
  unfold requiredValues. destruct (attr_lookup name attrs ≫= values); [|eauto].
  case_decide; eauto.
Qed.

(** The vertex loop: round [v] writes the tangent and the binormal of
    vertex [v] and leaves the other slots and the lengths alone. *)
Lemma tangentBinormal_rounds (normals tan1 : jsarray number) (numVertices : Z) (k : nat) :
  Z.of_nat k ≤ numVertices →
  let r := foldl (tangentBinormalStep normals tan1)
                 (arr_new (numVertices * 3), arr_new (numVertices * 3))
                 (seqZ 0 (Z.of_nat k)) in
  arr_length r.1 = numVertices * 3
  ∧ arr_length r.2 = numVertices * 3
  ∧ ∀ v, 0 ≤ v < Z.of_nat k →
      let t := tangentOf normals tan1 v in
      let b := Cartesian3_normalize
                 (Cartesian3_cross (Cartesian3_fromArray normals (v * 3)) t) in
      arr_get r.2 (v * 3) = x t ∧ arr_get r.2 (v * 3 + 1) = y t
      ∧ arr_get r.2 (v * 3 + 2) = z t
      ∧ arr_get r.1 (v * 3) = x b ∧ arr_get r.1 (v * 3 + 1) = y b
      ∧ arr_get r.1 (v * 3 + 2) = z b.
Proof.
  intros Hk. induction k as [|k IH]; cbn zeta.
  - cbn [foldl seqZ fst snd]. change (seqZ 0 (Z.of_nat 0)) with (@nil Z). cbn [foldl fst snd].
    unfold arr_length, arr_new. cbn [arr_len]. split; [lia|]. split; [lia|]. intros; lia.
  - rewrite seqZ_S, foldl_app. cbn [foldl]. rewrite Z.add_0_l.
    cbn zeta in IH. destruct IH as (Hlen1 & Hlen2 & Hget); [lia|].
    set (r := foldl _ _ (seqZ 0 (Z.of_nat k))) in *.
    rewrite (surjective_pairing r). unfold tangentBinormalStep. cbn [fst snd].
    fold (tangentOf normals tan1 (Z.of_nat k)).
    rewrite !arr_length_set, !decide_True by lia.
    split; [lia|]. split; [lia|]. intros v Hv.
    destruct (decide (v = Z.of_nat k)) as [->|Hne].
    + repeat split;
        repeat first [ apply arr_get_set_eq
                     | rewrite arr_get_set_ne by lia ].
    + rewrite !arr_get_set_ne by lia. apply Hget. lia.
Qed.

Lemma setVectorValues_lookup name vs (attrs : Attributes) other :
  attr_lookup other (setVectorValues name vs attrs) =
    if decide (name = other)
    then Some (match attr_lookup name attrs with
               | Some a => with_values a (Some vs)
               | None => {| componentDatatype := FLOAT;
                            componentsPerAttribute := 3;
                            normalize := false;
                            values := Some vs |}
               end)
    else attr_lookup other attrs.
Proof.
  unfold setVectorValues. destruct (attr_lookup name attrs); by rewrite attr_lookup_store.
Qed.

(** computeTangentAndBinormal returns exactly for a geometry that has
    position and normal with three components and st with two, each with
    values whose length is a multiple of that number; for every other
    argument it raises a DeveloperError, and it raises nothing else,
    whatever the index list holds.  A geometry that passes the checks is
    returned as it is when it has no index list, a primitive type other
    than TRIANGLES, fewer than two indices or an index count that is no
    multiple of three. *)
Theorem computeTangentAndBinormal_checks (geometry : option Geometry) :
  ((∃ geometry', computeTangentAndBinormal geometry = Ok geometry')
   ↔ ∃ g, geometry = Some g
          ∧ hasVectorAttribute g "position" 3
          ∧ hasVectorAttribute g "normal" 3
          ∧ hasVectorAttribute g "st" 2)
  ∧ ((∃ geometry', computeTangentAndBinormal geometry = Ok geometry')
     ∨ (∃ message, computeTangentAndBinormal geometry = Throw (DeveloperError message)))
  ∧ (∀ g, geometry = Some g →
       (∃ geometry', computeTangentAndBinormal geometry = Ok geometry') →
       indexList g = None
       ∨ primitiveType g ≠ TRIANGLES
       ∨ (∃ indices, indexList g = Some indices
                     ∧ (arr_length indices < 2 ∨ arr_length indices `mod` 3 ≠ 0)) →
       computeTangentAndBinormal geometry = Ok g).
Proof.
  destruct geometry as [g|]; cycle 1.
  { split; [|split].
    - split; [intros [? ?]; discriminate | intros (g & ? & _); discriminate].
    - right. by eexists.
    - intros g ?. discriminate. }
  unfold computeTangentAndBinormal, hasVectorAttribute.
  set (position := requiredValues _ "position" _ _ _).
  set (normal := requiredValues _ "normal" _ _ _).
  set (st := requiredValues _ "st" _ _ _).
  assert (Htail : ∀ vertices normals sts,
            ∃ geometry',
              match indexList g with
              | Some indices =>
                  if decide (primitiveType g ≠ TRIANGLES ∨ arr_length indices < 2
                             ∨ arr_length indices `mod` 3 ≠ 0)
                  then Ok g
                  else
                    let numVertices := arr_length vertices `div` 3 in
                    let numIndices := arr_length indices in
                    let tan1 := arr_new (numVertices * 3) in
                    let tan1 :=
                      foldl (λ tan1 i, arr_set tan1 i (Some num_zero)) tan1
                            (for_range 0 (arr_length tan1) 1) in
                    let tan1 :=
                      foldl (tangentStep vertices sts indices) tan1
                            (for_range 0 numIndices 3) in
                    let r :=
                      foldl (tangentBinormalStep normals tan1)
                            (arr_new (numVertices * 3), arr_new (numVertices * 3))
                            (for_range 0 numVertices 1) in
                    let attributes := setVectorValues "tangent" r.2 (attributes g) in
                    let attributes := setVectorValues "binormal" r.1 attributes in
                    Ok (with_attributes g attributes)
              | None => Ok g
              end = Ok geometry').
  { intros vertices normals sts. destruct (indexList g); [|eauto]. case_decide; eauto. }
  split; [|split].
  - split.
    + intros [geometry' Hok]. exists g. split; [done|].
      apply bind_Ok in Hok as (vertices & Hposition & Hok).
      apply bind_Ok in Hok as (normals & Hnormal & Hok).
      apply bind_Ok in Hok as (sts & Hst & Hok).
      apply requiredValues_Ok in Hposition as (a & ?). apply requiredValues_Ok in Hnormal as (b & ?).
      apply requiredValues_Ok in Hst as (c & ?). eauto 10.
    + intros (g' & [= <-] & (a & vertices & Ha) & (b & normals & Hb) & (c & sts & Hc)).
      assert (Hposition : position = Ok vertices) by (apply requiredValues_Ok; eauto).
      assert (Hnormal : normal = Ok normals) by (apply requiredValues_Ok; eauto).
      assert (Hst : st = Ok sts) by (apply requiredValues_Ok; eauto).
      rewrite Hposition, Hnormal, Hst. cbn [mbind result_bind]. apply Htail.
  - destruct (requiredValues_cases (attributes g) "position" 3
                "geometry.attributes.position.values is required"
                "geometry.attributes.position.values.length must be a multiple of 3")
      as [[vertices Hposition]|[message Hposition]]; fold position in Hposition;
      rewrite Hposition; cbn [mbind result_bind]; [|right; eauto].
    destruct (requiredValues_cases (attributes g) "normal" 3
                "geometry.attributes.normal.values is required"
                "geometry.attributes.normals.values.length must be a multiple of 3")
      as [[normals Hnormal]|[message Hnormal]]; fold normal in Hnormal;
      rewrite Hnormal; cbn [mbind result_bind]; [|right; eauto].
    destruct (requiredValues_cases (attributes g) "st" 2
                "geometry.attributes.st.values is required"
                "geometry.attributes.st.values.length must be a multiple of 2")
      as [[sts Hst]|[message Hst]]; fold st in Hst;
      rewrite Hst; cbn [mbind result_bind]; [|right; eauto].
    left. apply Htail.
  - intros g' [= <-] [geometry' Hok] Hskip.
    apply bind_Ok in Hok as (vertices & -> & Hok).
    apply bind_Ok in Hok as (normals & -> & Hok).
    apply bind_Ok in Hok as (sts & -> & Hok). cbn [mbind result_bind].
    destruct Hskip as [Hnone|[Htype|(indices & Hindices & Hlen)]].
    + by rewrite Hnone.
    + destruct (indexList g); [|done]. rewrite decide_True; [done | by left].
    + rewrite Hindices. rewrite decide_True; [done | right; lia].
Qed.

(** On a TRIANGLES geometry that passes the checks and has two or more
    indices, a multiple of three, the call writes a tangent and a binormal
    attribute with one vector per vertex; the binormal of a vertex is the
    normalized cross product of its normal and the tangent written for
    it.  An attribute tangent or binormal that the geometry already has
    keeps everything but its values; a new one is FLOAT with three
    components.  Every other attribute, the index list, the primitive
    type and the bounding sphere stay as they are. *)
Theorem computeTangentAndBinormal_writes (geometry : Geometry)
    (position : GeometryAttribute) (vertices : jsarray number)
    (normal : GeometryAttribute) (normals : jsarray number) (indices : jsarray Z) :
  attr_lookup "position" (attributes geometry) = Some position →
  values position = Some vertices →
  componentsPerAttribute position = 3 →
  arr_length vertices `mod` 3 = 0 →
  attr_lookup "normal" (attributes geometry) = Some normal →
  values normal = Some normals →
  componentsPerAttribute normal = 3 →
  arr_length normals `mod` 3 = 0 →
  hasVectorAttribute geometry "st" 2 →
  primitiveType geometry = TRIANGLES →
  indexList geometry = Some indices →
  2 ≤ arr_length indices →
  arr_length indices `mod` 3 = 0 →
  ∃ geometry' tangent binormal tangentValues binormalValues,
    computeTangentAndBinormal (Some geometry) = Ok geometry'
    ∧ attr_lookup "tangent" (attributes geometry') = Some tangent
    ∧ attr_lookup "binormal" (attributes geometry') = Some binormal
    ∧ values tangent = Some tangentValues
    ∧ values binormal = Some binormalValues
    ∧ arr_length tangentValues = arr_length vertices
    ∧ arr_length binormalValues = arr_length vertices
    ∧ (∀ v, 0 ≤ v < arr_length vertices `div` 3 →
         let n := Cartesian3_fromArray normals (v * 3) in
         let t := {| x := arr_get tangentValues (v * 3);
                     y := arr_get tangentValues (v * 3 + 1);
                     z := arr_get tangentValues (v * 3 + 2) |} in
         let b := Cartesian3_normalize (Cartesian3_cross n t) in
         arr_get binormalValues (v * 3) = x b
         ∧ arr_get binormalValues (v * 3 + 1) = y b
         ∧ arr_get binormalValues (v * 3 + 2) = z b)
    ∧ (∀ a, attr_lookup "tangent" (attributes geometry) = Some a →
         tangent = with_values a (Some tangentValues))
    ∧ (∀ a, attr_lookup "binormal" (attributes geometry) = Some a →
         binormal = with_values a (Some binormalValues))
    ∧ (attr_lookup "tangent" (attributes geometry) = None →
         componentDatatype tangent = FLOAT ∧ componentsPerAttribute tangent = 3)
    ∧ (attr_lookup "binormal" (attributes geometry) = None →
         componentDatatype binormal = FLOAT ∧ componentsPerAttribute binormal = 3)
    ∧ (∀ name, name ≠ "tangent"%string → name ≠ "binormal"%string →
         attr_lookup name (attributes geometry') = attr_lookup name (attributes geometry))
    ∧ indexList geometry' = indexList geometry
    ∧ primitiveType geometry' = primitiveType geometry
    ∧ boundingSphere geometry' = boundingSphere geometry.
Proof.
  intros Hposition Hvertices Hcomponents Hmultiple Hnormal Hnormals Hcomponents' Hmultiple'
         (st & sts & Hst) Htype Hindices Htwo Hthree.
  pose proof (arr_length_nonneg vertices) as Hnn.
  set (numVertices := arr_length vertices `div` 3).
  assert (Hlen : numVertices * 3 = arr_length vertices).
  { unfold numVertices. pose proof (Z.div_mod (arr_length vertices) 3). lia. }
  assert (HnumVertices : 0 ≤ numVertices) by (unfold numVertices; apply Z.div_pos; lia).
  set (tan1 :=
         foldl (tangentStep vertices sts indices)
               (foldl (λ tan1 i, arr_set tan1 i (Some num_zero)) (arr_new (numVertices * 3))
                      (for_range 0 (arr_length (arr_new (A:=number) (numVertices * 3))) 1))
               (for_range 0 (arr_length indices) 3)).
  pose proof (tangentBinormal_rounds normals tan1 numVertices (Z.to_nat numVertices))
    as Hrounds.
  cbn zeta in Hrounds. rewrite Z2Nat.id, <- for_range_unit in Hrounds by done.
  destruct Hrounds as (Hlen1 & Hlen2 & Hget); [lia|].
  set (r := foldl (tangentBinormalStep normals tan1) _ (for_range 0 numVertices 1)) in *.
  eexists _, _, _, r.2, r.1. split.
  { unfold computeTangentAndBinormal.
    assert (Hp : requiredValues (attributes geometry) "position" 3
                   "geometry.attributes.position.values is required"
                   "geometry.attributes.position.values.length must be a multiple of 3"
                 = Ok vertices) by (apply requiredValues_Ok; eauto).
    assert (Hn : requiredValues (attributes geometry) "normal" 3
                   "geometry.attributes.normal.values is required"
                   "geometry.attributes.normals.values.length must be a multiple of 3"
                 = Ok normals) by (apply requiredValues_Ok; eauto).
    assert (Hs : requiredValues (attributes geometry) "st" 2
                   "geometry.attributes.st.values is required"
                   "geometry.attributes.st.values.length must be a multiple of 2"
                 = Ok sts) by (apply requiredValues_Ok; eauto).
    rewrite Hp, Hn, Hs. cbn [mbind result_bind]. rewrite Hindices.
    rewrite decide_False by (rewrite Htype; intros [?|[?|?]]; [done | lia | done]).
    cbn zeta. fold numVertices. fold tan1. fold r. reflexivity. }
  cbn [attributes with_attributes indexList primitiveType boundingSphere].
  rewrite !setVectorValues_lookup.
  rewrite (decide_False (P := "binormal"%string = "tangent"%string)) by done.
  rewrite (decide_True (P := "tangent"%string = "tangent"%string)) by done.
  rewrite (decide_True (P := "binormal"%string = "binormal"%string)) by done.
  rewrite (decide_False (P := "tangent"%string = "binormal"%string)) by done.
  split; [reflexivity|]. split; [reflexivity|].
  split; [by destruct (attr_lookup "tangent" (attributes geometry))|].
  split; [by destruct (attr_lookup "binormal" (attributes geometry))|].
  split; [lia|]. split; [lia|]. split.
  { intros v Hv. cbn zeta.
    destruct (Hget v) as (Hx & Hy & Hz & Hbx & Hby & Hbz); [lia|].
    rewrite Hx, Hy, Hz, Hbx, Hby, Hbz. by destruct (tangentOf normals tan1 v). }
  split; [by intros a ->|]. split; [by intros a ->|].
  split; [by intros ->|]. split; [by intros ->|].
  split; [|done]. intros name Htangent Hbinormal.
  rewrite !setVectorValues_lookup. by rewrite !decide_False by done.
Qed.

End ComputeTangentAndBinormal.

(** ** transformToWorldCoordinates: the transformed instance *)

Section TransformedInstance.
Context `{ExternalOps}.

(** A listed name is found by walking down the list. *)
Ltac name_listed := repeat first [apply list_elem_of_here | apply list_elem_of_further].

Lemma arr_set_triple {A} (a : jsarray A) (i : Z) (vx vy vz : option A) :
  let a' := arr_set (arr_set (arr_set a i vx) (i + 1) vy) (i + 2) vz in
  arr_get a' i = vx ∧ arr_get a' (i + 1) = vy ∧ arr_get a' (i + 2) = vz
  ∧ ∀ key, ¬ (i ≤ key < i + 3) → arr_get a' key = arr_get a key.
Proof.
  cbn zeta. split; [|split; [|split]].
  - rewrite !arr_get_set_ne by lia. apply arr_get_set_eq.
  - rewrite arr_get_set_ne by lia. apply arr_get_set_eq.
  - apply arr_get_set_eq.
  - intros key Hkey. by rewrite !arr_get_set_ne by lia.
Qed.

Lemma transform_rounds (f : Cartesian3 → Cartesian3) (values : jsarray number) (k : nat) :
  fromArray_reads →
  let values' :=
    foldl (λ values i,
             let scratch := Cartesian3_fromArray values i in
             let scratch := f scratch in
             let values := arr_set values i (x scratch) in
             let values := arr_set values (i + 1) (y scratch) in
             arr_set values (i + 2) (z scratch))
          values ((λ j, 3 * j) <$> seqZ 0 (Z.of_nat k)) in
  arr_length values' = Z.max (arr_length values) (3 * Z.of_nat k)
  ∧ (∀ key, key < 0 ∨ 3 * Z.of_nat k ≤ key → arr_get values' key = arr_get values key)
  ∧ (∀ j, 0 ≤ j < Z.of_nat k → vectorAt values' j = f (vectorAt values j)).
Proof.
  intros Hreads. induction k as [|k IH]; cbn zeta.
  - change (seqZ 0 (Z.of_nat 0)) with (@nil Z). cbn [fmap list_fmap foldl].
    pose proof (arr_length_nonneg values). split; [lia|]. split; [done|]. intros; lia.
  - rewrite seqZ_S, fmap_app, foldl_app. cbn [fmap list_fmap foldl]. rewrite Z.add_0_l.
    cbn zeta in IH. destruct IH as (Hlen & Hother & Hdone).
    set (current := foldl _ values ((λ j, 3 * j) <$> seqZ 0 (Z.of_nat k))) in *.
    assert (Hscratch : Cartesian3_fromArray current (3 * Z.of_nat k)
                       = vectorAt values (Z.of_nat k)).
    { rewrite Hreads. unfold vectorAt. by rewrite !Hother by lia. }
    rewrite Hscratch. set (v := f (vectorAt values (Z.of_nat k))).
    split; [|split].
    + rewrite !arr_length_set, !decide_True by lia. lia.
    + intros key Hkey. rewrite !arr_get_set_ne by lia. apply Hother. lia.
    + intros j Hj. destruct (decide (j = Z.of_nat k)) as [->|Hne].
      * destruct (arr_set_triple current (3 * Z.of_nat k) (x v) (y v) (z v))
          as (Hx & Hy & Hz & _).
        unfold vectorAt at 1. rewrite Hx, Hy, Hz. subst v.
        by destruct (f (vectorAt values (Z.of_nat k))).
      * rewrite <- Hdone by lia. unfold vectorAt. by rewrite !arr_get_set_ne by lia.
Qed.

(** A buffer of whole vectors is transformed vector by vector and keeps
    its length. *)
Lemma transformedValues_vectorAt (f : Cartesian3 → Cartesian3) (values : jsarray number) :
  fromArray_reads →
  arr_length values `mod` 3 = 0 →
  arr_length (transformedValues f values) = arr_length values
  ∧ ∀ k, 0 ≤ 3 * k < arr_length values →
      vectorAt (transformedValues f values) k = f (vectorAt values k).
Proof.
  intros Hreads Hmod. pose proof (arr_length_nonneg values) as Hnn.
  pose proof (Z.div_mod (arr_length values) 3 ltac:(lia)) as Hdiv.
  assert (Hcount : 0 ≤ arr_length values `div` 3) by (apply Z.div_pos; lia).
  destruct (transform_rounds f values (Z.to_nat (arr_length values `div` 3)) Hreads)
    as (Hlen & _ & Hget).
  rewrite Z2Nat.id in Hlen, Hget by done.
  unfold transformedValues. rewrite for_range_triples_length by done.
  split; [etrans; [exact Hlen | lia]|]. intros k Hk. apply Hget. lia.
Qed.

Lemma transformPoint_values matrix a vs :
  values a = Some vs →
  transformPoint matrix (Some a)
    = Ok (Some (with_values a (Some (transformedValues (Matrix4_multiplyByPoint matrix) vs)))).
Proof. intros Hvs. unfold transformPoint. by rewrite Hvs. Qed.

Lemma transformVector_values matrix a vs :
  values a = Some vs →
  transformVector matrix (Some a)
    = Ok (Some (with_values a (Some (transformedValues (Matrix3_multiplyByVector matrix) vs)))).
Proof. intros Hvs. unfold transformVector. by rewrite Hvs. Qed.

Lemma transformNamed_point matrix name (attrs : Attributes) :
  all_have_values attrs →
  transformNamed (transformPoint matrix) name attrs
    = Ok (transformAttribute (Matrix4_multiplyByPoint matrix) name attrs).
Proof.
  intros Hall. unfold transformNamed, transformAttribute.
  destruct (attr_lookup name attrs) as [a|] eqn:Ha; [|done].
  destruct (attr_lookup_all_have_values _ _ _ Hall Ha) as [vs Hvs].
  by rewrite (transformPoint_values _ _ _ Hvs), Hvs.
Qed.

Lemma transformNamed_vector matrix name (attrs : Attributes) :
  all_have_values attrs →
  transformNamed (transformVector matrix) name attrs
    = Ok (transformAttribute (Matrix3_multiplyByVector matrix) name attrs).
Proof.
  intros Hall. unfold transformNamed, transformAttribute.
  destruct (attr_lookup name attrs) as [a|] eqn:Ha; [|done].
  destruct (attr_lookup_all_have_values _ _ _ Hall Ha) as [vs Hvs].
  by rewrite (transformVector_values _ _ _ Hvs), Hvs.
Qed.

Lemma transformAttribute_all_have_values f name (attrs : Attributes) :
  all_have_values attrs → all_have_values (transformAttribute f name attrs).
Proof.
  intros Hall. unfold transformAttribute.
  destruct (attr_lookup name attrs) as [a|]; [|done].
  destruct (values a); [|done]. apply attr_store_all_have_values; [done|]. by eexists.
Qed.

Lemma transformAttribute_lookup f name (attrs : Attributes) other :
  attr_lookup other (transformAttribute f name attrs) =
    if decide (name = other)
    then (λ a, with_values a (transformedValues f <$> values a)) <$> attr_lookup other attrs
    else attr_lookup other attrs.
Proof.
  unfold transformAttribute. destruct (decide (name = other)) as [->|Hne].
  - destruct (attr_lookup other attrs) as [a|] eqn:Ha; [|by rewrite Ha].
    destruct (values a) as [vs|] eqn:Hvs.
    + rewrite attr_lookup_store_eq. cbn. by rewrite Hvs.
    + rewrite Ha. cbn. rewrite Hvs. by destruct a; cbn in *; subst.
  - destruct (attr_lookup name attrs) as [a|]; [|done].
    destruct (values a); [|done]. rewrite attr_lookup_store. by rewrite decide_False.
Qed.

Lemma transformAttribute_names f name (attrs : Attributes) :
  (transformAttribute f name attrs).*1 = attrs.*1.
Proof.
  unfold transformAttribute. destruct (attr_lookup name attrs) as [a|] eqn:Ha; [|done].
  destruct (values a); [|done]. apply attr_store_names. by eexists.
Qed.

(** The non-identity path of transformToWorldCoordinates when every
    attribute has values and the matrix can be inverted or need not be. *)
Lemma transformToWorldCoordinates_transformed (instance : GeometryInstance) :
  Matrix4_equals (modelMatrix instance) Matrix4_IDENTITY = false →
  all_have_values (attributes (geometry instance)) →
  (attr_lookup "normal" (attributes (geometry instance)) = None
   ∧ attr_lookup "binormal" (attributes (geometry instance)) = None
   ∧ attr_lookup "tangent" (attributes (geometry instance)) = None)
  ∨ (∃ inverse, Matrix4_inverse (modelMatrix instance) = Ok inverse) →
  ∃ attrs',
    transformToWorldCoordinates (Some instance)
      = Ok ({| geometry :=
                 {| attributes := attrs';
                    indexList := indexList (geometry instance);
                    primitiveType := primitiveType (geometry instance);
                    boundingSphere :=
                      (λ bs, {| center := Cartesian3_fromCartesian4
                                            (Matrix4_multiplyByPoint (modelMatrix instance)
                                                                     (center bs));
                                radius := radius bs |})
                        <$> boundingSphere (geometry instance) |};
               modelMatrix := Matrix4_clone Matrix4_IDENTITY |},
            Some {| geometry :=
                 {| attributes := attrs';
                    indexList := indexList (geometry instance);
                    primitiveType := primitiveType (geometry instance);
                    boundingSphere :=
                      (λ bs, {| center := Cartesian3_fromCartesian4
                                            (Matrix4_multiplyByPoint (modelMatrix instance)
                                                                     (center bs));
                                radius := radius bs |})
                        <$> boundingSphere (geometry instance) |};
               modelMatrix := Matrix4_clone Matrix4_IDENTITY |})
    ∧ attrs'.*1 = (attributes (geometry instance)).*1
    ∧ attr_lookup "position" attrs'
      = (λ a, with_values a (transformedValues
                               (Matrix4_multiplyByPoint (modelMatrix instance))
                               <$> values a))
          <$> attr_lookup "position" (attributes (geometry instance))
    ∧ (∀ name inverse, name ∈ ["normal"; "binormal"; "tangent"]%string →
         Matrix4_inverse (modelMatrix instance) = Ok inverse →
         attr_lookup name attrs'
         = (λ a, with_values a
                   (transformedValues
                      (Matrix3_multiplyByVector
                         (Matrix4_getRotation (Matrix4_transpose inverse)))
                      <$> values a))
             <$> attr_lookup name (attributes (geometry instance)))
    ∧ (∀ name, name ∉ ["position"; "normal"; "binormal"; "tangent"]%string →
         attr_lookup name attrs' = attr_lookup name (attributes (geometry instance))).
Proof.
  intros Hne Hall Hinverse.
  set (attrs := attributes (geometry instance)) in *.
  set (fp := Matrix4_multiplyByPoint (modelMatrix instance)).
  assert (Hall1 : all_have_values (transformAttribute fp "position" attrs))
    by by apply transformAttribute_all_have_values.
  unfold transformToWorldCoordinates. rewrite Hne. fold attrs.
  rewrite transformNamed_point by done. cbn [mbind result_bind]. fold fp.
  assert (Hsphere : match boundingSphere (geometry instance) with
                    | Some bs =>
                        Some {| center := Cartesian3_fromCartesian4 (fp (center bs));
                                radius := radius bs |}
                    | None => None
                    end
                    = (λ bs, {| center := Cartesian3_fromCartesian4 (fp (center bs));
                                radius := radius bs |})
                        <$> boundingSphere (geometry instance))
    by by destruct (boundingSphere (geometry instance)).
  rewrite Hsphere.
  case_decide as Hvectors.
  - destruct Hinverse as [(Hn & Hb & Ht)|[inverse Hinv]].
    { exfalso. rewrite !transformAttribute_lookup in Hvectors.
      rewrite !decide_False in Hvectors by done. tauto. }
    rewrite Hinv. cbn [mbind result_bind].
    set (fv := Matrix3_multiplyByVector (Matrix4_getRotation (Matrix4_transpose inverse))).
    assert (Hall2 : all_have_values (transformAttribute fv "normal"
                                       (transformAttribute fp "position" attrs)))
      by by apply transformAttribute_all_have_values.
    assert (Hall3 : all_have_values
                      (transformAttribute fv "binormal"
                         (transformAttribute fv "normal"
                            (transformAttribute fp "position" attrs))))
      by by apply transformAttribute_all_have_values.
    rewrite transformNamed_vector by done. cbn [mbind result_bind].
    rewrite transformNamed_vector by done. cbn [mbind result_bind].
    rewrite transformNamed_vector by done. cbn [mbind result_bind].
    eexists. split; [reflexivity|].
    rewrite !transformAttribute_names. split; [done|].
    rewrite !transformAttribute_lookup.
    rewrite !(decide_False (P := _ = "position"%string)) by done.
    rewrite decide_True by done. split; [done|]. split.
    + intros name inverse' Hname Hinv'.
      assert (inverse' = inverse) as -> by congruence.
      rewrite !transformAttribute_lookup.
      apply elem_of_cons in Hname as [->|Hname];
        [|apply elem_of_cons in Hname as [->|Hname];
          [|apply list_elem_of_singleton in Hname as ->]];
        repeat first [ rewrite decide_True by done | rewrite decide_False by done ]; done.
    + intros name Hname. rewrite !transformAttribute_lookup.
      rewrite !decide_False; [done|..]; intros <-; apply Hname; name_listed.
  - cbn [mbind result_bind]. eexists. split; [reflexivity|].
    rewrite !transformAttribute_names. split; [done|].
    rewrite !transformAttribute_lookup. rewrite decide_True by done. split; [done|].
    assert (Hnone : ∀ name, name ∈ ["normal"; "binormal"; "tangent"]%string →
              attr_lookup name attrs = None).
    { intros name Hname.
      destruct (attr_lookup name (transformAttribute fp "position" attrs)) as [a|] eqn:Ha.
      - exfalso. apply Hvectors.
        apply elem_of_cons in Hname as [->|Hname];
          [|apply elem_of_cons in Hname as [->|Hname];
            [|apply list_elem_of_singleton in Hname as ->]]; rewrite Ha; eauto.
      - rewrite transformAttribute_lookup in Ha. rewrite decide_False in Ha; [done|].
        intros <-. repeat (apply elem_of_cons in Hname as [?|Hname]; [done|]).
        by apply elem_of_nil in Hname. }
    split.
    + intros name inverse Hname _. rewrite transformAttribute_lookup.
      rewrite decide_False; [by rewrite (Hnone name Hname)|].
      intros <-. repeat (apply elem_of_cons in Hname as [?|Hname]; [done|]).
      by apply elem_of_nil in Hname.
    + intros name Hname. rewrite transformAttribute_lookup.
      rewrite decide_False; [done|]. intros <-. apply Hname. name_listed.
Qed.

(** On the non-identity path every vector of the position buffer is
    replaced by its product with the model matrix, and the buffer keeps
    its length.  The call returns when every attribute has values and
    either the instance has none of normal, binormal and tangent (the
    inverse of the matrix is then not computed) or the matrix can be
    inverted. *)
Theorem transformToWorldCoordinates_position (instance : GeometryInstance)
    (position : GeometryAttribute) (vs : jsarray number) :
  fromArray_reads →
  Matrix4_equals (modelMatrix instance) Matrix4_IDENTITY = false →
  all_have_values (attributes (geometry instance)) →
  (attr_lookup "normal" (attributes (geometry instance)) = None
   ∧ attr_lookup "binormal" (attributes (geometry instance)) = None
   ∧ attr_lookup "tangent" (attributes (geometry instance)) = None)
  ∨ (∃ inverse, Matrix4_inverse (modelMatrix instance) = Ok inverse) →
  attr_lookup "position" (attributes (geometry instance)) = Some position →
  values position = Some vs →
  arr_length vs `mod` 3 = 0 →
  ∃ instance' vs',
    transformToWorldCoordinates (Some instance) = Ok (instance', Some instance')
    ∧ attr_lookup "position" (attributes (geometry instance'))
      = Some (with_values position (Some vs'))
    ∧ arr_length vs' = arr_length vs
    ∧ ∀ k, 0 ≤ 3 * k < arr_length vs →
        vectorAt vs' k = Matrix4_multiplyByPoint (modelMatrix instance) (vectorAt vs k).
Proof.
  intros Hreads Hne Hall Hinverse Hposition Hvs Hmod.
  destruct (transformToWorldCoordinates_transformed instance Hne Hall Hinverse)
    as (attrs' & Hcall & _ & Hlookup & _).
  destruct (transformedValues_vectorAt (Matrix4_multiplyByPoint (modelMatrix instance)) vs
              Hreads Hmod) as [Hlen Hget].
  eexists _, _. split; [exact Hcall|]. cbn [geometry attributes].
  rewrite Hlookup, Hposition. cbn. rewrite Hvs. cbn. done.
Qed.

(** On the non-identity path every vector of the normal, the binormal
    and the tangent buffer is replaced by its product with the rotation
    part of the transposed inverse of the model matrix. *)
Theorem transformToWorldCoordinates_normal (instance : GeometryInstance) (inverse : Matrix4)
    (name : string) (attribute : GeometryAttribute) (vs : jsarray number) :
  fromArray_reads →
  Matrix4_equals (modelMatrix instance) Matrix4_IDENTITY = false →
  all_have_values (attributes (geometry instance)) →
  Matrix4_inverse (modelMatrix instance) = Ok inverse →
  name ∈ ["normal"; "binormal"; "tangent"]%string →
  attr_lookup name (attributes (geometry instance)) = Some attribute →
  values attribute = Some vs →
  arr_length vs `mod` 3 = 0 →
  ∃ instance' vs',
    transformToWorldCoordinates (Some instance) = Ok (instance', Some instance')
    ∧ attr_lookup name (attributes (geometry instance'))
      = Some (with_values attribute (Some vs'))
    ∧ arr_length vs' = arr_length vs
    ∧ ∀ k, 0 ≤ 3 * k < arr_length vs →
        vectorAt vs' k
        = Matrix3_multiplyByVector (Matrix4_getRotation (Matrix4_transpose inverse))
                                   (vectorAt vs k).
Proof.
  intros Hreads Hne Hall Hinverse Hname Hattribute Hvs Hmod.
  destruct (transformToWorldCoordinates_transformed instance Hne Hall)
    as (attrs' & Hcall & _ & _ & Hlookup & _); [right; eauto|].
  destruct (transformedValues_vectorAt
              (Matrix3_multiplyByVector (Matrix4_getRotation (Matrix4_transpose inverse))) vs
              Hreads Hmod) as [Hlen Hget].
  eexists _, _. split; [exact Hcall|]. cbn [geometry attributes].
  rewrite (Hlookup name inverse Hname Hinverse), Hattribute. cbn. rewrite Hvs. cbn. done.
Qed.

(** What the non-identity path leaves alone: the names and the order of
    the attributes, every attribute other than position, normal, binormal
    and tangent, the index list and the primitive type.  The model matrix
    becomes a clone of the identity; the centre of the bounding sphere is
    multiplied by the model matrix and its radius is kept as it is. *)
Theorem transformToWorldCoordinates_frame (instance : GeometryInstance) :
  Matrix4_equals (modelMatrix instance) Matrix4_IDENTITY = false →
  all_have_values (attributes (geometry instance)) →
  (attr_lookup "normal" (attributes (geometry instance)) = None
   ∧ attr_lookup "binormal" (attributes (geometry instance)) = None
   ∧ attr_lookup "tangent" (attributes (geometry instance)) = None)
  ∨ (∃ inverse, Matrix4_inverse (modelMatrix instance) = Ok inverse) →
  ∃ instance',
    transformToWorldCoordinates (Some instance) = Ok (instance', Some instance')
    ∧ modelMatrix instance' = Matrix4_clone Matrix4_IDENTITY
    ∧ (attributes (geometry instance')).*1 = (attributes (geometry instance)).*1
    ∧ (∀ name, name ∉ ["position"; "normal"; "binormal"; "tangent"]%string →
         attr_lookup name (attributes (geometry instance'))
           = attr_lookup name (attributes (geometry instance)))
    ∧ indexList (geometry instance') = indexList (geometry instance)
    ∧ primitiveType (geometry instance') = primitiveType (geometry instance)
    ∧ boundingSphere (geometry instance')
      = (λ bs, {| center := Cartesian3_fromCartesian4
                              (Matrix4_multiplyByPoint (modelMatrix instance) (center bs));
                  radius := radius bs |})
          <$> boundingSphere (geometry instance).
Proof.
  intros Hne Hall Hinverse.
  destruct (transformToWorldCoordinates_transformed instance Hne Hall Hinverse)
    as (attrs' & Hcall & Hnames & _ & _ & Hother).
  eexists. split; [exact Hcall|]. done.
Qed.

(** With a normal, a binormal or a tangent attribute the inverse of the
    model matrix is needed: the call throws exactly what Matrix4.inverse
    throws. *)
Theorem transformToWorldCoordinates_inverse_throws (instance : GeometryInstance) (e : error) :
  Matrix4_equals (modelMatrix instance) Matrix4_IDENTITY = false →
  all_have_values (attributes (geometry instance)) →
  (∃ name, name ∈ ["normal"; "binormal"; "tangent"]%string
           ∧ is_Some (attr_lookup name (attributes (geometry instance)))) →
  transformToWorldCoordinates (Some instance) = Throw e
  ↔ Matrix4_inverse (modelMatrix instance) = Throw e.
Proof.
  intros Hne Hall (name & Hname & Hsome).
  destruct (Matrix4_inverse (modelMatrix instance)) as [inverse|e'] eqn:Hinverse.
  - destruct (transformToWorldCoordinates_transformed instance Hne Hall)
      as (attrs' & Hcall & _); [right; eauto|].
    rewrite Hcall. split; discriminate.
  - unfold transformToWorldCoordinates. rewrite Hne.
    rewrite transformNamed_point by done. cbn [mbind result_bind].
    rewrite decide_True.
    + rewrite Hinverse. cbn [mbind result_bind]. by split; intros [= ->].
    + rewrite !transformAttribute_lookup. rewrite !decide_False by done.
      apply elem_of_cons in Hname as [->|Hname];
        [|apply elem_of_cons in Hname as [->|Hname];
          [|apply list_elem_of_singleton in Hname as ->]];
        destruct Hsome as [a Ha]; rewrite Ha; eauto.
Qed.

End TransformedInstance.

(** ** reorderForPreVertexCache: the new numbering *)

Section ReorderNumbering.
Context `{ExternalTypes}.








End ReorderNumbering.

(** ** computeNormal: the normal of a vertex *)

Section ComputeNormalSum.
Context `{ExternalOps}.

Lemma occurrences_usesOf indices v k :
  occurrences indices v k = Z.of_nat (length (usesOf indices v k)).
Proof. reflexivity. Qed.

Lemma usesOf_succ indices v k :
  0 ≤ k →
  usesOf indices v (k + 1)
    = usesOf indices v k ++ (if decide (arr_get indices k = Some v) then [k] else []).
Proof.
  intros Hk. unfold usesOf. rewrite seqZ_app by lia.
  rewrite filter_app. change (seqZ (0 + k) 1) with [0 + k].
  rewrite Z.add_0_l, filter_cons, filter_nil. by case_decide.
Qed.

Lemma usesOf_below indices v k p : p ∈ usesOf indices v k → 0 ≤ p < k.
Proof.
  unfold usesOf. intros [_ Hp%elem_of_seqZ]%list_elem_of_filter. lia.
Qed.

Lemma occurrences_mono indices v k k' :
  0 ≤ k ≤ k' → occurrences indices v k ≤ occurrences indices v k'.
Proof.
  intros Hk. unfold occurrences. replace k' with (k + (k' - k)) by lia.
  rewrite seqZ_app by lia. rewrite filter_app, length_app. lia.
Qed.

Lemma occurrences_used indices u k :
  0 ≤ k < arr_length indices →
  arr_get indices k = Some u →
  occurrences indices u k < occurrences indices u (arr_length indices).
Proof.
  intros Hk Hu.
  pose proof (occurrences_mono indices u (k + 1) (arr_length indices) ltac:(lia)) as Hmono.
  rewrite occurrences_succ in Hmono by lia. rewrite decide_True in Hmono by done. lia.
Qed.

Lemma slotsBefore_succ indices v :
  0 ≤ v →
  slotsBefore indices (v + 1)
    = slotsBefore indices v + occurrences indices v (arr_length indices).
Proof.
  intros Hv. unfold slotsBefore. rewrite seqZ_app by lia.
  change (seqZ (0 + v) 1) with [0 + v]. rewrite Z.add_0_l, fmap_app.
  generalize ((λ u, occurrences indices u (arr_length indices)) <$> seqZ 0 v).
  intros l. induction l as [|a l IH]; cbn [app foldr fmap list_fmap] in *; lia.
Qed.

Lemma slotsBefore_mono_nat indices u (n : nat) :
  0 ≤ u → slotsBefore indices u ≤ slotsBefore indices (u + Z.of_nat n).
Proof.
  intros Hu. induction n as [|n IH].
  - by rewrite Z.add_0_r.
  - replace (u + Z.of_nat (S n)) with (u + Z.of_nat n + 1) by lia.
    rewrite slotsBefore_succ by lia.
    pose proof (occurrences_nonneg indices (u + Z.of_nat n) (arr_length indices)). lia.
Qed.

Lemma slotsBefore_mono indices u v :
  0 ≤ u ≤ v → slotsBefore indices u ≤ slotsBefore indices v.
Proof.
  intros Huv. replace v with (u + Z.of_nat (Z.to_nat (v - u))) by lia.
  apply slotsBefore_mono_nat. lia.
Qed.

(** The slots of two vertices do not overlap. *)
Lemma slots_disjoint indices u v j j' :
  0 ≤ u → 0 ≤ v → u ≠ v →
  0 ≤ j < occurrences indices u (arr_length indices) →
  0 ≤ j' < occurrences indices v (arr_length indices) →
  slotsBefore indices u + j ≠ slotsBefore indices v + j'.
Proof.
  intros Hu Hv Hne Hj Hj'.
  pose proof (slotsBefore_succ indices u Hu). pose proof (slotsBefore_succ indices v Hv).
  destruct (decide (u < v)).
  - pose proof (slotsBefore_mono indices (u + 1) v ltac:(lia)). lia.
  - pose proof (slotsBefore_mono indices (v + 1) u ltac:(lia)). lia.
Qed.

(** *** The first triangle loop *)

Lemma counted_init numVertices indices :
  counted numVertices indices 0
    (foldl (λ a i, arr_set a i (Some {| indexOffset := 0; count := 0; currentCount := 0 |}))
           (arr_new numVertices) (for_range 0 numVertices 1)).
Proof. intros v Hv. rewrite fill_range_get. by rewrite decide_True by lia. Qed.

Lemma incrementCount_counted numVertices indices k normalsPerVertex u :
  0 ≤ k →
  counted numVertices indices k normalsPerVertex →
  arr_get indices k = Some u →
  0 ≤ u < numVertices →
  ∃ normalsPerVertex',
    incrementCount normalsPerVertex (Some u) = Ok normalsPerVertex'
    ∧ counted numVertices indices (k + 1) normalsPerVertex'.
Proof.
  intros Hk Hinv Hu Hrange. unfold incrementCount.
  change (arr_get_at normalsPerVertex (Some u)) with (arr_get normalsPerVertex u).
  rewrite (Hinv u Hrange). eexists. split; [done|].
  intros v Hv. rewrite occurrences_succ by done. rewrite Hu.
  destruct (decide (u = v)) as [<-|Hne].
  - rewrite arr_get_set_eq. cbn [indexOffset count currentCount].
    by rewrite decide_True by done.
  - rewrite arr_get_set_ne by done. rewrite (Hinv v Hv).
    rewrite decide_False by congruence. by rewrite Z.add_0_r.
Qed.

Lemma faceNormalStep_counted (vertices : jsarray number) indices numVertices
    normalsPerVertex normalsPerTriangle t :
  indices_below numVertices indices →
  0 ≤ t → 3 * t + 3 ≤ arr_length indices →
  counted numVertices indices (3 * t) normalsPerVertex →
  (∀ k, 0 ≤ k < t → arr_get normalsPerTriangle k = Some (faceNormal vertices indices k)) →
  ∃ normalsPerVertex' normalsPerTriangle',
    faceNormalStep vertices indices (normalsPerVertex, normalsPerTriangle, t) (3 * t)
      = Ok (normalsPerVertex', normalsPerTriangle', t + 1)
    ∧ counted numVertices indices (3 * (t + 1)) normalsPerVertex'
    ∧ (∀ k, 0 ≤ k < t + 1 →
         arr_get normalsPerTriangle' k = Some (faceNormal vertices indices k)).
Proof.
  intros Hbelow Ht Hlen Hinv Htri.
  destruct (Hbelow (3 * t)) as (u0 & Hu0 & Hr0); [lia|].
  destruct (Hbelow (3 * t + 1)) as (u1 & Hu1 & Hr1); [lia|].
  destruct (Hbelow (3 * t + 2)) as (u2 & Hu2 & Hr2); [lia|].
  destruct (incrementCount_counted numVertices indices (3 * t) normalsPerVertex u0)
    as (npv1 & Hstep1 & Hinv1); [lia | done | done | done |].
  destruct (incrementCount_counted numVertices indices (3 * t + 1) npv1 u1)
    as (npv2 & Hstep2 & Hinv2); [lia | done | done | done |].
  destruct (incrementCount_counted numVertices indices (3 * t + 1 + 1) npv2 u2)
    as (npv3 & Hstep3 & Hinv3);
    [lia | done | by replace (3 * t + 1 + 1) with (3 * t + 2) by lia | done |].
  assert (Hstep : faceNormalStep vertices indices (normalsPerVertex, normalsPerTriangle, t)
                    (3 * t)
                  = Ok (npv3,
                        arr_set normalsPerTriangle t (Some (faceNormal vertices indices t)),
                        t + 1)).
  { unfold faceNormalStep, faceNormal. rewrite Hu0, Hu1, Hu2, Hstep1.
    cbn [mbind result_bind]. rewrite Hstep2. cbn [mbind result_bind]. rewrite Hstep3.
    cbn [mbind result_bind]. reflexivity. }
  eexists _, _. split; [exact Hstep|]. split.
  - by replace (3 * (t + 1)) with (3 * t + 1 + 1 + 1) by lia.
  - intros k Hk. destruct (decide (t = k)) as [<-|Hne].
    + by rewrite arr_get_set_eq.
    + rewrite arr_get_set_ne by done. apply Htri. lia.
Qed.

Lemma faceNormal_rounds_counted (vertices : jsarray number) indices numVertices
    normalsPerVertex normalsPerTriangle (rounds : nat) :
  indices_below numVertices indices →
  3 * Z.of_nat rounds ≤ arr_length indices →
  counted numVertices indices 0 normalsPerVertex →
  ∃ normalsPerVertex' normalsPerTriangle',
    foldM (faceNormalStep vertices indices) (normalsPerVertex, normalsPerTriangle, 0)
          ((λ k, 3 * k) <$> seqZ 0 (Z.of_nat rounds))
      = Ok (normalsPerVertex', normalsPerTriangle', Z.of_nat rounds)
    ∧ counted numVertices indices (3 * Z.of_nat rounds) normalsPerVertex'
    ∧ (∀ k, 0 ≤ k < Z.of_nat rounds →
         arr_get normalsPerTriangle' k = Some (faceNormal vertices indices k)).
Proof.
  intros Hbelow. induction rounds as [|rounds IH]; intros Hlen Hinv.
  - eexists _, _. split; [done|]. split; [done|]. intros k Hk. lia.
  - destruct IH as (npv & npt & Hloop & Hinv' & Htri); [lia | done |].
    destruct (faceNormalStep_counted vertices indices numVertices npv npt (Z.of_nat rounds))
      as (npv' & npt' & Hstep & Hinv'' & Htri'); [done | lia | lia | done | done |].
    exists npv', npt'. rewrite seqZ_S, fmap_app, foldM_app, Hloop.
    cbn [mbind result_bind fmap list_fmap foldM]. rewrite Z.add_0_l, Hstep.
    cbn [mbind result_bind].
    replace (Z.of_nat (S rounds)) with (Z.of_nat rounds + 1) by lia. done.
Qed.

(** *** The offset loop *)

Lemma offset_rounds_exact numVertices indices normalsPerVertex (k : nat) :
  Z.of_nat k ≤ numVertices →
  counted numVertices indices (arr_length indices) normalsPerVertex →
  ∃ normalsPerVertex',
    foldM offsetStep (normalsPerVertex, 0) (seqZ 0 (Z.of_nat k))
      = Ok (normalsPerVertex', slotsBefore indices (Z.of_nat k))
    ∧ offsets_set numVertices indices (Z.of_nat k) normalsPerVertex'.
Proof.
  intros Hk Hinv. induction k as [|k IH].
  - exists normalsPerVertex. split; [done|]. intros v Hv.
    rewrite (Hinv v Hv). by rewrite decide_False by lia.
  - destruct IH as (npv & Hloop & Hset); [lia|].
    rewrite seqZ_S, foldM_app, Hloop. cbn [mbind result_bind foldM]. rewrite Z.add_0_l.
    unfold offsetStep at 1. rewrite (Hset (Z.of_nat k)) by lia.
    cbn [mbind result_bind indexOffset count currentCount].
    rewrite decide_False by lia. rewrite Z.add_0_l.
    eexists. split.
    + replace (Z.of_nat (S k)) with (Z.of_nat k + 1) by lia.
      by rewrite slotsBefore_succ by lia.
    + intros v Hv. destruct (decide (Z.of_nat k = v)) as [<-|Hne].
      * rewrite arr_get_set_eq. by rewrite decide_True by lia.
      * rewrite arr_get_set_ne by done. rewrite (Hset v Hv).
        destruct (decide (v < Z.of_nat k)).
        -- by rewrite decide_True by lia.
        -- by rewrite decide_False by lia.
Qed.

(** *** The second triangle loop *)

Lemma offsets_recorded numVertices indices normalsPerVertex normalIndices :
  offsets_set numVertices indices numVertices normalsPerVertex →
  recorded numVertices indices 0 normalsPerVertex normalIndices.
Proof.
  intros Hset v Hv. rewrite (Hset v Hv). rewrite decide_True by lia. split; [done|].
  intros j p Hj. done.
Qed.

Lemma recordTriangle_recorded numVertices indices k j normalsPerVertex normalIndices u :
  0 ≤ k < arr_length indices →
  j = k `div` 3 →
  recorded numVertices indices k normalsPerVertex normalIndices →
  arr_get indices k = Some u →
  0 ≤ u < numVertices →
  ∃ normalsPerVertex' normalIndices',
    recordTriangle j (normalsPerVertex, normalIndices) (Some u)
      = Ok (normalsPerVertex', normalIndices')
    ∧ recorded numVertices indices (k + 1) normalsPerVertex' normalIndices'.
Proof.
  intros Hk -> Hinv Hu Hrange.
  destruct (Hinv u Hrange) as [Hdata Hslots].
  unfold recordTriangle.
  change (arr_get_at normalsPerVertex (Some u)) with (arr_get normalsPerVertex u).
  rewrite Hdata. cbn [indexOffset count currentCount].
  eexists _, _. split; [done|].
  pose proof (occurrences_used indices u k Hk Hu) as Hused.
  pose proof (occurrences_nonneg indices u k) as Hnn.
  intros v Hv. rewrite occurrences_succ, usesOf_succ by lia. rewrite Hu.
  destruct (decide (u = v)) as [<-|Hne].
  - rewrite arr_get_set_eq. rewrite !decide_True by done. split; [done|].
    intros j p Hj. rewrite occurrences_usesOf.
    destruct (decide (j < length (usesOf indices u k))%nat) as [Hold|Hnew].
    + rewrite lookup_app_l in Hj by done.
      rewrite arr_get_set_ne by lia. by apply Hslots.
    + rewrite lookup_app_r in Hj by lia.
      destruct (j - length (usesOf indices u k))%nat as [|n] eqn:Hdiff; [|done].
      injection Hj as <-.
      replace (Z.of_nat j) with (Z.of_nat (length (usesOf indices u k))) by lia.
      apply arr_get_set_eq.
  - rewrite arr_get_set_ne by done. destruct (Hinv v Hv) as [Hdata' Hslots'].
    rewrite Hdata'. rewrite !decide_False by congruence.
    rewrite Z.add_0_r, app_nil_r. split; [done|].
    intros j p Hj. rewrite arr_get_set_ne; [by apply Hslots'|].
    apply lookup_lt_Some in Hj as Hlt.
    pose proof (occurrences_mono indices v k (arr_length indices) ltac:(lia)) as Hmono.
    rewrite (occurrences_usesOf indices v k) in Hmono.
    apply slots_disjoint; lia.
Qed.

Lemma normalIndexStep_recorded indices numVertices normalsPerVertex normalIndices t :
  indices_below numVertices indices →
  0 ≤ t → 3 * t + 3 ≤ arr_length indices →
  recorded numVertices indices (3 * t) normalsPerVertex normalIndices →
  ∃ normalsPerVertex' normalIndices',
    normalIndexStep indices (normalsPerVertex, normalIndices, t) (3 * t)
      = Ok (normalsPerVertex', normalIndices', t + 1)
    ∧ recorded numVertices indices (3 * (t + 1)) normalsPerVertex' normalIndices'.
Proof.
  intros Hbelow Ht Hlen Hinv.
  destruct (Hbelow (3 * t)) as (u0 & Hu0 & Hr0); [lia|].
  destruct (Hbelow (3 * t + 1)) as (u1 & Hu1 & Hr1); [lia|].
  destruct (Hbelow (3 * t + 2)) as (u2 & Hu2 & Hr2); [lia|].
  assert (Hdiv : ∀ r, 0 ≤ r < 3 → t = (3 * t + r) `div` 3).
  { intros r Hr. apply (Z.div_unique _ 3 t r); lia. }
  destruct (recordTriangle_recorded numVertices indices (3 * t) t
              normalsPerVertex normalIndices u0)
    as (npv1 & ni1 & Hstep1 & Hinv1);
    [lia | rewrite <- (Z.add_0_r (3 * t)); apply Hdiv; lia | done | done | done |].
  destruct (recordTriangle_recorded numVertices indices (3 * t + 1) t npv1 ni1 u1)
    as (npv2 & ni2 & Hstep2 & Hinv2); [lia | apply Hdiv; lia | done | done | done |].
  destruct (recordTriangle_recorded numVertices indices (3 * t + 1 + 1) t npv2 ni2 u2)
    as (npv3 & ni3 & Hstep3 & Hinv3);
    [lia | replace (3 * t + 1 + 1) with (3 * t + 2) by lia; apply Hdiv; lia | done
     | by replace (3 * t + 1 + 1) with (3 * t + 2) by lia | done |].
  unfold normalIndexStep. rewrite Hu0, Hu1, Hu2, Hstep1. cbn [mbind result_bind].
  rewrite Hstep2. cbn [mbind result_bind]. rewrite Hstep3. cbn [mbind result_bind].
  eexists _, _. split; [done|].
  by replace (3 * (t + 1)) with (3 * t + 1 + 1 + 1) by lia.
Qed.

Lemma normalIndex_rounds_recorded indices numVertices normalsPerVertex normalIndices
    (rounds : nat) :
  indices_below numVertices indices →
  3 * Z.of_nat rounds ≤ arr_length indices →
  recorded numVertices indices 0 normalsPerVertex normalIndices →
  ∃ normalsPerVertex' normalIndices',
    foldM (normalIndexStep indices) (normalsPerVertex, normalIndices, 0)
          ((λ k, 3 * k) <$> seqZ 0 (Z.of_nat rounds))
      = Ok (normalsPerVertex', normalIndices', Z.of_nat rounds)
    ∧ recorded numVertices indices (3 * Z.of_nat rounds) normalsPerVertex' normalIndices'.
Proof.
  intros Hbelow. induction rounds as [|rounds IH]; intros Hlen Hinv.
  - eexists _, _. split; [done|]. done.
  - destruct IH as (npv & ni & Hloop & Hinv'); [lia | done |].
    destruct (normalIndexStep_recorded indices numVertices npv ni (Z.of_nat rounds))
      as (npv' & ni' & Hstep & Hinv''); [done | lia | lia | done |].
    exists npv', ni'. rewrite seqZ_S, fmap_app, foldM_app, Hloop.
    cbn [mbind result_bind fmap list_fmap foldM]. rewrite Z.add_0_l, Hstep.
    cbn [mbind result_bind].
    replace (Z.of_nat (S rounds)) with (Z.of_nat rounds + 1) by lia. done.
Qed.

(** *** The last loop *)

(** The sum over the slots of a vertex adds up the face normals of the
    triangles of its uses. *)
Lemma sumNormals_uses (vertices : jsarray number) (indices : jsarray Z)
    (normalsPerTriangle : jsarray Cartesian3) (normalIndices : jsarray Z)
    (offset : Z) (uses : list Z) (n : nat) :
  (∀ (j : nat) p, uses !! j = Some p →
     arr_get normalIndices (offset + Z.of_nat j) = Some (p `div` 3)
     ∧ arr_get normalsPerTriangle (p `div` 3)
       = Some (faceNormal vertices indices (p `div` 3))) →
  (n ≤ length uses)%nat →
  foldM (λ normal j,
           match arr_get_at normalsPerTriangle (arr_get normalIndices (offset + j)) with
           | Some n => Ok (Cartesian3_add normal n)
           | None => Throw TypeError
           end) Cartesian3_ZERO (seqZ 0 (Z.of_nat n))
    = Ok (foldl (λ normal p, Cartesian3_add normal (faceNormal vertices indices (p `div` 3)))
                Cartesian3_ZERO (take n uses)).
Proof.
  intros Hslots. induction n as [|n IH]; intros Hn; [done|].
  destruct (lookup_lt_is_Some_2 uses n) as [p Hp]; [lia|].
  rewrite seqZ_S, foldM_app, IH by lia. cbn [mbind result_bind foldM]. rewrite Z.add_0_l.
  destruct (Hslots n p Hp) as [Hslot Hnormal]. rewrite Hslot.
  change (arr_get_at normalsPerTriangle (Some (p `div` 3)))
    with (arr_get normalsPerTriangle (p `div` 3)).
  rewrite Hnormal. cbn [mbind result_bind].
  rewrite (take_S_r _ _ _ Hp), foldl_app. done.
Qed.

Lemma writeNormalStep_vertexNormal (vertices : jsarray number) numVertices indices
    normalsPerVertex normalsPerTriangle normalIndices (normalValues : jsarray number) v :
  recorded numVertices indices (arr_length indices) normalsPerVertex normalIndices →
  (∀ t, 0 ≤ t → 3 * t < arr_length indices →
     arr_get normalsPerTriangle t = Some (faceNormal vertices indices t)) →
  0 ≤ v < numVertices →
  ∃ normalValues',
    writeNormalStep normalsPerVertex normalsPerTriangle normalIndices normalValues v
      = Ok normalValues'
    ∧ arr_length normalValues' = Z.max (arr_length normalValues) (v * 3 + 3)
    ∧ (∀ key, ¬ (v * 3 ≤ key < v * 3 + 3) →
         arr_get normalValues' key = arr_get normalValues key)
    ∧ (0 < occurrences indices v (arr_length indices) →
         arr_get normalValues' (v * 3) = x (vertexNormal vertices indices v)
         ∧ arr_get normalValues' (v * 3 + 1) = y (vertexNormal vertices indices v)
         ∧ arr_get normalValues' (v * 3 + 2) = z (vertexNormal vertices indices v)).
Proof.
  intros Hinv Htri Hv. destruct (Hinv v Hv) as [Hdata Hslots].
  unfold writeNormalStep. rewrite Hdata. cbn [indexOffset count currentCount].
  case_decide as Hpos.
  - pose proof (sumNormals_uses vertices indices normalsPerTriangle normalIndices
                  (slotsBefore indices v) (usesOf indices v (arr_length indices))
                  (length (usesOf indices v (arr_length indices)))) as Hsum.
    rewrite firstn_all in Hsum. rewrite for_range_unit, occurrences_usesOf, Hsum; [|
      | done].
    + cbn [mbind result_bind]. fold (vertexNormal vertices indices v).
      eexists. split; [done|].
      destruct (arr_set_triple normalValues (v * 3)
                  (x (vertexNormal vertices indices v)) (y (vertexNormal vertices indices v))
                  (z (vertexNormal vertices indices v))) as (Hx & Hy & Hz & Hother).
      cbn zeta in *. split; [|split; [|done]].
      * rewrite !arr_length_set, !decide_True by lia. lia.
      * intros key Hkey. apply Hother. lia.
    + intros j p Hj. split; [by apply Hslots|].
      apply list_elem_of_lookup_2, usesOf_below in Hj. apply Htri.
      * apply Z.div_pos; lia.
      * pose proof (Z.mul_div_le p 3 ltac:(lia)). lia.
  - eexists. split; [done|].
    destruct (arr_set_triple normalValues (v * 3) (Some num_zero) (Some num_zero)
                (Some num_one)) as (_ & _ & _ & Hother).
    cbn zeta in *. split; [|split].
    + rewrite !arr_length_set, !decide_True by lia. lia.
    + intros key Hkey. apply Hother. lia.
    + intros Hused. lia.
Qed.

Lemma writeNormal_rounds_vertexNormal (vertices : jsarray number) numVertices indices
    normalsPerVertex normalsPerTriangle normalIndices (normalValues : jsarray number)
    (k : nat) :
  recorded numVertices indices (arr_length indices) normalsPerVertex normalIndices →
  (∀ t, 0 ≤ t → 3 * t < arr_length indices →
     arr_get normalsPerTriangle t = Some (faceNormal vertices indices t)) →
  Z.of_nat k ≤ numVertices →
  ∃ normalValues',
    foldM (writeNormalStep normalsPerVertex normalsPerTriangle normalIndices) normalValues
          (seqZ 0 (Z.of_nat k)) = Ok normalValues'
    ∧ arr_length normalValues' = Z.max (arr_length normalValues) (3 * Z.of_nat k)
    ∧ (∀ key, 3 * Z.of_nat k ≤ key → arr_get normalValues' key = arr_get normalValues key)
    ∧ ∀ v, 0 ≤ v < Z.of_nat k →
        0 < occurrences indices v (arr_length indices) →
        vectorAt normalValues' v = vertexNormal vertices indices v.
Proof.
  intros Hinv Htri. induction k as [|k IH]; intros Hk.
  - exists normalValues. split; [done|]. split; [|split].
    + pose proof (arr_length_nonneg normalValues). lia.
    + done.
    + intros v Hv. lia.
  - destruct IH as (nv & Hloop & Hlength & Hrest & Hdone); [lia|].
    destruct (writeNormalStep_vertexNormal vertices numVertices indices normalsPerVertex
                normalsPerTriangle normalIndices nv (Z.of_nat k) Hinv Htri)
      as (nv' & Hstep & Hlength' & Hother & Hhere); [lia|].
    exists nv'. rewrite seqZ_S, foldM_app, Hloop. cbn [mbind result_bind foldM].
    rewrite Z.add_0_l, Hstep. cbn [mbind result_bind]. split; [done|]. split; [|split].
    + lia.
    + intros key Hkey. rewrite Hother by lia. apply Hrest. lia.
    + intros v Hv Hused. destruct (decide (v = Z.of_nat k)) as [->|Hne].
      * destruct (Hhere Hused) as (Hx & Hy & Hz). unfold vectorAt.
        replace (3 * Z.of_nat k) with (Z.of_nat k * 3) by lia.
        rewrite Hx, Hy, Hz. by destruct (vertexNormal vertices indices (Z.of_nat k)).
      * rewrite <- (Hdone v) by (done || lia). unfold vectorAt.
        by rewrite !Hother by lia.
Qed.

(** *** What a call throws *)

Lemma only_TypeError_Ok {A} (a : A) : only_TypeError (Ok a).
Proof. by intros e. Qed.

Lemma only_TypeError_Throw {A} : only_TypeError (@Throw A TypeError).
Proof. by intros e [= <-]. Qed.

Lemma only_TypeError_bind {A B} (r : result A) (f : A → result B) :
  only_TypeError r → (∀ a, only_TypeError (f a)) → only_TypeError (r ≫= f).
Proof.
  intros Hr Hf. destruct r as [a|e]; cbn [mbind result_bind].
  - apply Hf.
  - intros e' [= <-]. by apply Hr.
Qed.

Lemma only_TypeError_foldM {A B} (f : A → B → result A) (l : list B) :
  (∀ a b, only_TypeError (f a b)) → ∀ a, only_TypeError (foldM f a l).
Proof.
  intros Hf. induction l as [|b l IH]; intros a; cbn [foldM].
  - apply only_TypeError_Ok.
  - apply only_TypeError_bind; [apply Hf | apply IH].
Qed.

Lemma incrementCount_only_TypeError normalsPerVertex i :
  only_TypeError (incrementCount normalsPerVertex i).
Proof.
  unfold incrementCount. destruct (arr_get_at normalsPerVertex i), i;
    first [apply only_TypeError_Ok | apply only_TypeError_Throw].
Qed.

Lemma recordTriangle_only_TypeError j st i : only_TypeError (recordTriangle j st i).
Proof.
  destruct st as [normalsPerVertex normalIndices]. unfold recordTriangle.
  destruct (arr_get_at normalsPerVertex i), i;
    first [apply only_TypeError_Ok | apply only_TypeError_Throw].
Qed.

Lemma faceNormalStep_only_TypeError (vertices : jsarray number) indices st i :
  only_TypeError (faceNormalStep vertices indices st i).
Proof.
  destruct st as [[normalsPerVertex normalsPerTriangle] j]. unfold faceNormalStep.
  repeat (apply only_TypeError_bind; [apply incrementCount_only_TypeError | intros ?]).
  apply only_TypeError_Ok.
Qed.

Lemma offsetStep_only_TypeError st i : only_TypeError (offsetStep st i).
Proof.
  destruct st as [normalsPerVertex offset]. unfold offsetStep.
  destruct (arr_get normalsPerVertex i);
    first [apply only_TypeError_Ok | apply only_TypeError_Throw].
Qed.

Lemma normalIndexStep_only_TypeError indices st i :
  only_TypeError (normalIndexStep indices st i).
Proof.
  destruct st as [[normalsPerVertex normalIndices] j]. unfold normalIndexStep.
  repeat (apply only_TypeError_bind; [apply recordTriangle_only_TypeError | intros ?]).
  apply only_TypeError_Ok.
Qed.

Lemma writeNormalStep_only_TypeError normalsPerVertex normalsPerTriangle normalIndices
    (normalValues : jsarray number) i :
  only_TypeError (writeNormalStep normalsPerVertex normalsPerTriangle normalIndices
                                  normalValues i).
Proof.
  unfold writeNormalStep. destruct (arr_get normalsPerVertex i) as [d|];
    [|apply only_TypeError_Throw].
  case_decide; [|apply only_TypeError_Ok].
  apply only_TypeError_bind; [|intros ?; apply only_TypeError_Ok].
  apply only_TypeError_foldM. intros normal j.
  destruct (arr_get_at normalsPerTriangle _);
    first [apply only_TypeError_Ok | apply only_TypeError_Throw].
Qed.

(** Past its argument checks computeNormal throws nothing but a
    TypeError. *)
Lemma computeNormal_loops_only_TypeError (mesh : Geometry) :
  hasVectorAttribute mesh "position" 3 → only_TypeError (computeNormal (Some mesh)).
Proof.
  intros (position & vertices & Hpos & Hvs & Hcpa & Hvmod).
  unfold computeNormal. rewrite Hpos. cbn [mbind option_bind]. rewrite Hvs.
  rewrite decide_False by (rewrite Hcpa; intros [?|?]; done).
  destruct (indexList mesh) as [indices|]; [|apply only_TypeError_Ok].
  case_decide; [apply only_TypeError_Ok|].
  apply only_TypeError_bind;
    [apply only_TypeError_foldM; intros; apply faceNormalStep_only_TypeError|].
  intros [[npv1 npt] j].
  apply only_TypeError_bind;
    [apply only_TypeError_foldM; intros; apply offsetStep_only_TypeError|].
  intros [npv2 offset].
  apply only_TypeError_bind;
    [apply only_TypeError_foldM; intros; apply normalIndexStep_only_TypeError|].
  intros [[npv3 ni] j'].
  destruct (attr_lookup "normal" _) as [normalAttribute|]; [|apply only_TypeError_Throw].
  destruct (values normalAttribute) as [normalValues|].
  - apply only_TypeError_bind; [|intros ?; apply only_TypeError_Ok].
    apply only_TypeError_foldM. intros. apply writeNormalStep_only_TypeError.
  - case_decide; [apply only_TypeError_Throw | apply only_TypeError_Ok].
Qed.

End ComputeNormalSum.

Section ComputeNormalResult.
Context `{ExternalOps}.

(** The run of computeNormal on a mesh that meets the preconditions and
    has every index below the vertex count. *)
Lemma computeNormal_run (mesh : Geometry) (position : GeometryAttribute)
    (vertices : jsarray number) (indices : jsarray Z) :
  attr_lookup "position" (attributes mesh) = Some position →
  values position = Some vertices →
  componentsPerAttribute position = 3 →
  arr_length vertices `mod` 3 = 0 →
  primitiveType mesh = TRIANGLES →
  indexList mesh = Some indices →
  arr_length indices `mod` 3 = 0 →
  2 ≤ arr_length indices →
  indices_below (arr_length vertices `div` 3) indices →
  (∀ a, attr_lookup "normal" (attributes mesh) = Some a → is_Some (values a)) →
  ∃ normalAttribute normalValues final,
    attr_lookup "normal" (withNormalAttribute (arr_length vertices `div` 3) (attributes mesh))
      = Some normalAttribute
    ∧ values normalAttribute = Some normalValues
    ∧ computeNormal (Some mesh)
      = Ok (with_attributes mesh
              (attr_store "normal" (with_values normalAttribute (Some final))
                 (withNormalAttribute (arr_length vertices `div` 3) (attributes mesh))))
    ∧ arr_length final
      = Z.max (arr_length normalValues) (3 * (arr_length vertices `div` 3))
    ∧ ∀ v, 0 ≤ v < arr_length vertices `div` 3 →
        0 < occurrences indices v (arr_length indices) →
        vectorAt final v = vertexNormal vertices indices v.
Proof.
  intros Hpos Hvs Hcpa Hvmod Hpt Hil Hmod Hlen Hbelow Hnormal.
  set (numVertices := arr_length vertices `div` 3) in *.
  set (triangles := arr_length indices `div` 3).
  assert (Hlen3 : arr_length indices = 3 * triangles).
  { unfold triangles. rewrite (Z.div_mod (arr_length indices) 3) at 1 by lia. lia. }
  assert (Htri0 : 0 ≤ triangles) by lia.
  assert (HnumVertices : 0 ≤ numVertices).
  { apply Z.div_pos; [apply arr_length_nonneg | lia]. }
  (* the first triangle loop *)
  destruct (faceNormal_rounds_counted vertices indices numVertices
              (foldl (λ a i, arr_set a i (Some {| indexOffset := 0; count := 0;
                                                  currentCount := 0 |}))
                     (arr_new numVertices) (for_range 0 numVertices 1))
              (arr_new triangles) (Z.to_nat triangles) Hbelow)
    as (npv1 & npt & Hloop1 & Hinv1 & Htri); [lia | apply counted_init |].
  rewrite Z2Nat.id in Hloop1, Hinv1, Htri by done. rewrite <- Hlen3 in Hinv1.
  (* the offset loop *)
  destruct (offset_rounds_exact numVertices indices npv1 (Z.to_nat numVertices))
    as (npv2 & Hloop2 & Hinv2); [lia | done |].
  rewrite Z2Nat.id in Hloop2, Hinv2 by done.
  (* the second triangle loop *)
  destruct (normalIndex_rounds_recorded indices numVertices npv2
              (arr_new (arr_length indices)) (Z.to_nat triangles) Hbelow)
    as (npv3 & normalIndices & Hloop3 & Hinv3); [lia | by apply offsets_recorded |].
  rewrite Z2Nat.id in Hloop3, Hinv3 by done. rewrite <- Hlen3 in Hinv3.
  (* the normal attribute and the last loop *)
  assert (∃ normalAttribute normalValues,
            attr_lookup "normal" (withNormalAttribute numVertices (attributes mesh))
              = Some normalAttribute
            ∧ values normalAttribute = Some normalValues)
    as (normalAttribute & normalValues & Hlook & Hnv).
  { unfold withNormalAttribute.
    destruct (attr_lookup "normal" (attributes mesh)) as [a|] eqn:Ha.
    - destruct (Hnormal a eq_refl) as [nv Hnv]. by eauto.
    - rewrite attr_lookup_store_eq. by eauto. }
  destruct (writeNormal_rounds_vertexNormal vertices numVertices indices npv3 npt
              normalIndices normalValues (Z.to_nat numVertices) Hinv3)
    as (final & Hloop4 & Hlength & _ & Hfinal); [intros t Ht Ht'; apply Htri; lia | lia |].
  rewrite Z2Nat.id in Hloop4, Hlength, Hfinal by done.
  exists normalAttribute, normalValues, final.
  split; [done|]. split; [done|]. split; [|split; [done|]].
  - unfold computeNormal. rewrite Hpos. cbn [mbind option_bind]. rewrite Hvs.
    rewrite decide_False by (rewrite Hcpa; intros [?|?]; done).
    rewrite Hil. rewrite decide_False by (rewrite Hpt; intros [?|[?|?]]; [done | lia | done]).
    fold numVertices. fold triangles. rewrite (for_range_triples_length _ Hmod).
    fold triangles. rewrite Hloop1. cbn [mbind result_bind].
    rewrite for_range_unit, Hloop2. cbn [mbind result_bind]. rewrite Hloop3.
    cbn [mbind result_bind].
    fold (withNormalAttribute numVertices (attributes mesh)).
    rewrite Hlook, Hnv, Hloop4. cbn [mbind result_bind]. reflexivity.
  - intros v Hv Hused. by apply Hfinal.
Qed.

(** computeNormal gives every vertex that the index list uses the
    normalized sum of the face normals of its triangles: on a TRIANGLES
    mesh that meets the preconditions, with every index below the vertex
    count, the call returns, and the three values written for vertex [v]
    are [vertexNormal vertices indices v], the face normals added in the
    order of the index list, one for each use of [v]. *)
Theorem computeNormal_vertex_normal (mesh : Geometry) (position : GeometryAttribute)
    (vertices : jsarray number) (indices : jsarray Z) :
  attr_lookup "position" (attributes mesh) = Some position →
  values position = Some vertices →
  componentsPerAttribute position = 3 →
  arr_length vertices `mod` 3 = 0 →
  primitiveType mesh = TRIANGLES →
  indexList mesh = Some indices →
  arr_length indices `mod` 3 = 0 →
  2 ≤ arr_length indices →
  indices_below (arr_length vertices `div` 3) indices →
  (∀ a, attr_lookup "normal" (attributes mesh) = Some a → is_Some (values a)) →
  ∃ mesh' normal normalValues,
    computeNormal (Some mesh) = Ok mesh'
    ∧ attr_lookup "normal" (attributes mesh') = Some normal
    ∧ values normal = Some normalValues
    ∧ ∀ p v, 0 ≤ p < arr_length indices → arr_get indices p = Some v →
        vectorAt normalValues v = vertexNormal vertices indices v.
Proof.
  intros Hpos Hvs Hcpa Hvmod Hpt Hil Hmod Hlen Hbelow Hnormal.
  destruct (computeNormal_run mesh position vertices indices)
    as (normalAttribute & normalValues & final & Hlook & Hnv & Hrun & _ & Hfinal); try done.
  eexists _, (with_values normalAttribute (Some final)), final.
  split; [exact Hrun|]. split; [|split; [reflexivity|]].
  - cbn [attributes with_attributes]. apply attr_lookup_store_eq.
  - intros p v Hp Hv. destruct (Hbelow p Hp) as (u & Hu & Hrange).
    assert (u = v) as -> by congruence.
    apply Hfinal; [done|].
    pose proof (occurrences_used indices v p ltac:(lia) Hv).
    pose proof (occurrences_mono indices v (p + 1) (arr_length indices) ltac:(lia)).
    pose proof (occurrences_nonneg indices v p). lia.
Qed.

(** computeNormal throws a DeveloperError exactly for a missing mesh and
    for a mesh whose position attribute is missing, has no values, has
    not three components per attribute or a length that is no multiple
    of three; nothing past these checks throws one. *)
Theorem computeNormal_developer_error (mesh : option Geometry) :
  (∃ message, computeNormal mesh = Throw (DeveloperError message))
  ↔ (mesh = None ∨ ∃ g, mesh = Some g ∧ ¬ hasVectorAttribute g "position" 3).
Proof.
  split.
  - intros [message Hthrow]. destruct mesh as [g|]; [right | by left].
    exists g. split; [done|]. intros Hvalid.
    by pose proof (computeNormal_loops_only_TypeError g Hvalid _ Hthrow).
  - intros [->|(g & -> & Hinvalid)]; [by eexists|].
    unfold computeNormal.
    destruct (attr_lookup "position" (attributes g)) as [position|] eqn:Hpos;
      cbn [mbind option_bind]; [|by eexists].
    destruct (values position) as [vertices|] eqn:Hvs; [|by eexists].
    case_decide as Hcheck; [by eexists|]. destruct Hinvalid.
    exists position, vertices. split; [done|]. split; [done|].
    destruct (decide (componentsPerAttribute position = 3)) as [Hcpa|Hcpa];
      [|destruct Hcheck; left; congruence].
    split; [done|].
    destruct (decide (arr_length vertices `mod` 3 = 0)) as [Hmod|Hmod]; [done|].
    destruct Hcheck. by right.
Qed.

(** computeNormal does not check the indices: on a TRIANGLES mesh that
    meets the preconditions, an index that is not below the vertex count
    makes the call throw a TypeError. *)
Theorem computeNormal_index_out_of_range (mesh : Geometry) (indices : jsarray Z) (p : Z) :
  hasVectorAttribute mesh "position" 3 →
  primitiveType mesh = TRIANGLES →
  indexList mesh = Some indices →
  arr_length indices `mod` 3 = 0 →
  2 ≤ arr_length indices →
  0 ≤ p < arr_length indices →
  (∀ position vertices u,
     attr_lookup "position" (attributes mesh) = Some position →
     values position = Some vertices →
     arr_get indices p = Some u →
     ¬ (0 ≤ u < arr_length vertices `div` 3)) →
  computeNormal (Some mesh) = Throw TypeError.
Proof.
  intros Hvalid Hpt Hil Hmod Hlen Hp Hout.
  destruct (computeNormal (Some mesh)) as [mesh'|e] eqn:Hrun.
  - destruct Hvalid as (position & vertices & Hpos & Hvs & Hcpa & Hvmod).
    destruct (computeNormal_Ok mesh mesh' position vertices indices) as [Hbelow _];
      try done.
    destruct (Hbelow p Hp) as (u & Hu & Hrange).
    by destruct (Hout position vertices u).
  - f_equal. by apply (computeNormal_loops_only_TypeError mesh Hvalid).
Qed.

(** computeNormal touches nothing but the normal attribute: a call that
    returns leaves the index list, the primitive type, the bounding
    sphere and every other attribute as they were, and a normal attribute
    that the mesh already had keeps its description. *)
Theorem computeNormal_frame (mesh mesh' : Geometry) :
  computeNormal (Some mesh) = Ok mesh' →
  indexList mesh' = indexList mesh
  ∧ primitiveType mesh' = primitiveType mesh
  ∧ boundingSphere mesh' = boundingSphere mesh
  ∧ (∀ name, name ≠ "normal" →
       attr_lookup name (attributes mesh') = attr_lookup name (attributes mesh))
  ∧ (∀ a, attr_lookup "normal" (attributes mesh) = Some a →
       ∃ elements, attr_lookup "normal" (attributes mesh') = Some (with_values a elements)).
Proof.
  assert (Hsame : ∀ a : GeometryAttribute, a = with_values a (values a)) by by intros [].
  unfold computeNormal.
  destruct (attr_lookup "position" (attributes mesh) ≫= values) as [vertices|]; [|done].
  case_decide; [done|].
  destruct (indexList mesh) as [indices|] eqn:Hil;
    [|intros [= <-]; repeat split; try done; intros a Ha; exists (values a); congruence].
  case_decide;
    [intros [= <-]; repeat split; try done; intros a Ha; exists (values a); congruence|].
  destruct (foldM (faceNormalStep vertices indices) _ _) as [[[npv1 npt] j]|]; [|done].
  cbn [mbind result_bind].
  destruct (foldM offsetStep _ _) as [[npv2 offset]|]; [|done]. cbn [mbind result_bind].
  destruct (foldM (normalIndexStep indices) _ _) as [[[npv3 ni] j']|]; [|done].
  cbn [mbind result_bind].
  set (created := {| componentDatatype := FLOAT; componentsPerAttribute := 3;
                     normalize := false;
                     values := Some (arr_new (arr_length vertices `div` 3 * 3)) |}).
  destruct (attr_lookup "normal" (attributes mesh)) as [a|] eqn:Ha.
  - rewrite Ha. destruct (values a) as [normalValues|] eqn:Hnv.
    + destruct (foldM (writeNormalStep npv3 npt ni) _ _) as [final|]; [|done].
      cbn [mbind result_bind]. intros [= <-]. cbn [attributes with_attributes indexList
        primitiveType boundingSphere]. repeat split; try done.
      * intros name Hname. rewrite attr_lookup_store. by rewrite decide_False.
      * intros ? [= <-]. rewrite attr_lookup_store_eq. by eauto.
    + case_decide; [done|]. intros [= <-]. repeat split; try done.
      intros ? [= <-]. exists (values a). cbn [attributes with_attributes]. congruence.
  - rewrite attr_lookup_store_eq. cbn [values created].
    destruct (foldM (writeNormalStep npv3 npt ni) _ _) as [final|]; [|done].
    cbn [mbind result_bind]. intros [= <-]. cbn [attributes with_attributes indexList
      primitiveType boundingSphere]. repeat split; try done.
    intros name Hname. rewrite !attr_lookup_store. by rewrite !decide_False.
Qed.

End ComputeNormalResult.

Section FitVertexData.
Context `{ExternalTypes}.

Lemma with_values_values (a : GeometryAttribute) : with_values a (values a) = a.
Proof. by destruct a. Qed.

(** The inner loop of copyVertex appends the values [f k] in order and
    leaves everything before them. *)
Lemma push_block_values (name : string) (f : Z → option number) (l : list Z) :
  ∀ (dest : Attributes) d vs,
    attr_lookup name dest = Some d → values d = Some vs →
    ∃ dest' vs',
      foldM (λ dest k, pushValue dest name (f k)) dest l = Ok dest'
      ∧ attr_lookup name dest' = Some (with_values d (Some vs'))
      ∧ arr_length vs' = arr_length vs + Z.of_nat (length l)
      ∧ (∀ key, key < arr_length vs → arr_get vs' key = arr_get vs key)
      ∧ (∀ (j : nat) k, l !! j = Some k → arr_get vs' (arr_length vs + Z.of_nat j) = f k)
      ∧ (∀ other, other ≠ name → attr_lookup other dest' = attr_lookup other dest).
Proof.
  induction l as [|k l IH]; intros dest d vs Hd Hvs; cbn [foldM].
  - exists dest, vs. split; [done|]. split; [|split; [simpl; lia|]].
    + rewrite Hd. f_equal. by rewrite <- Hvs, with_values_values.
    + split; [done|]. split; [|done]. intros j k Hj. done.
  - rewrite (pushValue_spec dest name d vs) by done. cbn [mbind result_bind].
    destruct (IH (attr_store name (with_values d (Some (arr_push vs (f k)))) dest)
                (with_values d (Some (arr_push vs (f k)))) (arr_push vs (f k)))
      as (dest' & vs' & Hloop & Hlook & Hlen & Hkept & Hnew & Hother).
    { rewrite attr_lookup_store. by rewrite decide_True. }
    { done. }
    rewrite arr_length_push in Hlen, Hkept, Hnew.
    pose proof (arr_length_nonneg vs) as Hnn.
    exists dest', vs'. split; [done|]. split; [done|]. split; [|split; [|split]].
    + rewrite Hlen. cbn [length]. lia.
    + intros key Hkey. rewrite Hkept by lia. apply arr_get_push_ne. lia.
    + intros [|j] k' Hj.
      * injection Hj as <-. rewrite Z.add_0_r, Hkept by lia. apply arr_get_push_eq.
      * replace (arr_length vs + Z.of_nat (S j)) with (arr_length vs + 1 + Z.of_nat j)
          by lia.
        by apply Hnew.
    + intros other Hne. rewrite Hother by done. rewrite attr_lookup_store.
      by rewrite decide_False by congruence.
Qed.

(** copyVertex appends to every attribute with values the components of
    vertex [index] and changes nothing else. *)
Lemma copyVertex_values (source : Attributes) (index : option Z) :
  ∀ dest : Attributes,
    NoDup source.*1 →
    (∀ name s, (name, s) ∈ source → is_Some (values s) →
       ∃ d, attr_lookup name dest = Some d ∧ is_Some (values d)) →
    ∃ dest',
      copyVertex dest source index = Ok dest'
      ∧ (∀ name, name ∉ source.*1 → attr_lookup name dest' = attr_lookup name dest)
      ∧ (∀ name s, (name, s) ∈ source → values s = None →
           attr_lookup name dest' = attr_lookup name dest)
      ∧ ∀ name s vs_s d vs,
          (name, s) ∈ source → values s = Some vs_s →
          attr_lookup name dest = Some d → values d = Some vs →
          ∃ vs', attr_lookup name dest' = Some (with_values d (Some vs'))
                 ∧ (∀ key, key < arr_length vs → arr_get vs' key = arr_get vs key)
                 ∧ ∀ k, 0 ≤ k < componentsPerAttribute s →
                     arr_get vs' (arr_length vs + k) = vertexComponentOf s vs_s index k.
Proof.
  induction source as [|[n s] source IH]; intros dest Hnd Hhas.
  - exists dest. split; [done|]. split; [done|]. split.
    + done.
    + intros name s vs_s d vs Hin. by apply elem_of_nil in Hin.
  - apply NoDup_cons in Hnd as [Hn Hnd]. unfold copyVertex. cbn [foldM snd fst].
    destruct (values s) as [vs_s|] eqn:Hvs_s.
    + destruct (Hhas n s) as (d & Hd & vs & Hvs); [apply list_elem_of_here | by eauto |].
      destruct (push_block_values n
                  (λ k, i ← index; arr_get vs_s (i * componentsPerAttribute s + k))
                  (for_range 0 (componentsPerAttribute s) 1) dest d vs Hd Hvs)
        as (dest1 & vs1 & -> & Hlook1 & Hlen1 & Hkept1 & Hnew1 & Hother1).
      cbn [mbind result_bind].
      destruct (IH dest1 Hnd) as (dest' & Hrun & Hout & Hnone & Hblocks).
      { intros name s' Hin Hs'.
        assert (name ≠ n).
        { intros ->. apply Hn. by apply (list_elem_of_fmap_2 fst) in Hin. }
        rewrite Hother1 by done. apply (Hhas name s'); [by apply list_elem_of_further | done]. }
      exists dest'. split; [exact Hrun|]. split; [|split].
      * intros name Hname. rewrite Hout by (intros Hin; apply Hname; by right).
        apply Hother1. intros ->. apply Hname. by left.
      * intros name s' [[= -> ->]|Hin]%elem_of_cons Hs'; [congruence|].
        rewrite (Hnone name s') by done. apply Hother1.
        intros ->. apply Hn. by apply (list_elem_of_fmap_2 fst) in Hin.
      * intros name s' vs_s' d' vs' [[= -> ->]|Hin]%elem_of_cons Hs' Hd' Hvs'.
        -- rewrite Hd in Hd'. injection Hd' as <-. rewrite Hvs in Hvs'. injection Hvs' as <-.
           rewrite Hvs_s in Hs'. injection Hs' as <-.
           exists vs1. rewrite (Hout n Hn). split; [done|]. split; [done|].
           intros k Hk. rewrite for_range_unit in Hnew1. unfold vertexComponentOf.
           rewrite <- (Hnew1 (Z.to_nat k) k).
           ++ f_equal. lia.
           ++ rewrite (lookup_seqZ_lt 0 _ (Z.to_nat k)) by lia. f_equal. lia.
        -- assert (name ≠ n).
           { intros ->. apply Hn. by apply (list_elem_of_fmap_2 fst) in Hin. }
           apply (Hblocks name s' vs_s' d' vs'); try done. by rewrite Hother1.
    + cbn [mbind result_bind].
      destruct (IH dest Hnd) as (dest' & Hrun & Hout & Hnone & Hblocks).
      { intros name s' Hin Hs'. apply (Hhas name s'); [by apply list_elem_of_further | done]. }
      exists dest'. split; [exact Hrun|]. split; [|split].
      * intros name Hname. apply Hout. intros Hin. apply Hname. by right.
      * intros name s' [[= -> ->]|Hin]%elem_of_cons Hs'; [by apply Hout | by eapply Hnone].
      * intros name s' vs_s' d' vs' [[= -> ->]|Hin]%elem_of_cons Hs' Hd' Hvs';
          [congruence | by eapply Hblocks].
Qed.

Lemma chunk_descriptions_init (source : Attributes) :
  chunk_descriptions source (_copyAttributesDescriptions source).
Proof.
  intros name s Hs Hvs. exists arr_empty. by apply copyAttributesDescriptions_lookup_Some.
Qed.

Lemma fitVertex_data (mesh : Geometry) (st st' : FitState) (x : option Z) (i : Z) :
  NoDup (attributes mesh).*1 →
  remap_table (oldToNewIndex st) (currentIndex st) →
  chunk_attributes (attributes mesh) (newAttributes st) (currentIndex st) →
  chunk_descriptions (attributes mesh) (newAttributes st) →
  table_data (attributes mesh) (newAttributes st) (oldToNewIndex st) →
  fitVertex mesh st x = Ok (st', i) →
  chunk_descriptions (attributes mesh) (newAttributes st')
  ∧ table_data (attributes mesh) (newAttributes st') (oldToNewIndex st').
Proof.
  intros Hnd [Hinj Hran] (Hnames & Hhas & Hlens) Hdesc Hdata. unfold fitVertex.
  destruct (oldToNewIndex st !! x) as [j|] eqn:Hx; [by intros [= <- <-]|].
  destruct (copyVertex_values (attributes mesh) x (newAttributes st) Hnd)
    as (dest' & Hrun & Hout & Hnone & Hblocks).
  { intros name s Hin Hs. apply attr_lookup_NoDup in Hin; [|done].
    destruct (Hdesc name s Hin Hs) as [vs0 Hd]. eexists. split; [exact Hd|]. by eexists. }
  rewrite Hrun. cbn [mbind result_bind]. intros [= <- <-].
  cbn [newAttributes oldToNewIndex].
  assert (Hcopied : ∀ name s vs,
            attr_lookup name (attributes mesh) = Some s → values s = Some vs →
            ∃ vs0 vs1,
              attr_lookup name (newAttributes st) = Some (with_values s (Some vs0))
              ∧ arr_length vs0 = currentIndex st * componentsPerAttribute s
              ∧ 0 < componentsPerAttribute s
              ∧ attr_lookup name dest' = Some (with_values s (Some vs1))
              ∧ (∀ key, key < arr_length vs0 → arr_get vs1 key = arr_get vs0 key)
              ∧ ∀ k, 0 ≤ k < componentsPerAttribute s →
                  arr_get vs1 (arr_length vs0 + k) = vertexComponentOf s vs x k).
  { intros name s vs Hs Hvs. destruct (Hdesc name s Hs) as [vs0 Hd]; [by eauto|].
    destruct (Hlens name _ Hd) as (Hpos & vs0' & Hvs0 & Hlen0).
    cbn [values with_values componentsPerAttribute] in Hvs0, Hlen0, Hpos.
    injection Hvs0 as <-.
    destruct (Hblocks name s vs (with_values s (Some vs0)) vs0)
      as (vs1 & Hd' & Hkept & Hnew); [by apply attr_lookup_elem | done | done | done |].
    by exists vs0, vs1. }
  split.
  - intros name s Hs [vs Hvs].
    destruct (Hcopied name s vs Hs Hvs) as (vs0 & vs1 & _ & _ & _ & Hd' & _). by eauto.
  - intros old new name s vs vs' Hold Hs Hvs Hd' k Hk.
    destruct (Hcopied name s vs Hs Hvs) as (vs0 & vs1 & Hd & Hlen0 & Hpos & Hd1 & Hkept & Hnew).
    rewrite Hd1 in Hd'. injection Hd' as <-.
    destruct (decide (x = old)) as [<-|Hne].
    + rewrite lookup_insert_eq in Hold. injection Hold as <-.
      rewrite <- Hlen0. by apply Hnew.
    + rewrite lookup_insert_ne in Hold by done.
      pose proof (Hran old new Hold) as Hnew_range.
      rewrite Hkept by nia. by apply (Hdata old new name s vs vs0).
Qed.

(** A chunk that is closed with the table it was filled with. *)
Lemma chunk_vertices_sealed (source dest : Attributes) (table : gmap (option Z) Z) (c : Z)
    (current : list (option Z)) (indices : jsarray Z) (pt : PrimitiveType) :
  remap_table table c →
  chunk_attributes source dest c →
  chunk_descriptions source dest →
  table_data source dest table →
  Forall2 (remapped table) current (arr_to_list indices) →
  chunk_vertices source (createMesh dest pt indices, table).
Proof.
  intros Htable (Hnames & _) Hdesc Hdata Hcur. split; [done|].
  cbn [fst snd indexList attributes createMesh].
  intros il q new name s vs [= <-] Hq Hnew Hs Hvs.
  destruct (Hdesc name s Hs) as [vs' Hd]; [by eauto|].
  exists vs'. split; [done|]. intros k Hk.
  pose proof (arr_to_list_lookup indices q Hq) as Hlook. rewrite Hnew in Hlook.
  destruct (Forall2_lookup_r _ _ _ _ _ Hcur Hlook) as (old & _ & j & [= <-] & Hold).
  rewrite (remapBack_lookup table c old new Htable Hold).
  by apply (Hdata old new name s vs vs').
Qed.

Lemma chunk_indices_fit_sealed (source dest : Attributes) (table : gmap (option Z) Z)
    (c : Z) (current : list (option Z)) (indices : jsarray Z) (pt : PrimitiveType) :
  remap_table table c →
  0 ≤ c ≤ 65536 →
  chunk_attributes source dest c →
  Forall2 (remapped table) current (arr_to_list indices) →
  chunk_indices_fit (createMesh dest pt indices).
Proof.
  intros [_ Hran] Hc (_ & _ & Hlens) Hcur. exists c. split; [done|].
  cbn [indexList attributes createMesh]. split.
  - intros name d Hd. by destruct (Hlens name d Hd) as [_ ?].
  - intros il q [= <-] Hq.
    pose proof (arr_to_list_lookup indices q Hq) as Hlook.
    destruct (Forall2_lookup_r _ _ _ _ _ Hcur Hlook) as (old & _ & new & Hnew & Hold).
    exists new. split; [done|]. by apply (Hran old).
Qed.

Lemma fitTriangle_data (mesh : Geometry) (originalIndices : jsarray Z) (t : nat)
    (st st' : FitState) :
  NoDup (attributes mesh).*1 →
  fit_inv mesh (arr_to_list originalIndices) (3 * t) st →
  fit_data mesh st →
  fitTriangle mesh originalIndices st (3 * Z.of_nat t) = Ok st' →
  fit_data mesh st'.
Proof.
  intros Hnd (Hc & Htable & Hattrs & Hmod & Hfits & current & Htake & Hcur)
         (Hdesc & Hdata & Hchunks).
  set (x0 := arr_get originalIndices (3 * Z.of_nat t)).
  set (x1 := arr_get originalIndices (3 * Z.of_nat t + 1)).
  set (x2 := arr_get originalIndices (3 * Z.of_nat t + 2)).
  destruct (fitVertex_inv mesh st x0 Hnd) as
    (st1 & i0 & Hv0 & Hx0 & Hext0 & Hc1 & Htable1 & Hattrs1 & Hidx1 & Hgeo1);
    [lia | done | done |].
  destruct (fitVertex_data mesh st st1 x0 i0) as [Hdesc1 Hdata1]; try done.
  destruct (fitVertex_inv mesh st1 x1 Hnd) as
    (st2 & i1 & Hv1 & Hx1 & Hext1 & Hc2 & Htable2 & Hattrs2 & Hidx2 & Hgeo2);
    [lia | done | done |].
  destruct (fitVertex_data mesh st1 st2 x1 i1) as [Hdesc2 Hdata2]; try done.
  destruct (fitVertex_inv mesh st2 x2 Hnd) as
    (st3 & i2 & Hv2 & Hx2 & Hext2 & Hc3 & Htable3 & Hattrs3 & Hidx3 & Hgeo3);
    [lia | done | done |].
  destruct (fitVertex_data mesh st2 st3 x2 i2) as [Hdesc3 Hdata3]; try done.
  unfold fitTriangle. fold x0 x1 x2. rewrite Hv0. cbn [mbind result_bind].
  rewrite Hv1. cbn [mbind result_bind]. rewrite Hv2. cbn [mbind result_bind].
  rewrite Hidx3, Hidx2, Hidx1, Hgeo3, Hgeo2, Hgeo1.
  set (newIndices' :=
         arr_push (arr_push (arr_push (newIndices st) (Some i0)) (Some i1)) (Some i2)).
  assert (Hcur' : Forall2 (remapped (oldToNewIndex st3)) (current ++ [x0; x1; x2])
                          (arr_to_list newIndices')).
  { unfold newIndices'. rewrite !arr_to_list_push, <- !app_assoc. apply Forall2_app.
    - eapply Forall2_impl; [exact Hcur|]. intros old new Hold.
      eapply remapped_mono; [|exact Hold]. eauto.
    - repeat constructor.
      + exists i0. split; [done|]. eauto.
      + exists i1. split; [done|]. eauto.
      + exists i2. by split. }
  case_decide as Hseal; intros [= <-]; unfold fit_data;
    cbn [oldToNewIndex newAttributes geometries].
  - split; [apply chunk_descriptions_init|]. split.
    + intros old new name s vs vs' Hold. by rewrite lookup_empty in Hold.
    + apply Forall_app. split; [done|]. apply Forall_singleton. cbn [fst]. split.
      * by eapply chunk_vertices_sealed.
      * eapply chunk_indices_fit_sealed; [exact Htable3 | | exact Hattrs3 | exact Hcur'].
        unfold sixtyFourK in *. lia.
  - done.
Qed.

Lemma fit_rounds_data (mesh : Geometry) (originalIndices : jsarray Z) (t : nat) :
  NoDup (attributes mesh).*1 →
  (∀ name s vs, (name, s) ∈ attributes mesh → values s = Some vs →
     0 < componentsPerAttribute s) →
  3 * Z.of_nat t ≤ arr_length originalIndices →
  ∃ st,
    foldM (fitTriangle mesh originalIndices)
          {| oldToNewIndex := ∅;
             newIndices := arr_empty;
             currentIndex := 0;
             newAttributes := _copyAttributesDescriptions (attributes mesh);
             geometries := [] |}
          ((λ k, 3 * k) <$> seqZ 0 (Z.of_nat t)) = Ok st
    ∧ fit_inv mesh (arr_to_list originalIndices) (3 * t) st
    ∧ fit_data mesh st.
Proof.
  intros Hnd Hpos. induction t as [|t IH]; intros Hlen.
  - destruct (fit_rounds mesh originalIndices 0 Hnd Hpos Hlen) as (st & Hloop & Hinv).
    exists st. split; [done|]. split; [done|].
    cbn [seqZ fmap list_fmap foldM] in Hloop. injection Hloop as <-.
    unfold fit_data. cbn [oldToNewIndex newAttributes geometries].
    split; [apply chunk_descriptions_init|]. split; [|constructor].
    intros old new name s vs vs' Hold. by rewrite lookup_empty in Hold.
  - destruct IH as (st & Hloop & Hinv & Hdata); [lia|].
    destruct (fitTriangle_inv mesh originalIndices t st Hnd Hpos) as (st' & Hstep & Hinv');
      [lia | done |].
    exists st'. rewrite seqZ_S, fmap_app, foldM_app, Hloop.
    cbn [mbind result_bind fmap list_fmap foldM]. rewrite Z.add_0_l, Hstep.
    split; [done|]. split; [done|].
    exact (fitTriangle_data mesh originalIndices t st st' Hnd Hinv Hdata Hstep).
Qed.

(** The triangle loop of fitToUnsignedShortIndices on a mesh with more
    than 64K vertices. *)
Lemma fitChunks_data (mesh : Geometry) (indices : jsarray Z) (numberOfVertices : Z) :
  NoDup (attributes mesh).*1 →
  primitiveType mesh = TRIANGLES →
  indexList mesh = Some indices →
  arr_length indices `mod` 3 = 0 →
  computeNumberOfVertices mesh = Ok numberOfVertices →
  numberOfVertices > 65536 →
  ∃ chunks,
    fitChunks (Some mesh) = Ok chunks
    ∧ fitToUnsignedShortIndices (Some mesh) = Ok chunks.*1
    ∧ Forall (λ chunk, chunk_vertices (attributes mesh) chunk ∧ chunk_indices_fit chunk.1)
             chunks.
Proof.
  intros Hnd Hpt Hil Hmod Hn Hlarge.
  assert (Hpos : ∀ name s vs, (name, s) ∈ attributes mesh → values s = Some vs →
                   0 < componentsPerAttribute s).
  { intros name s vs Hin Hvs.
    pose proof (computeNumberOfVertices_attribute mesh _ name s vs Hn Hin Hvs) as Hdiv.
    pose proof (arr_length_nonneg vs) as Hnn.
    destruct (decide (0 < componentsPerAttribute s)) as [|Hneg]; [done|]. exfalso.
    destruct (decide (componentsPerAttribute s = 0)) as [Hz|Hnz].
    - rewrite Hz, Z.div_0_r in Hdiv. lia.
    - pose proof (Z.div_mod (arr_length vs) (componentsPerAttribute s) Hnz) as Hdm.
      pose proof (Z.mod_neg_bound (arr_length vs) (componentsPerAttribute s)) as Hmb.
      rewrite Hdiv in Hdm. nia. }
  set (triangles := arr_length indices `div` 3).
  pose proof (arr_length_nonneg indices) as Hnn.
  assert (Hlen3 : arr_length indices = 3 * triangles).
  { unfold triangles. rewrite (Z.div_mod (arr_length indices) 3) at 1 by lia. lia. }
  destruct (fit_rounds_data mesh indices (Z.to_nat triangles) Hnd Hpos)
    as (st & Hloop & (Hc & Htable & Hattrs & Hmod' & Hfits & current & Htake & Hcur)
        & Hdesc & Hdata & Hchunks); [lia|].
  rewrite Z2Nat.id in Hloop by lia.
  assert (∃ chunks,
            fitChunks (Some mesh) = Ok chunks
            ∧ Forall (λ chunk, chunk_vertices (attributes mesh) chunk
                               ∧ chunk_indices_fit chunk.1) chunks)
    as (chunks & Hrun & Hall).
  { unfold fitChunks. rewrite decide_False by (rewrite Hpt; by intros ?).
    rewrite Hn. cbn [mbind result_bind]. rewrite Hil.
    rewrite decide_True by (unfold sixtyFourK; lia).
    rewrite (for_range_triples_length _ Hmod). fold triangles. rewrite Hloop.
    cbn [mbind result_bind]. case_decide as Hempty.
    - eexists. split; [done|]. apply Forall_app. split; [done|].
      apply Forall_singleton. cbn [fst]. split.
      + by eapply chunk_vertices_sealed.
      + eapply chunk_indices_fit_sealed; [exact Htable | | exact Hattrs | exact Hcur].
        unfold sixtyFourK in *. lia.
    - eexists. by split. }
  exists chunks. split; [done|]. split; [|done].
  unfold fitToUnsignedShortIndices. by rewrite Hrun.
Qed.

(** Every Geometry that fitToUnsignedShortIndices makes of a TRIANGLES
    mesh with more than 64K vertices carries the vertex data of the
    mesh: it has the attributes of the mesh that have values, under the
    same names, in the same order and with the same datatype, component
    count and normalize flag, and for every element [new] of its index
    list the components of vertex [new] in each of its attributes are
    those of the original vertex that [new] stands for (the one the table
    of the chunk maps back to). *)
Theorem fitToUnsignedShortIndices_vertices (mesh : Geometry) (indices : jsarray Z)
    (numberOfVertices : Z) :
  NoDup (attributes mesh).*1 →
  primitiveType mesh = TRIANGLES →
  indexList mesh = Some indices →
  arr_length indices `mod` 3 = 0 →
  computeNumberOfVertices mesh = Ok numberOfVertices →
  numberOfVertices > 65536 →
  ∃ chunks,
    fitChunks (Some mesh) = Ok chunks
    ∧ fitToUnsignedShortIndices (Some mesh) = Ok chunks.*1
    ∧ Forall (chunk_vertices (attributes mesh)) chunks.
Proof.
  intros Hnd Hpt Hil Hmod Hn Hlarge.
  destruct (fitChunks_data mesh indices numberOfVertices) as (chunks & Hrun & Hfit & Hall);
    try done.
  exists chunks. split; [done|]. split; [done|].
  eapply Forall_impl; [exact Hall|]. by intros chunk [? _].
Qed.

(** The index lists that fitToUnsignedShortIndices makes of a TRIANGLES
    mesh with more than 64K vertices fit unsigned shorts: in every
    returned Geometry each attribute holds the same number of vertices,
    at most 65536, and every element of the index list is an integer
    from 0 up to that number less one. *)
Theorem fitToUnsignedShortIndices_indices_fit (mesh : Geometry) (indices : jsarray Z)
    (numberOfVertices : Z) :
  NoDup (attributes mesh).*1 →
  primitiveType mesh = TRIANGLES →
  indexList mesh = Some indices →
  arr_length indices `mod` 3 = 0 →
  computeNumberOfVertices mesh = Ok numberOfVertices →
  numberOfVertices > 65536 →
  ∃ geometries,
    fitToUnsignedShortIndices (Some mesh) = Ok geometries
    ∧ Forall chunk_indices_fit geometries.
Proof.
  intros Hnd Hpt Hil Hmod Hn Hlarge.
  destruct (fitChunks_data mesh indices numberOfVertices) as (chunks & Hrun & Hfit & Hall);
    try done.
  exists chunks.*1. split; [done|]. apply Forall_fmap.
  eapply Forall_impl; [exact Hall|]. by intros chunk [_ ?].
Qed.

End FitVertexData.

Section TangentAccumulation.
Context `{ExternalOps} `{!AuxiliaryOps}.

(** The three [+=] for the vertex at position [p] of the index list. *)
Lemma accumulate_vertex (vertices st : jsarray number) (indices : jsarray Z)
    (tan0 tan1 : jsarray number) (p t : Z) :
  0 ≤ p → p `div` 3 = t →
  directions_added vertices st indices tan0 tan1 p →
  directions_added vertices st indices tan0
    (accumulate
       (accumulate
          (accumulate tan1 (arr_get indices p) 0 (triangleDirection vertices st indices t 0))
          (arr_get indices p) 1 (triangleDirection vertices st indices t 1))
       (arr_get indices p) 2 (triangleDirection vertices st indices t 2))
    (p + 1).
Proof.
  intros Hp Ht Hinv v c Hv Hc. rewrite usesOf_succ by done.
  unfold addedDirections. rewrite foldl_app. fold (addedDirections vertices st indices
    (arr_get tan0 (v * 3 + c)) (usesOf indices v p) c). rewrite <- (Hinv v c Hv Hc).
  destruct (arr_get indices p) as [u|]; cbn [accumulate]; [|by rewrite decide_False].
  destruct (decide (u = v)) as [->|Hne].
  - rewrite decide_True by done. cbn [foldl]. rewrite Ht.
    assert (c = 0 ∨ c = 1 ∨ c = 2) as [->|[->| ->]] by lia.
    + rewrite !arr_get_set_ne by lia. by rewrite arr_get_set_eq.
    + rewrite arr_get_set_ne by lia. rewrite arr_get_set_eq.
      by rewrite arr_get_set_ne by lia.
    + rewrite arr_get_set_eq. by rewrite !arr_get_set_ne by lia.
  - rewrite decide_False by congruence. cbn [foldl].
    by rewrite !arr_get_set_ne by lia.
Qed.

Lemma tangentStep_directions (vertices st : jsarray number) (indices : jsarray Z)
    (tan0 tan1 : jsarray number) (t : Z) :
  0 ≤ t →
  directions_added vertices st indices tan0 tan1 (3 * t) →
  directions_added vertices st indices tan0
    (tangentStep vertices st indices tan1 (3 * t)) (3 * (t + 1)).
Proof.
  intros Ht Hinv.
  assert (Hdiv : ∀ r, 0 ≤ r < 3 → (3 * t + r) `div` 3 = t).
  { intros r Hr. symmetry. apply (Z.div_unique _ 3 t r); lia. }
  pose proof (accumulate_vertex vertices st indices tan0 tan1 (3 * t) t ltac:(lia)
                ltac:(rewrite <- (Z.add_0_r (3 * t)); apply Hdiv; lia) Hinv) as Hinv0.
  pose proof (accumulate_vertex vertices st indices tan0 _ (3 * t + 1) t ltac:(lia)
                ltac:(apply Hdiv; lia) Hinv0) as Hinv1.
  replace (3 * t + 1 + 1) with (3 * t + 2) in Hinv1 by lia.
  pose proof (accumulate_vertex vertices st indices tan0 _ (3 * t + 2) t ltac:(lia)
                ltac:(apply Hdiv; lia) Hinv1) as Hinv2.
  replace (3 * t + 2 + 1) with (3 * (t + 1)) in Hinv2 by lia.
  exact Hinv2.
Qed.

Lemma tangent_rounds_directions (vertices st : jsarray number) (indices : jsarray Z)
    (tan0 : jsarray number) (rounds : nat) :
  directions_added vertices st indices tan0
    (foldl (tangentStep vertices st indices) tan0 ((λ k, 3 * k) <$> seqZ 0 (Z.of_nat rounds)))
    (3 * Z.of_nat rounds).
Proof.
  induction rounds as [|rounds IH].
  - intros v c Hv Hc. done.
  - rewrite seqZ_S, fmap_app, foldl_app. cbn [fmap list_fmap foldl]. rewrite Z.add_0_l.
    replace (3 * Z.of_nat (S rounds)) with (3 * (Z.of_nat rounds + 1)) by lia.
    apply tangentStep_directions; [lia | done].
Qed.

(** The tangent that computeTangentAndBinormal writes for a vertex is
    made of the directions of the triangles that use the vertex: on a
    TRIANGLES geometry that passes the checks and has two or more indices,
    a multiple of three, the call returns, and the tangent written for
    vertex [v] is [tangentOf normals tan1 v] for a buffer [tan1] whose
    elements for [v] are 0 with the direction of every triangle added
    once for each use of [v] by the index list, in the order of the
    list. *)
Theorem computeTangentAndBinormal_tangent (geometry : Geometry)
    (position : GeometryAttribute) (vertices : jsarray number)
    (normal : GeometryAttribute) (normals : jsarray number)
    (texture : GeometryAttribute) (st : jsarray number) (indices : jsarray Z) :
  attr_lookup "position" (attributes geometry) = Some position →
  values position = Some vertices →
  componentsPerAttribute position = 3 →
  arr_length vertices `mod` 3 = 0 →
  attr_lookup "normal" (attributes geometry) = Some normal →
  values normal = Some normals →
  componentsPerAttribute normal = 3 →
  arr_length normals `mod` 3 = 0 →
  attr_lookup "st" (attributes geometry) = Some texture →
  values texture = Some st →
  componentsPerAttribute texture = 2 →
  arr_length st `mod` 2 = 0 →
  primitiveType geometry = TRIANGLES →
  indexList geometry = Some indices →
  2 ≤ arr_length indices →
  arr_length indices `mod` 3 = 0 →
  ∃ geometry' tangent tangentValues tan1,
    computeTangentAndBinormal (Some geometry) = Ok geometry'
    ∧ attr_lookup "tangent" (attributes geometry') = Some tangent
    ∧ values tangent = Some tangentValues
    ∧ ∀ v, 0 ≤ v < arr_length vertices `div` 3 →
        vectorAt tangentValues v = tangentOf normals tan1 v
        ∧ ∀ c, 0 ≤ c < 3 →
            arr_get tan1 (v * 3 + c)
              = addedDirections vertices st indices (Some num_zero)
                  (usesOf indices v (arr_length indices)) c.
Proof.
  intros Hposition Hvertices Hcomponents Hmultiple Hnormal Hnormals Hcomponents' Hmultiple'
         Htexture Hst Hcomponents'' Hmultiple'' Htype Hindices Htwo Hthree.
  pose proof (arr_length_nonneg vertices) as Hnn.
  set (numVertices := arr_length vertices `div` 3).
  assert (Hlen : numVertices * 3 = arr_length vertices).
  { unfold numVertices. pose proof (Z.div_mod (arr_length vertices) 3). lia. }
  assert (HnumVertices : 0 ≤ numVertices) by (unfold numVertices; apply Z.div_pos; lia).
  set (tan0 := foldl (λ tan1 i, arr_set tan1 i (Some num_zero)) (arr_new (numVertices * 3))
                     (for_range 0 (arr_length (arr_new (A:=number) (numVertices * 3))) 1)).
  set (tan1 := foldl (tangentStep vertices st indices) tan0
                     (for_range 0 (arr_length indices) 3)).
  pose proof (tangentBinormal_rounds normals tan1 numVertices (Z.to_nat numVertices))
    as Hrounds.
  cbn zeta in Hrounds. rewrite Z2Nat.id, <- for_range_unit in Hrounds by done.
  destruct Hrounds as (Hlen1 & Hlen2 & Hget); [lia|].
  set (r := foldl (tangentBinormalStep normals tan1) _ (for_range 0 numVertices 1)) in *.
  eexists _, _, r.2, tan1. split.
  { unfold computeTangentAndBinormal.
    assert (Hp : requiredValues (attributes geometry) "position" 3
                   "geometry.attributes.position.values is required"
                   "geometry.attributes.position.values.length must be a multiple of 3"
                 = Ok vertices) by (apply requiredValues_Ok; eauto).
    assert (Hn : requiredValues (attributes geometry) "normal" 3
                   "geometry.attributes.normal.values is required"
                   "geometry.attributes.normals.values.length must be a multiple of 3"
                 = Ok normals) by (apply requiredValues_Ok; eauto).
    assert (Hs : requiredValues (attributes geometry) "st" 2
                   "geometry.attributes.st.values is required"
                   "geometry.attributes.st.values.length must be a multiple of 2"
                 = Ok st) by (apply requiredValues_Ok; eauto).
    rewrite Hp, Hn, Hs. cbn [mbind result_bind]. rewrite Hindices.
    rewrite decide_False by (rewrite Htype; intros [?|[?|?]]; [done | lia | done]).
    cbn zeta. fold numVertices. fold tan0. fold tan1. fold r. reflexivity. }
  cbn [attributes with_attributes].
  rewrite !setVectorValues_lookup.
  rewrite (decide_False (P := "binormal"%string = "tangent"%string)) by done.
  rewrite (decide_True (P := "tangent"%string = "tangent"%string)) by done.
  split; [reflexivity|].
  split; [by destruct (attr_lookup "tangent" (attributes geometry))|].
  intros v Hv. split.
  - destruct (Hget v) as (Hx & Hy & Hz & _); [lia|]. unfold vectorAt.
    replace (3 * v) with (v * 3) by lia.
    rewrite Hx, Hy, Hz. by destruct (tangentOf normals tan1 v).
  - intros c Hc.
    pose proof (tangent_rounds_directions vertices st indices tan0
                  (Z.to_nat (arr_length indices `div` 3))) as Hinv.
    rewrite Z2Nat.id in Hinv by (apply Z.div_pos; lia).
    rewrite <- for_range_triples_length in Hinv by done.
    replace (3 * (arr_length indices `div` 3)) with (arr_length indices) in Hinv
      by (pose proof (Z.div_mod (arr_length indices) 3); lia).
    fold tan1 in Hinv. rewrite (Hinv v c) by lia. f_equal.
    unfold tan0. rewrite fill_range_get. rewrite decide_True; [done|].
    unfold arr_length, arr_new. cbn [arr_len]. lia.
Qed.

End TangentAccumulation.

Section NormalThenTangent.
Context `{ExternalOps} `{!AuxiliaryOps}.

(** A geometry that passes the three checks of computeTangentAndBinormal
    is given back, with or without new attributes. *)
Lemma computeTangentAndBinormal_returns (geometry : Geometry) :
  hasVectorAttribute geometry "position" 3 →
  hasVectorAttribute geometry "normal" 3 →
  hasVectorAttribute geometry "st" 2 →
  ∃ geometry', computeTangentAndBinormal (Some geometry) = Ok geometry'.
Proof.
  intros (position & vertices & Hp) (normal & normals & Hn) (texture & st & Hs).
  unfold computeTangentAndBinormal.
  assert (Hp' : requiredValues (attributes geometry) "position" 3
                  "geometry.attributes.position.values is required"
                  "geometry.attributes.position.values.length must be a multiple of 3"
                = Ok vertices) by (apply requiredValues_Ok; eauto).
  assert (Hn' : requiredValues (attributes geometry) "normal" 3
                  "geometry.attributes.normal.values is required"
                  "geometry.attributes.normals.values.length must be a multiple of 3"
                = Ok normals) by (apply requiredValues_Ok; eauto).
  assert (Hs' : requiredValues (attributes geometry) "st" 2
                  "geometry.attributes.st.values is required"
                  "geometry.attributes.st.values.length must be a multiple of 2"
                = Ok st) by (apply requiredValues_Ok; eauto).
  rewrite Hp', Hn', Hs'. cbn [mbind result_bind].
  destruct (indexList geometry); [|by eexists]. case_decide; by eexists.
Qed.

(** The output of computeNormal is a valid input of
    computeTangentAndBinormal: for a TRIANGLES mesh that meets the
    preconditions of computeNormal, has every index below the vertex
    count, has texture coordinates [st] of two components, and has either
    no normal attribute or one of three components whose values have a
    length that is a multiple of three, computeNormal returns a mesh on
    which computeTangentAndBinormal returns as well. *)
Theorem computeNormal_then_computeTangentAndBinormal (mesh : Geometry)
    (position : GeometryAttribute) (vertices : jsarray number) (indices : jsarray Z) :
  attr_lookup "position" (attributes mesh) = Some position →
  values position = Some vertices →
  componentsPerAttribute position = 3 →
  arr_length vertices `mod` 3 = 0 →
  primitiveType mesh = TRIANGLES →
  indexList mesh = Some indices →
  arr_length indices `mod` 3 = 0 →
  2 ≤ arr_length indices →
  indices_below (arr_length vertices `div` 3) indices →
  (∀ a, attr_lookup "normal" (attributes mesh) = Some a →
     componentsPerAttribute a = 3
     ∧ ∃ elements, values a = Some elements ∧ arr_length elements `mod` 3 = 0) →
  hasVectorAttribute mesh "st" 2 →
  ∃ mesh' geometry',
    computeNormal (Some mesh) = Ok mesh'
    ∧ hasVectorAttribute mesh' "normal" 3
    ∧ computeTangentAndBinormal (Some mesh') = Ok geometry'.
Proof.
  intros Hpos Hvs Hcpa Hvmod Hpt Hil Hmod Hlen Hbelow Hnormal (texture & st & Hst).
  destruct (computeNormal_run mesh position vertices indices)
    as (normalAttribute & normalValues & final & Hlook & Hnv & Hrun & Hlength & _);
    try done.
  { intros a Ha. destruct (Hnormal a Ha) as (_ & elements & -> & _). by eexists. }
  set (numVertices := arr_length vertices `div` 3) in *.
  set (mesh' := with_attributes mesh _) in Hrun.
  assert (Hkept : ∀ name, name ≠ "normal"%string →
            attr_lookup name (attributes mesh') = attr_lookup name (attributes mesh)).
  { intros name Hname. unfold mesh', withNormalAttribute. cbn [attributes with_attributes].
    rewrite attr_lookup_store, decide_False by done.
    destruct (attr_lookup "normal" (attributes mesh)); [done|].
    by rewrite attr_lookup_store, decide_False. }
  assert (Hshape : componentsPerAttribute normalAttribute = 3
                   ∧ arr_length normalValues `mod` 3 = 0).
  { unfold withNormalAttribute in Hlook.
    destruct (attr_lookup "normal" (attributes mesh)) as [a|] eqn:Ha.
    - rewrite Ha in Hlook. injection Hlook as <-.
      destruct (Hnormal a eq_refl) as (? & elements & Helements & ?).
      rewrite Helements in Hnv. by injection Hnv as <-.
    - rewrite attr_lookup_store_eq in Hlook. injection Hlook as <-.
      cbn [values componentsPerAttribute] in *. injection Hnv as <-. split; [done|].
      unfold arr_length, arr_new. cbn [arr_len].
      assert (0 ≤ numVertices) by (apply Z.div_pos; [apply arr_length_nonneg | lia]).
      rewrite Z2N.id by lia. apply Z.mod_mul. lia. }
  assert (Hnormal' : hasVectorAttribute mesh' "normal" 3).
  { exists (with_values normalAttribute (Some final)), final.
    split; [apply attr_lookup_store_eq|]. split; [done|]. split; [apply Hshape|].
    rewrite Hlength. destruct Hshape as [_ Hthree].
    destruct (Z.max_spec (arr_length normalValues) (3 * numVertices)) as [[_ ->]|[_ ->]];
      [|done].
    rewrite Z.mul_comm. apply Z.mod_mul. lia. }
  destruct (computeTangentAndBinormal_returns mesh') as [geometry' Hrun'].
  - exists position, vertices. rewrite Hkept by done. done.
  - done.
  - exists texture, st. rewrite Hkept by done. done.
  - by exists mesh', geometry'.
Qed.

End NormalThenTangent.

(** ** Runs on concrete meshes *)

Section SampleRuns.
#[local] Existing Instance ZTypes.
#[local] Existing Instance ZOps.
#[local] Existing Instance ZAuxiliaryOps.

(** C7 as stated fails when the index count is not a multiple of three:
    four indices give twelve line indices, not eight. *)
Lemma toWireframe_partial_triangle :
  primitiveType fourIndexMesh = TRIANGLES
  ∧ ∃ indices lines,
      indexList fourIndexMesh = Some indices
      ∧ toWireframe (Some fourIndexMesh) ≫= indexList = Some lines
      ∧ arr_length indices = 4
      ∧ arr_length lines = 12
      ∧ arr_length lines ≠ 2 * arr_length indices.
Proof.
  split; [reflexivity|]. eexists _, _.
  split; [reflexivity|]. split; [reflexivity|]. by vm_compute.
Qed.

Lemma toWireframe_triangles_witness :
  ∃ lines,
    toWireframe (Some oneTriangleMesh) = Some (with_indexList oneTriangleMesh (Some lines) LINES)
    ∧ arr_length lines = 2 * 3
    ∧ arr_to_list lines = [Some 0; Some 1; Some 1; Some 2; Some 2; Some 0].
Proof.
  apply (toWireframe_triangles oneTriangleMesh (arr_of_list [0; 1; 2])); reflexivity.
Defined.



Lemma transformToWorldCoordinates_identity_witness :
  transformToWorldCoordinates (Some identityInstance) = Ok (identityInstance, None).
Proof.
  apply (transformToWorldCoordinates_identity_returns_undefined identityInstance).
  reflexivity.
Defined.

(** On a translation the call returns the instance, moved and with the
    identity as its model matrix. *)
Lemma transformToWorldCoordinates_translated :
  ∃ instance',
    transformToWorldCoordinates (Some translatedInstance) = Ok (instance', Some instance')
    ∧ modelMatrix instance' = sampleIdentity4
    ∧ (arr_to_list <$> (attr_lookup "position" (attributes (geometry instance')) ≫= values))
      = Some (Some <$> [5; 0; 0;  6; 0; 0;  5; 1; 0]).
Proof. eexists. split; [by vm_compute|]. split; by vm_compute. Qed.

(** C1 on a failing input: the index 5 is beyond the three vertices, and
    the call returns a rewritten index list holding [undefined] instead of
    raising the error. *)
Theorem reorderForPreVertexCache_index_out_of_range :
  computeNumberOfVertices outOfRangeMesh = Ok 3
  ∧ (arr_to_list <$> indexList outOfRangeMesh) = Some [Some 0; Some 1; Some 5]
  ∧ ∃ mesh',
      reorderForPreVertexCache (Some outOfRangeMesh) = Ok (Some mesh')
      ∧ (arr_to_list <$> indexList mesh') = Some [Some 0; Some 1; None].
Proof.
  split; [reflexivity|]. split; [reflexivity|].
  eexists. split; [by vm_compute | by vm_compute].
Qed.

(** C2 on a failing input: without index list the three values of the
    attribute are replaced by an array of length 0. *)
Theorem reorderForPreVertexCache_without_indexList :
  indexList unindexedMesh = None
  ∧ (arr_to_list <$> (attr_lookup "position" (attributes unindexedMesh) ≫= values))
    = Some [Some 10; Some 20; Some 30]
  ∧ ∃ mesh',
      reorderForPreVertexCache (Some unindexedMesh) = Ok (Some mesh')
      ∧ (arr_to_list <$> (attr_lookup "position" (attributes mesh') ≫= values)) = Some [].
Proof.
  split; [reflexivity|]. split; [reflexivity|].
  eexists. split; [by vm_compute | by vm_compute].
Qed.

(** C6 on a failing input: the second instance follows 65536 vertices, so
    its indices 0, 1, 2 should become 65536, 65537, 65538; the six indices
    select a 16-bit buffer, which stores 0, 1, 2. *)
Theorem combine_index_wraps :
  Matrix4_equals (modelMatrix smallInstance) (modelMatrix largeInstance) = true
  ∧ computeNumberOfVertices (geometry largeInstance) = Ok 65536
  ∧ (arr_to_list <$> indexList (geometry largeInstance)) = Some [Some 0; Some 1; Some 2]
  ∧ (arr_to_list <$> indexList (geometry smallInstance)) = Some [Some 0; Some 1; Some 2]
  ∧ (arr_to_list <$> (returned (combine (Some [largeInstance; smallInstance])) ≫= indexList))
    = Some [Some 0; Some 1; Some 2; Some 0; Some 1; Some 2]
  ∧ (arr_to_list <$> (returned (combine (Some [largeInstance; smallInstance])) ≫= indexList))
    ≠ Some [Some 0; Some 1; Some 2; Some (65536 + 0); Some (65536 + 1); Some (65536 + 2)].
Proof.
  split; [reflexivity|]. split; [by vm_compute|]. split; [reflexivity|].
  split; [reflexivity|]. split; by vm_compute.
Qed.
Lemma shuffledMesh_indices_below : indices_below 3 (arr_of_list [2; 0; 1; 1; 0; 2]).
Proof.
  intros p Hp. change (arr_length (arr_of_list [2; 0; 1; 1; 0; 2])) with 6 in Hp.
  assert (p = 0 ∨ p = 1 ∨ p = 2 ∨ p = 3 ∨ p = 4 ∨ p = 5)
    as [->|[->|[->|[->|[->| ->]]]]] by lia;
    [exists 2 | exists 0 | exists 1 | exists 1 | exists 0 | exists 2];
    (split; [reflexivity | lia]).
Qed.

Lemma reorderForPreVertexCache_correspondence_witness :
  ∃ mesh' indices',
    reorderForPreVertexCache (Some shuffledMesh) = Ok (Some mesh')
    ∧ indexList mesh' = Some indices'
    ∧ arr_length indices' = 6
    ∧ ∀ p old, 0 ≤ p < 6 → arr_get (arr_of_list [2; 0; 1; 1; 0; 2]) p = Some old →
        ∃ new, arr_get indices' p = Some new
          ∧ ∀ name attribute elementsIn,
              attr_lookup name (attributes shuffledMesh) = Some attribute →
              values attribute = Some elementsIn →
              ∃ attribute' elementsOut,
                attr_lookup name (attributes mesh') = Some attribute'
                ∧ values attribute' = Some elementsOut
                ∧ componentsPerAttribute attribute' = componentsPerAttribute attribute
                ∧ ∀ i, 0 ≤ i < componentsPerAttribute attribute →
                    arr_get elementsOut (componentsPerAttribute attribute * new + i)
                      = arr_get elementsIn (componentsPerAttribute attribute * old + i).
Proof.
  apply (reorderForPreVertexCache_correspondence shuffledMesh
           (arr_of_list [2; 0; 1; 1; 0; 2]) 3).
  - reflexivity.
  - reflexivity.
  - apply shuffledMesh_indices_below.
Defined.

Lemma looseVertexMesh_indices_below :
  indices_below (arr_length (arr_of_list looseVertexPositions) `div` 3) (arr_of_list [0; 1; 2]).
Proof.
  intros p Hp. change (arr_length (arr_of_list [0; 1; 2])) with 3 in Hp.
  change (arr_length (arr_of_list looseVertexPositions) `div` 3) with 4.
  assert (p = 0 ∨ p = 1 ∨ p = 2) as [->|[->| ->]] by lia;
    [exists 0 | exists 1 | exists 2]; (split; [reflexivity | lia]).
Qed.

Lemma computeNormal_unreferenced_vertex_witness :
  ∃ mesh' normal normalValues,
    computeNormal (Some looseVertexMesh) = Ok mesh'
    ∧ attr_lookup "normal" (attributes mesh') = Some normal
    ∧ values normal = Some normalValues
    ∧ arr_get normalValues (3 * 3) = Some 0
    ∧ arr_get normalValues (3 * 3 + 1) = Some 0
    ∧ arr_get normalValues (3 * 3 + 2) = Some 1.
Proof.
  destruct (computeNormal_unreferenced_vertex looseVertexMesh
              (sampleAttribute 3 looseVertexPositions) (arr_of_list looseVertexPositions)
              (arr_of_list [0; 1; 2]))
    as [Hwritten Hreturns].
  - reflexivity.
  - reflexivity.
  - reflexivity.
  - reflexivity.
  - reflexivity.
  - reflexivity.
  - reflexivity.
  - change (arr_length (arr_of_list [0; 1; 2])) with 3. lia.
  - destruct Hreturns as [mesh' Hrun].
    + apply looseVertexMesh_indices_below.
    + intros a Ha. discriminate Ha.
    + destruct (Hwritten mesh' Hrun) as (normal & normalValues & Hlook & Hvalues & Hloose).
      exists mesh', normal, normalValues.
      split; [exact Hrun|]. split; [exact Hlook|]. split; [exact Hvalues|].
      apply (Hloose 3).
      * change (arr_length (arr_of_list looseVertexPositions) `div` 3) with 4. lia.
      * intros p Hp. change (arr_length (arr_of_list [0; 1; 2])) with 3 in Hp.
        assert (p = 0 ∨ p = 1 ∨ p = 2) as [->|[->| ->]] by lia; discriminate.
Defined.

(** The whole normal attribute computed for that mesh (the integer
    implementation leaves vectors unnormalised). *)
Lemma computeNormal_looseVertexMesh :
  (arr_to_list <$> ((returned (computeNormal (Some looseVertexMesh))
                       ≫= (λ m, attr_lookup "normal" (attributes m))) ≫= values))
    = Some (Some <$> [0; 0; 1;  0; 0; 1;  0; 0; 1;  0; 0; 1]).
Proof. by vm_compute. Qed.

Lemma largeMesh_indices_below : indices_below 65537 (arr_of_list [0; 1; 2]).
Proof.
  intros p Hp. change (arr_length (arr_of_list [0; 1; 2])) with 3 in Hp.
  assert (p = 0 ∨ p = 1 ∨ p = 2) as [->|[->| ->]] by lia;
    [exists 0 | exists 1 | exists 2]; (split; [reflexivity | lia]).
Qed.

Lemma fitToUnsignedShortIndices_chunks_witness :
  ∃ chunks,
    fitChunks (Some largeMesh) = Ok chunks
    ∧ fitToUnsignedShortIndices (Some largeMesh) = Ok chunks.*1
    ∧ Forall chunk_fits chunks.*1
    ∧ concat (chunkTriangles <$> chunks) = [Some 0; Some 1; Some 2].
Proof.
  apply (fitToUnsignedShortIndices_chunks largeMesh (arr_of_list [0; 1; 2]) 65537).
  - apply NoDup_singleton.
  - reflexivity.
  - reflexivity.
  - reflexivity.
  - apply largeMesh_indices_below.
  - vm_compute. reflexivity.
  - lia.
Defined.

(** A mesh that does not fit: its 65538 vertices, used in order by 21846
    triangles, are split into a chunk of 65535 vertices and a chunk of
    3. *)
Lemma fitToUnsignedShortIndices_stripMesh :
  ((λ chunks : list Geometry,
      (λ g, (returned (computeNumberOfVertices g), arr_length <$> indexList g)) <$> chunks)
     <$> returned (fitToUnsignedShortIndices (Some stripMesh)))
  = Some [(Some 65535, Some 65535); (Some 3, Some 3)].
Proof. by vm_compute. Qed.

(** The reordered mesh: first-use order 2, 0, 1 of the old vertices. *)
Lemma reorderForPreVertexCache_shuffledMesh :
  (arr_to_list <$> ((returned (reorderForPreVertexCache (Some shuffledMesh)) ≫= id)
                      ≫= indexList))
    = Some (Some <$> [0; 1; 2; 2; 1; 0])
  ∧ (arr_to_list <$> (((returned (reorderForPreVertexCache (Some shuffledMesh)) ≫= id)
                         ≫= (λ m, attr_lookup "position" (attributes m))) ≫= values))
    = Some (Some <$> [30; 10; 20]).
Proof. split; by vm_compute. Qed.

Lemma toWireframe_triangle_strip_witness :
  ∃ lines,
    toWireframe (Some quadStrip) = Some (with_indexList quadStrip (Some lines) LINES)
    ∧ arr_to_list lines
      = [Some 0; Some 1; Some 1; Some 2; Some 2; Some 0;
         Some 2; Some 3; Some 3; Some 1; Some 1; Some 2]
    ∧ arr_length lines = 12.
Proof.
  apply (toWireframe_triangle_strip quadStrip (arr_of_list [0; 1; 2; 3])); reflexivity.
Defined.

Lemma toWireframe_triangle_fan_witness :
  ∃ lines,
    toWireframe (Some quadFan) = Some (with_indexList quadFan (Some lines) LINES)
    ∧ arr_to_list lines
      = [Some 0; Some 1; Some 1; Some 2; Some 2; Some 0;
         Some 0; Some 2; Some 2; Some 3; Some 3; Some 0]
    ∧ arr_length lines = 12.
Proof.
  apply (toWireframe_triangle_fan quadFan (arr_of_list [0; 1; 2; 3])); reflexivity.
Defined.

Lemma colouredMesh_names : NoDup (attributes colouredMesh).*1.
Proof. apply (bool_decide_unpack _). by vm_compute. Qed.

Lemma createAttributeIndices_position_witness :
  createAttributeIndices (Some colouredMesh) !! "color"%string = Some 1
  ↔ 0 ≤ 1 ∧ (attributes colouredMesh).*1 !! Z.to_nat 1 = Some "color"%string.
Proof.
  apply (createAttributeIndices_position colouredMesh "color" 1), colouredMesh_names.
Defined.


Lemma mapAttributeIndices_createAttributeIndices_witness :
  mapAttributeIndices (Some (createAttributeIndices (Some colouredMesh)))
                      (Some [("color"%string, 4); ("position"%string, 9)]) !! 4
    = Some (Some 1).
Proof.
  apply (mapAttributeIndices_createAttributeIndices colouredMesh
           [("color"%string, 4); ("position"%string, 9)] "color" 4 1).
  - apply colouredMesh_names.
  - apply (bool_decide_unpack _). by vm_compute.
  - apply list_elem_of_here.
  - reflexivity.
Defined.

Lemma twoTriangles_mergeable :
  ∀ instance, instance ∈ [firstTriangle; secondTriangle] →
    is_Some (indexList (geometry instance))
    ∧ all_have_values (attributes (geometry instance)).
Proof.
  intros instance Hin. apply elem_of_cons in Hin as [->|Hin];
    [|apply list_elem_of_singleton in Hin as ->];
    (split; [by eexists|]); repeat constructor; by eexists.
Qed.

Lemma twoTriangles_same_matrix :
  ∀ instance, instance ∈ [secondTriangle] →
    Matrix4_equals (modelMatrix instance) (modelMatrix firstTriangle) = true.
Proof. intros instance Hin. by apply list_elem_of_singleton in Hin as ->. Qed.

Lemma combine_attribute_values_witness :
  ∃ merged,
    combine (Some [firstTriangle; secondTriangle]) = Ok merged
    ∧ (∀ name attribute,
         attr_lookup name (attributes (geometry firstTriangle)) = Some attribute →
         inAllGeometries name attribute [secondTriangle] →
         ∃ buffer,
           attr_lookup name (attributes merged) = Some (with_values attribute (Some buffer))
           ∧ arr_to_list buffer
             = (λ v, Some (typedArrayStore (componentDatatype attribute) v))
                 <$> mergedValues name [firstTriangle; secondTriangle])
    ∧ (∀ name, is_Some (attr_lookup name (attributes merged)) →
         ∃ attribute,
           attr_lookup name (attributes (geometry firstTriangle)) = Some attribute
           ∧ inAllGeometries name attribute [secondTriangle]).
Proof.
  apply (combine_attribute_values firstTriangle [secondTriangle]).
  - discriminate.
  - apply (bool_decide_unpack _). by vm_compute.
  - apply twoTriangles_same_matrix.
  - apply twoTriangles_mergeable.
Defined.

(** The two triangles merged: the positions of both in order, and the
    indices of the second offset by the three vertices of the first. *)
Lemma combine_twoTriangles :
  ∃ merged position buffer indices,
    combine (Some [firstTriangle; secondTriangle]) = Ok merged
    ∧ (attributes merged).*1 = ["position"%string]
    ∧ attr_lookup "position" (attributes merged) = Some position
    ∧ values position = Some buffer
    ∧ arr_to_list buffer
      = Some <$> [0; 0; 0;  1; 0; 0;  0; 1; 0;  5; 0; 0;  6; 0; 0;  5; 1; 0]
    ∧ indexList merged = Some indices
    ∧ arr_to_list indices = Some <$> [0; 1; 2; 5; 4; 3].
Proof. by vm_compute; eexists _, _, _, _. Qed.


Lemma combine_boundingSphere_witness :
  ∃ merged,
    combine (Some [firstTriangle; secondTriangle]) = Ok merged
    ∧ (boundingSphere merged = None
       ↔ ∃ instance, instance ∈ [firstTriangle; secondTriangle]
                     ∧ boundingSphere (geometry instance) = None)
    ∧ (∀ spheres,
         (λ instance, boundingSphere (geometry instance)) <$> [firstTriangle; secondTriangle]
           = Some <$> spheres →
         boundingSphere merged = unionOfSpheres spheres)
    ∧ primitiveType merged = primitiveType (geometry firstTriangle).
Proof.
  destruct combine_twoTriangles as (merged & _ & _ & _ & Hcombine & _).
  exists merged. split; [done|].
  apply (combine_boundingSphere firstTriangle [secondTriangle] merged); [discriminate | done].
Defined.

Lemma reorderForPostVertexCache_maximumIndex_witness :
  ∃ maximumIndex,
    reorderForPostVertexCache (Some shuffledMesh) (Some 24)
      = (reordered ← Tipsify_tipsify (arr_of_list [2; 0; 1; 1; 0; 2]) maximumIndex (Some 24);
         Ok (Some {| attributes := attributes shuffledMesh;
                     indexList := Some reordered;
                     primitiveType := primitiveType shuffledMesh;
                     boundingSphere := boundingSphere shuffledMesh |}))
    ∧ 0 ≤ maximumIndex
    ∧ (∀ p v, 0 ≤ p < arr_length (arr_of_list [2; 0; 1; 1; 0; 2]) →
         arr_get (arr_of_list [2; 0; 1; 1; 0; 2]) p = Some v → v ≤ maximumIndex)
    ∧ (maximumIndex = 0
       ∨ ∃ p, 0 ≤ p < arr_length (arr_of_list [2; 0; 1; 1; 0; 2])
              ∧ arr_get (arr_of_list [2; 0; 1; 1; 0; 2]) p = Some maximumIndex).
Proof.
  apply (reorderForPostVertexCache_maximumIndex shuffledMesh
           (arr_of_list [2; 0; 1; 1; 0; 2]) (Some 24)).
  reflexivity.
Defined.

Lemma encodeAttribute_encodes_witness :
  ∃ mesh' highAttribute lowAttribute highValues lowValues,
    encodeAttribute (Some wideMesh) None None None = Ok mesh'
    ∧ attr_lookup "position" (attributes mesh') = None
    ∧ attr_lookup "positionHigh" (attributes mesh') = Some highAttribute
    ∧ attr_lookup "positionLow" (attributes mesh') = Some lowAttribute
    ∧ componentDatatype highAttribute = FLOAT
    ∧ componentDatatype lowAttribute = FLOAT
    ∧ componentsPerAttribute highAttribute = 1
    ∧ componentsPerAttribute lowAttribute = 1
    ∧ values highAttribute = Some highValues
    ∧ values lowAttribute = Some lowValues
    ∧ arr_length highValues = 3
    ∧ arr_length lowValues = 3
    ∧ (∀ i, 0 ≤ i < 3 →
         arr_get highValues i = Some (default 0 (wideValues !! Z.to_nat i) `div` 65536 * 65536)
         ∧ arr_get lowValues i = Some (default 0 (wideValues !! Z.to_nat i) `mod` 65536))
    ∧ (∀ other, other ≠ "position"%string → other ≠ "positionHigh"%string →
         other ≠ "positionLow"%string →
         attr_lookup other (attributes mesh') = attr_lookup other (attributes wideMesh))
    ∧ indexList mesh' = indexList wideMesh
    ∧ primitiveType mesh' = primitiveType wideMesh
    ∧ boundingSphere mesh' = boundingSphere wideMesh.
Proof.
  refine (encodeAttribute_encodes wideMesh None None None
            (sampleAttribute 1 wideValues) (arr_of_list wideValues)
            (λ i, default 0 (wideValues !! Z.to_nat i) `div` 65536 * 65536)
            (λ i, default 0 (wideValues !! Z.to_nat i) `mod` 65536) _ _ _ _ _ _ _);
    try done.
  intros i Hi. change (arr_length (arr_of_list wideValues)) with 3 in Hi.
  assert (i = 0 ∨ i = 1 ∨ i = 2) as [->|[->| ->]] by lia; reflexivity.
Defined.

Lemma encodeAttribute_returns_only_if_witness :
  ∃ mesh',
    encodeAttribute (Some wideMesh) (Some "position"%string) (Some "position"%string) None
      = Ok mesh'
    ∧ attr_lookup (defaultValue (Some "position"%string) "position") (attributes mesh') = None
    ∧ ∃ original attribute elements,
        Some wideMesh = Some original
        ∧ attr_lookup (defaultValue (Some "position"%string) "position") (attributes original)
          = Some attribute
        ∧ componentDatatype attribute = FLOAT
        ∧ values attribute = Some elements
        ∧ ∀ i, 0 ≤ i < arr_length elements →
            ∃ encoded, EncodedCartesian3_encode (arr_get elements i) = Ok encoded.
Proof.
  eexists. split; [by vm_compute|].
  apply (encodeAttribute_returns_only_if (Some wideMesh) (Some "position"%string)
           (Some "position"%string) None).
  by vm_compute.
Defined.

Lemma texturedTriangle_st : hasVectorAttribute texturedTriangle "st" 2.
Proof. eexists _, _. by repeat split. Qed.

Lemma computeTangentAndBinormal_writes_witness :
  ∃ geometry' tangent binormal tangentValues binormalValues,
    computeTangentAndBinormal (Some texturedTriangle) = Ok geometry'
    ∧ attr_lookup "tangent" (attributes geometry') = Some tangent
    ∧ attr_lookup "binormal" (attributes geometry') = Some binormal
    ∧ values tangent = Some tangentValues
    ∧ values binormal = Some binormalValues
    ∧ arr_length tangentValues = 9
    ∧ arr_length binormalValues = 9
    ∧ (∀ v, 0 ≤ v < 9 `div` 3 →
         let n := Cartesian3_fromArray (arr_of_list [0; 0; 1;  0; 0; 1;  0; 0; 1]) (v * 3) in
         let t := {| x := arr_get tangentValues (v * 3);
                     y := arr_get tangentValues (v * 3 + 1);
                     z := arr_get tangentValues (v * 3 + 2) |} in
         let b := Cartesian3_normalize (Cartesian3_cross n t) in
         arr_get binormalValues (v * 3) = x b
         ∧ arr_get binormalValues (v * 3 + 1) = y b
         ∧ arr_get binormalValues (v * 3 + 2) = z b)
    ∧ (∀ a, attr_lookup "tangent" (attributes texturedTriangle) = Some a →
         tangent = with_values a (Some tangentValues))
    ∧ (∀ a, attr_lookup "binormal" (attributes texturedTriangle) = Some a →
         binormal = with_values a (Some binormalValues))
    ∧ (attr_lookup "tangent" (attributes texturedTriangle) = None →
         componentDatatype tangent = FLOAT ∧ componentsPerAttribute tangent = 3)
    ∧ (attr_lookup "binormal" (attributes texturedTriangle) = None →
         componentDatatype binormal = FLOAT ∧ componentsPerAttribute binormal = 3)
    ∧ (∀ name, name ≠ "tangent"%string → name ≠ "binormal"%string →
         attr_lookup name (attributes geometry')
           = attr_lookup name (attributes texturedTriangle))
    ∧ indexList geometry' = indexList texturedTriangle
    ∧ primitiveType geometry' = primitiveType texturedTriangle
    ∧ boundingSphere geometry' = boundingSphere texturedTriangle.
Proof.
  apply (computeTangentAndBinormal_writes texturedTriangle
           (sampleAttribute 3 [0; 0; 0;  1; 0; 0;  0; 1; 0])
           (arr_of_list [0; 0; 0;  1; 0; 0;  0; 1; 0])
           (sampleAttribute 3 [0; 0; 1;  0; 0; 1;  0; 0; 1])
           (arr_of_list [0; 0; 1;  0; 0; 1;  0; 0; 1])
           (arr_of_list [0; 1; 2]));
    try reflexivity; try apply texturedTriangle_st; by vm_compute.
Defined.

(** The tangent of the textured triangle is (1,0,0) and its binormal
    (0,1,0) at every vertex. *)
Lemma computeTangentAndBinormal_texturedTriangle :
  ∃ geometry' tangent binormal tangentValues binormalValues,
    computeTangentAndBinormal (Some texturedTriangle) = Ok geometry'
    ∧ attr_lookup "tangent" (attributes geometry') = Some tangent
    ∧ attr_lookup "binormal" (attributes geometry') = Some binormal
    ∧ values tangent = Some tangentValues
    ∧ values binormal = Some binormalValues
    ∧ arr_to_list tangentValues = Some <$> [1; 0; 0;  1; 0; 0;  1; 0; 0]
    ∧ arr_to_list binormalValues = Some <$> [0; 1; 0;  0; 1; 0;  0; 1; 0].
Proof. by vm_compute; eexists _, _, _, _, _. Qed.

Lemma sample_fromArray_reads : @fromArray_reads ZTypes ZOps.
Proof. intros a i. reflexivity. Qed.

Lemma translatedInstance_values : all_have_values (attributes (geometry translatedInstance)).
Proof. repeat constructor. by eexists. Qed.

Lemma litTriangle_values : all_have_values (attributes litTriangle).
Proof. repeat constructor; by eexists. Qed.

Lemma transformToWorldCoordinates_position_witness :
  ∃ instance' vs',
    transformToWorldCoordinates (Some translatedInstance) = Ok (instance', Some instance')
    ∧ attr_lookup "position" (attributes (geometry instance'))
      = Some (with_values (sampleAttribute 3 [0; 0; 0;  1; 0; 0;  0; 1; 0]) (Some vs'))
    ∧ arr_length vs' = 9
    ∧ ∀ k, 0 ≤ 3 * k < 9 →
        vectorAt vs' k
        = Matrix4_multiplyByPoint (modelMatrix translatedInstance)
            (vectorAt (arr_of_list [0; 0; 0;  1; 0; 0;  0; 1; 0]) k).
Proof.
  refine (transformToWorldCoordinates_position translatedInstance
            (sampleAttribute 3 [0; 0; 0;  1; 0; 0;  0; 1; 0])
            (arr_of_list [0; 0; 0;  1; 0; 0;  0; 1; 0]) _ _ _ _ _ _ _).
  - apply sample_fromArray_reads.
  - reflexivity.
  - apply translatedInstance_values.
  - left. by repeat split.
  - reflexivity.
  - reflexivity.
  - reflexivity.
Defined.

Lemma transformToWorldCoordinates_inverse_throws_witness :
  transformToWorldCoordinates (Some scaledInstance)
    = Throw (RuntimeError "matrix is not invertible in the integer implementation")
  ↔ Matrix4_inverse (modelMatrix scaledInstance)
    = Throw (RuntimeError "matrix is not invertible in the integer implementation").
Proof.
  apply (transformToWorldCoordinates_inverse_throws scaledInstance).
  - reflexivity.
  - apply litTriangle_values.
  - exists "normal"%string. split; [apply list_elem_of_here | by eexists].
Defined.

Section WithTranslations.
#[local] Existing Instance ZTranslationOps.

Lemma translation_fromArray_reads : @fromArray_reads ZTypes ZTranslationOps.
Proof. intros a i. reflexivity. Qed.

Lemma transformToWorldCoordinates_normal_witness :
  ∃ instance' vs',
    transformToWorldCoordinates (Some litInstance) = Ok (instance', Some instance')
    ∧ attr_lookup "normal" (attributes (geometry instance'))
      = Some (with_values (sampleAttribute 3 [0; 0; 1;  0; 0; 1;  0; 0; 1]) (Some vs'))
    ∧ arr_length vs' = 9
    ∧ ∀ k, 0 ≤ 3 * k < 9 →
        vectorAt vs' k
        = Matrix3_multiplyByVector
            (Matrix4_getRotation
               (Matrix4_transpose [1; 0; 0; 0;  0; 1; 0; 0;  0; 0; 1; 0;  -5; 0; 0; 1]))
            (vectorAt (arr_of_list [0; 0; 1;  0; 0; 1;  0; 0; 1]) k).
Proof.
  refine (transformToWorldCoordinates_normal litInstance
            [1; 0; 0; 0;  0; 1; 0; 0;  0; 0; 1; 0;  -5; 0; 0; 1] "normal"
            (sampleAttribute 3 [0; 0; 1;  0; 0; 1;  0; 0; 1])
            (arr_of_list [0; 0; 1;  0; 0; 1;  0; 0; 1]) _ _ _ _ _ _ _ _).
  - apply translation_fromArray_reads.
  - reflexivity.
  - apply litTriangle_values.
  - reflexivity.
  - apply list_elem_of_here.
  - reflexivity.
  - reflexivity.
  - reflexivity.
Defined.

Lemma transformToWorldCoordinates_frame_witness :
  ∃ instance',
    transformToWorldCoordinates (Some litInstance) = Ok (instance', Some instance')
    ∧ modelMatrix instance' = Matrix4_clone Matrix4_IDENTITY
    ∧ (attributes (geometry instance')).*1 = (attributes (geometry litInstance)).*1
    ∧ (∀ name, name ∉ ["position"; "normal"; "binormal"; "tangent"]%string →
         attr_lookup name (attributes (geometry instance'))
           = attr_lookup name (attributes (geometry litInstance)))
    ∧ indexList (geometry instance') = indexList (geometry litInstance)
    ∧ primitiveType (geometry instance') = primitiveType (geometry litInstance)
    ∧ boundingSphere (geometry instance')
      = (λ bs, {| center := Cartesian3_fromCartesian4
                              (Matrix4_multiplyByPoint (modelMatrix litInstance) (center bs));
                  radius := radius bs |})
          <$> boundingSphere (geometry litInstance).
Proof.
  apply (transformToWorldCoordinates_frame litInstance).
  - reflexivity.
  - apply litTriangle_values.
  - right. by eexists.
Defined.

(** The lit triangle moved by (5, 0, 0): positions and the centre of the
    sphere move, the normals and the radius stay. *)
Lemma transformToWorldCoordinates_litInstance :
  ∃ instance' position normal positions normals,
    transformToWorldCoordinates (Some litInstance) = Ok (instance', Some instance')
    ∧ attr_lookup "position" (attributes (geometry instance')) = Some position
    ∧ values position = Some positions
    ∧ arr_to_list positions = Some <$> [5; 0; 0;  6; 0; 0;  5; 1; 0]
    ∧ attr_lookup "normal" (attributes (geometry instance')) = Some normal
    ∧ values normal = Some normals
    ∧ arr_to_list normals = Some <$> [0; 0; 1;  0; 0; 1;  0; 0; 1]
    ∧ boundingSphere (geometry instance')
      = Some {| center := zvec 5 0 0; radius := Some 1 |}.
Proof. by vm_compute; eexists _, _, _, _, _. Qed.

End WithTranslations.



(** Of the four vertices the two used ones are kept, in the order of
    their first use. *)
Lemma reorderForPreVertexCache_sparseMesh :
  ∃ mesh' indices' position elementsOut,
    reorderForPreVertexCache (Some sparseMesh) = Ok (Some mesh')
    ∧ indexList mesh' = Some indices'
    ∧ arr_to_list indices' = Some <$> [0; 1; 0]
    ∧ attr_lookup "position" (attributes mesh') = Some position
    ∧ values position = Some elementsOut
    ∧ arr_to_list elementsOut = Some <$> [40; 20].
Proof. by vm_compute; eexists _, _, _, _. Qed.

Lemma foldedMesh_indices_below :
  indices_below (arr_length (arr_of_list foldedPositions) `div` 3)
                (arr_of_list [0; 1; 2; 0; 3; 1]).
Proof.
  intros p Hp. change (arr_length (arr_of_list [0; 1; 2; 0; 3; 1])) with 6 in Hp.
  change (arr_length (arr_of_list foldedPositions) `div` 3) with 4.
  assert (p = 0 ∨ p = 1 ∨ p = 2 ∨ p = 3 ∨ p = 4 ∨ p = 5) as [->|[->|[->|[->|[->| ->]]]]]
    by lia;
    [exists 0 | exists 1 | exists 2 | exists 0 | exists 3 | exists 1];
    (split; [reflexivity | lia]).
Qed.

Lemma computeNormal_vertex_normal_witness :
  ∃ mesh' normal normalValues,
    computeNormal (Some foldedMesh) = Ok mesh'
    ∧ attr_lookup "normal" (attributes mesh') = Some normal
    ∧ values normal = Some normalValues
    ∧ ∀ p v, 0 ≤ p < arr_length (arr_of_list [0; 1; 2; 0; 3; 1]) →
        arr_get (arr_of_list [0; 1; 2; 0; 3; 1]) p = Some v →
        vectorAt normalValues v
          = vertexNormal (arr_of_list foldedPositions) (arr_of_list [0; 1; 2; 0; 3; 1]) v.
Proof.
  apply (computeNormal_vertex_normal foldedMesh (sampleAttribute 3 foldedPositions)
           (arr_of_list foldedPositions) (arr_of_list [0; 1; 2; 0; 3; 1])).
  - reflexivity.
  - reflexivity.
  - reflexivity.
  - reflexivity.
  - reflexivity.
  - reflexivity.
  - reflexivity.
  - change (arr_length (arr_of_list [0; 1; 2; 0; 3; 1])) with 6. lia.
  - apply foldedMesh_indices_below.
  - intros a Ha. discriminate Ha.
Defined.

(** The normals computed for the folded mesh: the two vertices of the
    shared edge get the sum of both face normals, (0,0,1) and (0,1,0). *)
Lemma computeNormal_foldedMesh :
  (arr_to_list <$> ((returned (computeNormal (Some foldedMesh))
                       ≫= (λ m, attr_lookup "normal" (attributes m))) ≫= values))
    = Some (Some <$> [0; 1; 1;  0; 1; 1;  0; 0; 1;  0; 1; 0])
  ∧ vertexNormal (arr_of_list foldedPositions) (arr_of_list [0; 1; 2; 0; 3; 1]) 0
    = {| x := Some 0; y := Some 1; z := Some 1 |}.
Proof. by vm_compute. Qed.

Lemma computeNormal_index_out_of_range_witness :
  computeNormal (Some strayIndexMesh) = Throw TypeError.
Proof.
  apply (computeNormal_index_out_of_range strayIndexMesh (arr_of_list [0; 1; 3]) 2).
  - eexists _, _. repeat split.
  - reflexivity.
  - reflexivity.
  - reflexivity.
  - change (arr_length (arr_of_list [0; 1; 3])) with 3. lia.
  - change (arr_length (arr_of_list [0; 1; 3])) with 3. lia.
  - intros position vertices u [= <-] [= <-] Hu.
    change (arr_get (arr_of_list [0; 1; 3]) 2) with (Some 3) in Hu. injection Hu as <-.
    change (arr_length (arr_of_list [0; 0; 0; 1; 0; 0; 0; 1; 0]) `div` 3) with 3. lia.
Defined.

Lemma computeNormal_frame_witness :
  ∃ mesh',
    computeNormal (Some foldedMesh) = Ok mesh'
    ∧ indexList mesh' = indexList foldedMesh
    ∧ primitiveType mesh' = primitiveType foldedMesh
    ∧ boundingSphere mesh' = boundingSphere foldedMesh
    ∧ (∀ name, name ≠ "normal" →
         attr_lookup name (attributes mesh') = attr_lookup name (attributes foldedMesh))
    ∧ (∀ a, attr_lookup "normal" (attributes foldedMesh) = Some a →
         ∃ elements,
           attr_lookup "normal" (attributes mesh') = Some (with_values a elements)).
Proof.
  destruct (computeNormal (Some foldedMesh)) as [mesh'|e] eqn:Hrun;
    [|vm_compute in Hrun; discriminate Hrun].
  exists mesh'. split; [reflexivity|].
  apply (computeNormal_frame foldedMesh mesh' Hrun).
Defined.

Lemma largeMesh_vertex_count : computeNumberOfVertices largeMesh = Ok 65537.
Proof.
  unfold computeNumberOfVertices, largeMesh, sampleMesh. cbn [attributes foldM].
  unfold vertexCountStep, sampleAttribute. cbn [snd values componentsPerAttribute].
  cbn [mbind result_bind]. unfold arr_length, arr_of_list. cbn [arr_len].
  rewrite length_replicate, Z_nat_N. reflexivity.
Qed.

Lemma fitToUnsignedShortIndices_vertices_witness :
  ∃ chunks,
    fitChunks (Some largeMesh) = Ok chunks
    ∧ fitToUnsignedShortIndices (Some largeMesh) = Ok chunks.*1
    ∧ Forall (chunk_vertices (attributes largeMesh)) chunks.
Proof.
  apply (fitToUnsignedShortIndices_vertices largeMesh (arr_of_list [0; 1; 2]) 65537).
  - apply NoDup_singleton.
  - reflexivity.
  - reflexivity.
  - reflexivity.
  - apply largeMesh_vertex_count.
  - lia.
Defined.

Lemma fitToUnsignedShortIndices_indices_fit_witness :
  ∃ geometries,
    fitToUnsignedShortIndices (Some largeMesh) = Ok geometries
    ∧ Forall chunk_indices_fit geometries.
Proof.
  apply (fitToUnsignedShortIndices_indices_fit largeMesh (arr_of_list [0; 1; 2]) 65537).
  - apply NoDup_singleton.
  - reflexivity.
  - reflexivity.
  - reflexivity.
  - apply largeMesh_vertex_count.
  - lia.
Defined.

Lemma computeTangentAndBinormal_tangent_witness :
  ∃ geometry' tangent tangentValues tan1,
    computeTangentAndBinormal (Some texturedTriangle) = Ok geometry'
    ∧ attr_lookup "tangent" (attributes geometry') = Some tangent
    ∧ values tangent = Some tangentValues
    ∧ ∀ v, 0 ≤ v < arr_length (arr_of_list [0; 0; 0;  1; 0; 0;  0; 1; 0]) `div` 3 →
        vectorAt tangentValues v
          = tangentOf (arr_of_list [0; 0; 1;  0; 0; 1;  0; 0; 1]) tan1 v
        ∧ ∀ c, 0 ≤ c < 3 →
            arr_get tan1 (v * 3 + c)
              = addedDirections (arr_of_list [0; 0; 0;  1; 0; 0;  0; 1; 0])
                  (arr_of_list [0; 0;  1; 0;  0; 1]) (arr_of_list [0; 1; 2]) (Some 0)
                  (usesOf (arr_of_list [0; 1; 2]) v (arr_length (arr_of_list [0; 1; 2]))) c.
Proof.
  apply (computeTangentAndBinormal_tangent texturedTriangle
           (sampleAttribute 3 [0; 0; 0;  1; 0; 0;  0; 1; 0])
           (arr_of_list [0; 0; 0;  1; 0; 0;  0; 1; 0])
           (sampleAttribute 3 [0; 0; 1;  0; 0; 1;  0; 0; 1])
           (arr_of_list [0; 0; 1;  0; 0; 1;  0; 0; 1])
           (sampleAttribute 2 [0; 0;  1; 0;  0; 1])
           (arr_of_list [0; 0;  1; 0;  0; 1])
           (arr_of_list [0; 1; 2]));
    try reflexivity; by vm_compute.
Defined.

(** The direction of the textured triangle is (1, 0, 0), the direction
    in which the first texture coordinate grows. *)
Lemma triangleDirection_texturedTriangle :
  (λ c, triangleDirection (arr_of_list [0; 0; 0;  1; 0; 0;  0; 1; 0])
          (arr_of_list [0; 0;  1; 0;  0; 1]) (arr_of_list [0; 1; 2]) 0 c) <$> [0; 1; 2]
    = [1; 0; 0].
Proof. by vm_compute. Qed.

Lemma texturedTriangle_indices_below :
  indices_below (arr_length (arr_of_list [0; 0; 0;  1; 0; 0;  0; 1; 0]) `div` 3)
                (arr_of_list [0; 1; 2]).
Proof.
  intros p Hp. change (arr_length (arr_of_list [0; 1; 2])) with 3 in Hp.
  change (arr_length (arr_of_list [0; 0; 0;  1; 0; 0;  0; 1; 0]) `div` 3) with 3.
  assert (p = 0 ∨ p = 1 ∨ p = 2) as [->|[->| ->]] by lia;
    [exists 0 | exists 1 | exists 2]; (split; [reflexivity | lia]).
Qed.

Lemma computeNormal_then_computeTangentAndBinormal_witness :
  ∃ mesh' geometry',
    computeNormal (Some texturedTriangle) = Ok mesh'
    ∧ hasVectorAttribute mesh' "normal" 3
    ∧ computeTangentAndBinormal (Some mesh') = Ok geometry'.
Proof.
  apply (computeNormal_then_computeTangentAndBinormal texturedTriangle
           (sampleAttribute 3 [0; 0; 0;  1; 0; 0;  0; 1; 0])
           (arr_of_list [0; 0; 0;  1; 0; 0;  0; 1; 0])
           (arr_of_list [0; 1; 2])).
  - reflexivity.
  - reflexivity.
  - reflexivity.
  - reflexivity.
  - reflexivity.
  - reflexivity.
  - reflexivity.
  - change (arr_length (arr_of_list [0; 1; 2])) with 3. lia.
  - apply texturedTriangle_indices_below.
  - intros a [= <-]. split; [reflexivity|]. eexists. split; reflexivity.
  - apply texturedTriangle_st.
Defined.

End SampleRuns.
